(* ===== verification/_CoqProject ===== *)
-Q . S2P
Prelude.v
Ioctl.v
Portal.v
SGListMMU.v
DmaConfigProxy.v
SendFd.v
PortalMem.v
Directory.v
Poller.v
DmaManager.v
Timer.v
BsimSocket.v
BsimRelay.v
BsimDma.v
TlpReplay.v
PciePortal.v
ZynqPortal.v
MorrisPratt.v
Gralloc.v
XbsvUtil.v
Hdmi.v
Ring.v
RingInv.v
RingOps.v
RingClient.v
RingMain.v
Dumppacket.v
Lcs.v
Hirschberg.v
MaxCommonSubseq.v
DotProd.v
MatrixTN.v
PortalMat.v
TestMm.v
Rules.v
MPEngine.v
Strstr.v
TestStrstr.v
MemEngines.v
Bench.v
Memcpy.v
Memwrite.v
Memrw.v
Memread.v
Display.v
ImageCapture.v
