(* ===== verification/Prelude.v ===== *)
(** * xbsv: the software side of a hardware/software portal framework

    xbsv connects C and C++ programs to hardware written in Bluespec.  Every
    hardware interface is a _portal_: a 64 KB register window with request FIFOs,
    indication FIFOs and control registers.  User programs reach the windows
    through device drivers (PCIe or Zynq) or, in simulation, through a socket to
    the simulator; large data go through shared memory, which a kernel driver
    allocates and whose physical segments are programmed into an
    address-translation unit of the hardware.  This development models that
    software, with the hardware it talks to as reference where a property is about
    both sides, and proves what makes it correct.

    ** Parts, files and their sources (all under src/)

    - Prelude: machine integers with their wrap-around, the outcome monad [M]
      (state passing with exit, failed assertion, undefined behaviour and
      exhausted fuel as values) and its weakest preconditions [wp], shared lemmas
      and automation.
    - Ioctl: the encoding of ioctl command numbers.
    - Portal (cpp/portal.h): [PortalInternal], the register layout, and the class
      [Bus] of register accesses, with the memory-mapped instance.
    - SGListMMU (bsv/SGList.bsv): the address-translation unit.
    - DmaConfigProxy (generated/cpp, bsv/MemPortal.bsv, bsv/MemServer.bsv): the
      generated proxy for that unit, and the hardware front end that receives it.
    - SendFd (cpp/dmaSendFd.h): programming a buffer's segments, on the kernel side
      and for the simulator.
    - PortalMem (drivers/portalmem): allocation of shared buffers, their views
      (mmap, vma access, CPU access) and the ioctls, over a class of kernel
      services.
    - Directory (cpp/portal.c, bsv/Directory.bsv): discovery of portals, set-up of
      their windows, cycle counter, clocks, tracing, cache maintenance.
    - Poller (cpp/poller.cpp, cpp/poller.h): registration and the event loop.
    - DmaManager (cpp/dmaManager.c, dmaManager.h, StdDmaIndication.h): references
      to shared memory and the semaphores of their confirmations.
    - Timer (cpp/timer.c): interval statistics.
    - BsimSocket (cpp/sock_utils.c, BsimCtrl.cxx, bsv/BsimTop.bsv): the simulator
      link, both ends and the message queues, as an instance of [Bus].
    - BsimRelay (cpp/sock_utils.c, bsim_relay.c): the mailbox between kernel code
      and the simulator, as a step relation of two threads.
    - BsimDma (cpp/BsimDma.cxx): shared memory of the simulated hardware, keyed by
      the file behind a descriptor.
    - TlpReplay (cpp/TlpReplay.cxx) and XbsvUtil (pcie/xbsvutil): recorded PCIe
      packets, dumped by one and replayed by the other, with the trace memory and
      registers of bsv/PcieCsr.bsv.
    - PciePortal (drivers/pcieportal) and ZynqPortal (drivers/zynqportal): the two
      device drivers, over classes of kernel services, with the resources they
      hold; the interrupt handshake with the event loop.
    - MorrisPratt (lib/cpp/mp.h): string matching.
    - Gralloc (gralloc): graphics buffers, screen modes and the vertical-sync
      handshake, a step relation over a mutex and a condition variable.
    - Hdmi (lib/cpp/edid.h, i2chdmi.h): display identification and transmitter.
    - Ring (examples/ring, lib/bsv/RingBuffer.bsv): a program that drives an engine
      through a command ring and a status ring, with the engine's rules as steps
      that an arbitrary schedule interleaves with it.  RingInv has the service the
      rings implement and the invariant of the protocol, RingOps the operations,
      RingClient the commands, RingMain start-up and the whole program.
    - Dumppacket (pcie/dumppacket.c): annotation of recorded packets.
    - Lcs (theory of longest common subsequences), Hirschberg (the engines of
      examples/maxcommonsubseq and the stack of lib/bsv/StackReg.bsv, the
      divide-and-conquer engine as a state machine), MaxCommonSubseq (its request
      unit and the program that drives it).
    - DotProd (address generators and dot-product servers of examples/matmul/bsv),
      MatrixTN (the matrix accelerator built from them), PortalMat (the matrix class
      of examples/matmul/cpp with its allocator), TestMm (testmm.cpp).
    - Rules: machines made of rules, and programs that wait for them.
    - MPEngine (lib/bsv/MPEngine.bsv): a pipelined search engine, rule by rule, over a
      class [MemPath] of paths to memory (the simulator's, and the one of
      bsv/MemSlaveEngine.bsv, which drops the low address bits);
      Strstr (examples/strstr/Strstr.bsv): two of them behind a portal; TestStrstr
      (teststrstr.cpp): the program that compares them with MorrisPratt.
    - MemEngines (lib/bsv/MemreadEngine.bsv, MemwriteEngine.bsv): the engines that
      stream memory; Bench: a program, its event thread and a device in any
      interleaving; Memcpy, Memwrite, Memrw, Memread (lib/cpp/testmemcpy.h, testmemwrite.h,
      testmemrw.h, testmemread.h and the examples of these names): the memory tests with their devices.
    - Display (examples/hdmidisplay, lib/bsv/HDMI.bsv, HdmiDisplay.bsv): the video generator, the
      transfer of frames and the program with its two buffers; ImageCapture
      (examples/imageon): the program that brings up the camera.

    Operations are translated one by one, each with a comment that names its
    source lines; what another component or the environment provides is a class
    ([Bus], [MMIO], [Kernel], [OS], [Pci], [Zynq], [GrOs], [I2c], [DmaRefs],
    [OpenCV], [Camera] with the laws [Vita]), and theorems are proved for every instance or for the hardware
    models; [DmaRefs] is what matrices need of the DMA manager, which is an instance.

    ** What is proved

    - Address translation: after a buffer has been handed to the hardware, every
      offset translates to the physical address of its segment; other objects keep
      their translation; the hardware, mmap and the CPU see the same memory; any
      number of references up to the unit's 32 objects.
    - Shared buffers: allocation succeeds, fails or leaks exactly as stated for any
      answers of the kernel, and returns where the kernel gives what it promises;
      mappings cover what they should.
    - Discovery, windows and the untorn cycle counter.
    - Events: one round of dispatch terminates and delivers every message; the
      interrupt handshake of driver, hardware and event loop loses none, messages
      arriving at any of its steps; the handler's life cycle in the Zynq driver, for
      any kernel, and without undefined behaviour where its calls succeed.
    - Simulation: the socket link refines the plain bus; the kernel mailbox is
      linearizable and cannot get stuck; objects of the simulated hardware share
      memory exactly when their descriptors are of one file.
    - The rings refine a service of outstanding commands for every schedule of the
      hardware; commands return with their results; the whole program ends without
      an error for every schedule in which each rule gets its turn, if the polling
      thread of start-up has ended when the engines are turned on.
    - The PCIe driver: probing either puts a board in service or gives up the
      resources listed; removal gives back all but the coherent memory of mapped
      portals; device nodes lead to their portal.
    - Round trips: a dump of the circular trace memory through driver, utility and
      replay; display timings; handles in client processes.
    - Algorithms: Morris-Pratt tables and matcher, as the program calls them, against
      a naive search that resumes behind each occurrence; the
      accelerator for common subsequences computes a longest one, and the program
      prints it; buffer geometry, packet fields, timer statistics.
    - Matrices: the accelerator, with its tiles, interleaving and adder lanes,
      computes the matrix product, into the memory of the result matrix; matrices
      made by the class have the elements they should; what the test program's exit
      status says.
    - String search: for every schedule of its rules the accelerator ends and
      reports as many hits as the matcher in software finds in all but the last
      character, where its halves begin at addresses the path to memory can reach;
      when the test program succeeds in the simulator, and that it fails on a board.
    - Memory tests: the engines serve their commands beat by beat and in order; for
      every interleaving the devices copy or write what they should before they
      report, and the programs end with the verdict that is right; the read test finds too many
      mismatches on every run, and how many.
    - Display and camera: for every interleaving of clock, transfer and threads each
      frame is one whole picture; the registers of the image sensor, wherever its
      set-up ends.
    - Defects: where the code does not do what it means to, the behaviour it has is
      stated (unregistering, confirmations, exhausted memory, shift tables and
      others).

    ** Loops and fuel

    Loops over lists are structural.  A loop with another exit has a fuel argument,
    and a theorem that it returns shows which fuel is enough: the words waiting for
    the event loop, the number of pages for allocation, queued messages for the
    simulator link, the needle's and haystack's lengths for matching, a measure of
    the work under way in the rings (below 400001 for the whole program), seven
    steps per character of the first string for the divide-and-conquer engine
    and its stack, one step per transfer for the matrix accelerator's generators, a
    potential that every rule of the search engines and of the memory tests lowers.  Running out of
    fuel is an outcome of its own, which [wp] excludes.

    ** Not modelled

    Printing (except where the printed values are the result), construction of
    threads and sockets, module registration tables, the generated code other than
    the DmaConfig proxy and its generators (scripts/), and the example
    programs other than examples/ring, maxcommonsubseq, matmul, strstr, memcpy, memwrite,
    memrw, memread, hdmidisplay and imageon.  Of the rings, copies between overlapping ranges, whose
    result the hardware leaves open, and the moment at which hwenable takes effect.
    Of the request path, full pipes in front of the DMA configuration (a word is taken
    before the next one is stored), the DmaError sent for a bad pointer, and the one-place FIFO
    for the data of a write in the simulator.  A function that lacks its return statement
    is read as returning to a caller that does not use the value.  Of the subsequence engines, the
    pipelining of transfers between engine and memory (a transfer is one step, and
    each engine receives the answers to its own requests), for strings shorter
    than their 14-bit indices allow.  Of the matrix multiplication, the MATRIX_NT
    build, a result that is one of the factors, and the timing of the floating-point
    units (their operations are parameters; products and sums arrive in order).  Of
    the string search, the bounds of the queues between engines and memory.
    Of the memory engines, bursts that do not divide their command (the engines reserve
    a whole burst for the rest), several servers, and the steps within a load of a command.
    Of the display, the synchronizers between clock domains, the colour conversion and a memory that
    does not keep up with the pixel clock; of the camera, the sensor and the receiver.
    Candidates for extension: further examples. *)
From stdpp Require Import base list gmap numbers strings.
Local Open Scope Z_scope.

(** Lengths and indices are used as integers without an explicit injection. *)
Coercion Z.of_nat : nat >-> Z.

(** ** Machine integers

    A C integer of width [w] is a [Z]; conversion to an unsigned type is
    reduction modulo [2^w], conversion to a signed type the two's complement
    reading of that residue. *)
Definition u8 (x : Z) : Z := x mod 2 ^ 8.
Definition u16 (x : Z) : Z := x mod 2 ^ 16.
Definition u32 (x : Z) : Z := x mod 2 ^ 32.
Definition u64 (x : Z) : Z := x mod 2 ^ 64.
Definition s32 (x : Z) : Z := (x + 2 ^ 31) mod 2 ^ 32 - 2 ^ 31.
Definition s64 (x : Z) : Z := (x + 2 ^ 63) mod 2 ^ 64 - 2 ^ 63.

Lemma u8_small x : 0 ≤ x < 2 ^ 8 → u8 x = x.
Proof. apply Z.mod_small. Qed.
Lemma u32_small x : 0 ≤ x < 2 ^ 32 → u32 x = x.
Proof. apply Z.mod_small. Qed.
Lemma u64_small x : 0 ≤ x < 2 ^ 64 → u64 x = x.
Proof. apply Z.mod_small. Qed.
Lemma u8_range x : 0 ≤ u8 x < 2 ^ 8.
Proof. apply Z.mod_pos_bound. lia. Qed.
Lemma u32_range x : 0 ≤ u32 x < 2 ^ 32.
Proof. apply Z.mod_pos_bound. lia. Qed.
Lemma u64_range x : 0 ≤ u64 x < 2 ^ 64.
Proof. apply Z.mod_pos_bound. lia. Qed.
Lemma s32_small x : - 2 ^ 31 ≤ x < 2 ^ 31 → s32 x = x.
Proof. intros. unfold s32. rewrite Z.mod_small; lia. Qed.
Lemma s64_small x : - 2 ^ 63 ≤ x < 2 ^ 63 → s64 x = x.
Proof. intros. unfold s64. rewrite Z.mod_small; lia. Qed.

(** [lia] with the defining equations of division and remainder. *)
Ltac div_lia := Z.div_mod_to_equations; lia.

Create HintDb mach.
Create Rewrite HintDb mach.
#[export] Hint Resolve u8_range u32_range u64_range : mach.
#[export] Hint Rewrite u8_small u32_small u64_small s32_small s64_small
  using lia : mach.

(** Shifts and masks by a constant are division and remainder. *)
Lemma shiftr_div x n : 0 ≤ n → Z.shiftr x n = x / 2 ^ n.
Proof. apply Z.shiftr_div_pow2. Qed.
Lemma shiftl_mul x n : 0 ≤ n → Z.shiftl x n = x * 2 ^ n.
Proof. apply Z.shiftl_mul_pow2. Qed.
Lemma land_low_mod x n : 0 ≤ n → Z.land x (2 ^ n - 1) = x mod 2 ^ n.
Proof. intros. rewrite <-Z.land_ones, Z.ones_equiv by done. done. Qed.

Lemma div_lt_iff x c n : 0 < c → x / c < n ↔ x < c * n.
Proof.
  intros. split; [|by apply Z.div_lt_upper_bound].
  intros. pose proof (Z.div_mod x c). pose proof (Z.mod_pos_bound x c). nia.
Qed.

(** Truncating twice is truncating to the smaller width. *)
Lemma mod_mod_pow2 x m n : 0 ≤ n ≤ m → x mod 2 ^ m mod 2 ^ n = x mod 2 ^ n.
Proof.
  intros. rewrite Z.mod_mod_divide; [done|]. exists (2 ^ (m - n)).
  rewrite <-Z.pow_add_r by lia. f_equal. lia.
Qed.

(** Disjoint bit fields: [(hi << n) | lo] is [hi * 2^n + lo]. *)
Lemma land_shiftl_low hi lo n :
  0 ≤ n → 0 ≤ lo < 2 ^ n → Z.land (Z.shiftl hi n) lo = 0.
Proof.
  intros Hn Hlo. apply Z.bits_inj'. intros i Hi. rewrite Z.land_spec, Z.bits_0.
  destruct (decide (i < n)); [by rewrite Z.shiftl_spec_low|].
  rewrite <-(Z.mod_small lo (2 ^ n)) by lia.
  rewrite Z.mod_pow2_bits_high by lia. apply andb_false_r.
Qed.
Lemma lor_shiftl_add hi lo n :
  0 ≤ n → 0 ≤ lo < 2 ^ n → Z.lor (Z.shiftl hi n) lo = hi * 2 ^ n + lo.
Proof.
  intros Hn Hlo.
  rewrite <-Z.lxor_lor, <-Z.add_nocarry_lxor by by apply land_shiftl_low.
  by rewrite Z.shiftl_mul_pow2.
Qed.

(** Setting or clearing the low [n] bits. *)
Lemma ldiff_ones x n : 0 ≤ n → Z.ldiff x (2 ^ n - 1) = x / 2 ^ n * 2 ^ n.
Proof.
  intros. replace (2 ^ n - 1) with (Z.ones n) by (rewrite Z.ones_equiv; lia).
  by rewrite Z.ldiff_ones_r, shiftl_mul, shiftr_div.
Qed.
Lemma lor_ones x n : 0 ≤ n → Z.lor x (2 ^ n - 1) = x / 2 ^ n * 2 ^ n + (2 ^ n - 1).
Proof.
  intros Hn. rewrite <-lor_shiftl_add by (pose proof (Z.pow_pos_nonneg 2 n); lia).
  replace (2 ^ n - 1) with (Z.ones n) by (rewrite Z.ones_equiv; lia).
  rewrite <-shiftr_div by done. apply Z.bits_inj'. intros i Hi. rewrite !Z.lor_spec.
  destruct (decide (i < n)).
  - by rewrite Z.ones_spec_low, !orb_true_r by lia.
  - rewrite Z.ones_spec_high, !orb_false_r by lia.
    rewrite Z.shiftl_spec, Z.shiftr_spec by lia. f_equal. lia.
Qed.

(** A 64-bit value and the two 32-bit words it is sent as. *)
Definition hi32 (x : Z) : Z := Z.shiftr x 32.
Definition join64 (hi lo : Z) : Z := Z.lor (Z.shiftl hi 32) lo.

Lemma join64_split x : 0 ≤ x < 2 ^ 64 → join64 (u32 (hi32 x)) (u32 x) = x.
Proof.
  intros Hx. unfold join64, hi32. rewrite shiftr_div by lia.
  assert (0 ≤ x / 2 ^ 32 < 2 ^ 32) by
    (split; [apply Z.div_pos|apply Z.div_lt_upper_bound]; lia).
  rewrite (u32_small (x / 2 ^ 32)) by done.
  rewrite lor_shiftl_add by (try lia; apply u32_range).
  unfold u32. rewrite (Z.div_mod x (2 ^ 32)) at 3 by lia. lia.
Qed.

(** ** Effectful C code

    A C function run in an environment of type [S] ends in one of these ways.
    [Exited c] is a call of [exit(c)], [Aborted] a failed [assert] or [BUG_ON],
    [Undefined] an access the C standard gives no meaning to (a null function
    pointer, an index outside an array, a read of unmapped memory), and
    [OutOfFuel] a loop that was cut off by its iteration budget.  The state is
    returned on every outcome, so the effects before an exit are visible. *)
Inductive outcome (A : Type) :=
  | Done (a : A)
  | Exited (code : Z)
  | Aborted
  | Undefined
  | OutOfFuel.
Arguments Done {A} a.
Arguments Exited {A} code.
Arguments Aborted {A}.
Arguments Undefined {A}.
Arguments OutOfFuel {A}.

Definition M (S A : Type) : Type := S → outcome A * S.

#[export] Instance M_ret S : MRet (M S) := λ A a s, (Done a, s).
#[export] Instance M_bind S : MBind (M S) := λ A B f m s,
  match m s with
  | (Done a, s') => f a s'
  | (Exited c, s') => (Exited c, s')
  | (Aborted, s') => (Aborted, s')
  | (Undefined, s') => (Undefined, s')
  | (OutOfFuel, s') => (OutOfFuel, s')
  end.

Definition get {S} : M S S := λ s, (Done s, s).
Definition gets {S A} (f : S → A) : M S A := λ s, (Done (f s), s).
Definition put {S} (s : S) : M S () := λ _, (Done tt, s).
Definition modify {S} (f : S → S) : M S () := λ s, (Done tt, f s).
Definition exit {S A} (code : Z) : M S A := λ s, (Exited code, s).
Definition undefined {S A} : M S A := λ s, (Undefined, s).
Definition no_fuel {S A} : M S A := λ s, (OutOfFuel, s).
Definition assert {S} (b : bool) : M S () :=
  λ s, (if b then Done tt else Aborted, s).
Definition when {S} (b : bool) (m : M S ()) : M S () :=
  if b then m else mret tt.

(** Running a computation on one half of a larger state. *)
Definition on_fst {S T A} (m : M S A) : M (S * T) A :=
  λ st, let '(r, s') := m st.1 in (r, (s', st.2)).
Definition on_snd {S T A} (m : M T A) : M (S * T) A :=
  λ st, let '(r, t') := m st.2 in (r, (st.1, t')).

(** Stepping through a computation that is known to return. *)
Lemma bind_Done {S A B} (m : M S A) (f : A → M S B) s a s' :
  m s = (Done a, s') → (m ≫= f) s = f a s'.
Proof. intros H. unfold mbind, M_bind. by rewrite H. Qed.
Lemma bind_inv {S A B} (m : M S A) (f : A → M S B) s b s'' :
  (m ≫= f) s = (Done b, s'') →
  ∃ a s', m s = (Done a, s') ∧ f a s' = (Done b, s'').
Proof.
  unfold mbind, M_bind. destruct (m s) as [[a| | | |] s']; naive_solver.
Qed.
Lemma bind_ret_l {S A B} (a : A) (f : A → M S B) s : (mret a ≫= f) s = f a s.
Proof. done. Qed.

(** [for] over a list: the body runs once per element, in order. *)
Fixpoint for_each {S A} (l : list A) (f : A → M S ()) : M S () :=
  match l with
  | [] => mret tt
  | a :: l => f a;; for_each l f
  end.

Lemma for_each_app {S A} (l k : list A) (f : A → M S ()) s :
  for_each (l ++ k) f s = (for_each l f;; for_each k f) s.
Proof.
  revert s; induction l as [|a l IH]; intros s; [done|]. simpl.
  unfold mbind, M_bind in *. destruct (f a s) as [[?| | | |] s']; done.
Qed.

(** A body that is a pure update makes the loop a left fold. *)
Lemma for_each_pure {S A} (l : list A) (f : A → M S ()) (g : A → S → S) s :
  (∀ a s, a ∈ l → f a s = (Done tt, g a s)) →
  for_each l f s = (Done tt, foldl (λ s a, g a s) s l).
Proof.
  revert s; induction l as [|a l IH]; intros s H; [done|]. simpl.
  rewrite (bind_Done _ _ _ tt (g a s)) by (apply H; left).
  apply IH. intros. apply H. by right.
Qed.

(** *** Weakest preconditions

    [wp ub m Q s]: started in [s], the computation [m] returns normally in a
    state satisfying [Q], or, when [ub] holds, it runs into undefined behaviour.
    [wp False] is total correctness; neither form allows an exit, a failed
    assertion or exhausted fuel. *)
Definition wp {S A} (ub : Prop) (m : M S A) (Q : A → S → Prop) (s : S) : Prop :=
  match m s with
  | (Done a, s') => Q a s'
  | (Undefined, _) => ub
  | _ => False
  end.

Section Wp.
Context {S : Type} (ub : Prop).

Lemma wp_bind {A B} (m : M S A) (f : A → M S B) Q s :
  wp ub m (λ a, wp ub (f a) Q) s → wp ub (m ≫= f) Q s.
Proof. unfold wp, mbind, M_bind. by destruct (m s) as [[?| | | |] s']. Qed.
Lemma wp_ret {A} (a : A) (Q : A → S → Prop) s : Q a s → wp ub (mret a) Q s.
Proof. done. Qed.
Lemma wp_modify (f : S → S) Q s : Q tt (f s) → wp ub (modify f) Q s.
Proof. done. Qed.
Lemma wp_gets {A} (f : S → A) Q s : Q (f s) s → wp ub (gets f) Q s.
Proof. done. Qed.
Lemma wp_get (Q : S → S → Prop) s : Q s s → wp ub get Q s.
Proof. done. Qed.
Lemma wp_put s' (Q : () → S → Prop) s : Q tt s' → wp ub (put s') Q s.
Proof. done. Qed.
Lemma wp_undefined {A} (Q : A → S → Prop) s : ub → wp ub undefined Q s.
Proof. done. Qed.
Lemma wp_mono {A} (m : M S A) (Q Q' : A → S → Prop) s :
  wp ub m Q s → (∀ a s', Q a s' → Q' a s') → wp ub m Q' s.
Proof. unfold wp. destruct (m s) as [[?| | | |] s']; auto. Qed.
Lemma wp_eq {A} (m : M S A) (Q : A → S → Prop) s a s' :
  m s = (Done a, s') → Q a s' → wp ub m Q s.
Proof. unfold wp. by intros ->. Qed.
Lemma wp_for_each {A} (l : list A) (f : A → M S ()) (I : nat → S → Prop) s :
  I O s →
  (∀ i a s, l !! i = Some a → I i s → wp ub (f a) (λ _ s', I (Datatypes.S i) s') s) →
  wp ub (for_each l f) (λ _ s', I (length l) s') s.
Proof.
  revert I s; induction l as [|a l IH]; intros I s H0 Hs; [done|].
  apply wp_bind. eapply wp_mono; [by apply (Hs O)|]. intros [] s' H1.
  apply (IH (λ i, I (Datatypes.S i))); [done|]. intros i b s'' Hi.
  by apply (Hs (Datatypes.S i)).
Qed.
End Wp.

(** [wpf nf m Q s]: as [wp], but instead of undefined behaviour it is exhausted
    fuel that is allowed, when [nf] holds.  One proof of [wpf nf] under an
    assumption [nf ∨ F] gives partial correctness ([nf] true) and, where [F] holds,
    total correctness. *)
Definition wpf {S A} (nf : Prop) (m : M S A) (Q : A → S → Prop) (s : S) : Prop :=
  match m s with
  | (Done a, s') => Q a s'
  | (OutOfFuel, _) => nf
  | _ => False
  end.

Section Wpf.
Context {S : Type} (nf : Prop).

Lemma wpf_bind {A B} (m : M S A) (f : A → M S B) Q s :
  wpf nf m (λ a, wpf nf (f a) Q) s → wpf nf (m ≫= f) Q s.
Proof. unfold wpf, mbind, M_bind. by destruct (m s) as [[?| | | |] s']. Qed.
Lemma wpf_unbind {A B} (m : M S A) (f : A → M S B) Q s :
  wpf nf (m ≫= f) Q s → wpf nf m (λ a, wpf nf (f a) Q) s.
Proof. unfold wpf, mbind, M_bind. by destruct (m s) as [[?| | | |] s']. Qed.
Lemma wpf_assoc {A B C} (m : M S A) (f : A → M S B) (k : B → M S C) Q s :
  wpf nf ((m ≫= f) ≫= k) Q s → wpf nf (m ≫= (λ a, f a ≫= k)) Q s.
Proof. unfold wpf, mbind, M_bind. by destruct (m s) as [[?| | | |] s']. Qed.
Lemma wpf_ret {A} (a : A) (Q : A → S → Prop) s : Q a s → wpf nf (mret a) Q s.
Proof. done. Qed.
Lemma wpf_modify (f : S → S) Q s : Q tt (f s) → wpf nf (modify f) Q s.
Proof. done. Qed.
Lemma wpf_gets {A} (f : S → A) Q s : Q (f s) s → wpf nf (gets f) Q s.
Proof. done. Qed.
Lemma wpf_get (Q : S → S → Prop) s : Q s s → wpf nf get Q s.
Proof. done. Qed.
Lemma wpf_assert b (Q : () → S → Prop) s : b = true → Q tt s → wpf nf (assert b) Q s.
Proof. by intros ->. Qed.
Lemma wpf_mono {A} (m : M S A) (Q Q' : A → S → Prop) s :
  wpf nf m Q s → (∀ a s', Q a s' → Q' a s') → wpf nf m Q' s.
Proof. unfold wpf. destruct (m s) as [[?| | | |] s']; auto. Qed.
Lemma wpf_eq {A} (m : M S A) (Q : A → S → Prop) s a s' :
  m s = (Done a, s') → Q a s' → wpf nf m Q s.
Proof. unfold wpf. by intros ->. Qed.
Lemma wpf_for_each {A} (l : list A) (f : A → M S ()) (I : nat → S → Prop) s :
  I O s →
  (∀ i a s, l !! i = Some a → I i s → wpf nf (f a) (λ _ s', I (Datatypes.S i) s') s) →
  wpf nf (for_each l f) (λ _ s', I (length l) s') s.
Proof.
  revert I s; induction l as [|a l IH]; intros I s H0 Hs; [done|].
  apply wpf_bind. eapply wpf_mono; [by apply (Hs O)|]. intros [] s' H1.
  apply (IH (λ i, I (Datatypes.S i))); [done|]. intros i b s'' Hi.
  by apply (Hs (Datatypes.S i)).
Qed.
End Wpf.

(** Step through binds and primitive operations. *)
Ltac wp_step :=
  cbv beta;
  lazymatch goal with
  | |- wp _ (mbind _ _) _ _ => apply wp_bind
  | |- wp _ (mret _) _ _ => apply wp_ret
  | |- wp _ (modify _) _ _ => apply wp_modify
  | |- wp _ (gets _) _ _ => apply wp_gets
  | |- wp _ get _ _ => apply wp_get
  | |- wp _ (put _) _ _ => apply wp_put
  | |- wp _ undefined _ _ => apply wp_undefined
  end.
Ltac wp_steps := repeat wp_step; cbv beta.

Ltac wpf_step :=
  cbv beta;
  lazymatch goal with
  | |- wpf _ (mbind _ _) _ _ => apply wpf_bind
  | |- wpf _ (mret _) _ _ => apply wpf_ret
  | |- wpf _ (modify _) _ _ => apply wpf_modify
  | |- wpf _ (gets _) _ _ => apply wpf_gets
  | |- wpf _ get _ _ => apply wpf_get
  end.
Ltac wpf_steps := repeat wpf_step; cbv beta.

(** ** Error codes (asm-generic/errno-base.h, errno.h) *)
Definition EPERM : Z := 1.
Definition ENXIO : Z := 6.
Definition EIO : Z := 5.
Definition EAGAIN : Z := 11.
Definition ENOMEM : Z := 12.
Definition EFAULT : Z := 14.
Definition EBUSY : Z := 16.
Definition ENODEV : Z := 19.
Definition EINVAL : Z := 22.
Definition ENOTTY : Z := 25.

(** ** Lists *)
Definition zsum (l : list Z) : Z := foldr Z.add 0 l.
Lemma zsum_app l k : zsum (l ++ k) = zsum l + zsum k.
Proof. induction l; simpl; lia. Qed.
Lemma zsum_nonneg l : Forall (λ x, 0 ≤ x) l → 0 ≤ zsum l.
Proof. induction 1; simpl; lia. Qed.
