(* ===== verification/Ioctl.v ===== *)
(** * ioctl command numbers (asm-generic/ioctl.h)

    The encoding the drivers' command macros use and the fields the drivers
    take apart again: 2 bits of direction, 14 of size, 8 of type, 8 of number. *)
From stdpp Require Import base numbers.
From S2P Require Import Prelude.
Local Open Scope Z_scope.

Definition IOC_WRITE : Z := 1.
Definition IOC_READ : Z := 2.
Definition IOC (dir type nr size : Z) : Z :=
  Z.lor (Z.shiftl (Z.lor (Z.shiftl (Z.lor (Z.shiftl dir 14) size) 8) type) 8) nr.
Definition IOR (type nr size : Z) : Z := IOC IOC_READ type nr size.
Definition IOWR (type nr size : Z) : Z := IOC (Z.lor IOC_READ IOC_WRITE) type nr size.

Definition IOC_NR (cmd : Z) : Z := Z.land cmd 0xff.
Definition IOC_TYPE (cmd : Z) : Z := Z.land (Z.shiftr cmd 8) 0xff.
Definition IOC_SIZE (cmd : Z) : Z := Z.land (Z.shiftr cmd 16) 0x3fff.
Definition IOC_DIR (cmd : Z) : Z := Z.land (Z.shiftr cmd 30) 3.

Lemma IOC_value dir type nr size :
  0 ≤ type < 2 ^ 8 → 0 ≤ nr < 2 ^ 8 → 0 ≤ size < 2 ^ 14 →
  IOC dir type nr size = ((dir * 2 ^ 14 + size) * 2 ^ 8 + type) * 2 ^ 8 + nr.
Proof. intros. unfold IOC. by rewrite !lor_shiftl_add by lia. Qed.

(** Decoding inverts encoding. *)
Lemma IOC_decode dir type nr size :
  0 ≤ dir < 2 ^ 2 → 0 ≤ type < 2 ^ 8 → 0 ≤ nr < 2 ^ 8 → 0 ≤ size < 2 ^ 14 →
  let cmd := IOC dir type nr size in
  IOC_DIR cmd = dir ∧ IOC_TYPE cmd = type ∧ IOC_NR cmd = nr ∧ IOC_SIZE cmd = size.
Proof.
  intros ? ? ? ? cmd. unfold cmd, IOC_DIR, IOC_TYPE, IOC_NR, IOC_SIZE.
  rewrite IOC_value, !shiftr_div by lia.
  change 0xff with (2 ^ 8 - 1). change 0x3fff with (2 ^ 14 - 1). change 3 with (2 ^ 2 - 1).
  rewrite !land_low_mod by lia. split_and!; div_lia.
Qed.
