(* ===== verification/Portal.v ===== *)
(** * Portals and their registers (src/cpp/portal.h)

    The [PortalInternal] descriptor every proxy and wrapper holds, the layout of
    a portal's register window, and the [Bus] interface through which all the
    software reads and writes those registers.  The READL and WRITEL macros have
    two expansions in the source: a plain memory access on real hardware
    ([mapped_bus] here) and a request over the simulator socket (the [Bus]
    instance of BsimSocket.v). *)
From stdpp Require Import base list gmap numbers strings.
From S2P Require Import Prelude.
Local Open Scope Z_scope.

(** [cpp/portal.h:51-58] PortalInternal.  Pointers are byte addresses, 0 being
    NULL; a function pointer is the name of the function it points to. *)
Record PortalInternal := mkPortalInternal {
  poller : Z;
  fpga_fd : Z;
  fpga_number : Z;
  map_base : Z;
  parent : Z;
  handler : option string;
}.

(** [cpp/portal.h:26-26] PORTAL_BASE_OFFSET *)
Definition PORTAL_BASE_OFFSET : Z := Z.shiftl 1 16.

(** [cpp/portal.h:29-29] PORTAL_REQ_FIFO: word index of the FIFO of method [A] *)
Definition PORTAL_REQ_FIFO (A : Z) : Z := (Z.shiftl 0 14 + A * 256 + 256) / 4.

(** [cpp/portal.h:30-30] PORTAL_IND_FIFO *)
Definition PORTAL_IND_FIFO (A : Z) : Z := (Z.shiftl 0 14 + A * 256 + 256) / 4.

(** [cpp/portal.h:31-31] PORTAL_IND_REG_OFFSET_32 *)
Definition PORTAL_IND_REG_OFFSET_32 : Z := Z.shiftl 0 14 / 4.

(** [cpp/portal.h:32-35] IND_REG_INTERRUPT_FLAG .. IND_REG_QUEUE_STATUS *)
Definition IND_REG_INTERRUPT_FLAG : Z := PORTAL_IND_REG_OFFSET_32 + 0.
Definition IND_REG_INTERRUPT_MASK : Z := PORTAL_IND_REG_OFFSET_32 + 1.
Definition IND_REG_INTERRUPT_COUNT : Z := PORTAL_IND_REG_OFFSET_32 + 2.
Definition IND_REG_QUEUE_STATUS : Z := PORTAL_IND_REG_OFFSET_32 + 6.

(** The address [&p->map_base[i]]: [map_base] points to 32-bit words. *)
Definition reg_addr (p : PortalInternal) (i : Z) : Z := map_base p + 4 * i.

(** ** The register bus *)
Class Bus (D : Type) := {
  READL : PortalInternal → Z → M D Z;
  WRITEL : PortalInternal → Z → Z → M D ();
}.

(** A memory-mapped device: what a 32-bit load and store do to it. *)
Class MMIO (D : Type) := {
  mmio_read : Z → D → Z * D;
  mmio_write : Z → Z → D → D;
}.

(** [cpp/portal.h:125-127] READL/WRITEL on hardware: a volatile access.  The
    stored value is converted to the [unsigned int] the pointer points to. *)
#[export] Instance mapped_bus {D} `{MMIO D} : Bus D := {
  READL _ A d := let '(v, d') := mmio_read A d in (Done (u32 v), d');
  WRITEL _ A B d := (Done tt, mmio_write A (u32 B) d);
}.

(** The register windows of the methods of one portal are disjoint, and disjoint
    from the control registers: FIFO [A] occupies bytes [256*(A+1) .. +255]. *)
Lemma PORTAL_REQ_FIFO_bytes A : 4 * PORTAL_REQ_FIFO A = 256 * (A + 1).
Proof.
  unfold PORTAL_REQ_FIFO. change (Z.shiftl 0 14) with 0.
  replace (0 + A * 256 + 256) with (64 * (A + 1) * 4) by lia.
  rewrite Z.div_mul by lia. lia.
Qed.
