(* ===== verification/SGListMMU.v ===== *)
(** * The address-translation hardware (src/bsv/SGList.bsv)

    The DMA engine addresses a shared buffer by (object, offset); mkSGListMMU
    translates such a pair to a physical address using the page table and the
    three region registers that software programs through DmaConfig.  The
    pipeline stages of the BSV source are composed into one function; the BRAMs
    are finite maps, so that a read of a location software never wrote is
    visible as [None]. *)
From stdpp Require Import base list gmap numbers.
From S2P Require Import Prelude.
Local Open Scope Z_scope.

(** [bsv/SGList.bsv:59-62] Region *)
Record Region := mkRegion { barrier : Z; idxOffset : Z }.

(** [bsv/SGList.bsv:77-96] mkSGListMMU: the BRAMs reg8, reg4, reg0 and pages *)
Record SGListMMU := mkSGListMMU {
  reg8 : gmap Z Region;
  reg4 : gmap Z Region;
  reg0 : gmap Z Region;
  pages : gmap Z Z;
}.

Definition mmu_empty : SGListMMU := mkSGListMMU ∅ ∅ ∅ ∅.

(** [unpack] of the 36-bit argument: a 28-bit barrier over an 8-bit index. *)
Definition unpack_region (barr : Z) : Region :=
  let b := barr mod 2 ^ 36 in mkRegion (b / 2 ^ 8) (b mod 2 ^ 8).

(** [bsv/SGList.bsv:239-248] region *)
Definition mmu_region (ptr barr8 barr4 barr0 : Z) (m : SGListMMU) : SGListMMU :=
  mkSGListMMU (<[ptr mod 32 := unpack_region barr8]> (reg8 m))
              (<[ptr mod 32 := unpack_region barr4]> (reg4 m))
              (<[ptr mod 32 := unpack_region barr0]> (reg0 m))
              (pages m).

(** [bsv/SGList.bsv:250-253] sglist: the page BRAM has a 13-bit index (5 bits of
    object, 8 bits of entry) and holds 28-bit page numbers. *)
Definition mmu_sglist (ptr paddr : Z) (m : SGListMMU) : SGListMMU :=
  mkSGListMMU (reg8 m) (reg4 m) (reg0 m)
              (<[ptr mod 2 ^ 13 := paddr mod 2 ^ 40 mod 2 ^ 28]> (pages m)).

(** [bsv/SGList.bsv:133-150] stage2: the three region comparisons *)
Definition mmu_conds (r8 r4 r0 : Region) (off : Z) : bool * bool * bool :=
  let offp := (off / 2 ^ 12) mod 2 ^ 28 in
  let off4 := (off / 2 ^ 16) mod 2 ^ 24 in
  let off8 := (off / 2 ^ 20) mod 2 ^ 24 in
  (bool_decide (off8 < barrier r8 mod 2 ^ 24),
   bool_decide (off4 < barrier r4 mod 2 ^ 24),
   bool_decide (offp < barrier r0)).

(** [bsv/SGList.bsv:151-182] stage3: page size, page base and index offset;
    page size 0 stands for a bad translation. *)
Definition mmu_select (r8 r4 r0 : Region) (off : Z) : Z * Z * Z :=
  match mmu_conds r8 r4 r0 off with
  | (true, _, _) => (3, (off / 2 ^ 20) mod 2 ^ 8, idxOffset r8)
  | (_, true, _) => (2, (off / 2 ^ 16) mod 2 ^ 8, idxOffset r4)
  | (_, _, true) => (1, (off / 2 ^ 12) mod 2 ^ 8, idxOffset r0)
  | _ => (0, 0, 0)
  end.

(** [bsv/SGList.bsv:199-212] stage5: page number and low offset bits *)
Definition mmu_paddr (pageSize page off : Z) : option Z :=
  if bool_decide (pageSize = 1) then Some (page * 2 ^ 12 + off mod 2 ^ 12)
  else if bool_decide (pageSize = 2)
    then Some (page mod 2 ^ 24 * 2 ^ 16 + off mod 2 ^ 16)
  else if bool_decide (pageSize = 3)
    then Some (page mod 2 ^ 20 * 2 ^ 20 + off mod 2 ^ 20)
  else None.

(** [bsv/SGList.bsv:118-213] addr server: the five stages.  [None] is a
    DmaErrorBadAddrTrans or a read of an unprogrammed table entry. *)
Definition mmu_translate (m : SGListMMU) (ptr off : Z) : option Z :=
  r8 ← reg8 m !! ptr; r4 ← reg4 m !! ptr; r0 ← reg0 m !! ptr;
  let '(pageSize, pbase, idx) := mmu_select r8 r4 r0 off in
  page ← pages m !! (ptr * 2 ^ 8 + (pbase + idx) mod 2 ^ 8);
  mmu_paddr pageSize page (off mod 2 ^ 20).
