(* ===== verification/DmaConfigProxy.v ===== *)
(** * The DmaConfig request proxy (src/generated/cpp/DmaConfigProxy.c)

    The proxy marshals each DmaConfig method into 32-bit words written to the
    method's request FIFO.  [DmaHw] is the receiving hardware: the FIFO front
    end of src/bsv/MemPortal.bsv, which reassembles the words, and the DmaConfig
    methods of src/bsv/MemServer.bsv on top of the MMU. *)
From stdpp Require Import base list gmap numbers strings.
From S2P Require Import Prelude Portal SGListMMU.
Local Open Scope Z_scope.

(** [generated/cpp/GeneratedTypes.h:8-8] ChannelType *)
Inductive ChannelType := ChannelType_Read | ChannelType_Write.
#[export] Instance ChannelType_eq_dec : EqDecision ChannelType.
Proof. solve_decision. Defined.
Definition ChannelType_to_Z (rc : ChannelType) : Z :=
  match rc with ChannelType_Read => 0 | ChannelType_Write => 1 end.

(** [generated/cpp/GeneratedTypes.h:9-14] DmaDbgRec *)
Record DmaDbgRec := mkDmaDbgRec { dbg_x : Z; dbg_y : Z; dbg_z : Z; dbg_w : Z }.

(** [generated/cpp/GeneratedTypes.h:17-17] CHAN_NUM_DmaConfigProxy_* *)
Definition CHAN_NUM_DmaConfigProxy_sglist : Z := 0.
Definition CHAN_NUM_DmaConfigProxy_region : Z := 1.
Definition CHAN_NUM_DmaConfigProxy_addrRequest : Z := 2.
Definition CHAN_NUM_DmaConfigProxy_getStateDbg : Z := 3.
Definition CHAN_NUM_DmaConfigProxy_getMemoryTraffic : Z := 4.
Definition CHAN_NUM_DmaConfigProxy_putFailed : Z := 5.

Section Proxy.
Context {D : Type} `{Bus D}.

(** [generated/cpp/DmaConfigProxy.c:48-50] the busy wait on 'fifo not full':
    [i--] is compared before it is decremented, so the register is read at most
    [i + 1] times. *)
Fixpoint wait_not_full (p : PortalInternal) (a : Z) (i : nat) : M D () :=
  r ← READL p (a + 4);
  if bool_decide (r = 0) then
    match i with O => mret tt | S i' => wait_not_full p a i' end
  else mret tt.

(** The address [&(p->map_base[PORTAL_REQ_FIFO(chan)])]. *)
Definition req_fifo (p : PortalInternal) (chan : Z) : Z :=
  reg_addr p (PORTAL_REQ_FIFO chan).

(** The WRITEL sequence of a request method: the busy wait, then one store per
    word to the same FIFO address. *)
Definition send_words (p : PortalInternal) (chan : Z) (ws : list Z) : M D () :=
  wait_not_full p (req_fifo p chan) 50;;
  for_each ws (WRITEL p (req_fifo p chan)).

(** [generated/cpp/DmaConfigProxy.c:45-56] DmaConfigProxy_sglist *)
Definition DmaConfigProxy_sglist (p : PortalInternal) (pointer addr len : Z) : M D () :=
  let pointer := u32 pointer in let addr := u64 addr in let len := u32 len in
  send_words p CHAN_NUM_DmaConfigProxy_sglist [pointer; hi32 addr; addr; len].

(** [generated/cpp/DmaConfigProxy.c:58-72] DmaConfigProxy_region *)
Definition DmaConfigProxy_region (p : PortalInternal) (pointer barr8 barr4 barr0 : Z) : M D () :=
  let pointer := u32 pointer in
  let barr8 := u64 barr8 in let barr4 := u64 barr4 in let barr0 := u64 barr0 in
  send_words p CHAN_NUM_DmaConfigProxy_region
    [pointer; hi32 barr8; barr8; hi32 barr4; barr4; hi32 barr0; barr0].

(** [generated/cpp/DmaConfigProxy.c:74-83] DmaConfigProxy_addrRequest *)
Definition DmaConfigProxy_addrRequest (p : PortalInternal) (pointer offset : Z) : M D () :=
  send_words p CHAN_NUM_DmaConfigProxy_addrRequest [u32 pointer; u32 offset].

(** [generated/cpp/DmaConfigProxy.c:85-93] DmaConfigProxy_getStateDbg *)
Definition DmaConfigProxy_getStateDbg (p : PortalInternal) (rc : ChannelType) : M D () :=
  send_words p CHAN_NUM_DmaConfigProxy_getStateDbg [ChannelType_to_Z rc].

(** [generated/cpp/DmaConfigProxy.c:95-103] DmaConfigProxy_getMemoryTraffic *)
Definition DmaConfigProxy_getMemoryTraffic (p : PortalInternal) (rc : ChannelType) : M D () :=
  send_words p CHAN_NUM_DmaConfigProxy_getMemoryTraffic [ChannelType_to_Z rc].

(** [generated/cpp/DmaConfigProxy.c:3-8] DmaConfigProxyputFailed_cb: the text
    printed; indexing [methodNameStrings] outside its five entries is undefined. *)
Definition methodNameStrings : list string :=
  ["sglist"; "region"; "addrRequest"; "getStateDbg"; "getMemoryTraffic"]%string.
Definition DmaConfigProxyputFailed_cb (v : Z) : M D string :=
  match methodNameStrings !! Z.to_nat v with
  | Some s => mret s
  | None => undefined
  end.

(** [generated/cpp/DmaConfigProxy.c:10-20] DmaConfigProxyputFailed_demarshall *)
Definition DmaConfigProxyputFailed_demarshall (p : PortalInternal) : M D string :=
  tmp ← READL p (reg_addr p (PORTAL_IND_FIFO CHAN_NUM_DmaConfigProxy_putFailed));
  let v := u32 (Z.land tmp 0xffffffff) in
  DmaConfigProxyputFailed_cb v.

(** [generated/cpp/DmaConfigProxy.c:22-43] DmaConfigProxy_handleMessage.  The
    first component of the state is the function's static counter [runaway]. *)
Definition DmaConfigProxy_handleMessage (p : PortalInternal) (channel : Z) : M (Z * D) Z :=
  if bool_decide (channel = CHAN_NUM_DmaConfigProxy_putFailed) then
    on_snd (DmaConfigProxyputFailed_demarshall p);; mret 0
  else
    runaway ← gets fst;
    modify (λ st, (s32 (runaway + 1), st.2));;
    if bool_decide (runaway > 10) then exit (-1) else mret 0.
End Proxy.

(** ** The receiving hardware *)
Module DmaHw.

(** A DmaConfig request as the hardware decodes it. *)
Inductive request :=
  | Sglist (pointer addr len : Z)
  | RegionReq (pointer barr8 barr4 barr0 : Z)
  | AddrRequest (pointer offset : Z)
  | GetStateDbg (rc : Z)
  | GetMemoryTraffic (rc : Z).
#[global] Instance request_eq_dec : EqDecision request.
Proof. solve_decision. Defined.

(** The device: base address of the portal window, words received so far on
    each request channel, MMU, and the log of completed requests (latest
    first). *)
Record t := mk { base : Z; acc : gmap Z (list Z); mmu : SGListMMU; log : list request }.

Definition init (base : Z) : t := mk base ∅ mmu_empty [].

(** Reassembly of a message from its 32-bit words, most significant first. *)
Definition decode (chan : Z) (ws : list Z) : option request :=
  match chan, ws with
  | 0, [p; ah; al; l] => Some (Sglist p (join64 ah al) l)
  | 1, [p; h8; l8; h4; l4; h0; l0] =>
      Some (RegionReq p (join64 h8 l8) (join64 h4 l4) (join64 h0 l0))
  | 2, [p; o] => Some (AddrRequest p o)
  | 3, [rc] => Some (GetStateDbg rc)
  | 4, [rc] => Some (GetMemoryTraffic rc)
  | _, _ => None
  end.

(** [bsv/MemServer.bsv:242-254] sglist, region: what they do to the tables.  A
    pointer that bad_pointer rejects is programmed all the same; the DmaError the
    hardware then also sends is not part of this device. *)
Definition apply_request (r : request) (m : SGListMMU) : SGListMMU :=
  match r with
  | Sglist p a _ => mmu_sglist p a m
  | RegionReq p b8 b4 b0 => mmu_region p b8 b4 b0 m
  | _ => m
  end.

Definition chan_of (d : t) (a : Z) : Z := (a - base d) / 256 - 1.

(** [bsv/MemPortal.bsv:149-164] mkPipeInMemSlave: any store in a method's
    window enqueues a word; a message is delivered when its last word arrives.
    The word is enqueued only while the pipe is not full, which it never is: this
    device takes each word before the next store arrives. *)
Definition write (a v : Z) (d : t) : t :=
  let c := chan_of d a in
  let ws := default [] (acc d !! c) ++ [v] in
  match decode c ws with
  | Some r => mk (base d) (delete c (acc d)) (apply_request r (mmu d)) (r :: log d)
  | None => mk (base d) (<[c := ws]> (acc d)) (mmu d) (log d)
  end.

(** [bsv/MemPortal.bsv:137-148] mkPipeInMemSlave: offset 4 reads 'not full',
    which holds because this hardware consumes every word it is sent. *)
Definition read (a : Z) (d : t) : Z * t :=
  ((if bool_decide ((a - base d) mod 256 = 4) then 1 else 0), d).

#[global] Instance mmio : MMIO t := {| mmio_read := read; mmio_write := write |}.

(** Nothing half-received on channel [c], and [p] is the portal of this device. *)
Definition idle (p : PortalInternal) (c : Z) (d : t) : Prop :=
  map_base p = base d ∧ acc d !! c = None.

(** Delivery of a request. *)
Definition deliver (r : request) (d : t) : t :=
  mk (base d) (acc d) (apply_request r (mmu d)) (r :: log d).

(** The DmaIndication messages the hardware sends back. *)
Inductive response :=
  | ConfigResp (ptr : Z)
  | AddrResponse
  | ReportStateDbg
  | ReportMemoryTraffic.

(** [bsv/SGList.bsv:215-219] sendConfigResp, and the other requests that are
    answered; the responses a log of requests has earned, oldest first *)
Fixpoint responses (lg : list request) : list response :=
  match lg with
  | [] => []
  | RegionReq p _ _ _ :: lg => responses lg ++ [ConfigResp (p mod 32)]
  | AddrRequest _ _ :: lg => responses lg ++ [AddrResponse]
  | GetStateDbg _ :: lg => responses lg ++ [ReportStateDbg]
  | GetMemoryTraffic _ :: lg => responses lg ++ [ReportMemoryTraffic]
  | Sglist _ _ _ :: lg => responses lg
  end.

Lemma chan_of_fifo p d c : map_base p = base d → chan_of d (req_fifo p c) = c.
Proof.
  intros E. unfold chan_of, req_fifo, reg_addr.
  rewrite PORTAL_REQ_FIFO_bytes, E.
  replace (base d + 256 * (c + 1) - base d) with ((c + 1) * 256) by lia.
  rewrite Z.div_mul; lia.
Qed.

Lemma wait_hw p c d i : map_base p = base d →
  wait_not_full p (req_fifo p c) i d = (Done tt, d).
Proof.
  intros E.
  assert (read (req_fifo p c + 4) d = (1, d)) as R.
  { unfold read, req_fifo, reg_addr. rewrite PORTAL_REQ_FIFO_bytes, E.
    rewrite bool_decide_true; [done|].
    replace (base d + 256 * (c + 1) + 4 - base d) with (4 + (c + 1) * 256) by lia.
    by rewrite Z.mod_add. }
  assert (READL p (req_fifo p c + 4) d = (Done 1, d)) as R'.
  { change (READL p (req_fifo p c + 4) d) with
      (let '(v, d') := read (req_fifo p c + 4) d in (Done (u32 v), d')).
    by rewrite R. }
  destruct i; simpl; by rewrite (bind_Done _ _ _ _ _ R').
Qed.

(** Words accumulate until the message is complete. *)
Fixpoint feed (c : Z) (have ws : list Z) : option (list Z) :=
  match ws with
  | [] => Some have
  | w :: ws =>
      match decode c (have ++ [u32 w]) with
      | Some _ => None
      | None => feed c (have ++ [u32 w]) ws
      end
  end.

Lemma writes_partial p c d have ws have' :
  map_base p = base d → default [] (acc d !! c) = have → feed c have ws = Some have' →
  ws ≠ [] →
  for_each ws (WRITEL p (req_fifo p c)) d =
    (Done tt, mk (base d) (<[c := have']> (acc d)) (mmu d) (log d)).
Proof.
  revert d have; induction ws as [|w ws IH]; intros d have E Eh F Hne; [done|].
  simpl in F |- *. destruct (decode _ _) eqn:Dec; [done|].
  unfold mbind, M_bind, write; simpl.
  rewrite chan_of_fifo, Eh, Dec by done.
  destruct ws as [|w' ws].
  - simpl in *. by simplify_eq.
  - rewrite (IH _ (have ++ [u32 w])); simpl; try done.
    + by rewrite insert_insert_eq.
    + by rewrite lookup_insert_eq.
Qed.

Lemma send_words_hw p c d ws w have r :
  idle p c d → ws ≠ [] → feed c [] ws = Some have →
  decode c (have ++ [u32 w]) = Some r →
  send_words p c (ws ++ [w]) d = (Done tt, deliver r d).
Proof.
  intros [E A] Hne F Dec. unfold send_words.
  rewrite (bind_Done _ _ _ _ _ (wait_hw p c d 50 E)), for_each_app.
  rewrite (bind_Done _ _ _ _ _ (writes_partial p c d [] ws have E ltac:(by rewrite A) F Hne)).
  simpl. unfold mbind, M_bind, write; simpl.
  unfold chan_of; simpl. pose proof (chan_of_fifo p d c E) as C.
  unfold chan_of in C. rewrite C, lookup_insert_eq. simpl. rewrite Dec. simpl.
  rewrite delete_insert_eq, delete_id by done. by unfold mret, M_ret, deliver.
Qed.

(** A one-word request. *)
Lemma request_sent p c d w r :
  idle p c d → decode c [u32 w] = Some r →
  ∃ d', send_words p c [w] d = (Done tt, d') ∧ log d' = r :: log d.
Proof.
  intros [E A] Dec. unfold send_words.
  rewrite (bind_Done _ _ _ _ _ (wait_hw p c d 50 E)). simpl.
  unfold mbind, M_bind, write; simpl. rewrite chan_of_fifo, A by done. simpl. rewrite Dec.
  by eexists.
Qed.
End DmaHw.

(** The hardware receives exactly the request the proxy was called with. *)
Lemma sglist_delivered p d pointer addr len :
  DmaHw.idle p 0 d →
  DmaConfigProxy_sglist p pointer addr len d =
    (Done tt, DmaHw.deliver (DmaHw.Sglist (u32 pointer) (u64 addr) (u32 len)) d).
Proof.
  intros I. unfold DmaConfigProxy_sglist, CHAN_NUM_DmaConfigProxy_sglist.
  etransitivity; [by eapply (DmaHw.send_words_hw p 0 d [_; _; _])|].
  simpl. rewrite join64_split by auto with mach. unfold u32.
  by rewrite !Z.mod_mod by lia.
Qed.

Lemma region_delivered p d pointer b8 b4 b0 :
  DmaHw.idle p 1 d →
  DmaConfigProxy_region p pointer b8 b4 b0 d =
    (Done tt, DmaHw.deliver (DmaHw.RegionReq (u32 pointer) (u64 b8) (u64 b4) (u64 b0)) d).
Proof.
  intros I. unfold DmaConfigProxy_region, CHAN_NUM_DmaConfigProxy_region.
  etransitivity; [by eapply (DmaHw.send_words_hw p 1 d [_; _; _; _; _; _])|].
  simpl. rewrite !join64_split by auto with mach. unfold u32.
  by rewrite !Z.mod_mod by lia.
Qed.
