(* ===== verification/SendFd.v ===== *)
(** * Handing a buffer to the hardware (src/cpp/dmaSendFd.h)

    [send_fd_to_portal] walks the scatter-gather list of a shared buffer and
    programs the MMU: one page-table entry per segment, a terminating zero
    entry, and the three region barriers.  The source compiles to three
    variants (kernel driver, simulator, user space) that share the per-entry
    code and the epilogue. *)
From stdpp Require Import base list gmap numbers strings sorting.
From S2P Require Import Prelude Portal SGListMMU DmaConfigProxy.
Local Open Scope Z_scope.

(** A segment of a scatter-gather list: physical address and length.
    [drivers/portalmem/portalmem.h:31-34] DmaEntry *)
Record sg_entry := mkSg { sg_addr : Z; sg_len : Z }.
#[export] Instance sg_entry_eq_dec : EqDecision sg_entry.
Proof. solve_decision. Defined.

(** [cpp/dmaSendFd.h:22-25] PAGE_SHIFT0, PAGE_SHIFT4, PAGE_SHIFT8, shifts *)
Definition PAGE_SHIFT0 : Z := 12.
Definition PAGE_SHIFT4 : Z := 16.
Definition PAGE_SHIFT8 : Z := 20.
Definition shifts : list Z := [PAGE_SHIFT8; PAGE_SHIFT4; PAGE_SHIFT0; 0].

(** [cpp/dmaSendFd.h:112-119] send_fd_to_portal: the search for the size class;
    3 when the length is none of the three. *)
Fixpoint size_class (j : nat) (sh : list Z) (len : Z) : nat :=
  match sh with
  | [] => j
  | s :: sh => if bool_decide (len = Z.shiftl 1 s) then j else size_class (S j) sh len
  end.
Definition sg_class (len : Z) : nat := size_class 0 (take 3 shifts) len.

(** [cpp/dmaSendFd.h:138-142] send_fd_to_portal: one turn of the barrier loop.
    [entryCount] is an unsigned char, [border] and [borderVal] are uint64_t. *)
Definition border_step (r sh : Z) (st : Z * Z) : Z * (Z * Z) :=
  let '(entryCount, border) := st in
  let idxOffset := u8 (u64 (entryCount - border)) in
  let entryCount := u8 (entryCount + r) in
  let border := u64 (border + r) in
  (Z.lor (u64 (Z.shiftl border 8)) idxOffset,
   (entryCount, u64 (Z.shiftl border sh))).

(** [cpp/dmaSendFd.h:137-143] send_fd_to_portal: the barrier loop, from the
    segment counts to borderVal[0..2] *)
Definition border_vals (regions : list Z) : list Z :=
  (fix go (i : nat) (rs : list Z) (st : Z * Z) : list Z :=
     match rs with
     | [] => []
     | r :: rs =>
         let '(v, st') := border_step r (nth i shifts 0 - nth (S i) shifts 0) st in
         v :: go (S i) rs st'
     end) O regions (0, 0).

Section SendFd.
Context {D : Type} `{Bus D}.

(** [cpp/dmaSendFd.h:112-124] send_fd_to_portal: the loop body after [addr] and
    [len] have been fetched *)
Definition send_entry (device : PortalInternal) (id i : Z) (e : sg_entry)
    (regions : list Z) : M D (list Z) :=
  let addr := s64 (sg_addr e) in
  let len := s64 (sg_len e) in
  let j := sg_class len in
  if bool_decide (j < 3)%nat then
    DmaConfigProxy_sglist device (Z.shiftl id 8 + i)
      (Z.shiftr addr (nth j shifts 0)) len;;
    mret (alter (λ r, u32 (r + 1)) j regions)
  else
    DmaConfigProxy_sglist device (Z.shiftl id 8 + i) addr len;;
    mret regions.

(** [cpp/dmaSendFd.h:83-125] send_fd_to_portal: the segment loop; returns the
    final [i] and [regions] *)
Fixpoint send_entries (device : PortalInternal) (id i : Z) (sgl : list sg_entry)
    (regions : list Z) : M D (Z * list Z) :=
  match sgl with
  | [] => mret (i, regions)
  | e :: sgl =>
      regions' ← send_entry device id i e regions;
      send_entries device id (i + 1) sgl regions'
  end.

(** [cpp/dmaSendFd.h:132-148] send_fd_to_portal: end-of-list entry and regions *)
Definition send_tail (device : PortalInternal) (id i : Z) (regions : list Z) : M D () :=
  DmaConfigProxy_sglist device (Z.shiftl id 8 + i) 0 0;;
  match border_vals regions with
  | [b8; b4; b0] => DmaConfigProxy_region device id b8 b4 b0
  | _ => undefined
  end.

(** [cpp/dmaSendFd.h:45-151] send_fd_to_portal, kernel variant.  [fget] gives
    the scatter-gather table of the dma-buf behind a file descriptor; a
    descriptor that is not open is a NULL dereference. *)
Definition send_fd_to_portal (fget : Z → option (list sg_entry))
    (device : PortalInternal) (fd id : Z) : M D Z :=
  match fget fd with
  | None => undefined
  | Some sgl =>
      '(i, regions) ← send_entries device id 0 sgl [0; 0; 0];
      send_tail device id i regions;;
      mret id
  end.

(** [cpp/dmaSendFd.h:86-112] send_fd_to_portal, simulator variant: the lengths
    come from PA_ELEMENT_SIZE ioctls ([element_size]) until one returns 0 (end) or is negative
    (error, returned at once), and the address is the running offset tagged
    with the object id. *)
Fixpoint bsim_entries (device : PortalInternal) (id i size_accum : Z)
    (element_size : Z → Z) (regions : list Z) (fuel : nat) : M D (Z + Z * list Z) :=
  match fuel with
  | O => no_fuel
  | S fuel =>
      let len := element_size i in
      if bool_decide (len < 0) then mret (inl len)
      else if bool_decide (len = 0) then mret (inr (i, regions))
      else
        regions' ← send_entry device id i
          (mkSg (Z.lor size_accum (Z.shiftl id 32)) len) regions;
        bsim_entries device id (i + 1) (s32 (size_accum + len)) element_size regions' fuel
  end.

(** [cpp/dmaSendFd.h:45-151] send_fd_to_portal, simulator variant; [fd_write] is
    bluesim_sock_fd_write, whose result is ignored. *)
Definition send_fd_to_portal_bsim (fd_write : Z → M D Z) (element_size : Z → Z)
    (fuel : nat) (device : PortalInternal) (fd id : Z) : M D Z :=
  fd_write fd;;
  r ← bsim_entries device id 0 0 element_size [0; 0; 0] fuel;
  match r with
  | inl err => mret (s32 err)
  | inr (i, regions) => send_tail device id i regions;; mret id
  end.
End SendFd.

(** ** What the hardware then translates *)

(** The reference: the physical address of byte [off] of the buffer. *)
Fixpoint sg_lookup (sgl : list sg_entry) (off : Z) : option Z :=
  match sgl with
  | [] => None
  | e :: sgl =>
      if bool_decide (off < sg_len e) then Some (sg_addr e + off)
      else sg_lookup sgl (off - sg_len e)
  end.

Definition sg_size (sgl : list sg_entry) : Z := zsum (sg_len <$> sgl).

(** A segment of [2^s] bytes, naturally aligned, inside the 40-bit space. *)
Definition seg_ok (s : Z) (e : sg_entry) : Prop :=
  sg_len e = 2 ^ s ∧ 0 ≤ sg_addr e ∧ sg_addr e + 2 ^ s ≤ 2 ^ 40 ∧ sg_addr e mod 2 ^ s = 0.
#[export] Instance seg_ok_dec s e : Decision (seg_ok s e).
Proof. unfold seg_ok. apply _. Defined.

(** A list the MMU can represent: megabyte segments, then 64K segments, then 4K
    pages, at most 255 in all (index 255 is left for the end marker). *)
Definition sg_ok (sgl : list sg_entry) : Prop :=
  (∃ b m s, sgl = b ++ m ++ s ∧
     Forall (seg_ok 20) b ∧ Forall (seg_ok 16) m ∧ Forall (seg_ok 12) s)
  ∧ (length sgl ≤ 255)%nat.

Definition page_of (e : sg_entry) : Z :=
  u64 (Z.shiftr (s64 (sg_addr e)) (nth (sg_class (s64 (sg_len e))) shifts 0))
    mod 2 ^ 40 mod 2 ^ 28.

(** The page-table writes of the segment loop. *)
Fixpoint program (k : Z) (sgl : list sg_entry) (pg : gmap Z Z) : gmap Z Z :=
  match sgl with
  | [] => pg
  | e :: sgl => program (k + 1) sgl (<[k := page_of e]> pg)
  end.

Lemma program_lookup_out k sgl pg x :
  (x < k ∨ k + length sgl ≤ x) → program k sgl pg !! x = pg !! x.
Proof.
  revert k pg; induction sgl as [|e sgl IH]; intros k pg Hx; simpl in *; [done|].
  rewrite IH by lia. rewrite lookup_insert_ne by lia. done.
Qed.

Lemma program_lookup_in k sgl pg (i : nat) e :
  sgl !! i = Some e → program k sgl pg !! (k + i) = Some (page_of e).
Proof.
  revert k pg i; induction sgl as [|e' sgl IH]; intros k pg i Hi; [done|].
  destruct i as [|i]; simpl in *; simplify_eq.
  - rewrite program_lookup_out by lia. by rewrite Z.add_0_r, lookup_insert_eq.
  - replace (k + S i) with (k + 1 + i) by lia. by apply IH.
Qed.

(** Number of segments of each class. *)
Definition class_count (j : nat) (sgl : list sg_entry) : Z :=
  length (filter (λ e, sg_class (s64 (sg_len e)) = j) sgl).
Definition class_counts (sgl : list sg_entry) : list Z :=
  [class_count 0 sgl; class_count 1 sgl; class_count 2 sgl].
Definition seg_any (e : sg_entry) : Prop := seg_ok 20 e ∨ seg_ok 16 e ∨ seg_ok 12 e.

Lemma sg_class_lt e : seg_any e → (sg_class (s64 (sg_len e)) < 3)%nat.
Proof. by intros [[-> _]|[[-> _]|[-> _]]]; vm_compute; lia. Qed.

Lemma class_count_cons j e sgl :
  class_count j (e :: sgl) =
    (if bool_decide (sg_class (s64 (sg_len e)) = j) then 1 else 0) + class_count j sgl.
Proof.
  unfold class_count. rewrite filter_cons.
  destruct (decide (sg_class (s64 (sg_len e)) = j)) as [E|E];
    [rewrite bool_decide_true by done|rewrite bool_decide_false by done]; simpl; lia.
Qed.

Lemma entry_index id i : 0 ≤ id < 32 → 0 ≤ i < 256 →
  u32 (Z.shiftl id 8 + i) = id * 256 + i ∧ (id * 256 + i) mod 2 ^ 13 = id * 256 + i.
Proof.
  intros. rewrite shiftl_mul by lia. change (2 ^ 8) with 256.
  split; [apply u32_small|apply Z.mod_small]; lia.
Qed.

(** A device with nothing in flight, before and after a page table update. *)
Definition ready (p : PortalInternal) (d : DmaHw.t) : Prop :=
  DmaHw.idle p 0 d ∧ DmaHw.idle p 1 d.
Definition with_pages (d : DmaHw.t) (pg : gmap Z Z) (lg : list DmaHw.request) : DmaHw.t :=
  let m := DmaHw.mmu d in
  DmaHw.mk (DmaHw.base d) (DmaHw.acc d) (mkSGListMMU (reg8 m) (reg4 m) (reg0 m) pg) lg.

Lemma send_entry_hw p id i e regions d :
  ready p d → 0 ≤ id < 32 → 0 ≤ i < 256 → seg_any e →
  ∃ lg, DmaHw.responses lg = DmaHw.responses (DmaHw.log d) ∧
    send_entry p id i e regions d =
    (Done (alter (λ r, u32 (r + 1)) (sg_class (s64 (sg_len e))) regions),
     with_pages d (<[id * 256 + i := page_of e]> (pages (DmaHw.mmu d))) lg).
Proof.
  intros [I _] Hid Hi He. unfold send_entry.
  rewrite bool_decide_true by by apply sg_class_lt.
  erewrite bind_Done by by apply sglist_delivered.
  destruct (entry_index id i Hid Hi) as [E1 E2].
  unfold DmaHw.deliver, with_pages; simpl. unfold mmu_sglist.
  rewrite E1, E2. eexists; split; [|done]. done.
Qed.

Lemma send_entries_hw p id i sgl a b c d :
  ready p d → 0 ≤ id < 32 → 0 ≤ i → i + length sgl ≤ 255 → Forall seg_any sgl →
  0 ≤ a ≤ i → 0 ≤ b ≤ i → 0 ≤ c ≤ i →
  ∃ lg, DmaHw.responses lg = DmaHw.responses (DmaHw.log d) ∧
    send_entries p id i sgl [a; b; c] d =
    (Done (i + length sgl,
           [a + class_count 0 sgl; b + class_count 1 sgl; c + class_count 2 sgl]),
     with_pages d (program (id * 256 + i) sgl (pages (DmaHw.mmu d))) lg).
Proof.
  revert i a b c d; induction sgl as [|e sgl IH];
    intros i a b c d R Hid Hi Hn Hok Ha Hb Hc.
  - exists (DmaHw.log d). split; [done|]. unfold class_count; simpl. rewrite !Z.add_0_r.
    by destruct d as [? ? [] ?].
  - inversion_clear Hok as [|? ? He Hok']. simpl length in Hn.
    destruct (send_entry_hw p id i e [a; b; c] d) as (lg1 & L1 & E1); [done|lia..|done|].
    simpl send_entries. rewrite (bind_Done _ _ _ _ _ E1).
    pose proof (sg_class_lt e He) as Hlt.
    assert (∃ a' b' c', alter (λ r, u32 (r + 1)) (sg_class (s64 (sg_len e))) [a; b; c]
        = [a'; b'; c'] ∧ 0 ≤ a' ≤ i + 1 ∧ 0 ≤ b' ≤ i + 1 ∧ 0 ≤ c' ≤ i + 1
        ∧ a' + class_count 0 sgl = a + class_count 0 (e :: sgl)
        ∧ b' + class_count 1 sgl = b + class_count 1 (e :: sgl)
        ∧ c' + class_count 2 sgl = c + class_count 2 (e :: sgl)) as
      (a' & b' & c' & -> & ? & ? & ? & <- & <- & <-).
    { rewrite !class_count_cons.
      destruct (sg_class (s64 (sg_len e))) as [|[|[|]]]; [..|lia]; simpl;
        rewrite u32_small by lia; do 3 eexists; (split; [done|]); repeat split; lia. }
    destruct (IH (i + 1) a' b' c' (with_pages d
      (<[id * 256 + i := page_of e]> (pages (DmaHw.mmu d))) lg1)) as (lg2 & L2 & E2);
      [done|lia..|done|lia|lia|lia|].
    exists lg2. split; [by rewrite L2|]. rewrite E2. simpl length. unfold with_pages; simpl.
    by replace (i + 1 + length sgl) with (i + S (length sgl)) by lia;
      replace (id * 256 + (i + 1)) with (id * 256 + i + 1) by lia.
Qed.

(** ** The barriers *)
Lemma unpack_border border idx : 0 ≤ border < 2 ^ 28 → 0 ≤ idx < 2 ^ 8 →
  unpack_region (u64 (Z.lor (u64 (Z.shiftl border 8)) idx)) = mkRegion border idx.
Proof.
  intros Hb Hi. rewrite (u64_small (Z.shiftl border 8)) by (rewrite shiftl_mul; lia).
  rewrite lor_shiftl_add by lia. rewrite u64_small by lia.
  unfold unpack_region. rewrite Z.mod_small by lia.
  f_equal; [rewrite Z.div_add_l by lia; rewrite Z.div_small; lia|].
  rewrite Z.add_comm, Z.mod_add by lia. by apply Z.mod_small.
Qed.

Lemma u8_u64 x : u8 (u64 x) = x mod 2 ^ 8.
Proof.
  unfold u8, u64. by apply mod_mod_pow2.
Qed.

Lemma border_vals_regions a b c :
  0 ≤ a → 0 ≤ b → 0 ≤ c → a + b + c ≤ 255 →
  ∃ v8 v4 v0, border_vals [a; b; c] = [v8; v4; v0]
    ∧ unpack_region (u64 v8) = mkRegion a 0
    ∧ unpack_region (u64 v4) = mkRegion (16 * a + b) ((a - 16 * a) mod 2 ^ 8)
    ∧ unpack_region (u64 v0) =
        mkRegion (256 * a + 16 * b + c) ((a + b - 256 * a - 16 * b) mod 2 ^ 8).
Proof.
  intros. unfold border_vals, border_step; cbn -[u8 u64 Z.lor Z.shiftl].
  change (PAGE_SHIFT8 - PAGE_SHIFT4) with 4. change (PAGE_SHIFT4 - PAGE_SHIFT0) with 4.
  rewrite (u64_small (0 + a)), (u8_small (0 + a)) by lia.
  change (u8 (u64 (0 - 0))) with 0.
  replace (u64 (Z.shiftl (0 + a) 4)) with (16 * a)
    by (rewrite shiftl_mul, u64_small; lia).
  rewrite (u64_small (16 * a + b)), (u8_small (0 + a + b)) by lia.
  replace (u64 (Z.shiftl (16 * a + b) 4)) with (256 * a + 16 * b)
    by (rewrite shiftl_mul, u64_small; lia).
  rewrite (u64_small (256 * a + 16 * b + c)), !u8_u64 by lia.
  do 3 eexists. split_and!; [done|..].
  - by rewrite unpack_border by lia.
  - rewrite unpack_border by (try apply Z.mod_pos_bound; lia). by rewrite Z.add_0_l.
  - rewrite unpack_border by (try apply Z.mod_pos_bound; lia). f_equal. f_equal. lia.
Qed.

(** ** Walking a list of equal segments *)
Lemma sg_lookup_uniform L l r off :
  0 < L → Forall (λ e, sg_len e = L) l → 0 ≤ off < L * length l →
  ∃ e, l !! Z.to_nat (off / L) = Some e ∧
       sg_lookup (l ++ r) off = Some (sg_addr e + off mod L).
Proof.
  intros HL Hl; revert off; induction Hl as [|e l He Hl IH]; intros off Hoff;
    simpl in *; [lia|].
  rewrite He. destruct (decide (off < L)) as [Hlt|Hge].
  - rewrite bool_decide_true by done. exists e.
    by rewrite Z.div_small, Z.mod_small by lia.
  - rewrite bool_decide_false by done.
    destruct (IH (off - L)) as (e' & E1 & E2); [lia|]. exists e'.
    replace off with (off - L + 1 * L) at 1 3 by lia.
    rewrite Z.div_add, Z.mod_add by lia.
    assert (0 ≤ (off - L) / L) by (apply Z.div_pos; lia).
    replace (Z.to_nat ((off - L) / L + 1)) with (S (Z.to_nat ((off - L) / L))) by lia.
    done.
Qed.

Lemma sg_lookup_skip L l r off :
  0 < L → Forall (λ e, sg_len e = L) l → L * length l ≤ off →
  sg_lookup (l ++ r) off = sg_lookup r (off - L * length l).
Proof.
  intros HL Hl; revert off; induction Hl as [|e l He Hl IH]; intros off Hoff; simpl in *.
  - by rewrite Z.mul_0_r, Z.sub_0_r.
  - rewrite He, bool_decide_false by lia. rewrite IH by lia. f_equal. lia.
Qed.

Lemma seg_ok_len s l : Forall (seg_ok s) l → Forall (λ e, sg_len e = 2 ^ s) l.
Proof. intros H. eapply Forall_impl; [exact H|]. by intros e []. Qed.

Lemma seg_ok_page s e : seg_ok s e → s = 20 ∨ s = 16 ∨ s = 12 →
  page_of e = sg_addr e / 2 ^ s ∧ sg_addr e / 2 ^ s * 2 ^ s = sg_addr e
  ∧ 0 ≤ sg_addr e / 2 ^ s < 2 ^ (40 - s).
Proof.
  intros (El & Ha & Hb & Hal) Hs.
  assert (nth (sg_class (s64 (sg_len e))) shifts 0 = s) as E
    by (rewrite El; by destruct Hs as [->|[->| ->]]).
  assert (0 < 2 ^ s) by lia.
  assert (0 ≤ sg_addr e / 2 ^ s < 2 ^ (40 - s)) as R.
  { split; [apply Z.div_pos; lia|]. apply Z.div_lt_upper_bound; [lia|].
    rewrite <-Z.pow_add_r by lia. replace (s + (40 - s)) with 40 by lia. lia. }
  split_and!; [|pose proof (Z.div_mod (sg_addr e) (2 ^ s)); lia|lia..].
  unfold page_of. rewrite E, s64_small by lia. rewrite shiftr_div by lia.
  assert (2 ^ (40 - s) ≤ 2 ^ 28) by (apply Z.pow_le_mono_r; lia).
  rewrite u64_small by lia. rewrite (Z.mod_small _ (2 ^ 40)), Z.mod_small by lia. done.
Qed.

(** What the programmed tables must contain for [b ++ m ++ s]. *)
Record programmed (mm : SGListMMU) (id : Z) (b m s : list sg_entry) : Prop := {
  prog_reg8 : reg8 mm !! id = Some (mkRegion (length b) 0);
  prog_reg4 : reg4 mm !! id =
    Some (mkRegion (16 * length b + length m) ((length b - 16 * length b) mod 2 ^ 8));
  prog_reg0 : reg0 mm !! id =
    Some (mkRegion (256 * length b + 16 * length m + length s)
            ((length b + length m - 256 * length b - 16 * length m) mod 2 ^ 8));
  prog_pages : ∀ i e, (b ++ m ++ s) !! i = Some e →
    pages mm !! (id * 2 ^ 8 + Z.of_nat i) = Some (page_of e);
  prog_first : is_Some (pages mm !! (id * 2 ^ 8));
}.

Lemma mmu_paddr_seg s e off psz : seg_ok s e →
  (s = 20 ∧ psz = 3) ∨ (s = 16 ∧ psz = 2) ∨ (s = 12 ∧ psz = 1) →
  mmu_paddr psz (page_of e) (off mod 2 ^ 20) = Some (sg_addr e + off mod 2 ^ s).
Proof.
  intros Hok Hs.
  destruct (seg_ok_page s e Hok) as (-> & E & R); [tauto|].
  destruct Hs as [[-> ->]|[[-> ->]|[-> ->]]]; unfold mmu_paddr;
    repeat case_bool_decide; try lia;
    rewrite mod_mod_pow2, ?(Z.mod_small (sg_addr e / _)) by lia; by rewrite E.
Qed.

(** A hit in one region: [k0] units of [2^sh] bytes precede the region, and the
    index offset [length pre - k0] turns the unit number into a table index. *)
Lemma region_hit mm id pre seg post sh psz k0 off :
  (∀ i e, (pre ++ seg ++ post) !! i = Some e →
    pages mm !! (id * 2 ^ 8 + Z.of_nat i) = Some (page_of e)) →
  Forall (seg_ok sh) seg → (length pre + length seg ≤ 255)%nat →
  (sh = 20 ∧ psz = 3) ∨ (sh = 16 ∧ psz = 2) ∨ (sh = 12 ∧ psz = 1) →
  k0 * 2 ^ sh ≤ off < 2 ^ sh * (k0 + length seg) →
  (page ← pages mm !! (id * 2 ^ 8 +
     ((off / 2 ^ sh) mod 2 ^ 8 + (length pre - k0) mod 2 ^ 8) mod 2 ^ 8);
   mmu_paddr psz page (off mod 2 ^ 20)) = sg_lookup (seg ++ post) (off - k0 * 2 ^ sh).
Proof.
  intros Hpg Hseg Hlen Hsh Hoff.
  assert (0 < 2 ^ sh) by lia.
  set (o := off - k0 * 2 ^ sh) in *.
  assert (0 ≤ o < 2 ^ sh * length seg) as Ho by (unfold o; nia).
  assert (off / 2 ^ sh = o / 2 ^ sh + k0 ∧ off mod 2 ^ sh = o mod 2 ^ sh) as [-> Em].
  { replace off with (o + k0 * 2 ^ sh) by (unfold o; lia).
    by rewrite Z.div_add, Z.mod_add by lia. }
  destruct (sg_lookup_uniform (2 ^ sh) seg post o) as (e & Hk & ->);
    [lia|by apply seg_ok_len|lia|].
  assert (0 ≤ o / 2 ^ sh < length seg) as Hq.
  { split; [apply Z.div_pos; lia|]. rewrite div_lt_iff; lia. }
  rewrite <-Z.add_mod by lia.
  replace (o / 2 ^ sh + k0 + (length pre - k0))
    with (Z.of_nat (length pre + Z.to_nat (o / 2 ^ sh))) by lia.
  rewrite (Z.mod_small _ (2 ^ 8)) by lia. rewrite (Hpg _ e).
  - simpl. rewrite <-Em. apply mmu_paddr_seg; [|done].
    rewrite Forall_lookup in Hseg. by eapply Hseg.
  - rewrite lookup_app_r by lia. apply lookup_app_l_Some.
    by replace (length pre + Z.to_nat (o / 2 ^ sh) - length pre)%nat
      with (Z.to_nat (o / 2 ^ sh)) by lia.
Qed.

(** The hardware translation is the walk of the scatter-gather list, for every
    40-bit offset, out-of-range ones included. *)
Lemma mmu_translate_walk mm id b m s off :
  programmed mm id b m s →
  Forall (seg_ok 20) b → Forall (seg_ok 16) m → Forall (seg_ok 12) s →
  (length (b ++ m ++ s) ≤ 255)%nat → 0 ≤ off < 2 ^ 40 →
  mmu_translate mm id off = sg_lookup (b ++ m ++ s) off.
Proof.
  intros [E8 E4 E0 Hpg [pg0 Hpg0]] Hb Hm Hs Hlen Hoff.
  rewrite !length_app in Hlen.
  pose proof (seg_ok_len _ _ Hb) as Lb. pose proof (seg_ok_len _ _ Hm) as Lm.
  pose proof (seg_ok_len _ _ Hs) as Ls.
  unfold mmu_translate. rewrite E8, E4, E0. simpl.
  unfold mmu_select, mmu_conds; simpl.
  rewrite !(Z.mod_small (off / _) (2 ^ 24)), !(Z.mod_small (off / _) (2 ^ 28))
    by (split; [apply Z.div_pos|apply Z.div_lt_upper_bound]; lia).
  rewrite !(Z.mod_small _ (2 ^ 24)) by lia.
  destruct (decide (off / 2 ^ 20 < length b)) as [C8|C8].
  { rewrite (bool_decide_true _ C8). apply div_lt_iff in C8; [|lia].
    etransitivity; [apply (region_hit mm id [] b (m ++ s) 20 3 0); [done|done|simpl; lia|tauto|lia]|].
    by rewrite Z.mul_0_l, Z.sub_0_r. }
  rewrite (bool_decide_false _ C8). rewrite div_lt_iff in C8 by lia.
  rewrite (sg_lookup_skip (2 ^ 20)) by (done || lia).
  destruct (decide (off / 2 ^ 16 < 16 * length b + length m)) as [C4|C4].
  { rewrite (bool_decide_true _ C4). apply div_lt_iff in C4; [|lia].
    etransitivity;
      [apply (region_hit mm id b m s 16 2 (16 * length b)); [done|done|lia|tauto|lia]|].
    f_equal. lia. }
  rewrite (bool_decide_false _ C4). rewrite div_lt_iff in C4 by lia.
  rewrite (sg_lookup_skip (2 ^ 16)) by (done || lia).
  destruct (decide (off / 2 ^ 12 < 256 * length b + 16 * length m + length s)) as [C0|C0].
  { rewrite (bool_decide_true _ C0). apply div_lt_iff in C0; [|lia].
    replace (length b + length m - 256 * length b - 16 * length m)
      with (length (b ++ m) - (256 * length b + 16 * length m))
      by (rewrite length_app; lia).
    etransitivity; [apply (region_hit mm id (b ++ m) s [] 12 1
      (256 * length b + 16 * length m)); [|done|rewrite length_app; lia|tauto|lia]|].
    - rewrite app_nil_r, <-app_assoc. done.
    - rewrite app_nil_r. f_equal. lia. }
  rewrite (bool_decide_false _ C0). rewrite div_lt_iff in C0 by lia.
  rewrite <-(app_nil_r s), (sg_lookup_skip (2 ^ 12) s []) by (done || lia).
  simpl. by rewrite Z.add_0_r, Hpg0.
Qed.

(** ** The whole transfer *)
Lemma class_count_app j l k : class_count j (l ++ k) = class_count j l + class_count j k.
Proof. unfold class_count. rewrite filter_app, length_app. lia. Qed.

Lemma class_count_uniform j s l : Forall (seg_ok s) l →
  s = 20 ∨ s = 16 ∨ s = 12 →
  class_count j l = if bool_decide (sg_class (2 ^ s) = j) then Z.of_nat (length l) else 0.
Proof.
  intros Hl Hs; induction Hl as [|e l (El & _) Hl IH]; [by case_bool_decide|].
  assert (s64 (2 ^ s) = 2 ^ s) as E by by destruct Hs as [->|[->| ->]].
  rewrite class_count_cons, IH, El, E. simpl length.
  case_bool_decide; lia.
Qed.

Lemma sg_ok_counts b m s :
  Forall (seg_ok 20) b → Forall (seg_ok 16) m → Forall (seg_ok 12) s →
  class_counts (b ++ m ++ s) = [Z.of_nat (length b); Z.of_nat (length m); Z.of_nat (length s)].
Proof.
  intros Hb Hm Hs. unfold class_counts. rewrite !class_count_app.
  rewrite !(class_count_uniform _ 20 b), !(class_count_uniform _ 16 m),
    !(class_count_uniform _ 12 s) by (done || tauto).
  change (sg_class (2 ^ 20)) with 0%nat. change (sg_class (2 ^ 16)) with 1%nat.
  change (sg_class (2 ^ 12)) with 2%nat. simpl. repeat f_equal; lia.
Qed.

Lemma send_tail_hw p id i a b c d :
  ready p d → 0 ≤ id < 32 → 0 ≤ i < 256 →
  0 ≤ a → 0 ≤ b → 0 ≤ c → a + b + c ≤ 255 →
  let m := DmaHw.mmu d in
  ∃ lg, DmaHw.responses lg = DmaHw.responses (DmaHw.log d) ++ [DmaHw.ConfigResp id] ∧
    send_tail p id i [a; b; c] d = (Done tt,
    DmaHw.mk (DmaHw.base d) (DmaHw.acc d)
      (mkSGListMMU
        (<[id := mkRegion a 0]> (reg8 m))
        (<[id := mkRegion (16 * a + b) ((a - 16 * a) mod 2 ^ 8)]> (reg4 m))
        (<[id := mkRegion (256 * a + 16 * b + c)
                   ((a + b - 256 * a - 16 * b) mod 2 ^ 8)]> (reg0 m))
        (<[id * 256 + i := 0]> (pages m))) lg).
Proof.
  intros [I0 I1] Hid Hi Ha Hb Hc Hsum m. unfold send_tail.
  destruct (border_vals_regions a b c) as (v8 & v4 & v0 & -> & E8 & E4 & E0); [lia..|].
  erewrite bind_Done by by apply sglist_delivered.
  destruct (entry_index id i Hid Hi) as [X1 X2].
  rewrite region_delivered by done.
  unfold DmaHw.deliver; simpl. unfold mmu_region, mmu_sglist; simpl.
  rewrite X1, X2, (u32_small id), (Z.mod_small id), E8, E4, E0 by lia.
  eexists; split; [|done]. simpl. by rewrite (Z.mod_small id) by lia.
Qed.

Lemma sg_ok_any sgl : sg_ok sgl → Forall seg_any sgl.
Proof.
  intros [(b & m & s & -> & Hb & Hm & Hs) _]. unfold seg_any.
  rewrite !Forall_app. split_and!; eapply Forall_impl; eauto.
Qed.

(** The state of the hardware after the transfer of a representable list. *)
Lemma send_fd_hw fget p fd id d b m s :
  let sgl := b ++ m ++ s in
  fget fd = Some sgl →
  Forall (seg_ok 20) b → Forall (seg_ok 16) m → Forall (seg_ok 12) s →
  (length sgl ≤ 255)%nat → 0 ≤ id < 32 → ready p d →
  ∃ d', send_fd_to_portal fget p fd id d = (Done id, d')
    ∧ ready p d'
    ∧ programmed (DmaHw.mmu d') id b m s
    ∧ DmaHw.responses (DmaHw.log d') = DmaHw.responses (DmaHw.log d) ++ [DmaHw.ConfigResp id]
    ∧ (∀ r, r ≠ id → reg8 (DmaHw.mmu d') !! r = reg8 (DmaHw.mmu d) !! r
         ∧ reg4 (DmaHw.mmu d') !! r = reg4 (DmaHw.mmu d) !! r
         ∧ reg0 (DmaHw.mmu d') !! r = reg0 (DmaHw.mmu d) !! r)
    ∧ (∀ k, k < id * 256 ∨ id * 256 + 256 ≤ k →
         pages (DmaHw.mmu d') !! k = pages (DmaHw.mmu d) !! k).
Proof.
  intros sgl Hf Hb Hm Hs Hlen Hid R.
  assert (sg_ok sgl) as Hok by (split; [by exists b, m, s|done]).
  pose proof (sg_ok_counts b m s Hb Hm Hs) as HC. fold sgl in HC.
  injection HC as C0 C1 C2.
  assert (length sgl = length b + (length m + length s))%nat as Hl
    by (unfold sgl; rewrite !length_app; lia).
  unfold send_fd_to_portal. rewrite Hf.
  destruct (send_entries_hw p id 0 sgl 0 0 0 d) as (lg1 & L1 & E1);
    [done|lia..|by apply sg_ok_any|lia|lia|lia|].
  rewrite (bind_Done _ _ _ _ _ E1).
  rewrite C0, C1, C2, !Z.add_0_l, Z.add_0_r.
  destruct (send_tail_hw p id (length sgl) (length b) (length m) (length s)
    (with_pages d (program (id * 256) sgl (pages (DmaHw.mmu d))) lg1)) as (lg2 & L2 & E2);
    [done|lia..|].
  erewrite bind_Done by exact E2. eexists. split; [done|]. simpl.
  split; [done|]. split; [split; simpl; [by rewrite lookup_insert_eq..| |]|].
  - intros i e Hi. assert (i < length sgl)%nat by by eapply lookup_lt_Some.
    change (2 ^ 8) with 256. rewrite lookup_insert_ne by lia. by apply program_lookup_in.
  - destruct sgl as [|e sgl'] eqn:Es.
    + exists 0. by rewrite Z.add_0_r, lookup_insert_eq.
    + exists (page_of e). simpl length. rewrite lookup_insert_ne by lia.
      rewrite <-(Z.add_0_r (id * 2 ^ 8)). by apply (program_lookup_in (id * 256) (e :: sgl') _ 0).
  - split; [by rewrite L2; simpl; rewrite L1|].
    split; [intros r Hr; by rewrite !lookup_insert_ne by done|].
    intros k Hk. rewrite lookup_insert_ne by lia. apply program_lookup_out. lia.
Qed.

(** C1.  Handing a buffer to the hardware succeeds and makes the DMA engine's
    address translation exactly the walk of the buffer's scatter-gather list:
    for every 40-bit offset the MMU yields the physical address of that byte,
    and a bad-translation error beyond the end of the buffer. *)
Theorem send_fd_to_portal_translates fget p fd id sgl d :
  fget fd = Some sgl → sg_ok sgl → 0 ≤ id < 32 → ready p d →
  ∃ d', send_fd_to_portal fget p fd id d = (Done id, d') ∧ ready p d' ∧
    ∀ off, 0 ≤ off < 2 ^ 40 → mmu_translate (DmaHw.mmu d') id off = sg_lookup sgl off.
Proof.
  intros Hf [(b & m & s & -> & Hb & Hm & Hs) Hlen] Hid R.
  destruct (send_fd_hw fget p fd id d b m s) as (d' & E & R' & P & _); try done.
  exists d'. split_and!; [done..|]. intros off Hoff. by apply mmu_translate_walk.
Qed.

Lemma mmu_translate_ext m1 m2 id off :
  reg8 m1 !! id = reg8 m2 !! id → reg4 m1 !! id = reg4 m2 !! id →
  reg0 m1 !! id = reg0 m2 !! id →
  (∀ k, id * 256 ≤ k < id * 256 + 256 → pages m1 !! k = pages m2 !! k) →
  mmu_translate m1 id off = mmu_translate m2 id off.
Proof.
  intros E8 E4 E0 Ep. unfold mmu_translate. rewrite E8, E4, E0.
  destruct (reg8 m2 !! id) as [r8|]; [|done]. destruct (reg4 m2 !! id) as [r4|]; [|done].
  destruct (reg0 m2 !! id) as [r0|]; [|done]. simpl.
  destruct (mmu_select r8 r4 r0 off) as [[psz pbase] idx].
  change (2 ^ 8) with 256. rewrite Ep; [done|].
  pose proof (Z.mod_pos_bound (pbase + idx) 256). lia.
Qed.


(** *** Concrete instances *)
Definition demo_portal : PortalInternal := mkPortalInternal 0 5 1 0x10000 0 None.
Definition demo_dev : DmaHw.t := DmaHw.init 0x10000.
Definition demo_sgl : list sg_entry :=
  [mkSg 0x300000 (2 ^ 20); mkSg 0x50000 (2 ^ 16); mkSg 0x7000 (2 ^ 12); mkSg 0x2000 (2 ^ 12)].
Definition demo_fget (fd : Z) : option (list sg_entry) :=
  if bool_decide (fd = 3) then Some demo_sgl else None.

Lemma demo_sgl_ok : sg_ok demo_sgl.
Proof.
  split; [|simpl; lia].
  exists [mkSg 0x300000 (2 ^ 20)], [mkSg 0x50000 (2 ^ 16)], [mkSg 0x7000 (2 ^ 12); mkSg 0x2000 (2 ^ 12)].
  split_and!; [done|..]; repeat constructor; done.
Defined.
Lemma demo_ready : ready demo_portal demo_dev.
Proof. by repeat split. Defined.

Lemma send_fd_to_portal_translates_witness :
  ∃ d', send_fd_to_portal demo_fget demo_portal 3 2 demo_dev = (Done 2, d') ∧
    ready demo_portal d' ∧
    ∀ off, 0 ≤ off < 2 ^ 40 → mmu_translate (DmaHw.mmu d') 2 off = sg_lookup demo_sgl off.
Proof.
  apply send_fd_to_portal_translates; [reflexivity|exact demo_sgl_ok|lia|exact demo_ready].
Defined.


(** The bound on the number of segments is needed and not checked by the code:
    with 256 segments the end marker of object 2 is written over the first page
    of object 3, whose byte 0 moves from 0x9000 to address 0. *)
Example send_fd_to_portal_256_clobbers :
  let one := λ fd, if bool_decide (fd = 4) then Some [mkSg 0x9000 4096]
                   else Some (replicate 256 (mkSg 0x1000 4096)) in
  let before := (send_fd_to_portal one demo_portal 4 3 demo_dev).2 in
  let after := (send_fd_to_portal one demo_portal 5 2 before).2 in
  mmu_translate (DmaHw.mmu before) 3 0 = Some 0x9000 ∧
  mmu_translate (DmaHw.mmu after) 3 0 = Some 0.
Proof. by vm_compute. Qed.
