(* ===== verification/PortalMem.v ===== *)
(** * The portalmem driver (src/drivers/portalmem/portalmem.c)

    Allocation of buffers shared between processes and hardware as dma-bufs
    backed by scatter-gather lists, and the file operations on them.  What the
    driver calls in the kernel (page allocator, kmalloc, sg_alloc_table, dma-buf
    framework, vmap) is a parameter of the model, the class [Kernel]. *)
From stdpp Require Import base list gmap numbers strings.
From S2P Require Import Prelude Portal SGListMMU DmaConfigProxy SendFd Ioctl.
Local Open Scope Z_scope.

Definition PAGE_SIZE : Z := 4096.
(** PAGE_ALIGN and round_up of linux/mm.h and linux/kernel.h on unsigned long *)
Definition PAGE_ALIGN (x : Z) : Z := u64 (Z.ldiff (u64 (x + (PAGE_SIZE - 1))) (PAGE_SIZE - 1)).
Definition round_up (x y : Z) : Z := u64 (Z.lor (u64 (x - 1)) (y - 1) + 1).

(** [drivers/portalmem/portalmem.h:59-65] struct pa_buffer; [vaddr] 0 is NULL *)
Record pa_buffer := mkBuffer {
  size : Z;
  kmap_cnt : Z;
  vaddr : Z;
  sg_table : list sg_entry;
}.

(** The kernel services the driver uses.  [alloc_pages] gives the physical
    address of a block of [2^order] pages; [dma_buf_export] whether the export
    succeeded; [dma_buf_fd] and [sg_alloc_table] return the C result; [vmap] the
    kernel address or 0. *)
Class Kernel (K : Type) := {
  alloc_pages : Z → K → option Z * K;
  kmalloc_ok : K → bool * K;
  sg_alloc_table : Z → K → Z * K;
  dma_buf_export : K → bool * K;
  dma_buf_fd : K → Z * K;
  vmalloc_ok : K → bool * K;
  vmap : list Z → K → Z * K;
}.

(** Objects the driver gets from kmalloc; [live] lists those not yet freed. *)
Inductive kobj := KBuffer | KTable | KInfo.
#[export] Instance kobj_eq_dec : EqDecision kobj.
Proof. solve_decision. Defined.

Record pm_state (K : Type) := mkPm {
  kern : K;
  files : gmap Z pa_buffer;   (* open dma-buf file descriptors *)
  live : list kobj;
}.
Arguments mkPm {K} _ _ _.
Arguments kern {K} _.
Arguments files {K} _.
Arguments live {K} _.

Fixpoint remove_one (o : kobj) (l : list kobj) : list kobj :=
  match l with
  | [] => []
  | x :: l => if bool_decide (x = o) then l else x :: remove_one o l
  end.

Section Driver.
Context {K : Type} `{Kernel K}.
Abbreviation PM := (M (pm_state K)).

Definition kcall {A} (f : K → A * K) : PM A :=
  λ s, let '(a, k) := f (kern s) in (Done a, mkPm k (files s) (live s)).
Definition kalloc (o : kobj) : PM bool :=
  ok ← kcall kmalloc_ok;
  (if ok : bool then modify (λ s, mkPm (kern s) (files s) (o :: live s)) else mret tt);;
  mret ok.
Definition kfree (o : kobj) : PM () :=
  modify (λ s, mkPm (kern s) (files s) (remove_one o (live s))).

(** [drivers/portalmem/portalmem.c:260-260] orders *)
Definition orders : list Z := [8; 4; 0].

(** [drivers/portalmem/portalmem.c:292-314] portalmem_dmabuffer_create: the scan
    over [orders] for the next block.  The result of kmalloc is dereferenced
    without a check. *)
Fixpoint try_orders (os : list Z) (size_remaining max_order : Z) : PM (option (Z * Z)) :=
  match os with
  | [] => mret None
  | o :: os =>
      if bool_decide (Z.shiftl PAGE_SIZE o ≤ size_remaining) && bool_decide (o ≤ max_order)
      then
        page ← kcall (alloc_pages o);
        match page with
        | Some page =>
            ok ← kalloc KInfo;
            if ok : bool then mret (Some (page, o)) else undefined
        | None => try_orders os size_remaining max_order
        end
      else try_orders os size_remaining max_order
  end.

(** [drivers/portalmem/portalmem.c:289-317] portalmem_dmabuffer_create: the
    allocation loop.  [info] is whether the last [info] is non-NULL, [blocks]
    the list [pages] of (page, order). *)
Fixpoint alloc_loop (fuel : nat) (size_remaining max_order : Z) (info : bool)
    (blocks : list (Z * Z)) : PM (bool * list (Z * Z)) :=
  if bool_decide (0 < size_remaining) then
    match fuel with
    | O => no_fuel
    | S fuel =>
        r ← try_orders orders size_remaining max_order;
        match r with
        | None => mret (false, blocks)
        | Some (page, o) =>
            alloc_loop fuel (s64 (size_remaining - Z.shiftl 1 o * PAGE_SIZE)) o true
              (blocks ++ [(page, o)])
        end
    end
  else mret (info, blocks).

(** [drivers/portalmem/portalmem.c:326-332] portalmem_dmabuffer_create: the
    scatterlist entry of a block (sg_set_page; sg->length is unsigned int) *)
Definition block_sg (b : Z * Z) : sg_entry :=
  mkSg b.1 (u32 (Z.shiftl 1 b.2 * PAGE_SIZE)).

(** [drivers/portalmem/portalmem.c:41-55] pa_buffer_free: the pages themselves
    are not returned, free_buffer_page has an empty body. *)
Definition pa_buffer_free : PM Z := kfree KTable;; kfree KBuffer;; mret 0.

(** [drivers/portalmem/portalmem.c:362-367] portalmem_dmabuffer_create: the
    failure epilogue.  list_for_each_entry reads the link of the entry the body
    has just freed, so it is only defined on an empty list. *)
Definition create_failed (blocks : list (Z * Z)) : PM Z :=
  match blocks with
  | [] => kfree KBuffer;; mret (- ENOMEM)
  | _ :: _ => kfree KInfo;; undefined
  end.

(** [drivers/portalmem/portalmem.c:324-357] portalmem_dmabuffer_create: building
    the buffer from the blocks and exporting it as a dma-buf *)
Definition export_blocks (len : Z) (blocks : list (Z * Z)) : PM Z :=
  for_each blocks (λ _, kfree KInfo);;
  let buffer := mkBuffer len 0 0 (block_sg <$> blocks) in
  exported ← kcall dma_buf_export;
  if exported : bool then
    return_fd ← kcall dma_buf_fd;
    (if bool_decide (return_fd < 0)
     then pa_buffer_free;; mret tt   (* dma_buf_put drops the last reference *)
     else modify (λ s, mkPm (kern s) (<[return_fd := buffer]> (files s)) (live s)));;
    mret return_fd
  else
    pa_buffer_free;; undefined.      (* dmabuf->file of an error pointer *)

(** [drivers/portalmem/portalmem.c:254-368] portalmem_dmabuffer_create *)
Definition portalmem_dmabuffer_create (len : Z) : PM Z :=
  let len := PAGE_ALIGN (round_up len 4096) in
  let size_remaining := s64 len in
  ok ← kalloc KBuffer;
  if negb ok then mret (- ENOMEM) else
  ok ← kalloc KTable;
  if negb ok then kfree KBuffer;; mret (- ENOMEM) else
  '(info, blocks) ← alloc_loop (Z.to_nat (size_remaining / PAGE_SIZE)) size_remaining
                       (nth 0 orders 0) false [];
  if info : bool then
    ret ← kcall (sg_alloc_table (length blocks));
    if bool_decide (ret = 0) then export_blocks len blocks
    else kfree KTable;; create_failed blocks
  else create_failed blocks.
End Driver.

(** ** Views of a buffer *)

(** [drivers/portalmem/portalmem.c:85-94] custom_vma_access: the search for the
    segment; [offset] is an int, compared as unsigned with sg->length.  The
    result is the address the memcpy uses. *)
Fixpoint vma_locate (sgl : list sg_entry) (offset maddr : Z) : Z :=
  match sgl with
  | [] => maddr + offset
  | sg :: sgl =>
      if bool_decide (u32 offset < sg_len sg) then sg_addr sg + offset
      else vma_locate sgl (s32 (offset - sg_len sg)) (sg_addr sg)
  end.

(** [drivers/portalmem/portalmem.c:73-100] custom_vma_access: -EFAULT without a
    buffer, else the location accessed and [len] *)
Definition custom_vma_access (buffer : option pa_buffer) (vm_start addr len : Z) : Z + Z * Z :=
  match buffer with
  | None => inl (- EFAULT)
  | Some b => inr (vma_locate (sg_table b) (s32 (addr - vm_start)) 0, len)
  end.

(** One remap_pfn_range call: virtual address, physical address, length. *)
Record mapping := mkMapping { map_va : Z; map_pa : Z; map_len : Z }.

(** [drivers/portalmem/portalmem.c:125-147] pa_dma_buf_mmap: the segment loop *)
Fixpoint mmap_segments (sgl : list sg_entry) (addr offset vm_end : Z) : list mapping :=
  match sgl with
  | [] => []
  | sg :: sgl =>
      let remainder := vm_end - addr in
      if bool_decide (sg_len sg ≤ offset) then
        mmap_segments sgl addr (offset - sg_len sg) vm_end
      else
        let page := sg_addr sg + offset / PAGE_SIZE * PAGE_SIZE in
        let len := Z.min (sg_len sg - offset) remainder in
        mkMapping addr page len ::
          (if bool_decide (vm_end ≤ addr + len) then []
           else mmap_segments sgl (addr + len) 0 vm_end)
  end.

(** [drivers/portalmem/portalmem.c:105-153] pa_dma_buf_mmap *)
Definition pa_dma_buf_mmap (b : pa_buffer) (vm_start vm_end vm_pgoff : Z) : list mapping :=
  mmap_segments (sg_table b) vm_start (u64 (vm_pgoff * PAGE_SIZE)) vm_end.

(** [drivers/portalmem/portalmem.c:190-196] pa_dma_buf_begin_cpu_access: the
    frames written to the page array, [None] for a failed BUG_ON *)
Fixpoint cpu_pages (i npages : Z) (sgl : list sg_entry) : option (list Z) :=
  match sgl with
  | [] => Some []
  | sg :: sgl =>
      if bool_decide (npages ≤ i) then None
      else
        let npages_this_entry := PAGE_ALIGN (sg_len sg) / PAGE_SIZE in
        rest ← cpu_pages (i + 1) npages sgl;
        Some (((λ j : nat, sg_addr sg + j * PAGE_SIZE) <$> seq 0 (Z.to_nat npages_this_entry)) ++ rest)
  end.

Section CpuAccess.
Context {K : Type} `{Kernel K}.

(** [drivers/portalmem/portalmem.c:173-211] pa_dma_buf_begin_cpu_access.  The
    page array has [npages] slots; writing past it is undefined.  vmap reports
    failure with NULL. *)
Definition pa_dma_buf_begin_cpu_access : M (K * pa_buffer) Z :=
  buffer ← gets snd;
  vaddr' ←
    (if bool_decide (kmap_cnt buffer = 0) then
       let npages := PAGE_ALIGN (size buffer) / PAGE_SIZE in
       '(ok, k) ← gets (λ s, vmalloc_ok s.1);
       modify (λ s, (k, s.2));;
       if ok : bool then
         match cpu_pages 0 npages (sg_table buffer) with
         | None => λ s, (Aborted, s)
         | Some pages =>
             if bool_decide (length pages ≤ npages) then
               '(v, k) ← gets (λ s, vmap pages s.1);
               modify (λ s, (k, s.2));; mret v
             else undefined
         end
       else mret (vaddr buffer)
     else mret (vaddr buffer));
  (if bool_decide (vaddr' = 0) then mret tt
   else modify (λ s, (s.1, mkBuffer (size buffer) (s32 (kmap_cnt buffer + 1)) vaddr'
                              (sg_table buffer))));;
  mret (if bool_decide (vaddr' = 0) then - ENOMEM else 0).

(** [drivers/portalmem/portalmem.c:213-224] pa_dma_buf_end_cpu_access *)
Definition pa_dma_buf_end_cpu_access : M (K * pa_buffer) () :=
  buffer ← gets snd;
  let cnt := s32 (kmap_cnt buffer - 1) in
  modify (λ s, (s.1, mkBuffer (size buffer) cnt
    (if bool_decide (cnt = 0) then 0 else vaddr buffer) (sg_table buffer))).

(** [drivers/portalmem/portalmem.c:226-231] pa_dma_buf_vmap *)
Definition pa_dma_buf_vmap : M (K * pa_buffer) Z :=
  pa_dma_buf_begin_cpu_access;; gets (λ s, vaddr s.2).

(** [drivers/portalmem/portalmem.c:162-166] pa_dma_buf_kmap *)
Definition pa_dma_buf_kmap (b : pa_buffer) (offset : Z) : Z := vaddr b + offset * PAGE_SIZE.
End CpuAccess.

(** ** ioctl *)

(** [drivers/portalmem/portalmem.h:46-48] PA_DMA_ADDRESSES, PA_MALLOC,
    PA_ELEMENT_SIZE: type 'B'; sizeof of PortalAlloc is that of its header *)
Definition PA_DMA_ADDRESSES : Z := IOWR 66 13 16.
Definition PA_MALLOC : Z := IOR 66 14 8.
Definition PA_ELEMENT_SIZE : Z := IOR 66 15 8.

(** [drivers/portalmem/portalmem.h:25-29] PortalAllocHeader *)
Record PortalAllocHeader := mkHeader { hdr_size : Z; hdr_fd : Z; hdr_numEntries : Z }.

(** The user memory at the address passed as ioctl argument: a PortalAlloc with
    the entries that follow it, or a PortalElementSize; [Unreadable] is an
    address copy_from_user rejects.  [writable] says whether copy_to_user to it
    succeeds. *)
Inductive user_arg :=
  | ArgAlloc (h : PortalAllocHeader) (entries : list sg_entry) (writable : bool)
  | ArgElement (fd index : Z)
  | Unreadable.

Section IoctlOps.
Context {K : Type} `{Kernel K}.

(** [drivers/portalmem/portalmem.c:379-402] pa_unlocked_ioctl, PA_DMA_ADDRESSES.
    With a positive numEntries every segment is copied out, whatever the count
    the caller has room for. *)
Definition ioctl_dma_addresses (arg : user_arg) : M (pm_state K) (Z * user_arg) :=
  match arg with
  | ArgAlloc h entries writable =>
      fs ← gets files;
      match fs !! hdr_fd h with
      | None => undefined
      | Some b =>
          let sgl := sg_table b in
          let copied := bool_decide (0 < hdr_numEntries h) in
          if copied && negb writable && negb (bool_decide (sgl = []))
          then mret (- EFAULT, arg)
          else
            let entries' := if copied then sgl ++ drop (length sgl) entries else entries in
            if writable
            then mret (0, ArgAlloc (mkHeader (hdr_size h) (hdr_fd h) (length sgl)) entries' true)
            else mret (- EFAULT, ArgAlloc h entries' writable)
      end
  | _ => mret (- EFAULT, arg)
  end.

(** [drivers/portalmem/portalmem.c:406-426] pa_unlocked_ioctl, PA_ELEMENT_SIZE *)
Definition ioctl_element_size (arg : user_arg) : M (pm_state K) Z :=
  match arg with
  | ArgElement fd index =>
      fs ← gets files;
      match fs !! fd with
      | None => undefined
      | Some b =>
          mret (s32 (if bool_decide (0 ≤ index) then
                       from_option sg_len 0 (sg_table b !! Z.to_nat index)
                     else 0))
      end
  | _ => mret (- EFAULT)
  end.

(** [drivers/portalmem/portalmem.c:374-432] pa_unlocked_ioctl: the argument as a
    number and the user memory it points to *)
Definition pa_unlocked_ioctl (cmd arg : Z) (mem : user_arg) : M (pm_state K) (Z * user_arg) :=
  if bool_decide (cmd = PA_DMA_ADDRESSES) then ioctl_dma_addresses mem
  else if bool_decide (cmd = PA_MALLOC) then
    rc ← portalmem_dmabuffer_create arg; mret (rc, mem)
  else if bool_decide (cmd = PA_ELEMENT_SIZE) then
    rc ← ioctl_element_size mem; mret (rc, mem)
  else mret (- ENOTTY, mem).
End IoctlOps.

(** ** The buffers the allocator builds *)

(** What the page allocator documents: a block of order [o] is naturally
    aligned.  Physical memory is below the 40-bit limit of the MMU. *)
Class KernelLaws (K : Type) `{Kernel K} :=
  alloc_pages_block : ∀ o k pg k', alloc_pages o k = (Some pg, k') →
    0 ≤ pg ∧ pg + PAGE_SIZE * 2 ^ o ≤ 2 ^ 40 ∧ pg mod (PAGE_SIZE * 2 ^ o) = 0.

Definition blk (o : Z) (x : Z * Z) : Prop :=
  x.2 = o ∧ 0 ≤ x.1 ∧ x.1 + PAGE_SIZE * 2 ^ o ≤ 2 ^ 40 ∧ x.1 mod (PAGE_SIZE * 2 ^ o) = 0.

(** Blocks in descending size; [mo] is the order of the last one. *)
Definition descending (mo : Z) (bl : list (Z * Z)) : Prop :=
  ∃ b m s, bl = b ++ m ++ s ∧ Forall (blk 8) b ∧ Forall (blk 4) m ∧ Forall (blk 0) s ∧
    ((mo = 8 ∧ m = [] ∧ s = []) ∨ (mo = 4 ∧ s = []) ∨ mo = 0).

Definition blocks_size (bl : list (Z * Z)) : Z := zsum ((λ x, PAGE_SIZE * 2 ^ x.2) <$> bl).

Lemma blocks_size_snoc bl pg o :
  blocks_size (bl ++ [(pg, o)]) = blocks_size bl + PAGE_SIZE * 2 ^ o.
Proof. unfold blocks_size. rewrite fmap_app, zsum_app. simpl. lia. Qed.

Lemma orders_cases o : o ∈ orders ↔ o = 8 ∨ o = 4 ∨ o = 0.
Proof. unfold orders. rewrite !elem_of_cons, elem_of_nil. tauto. Qed.

Lemma descending_snoc mo bl pg o :
  descending mo bl → o ∈ orders → o ≤ mo → blk o (pg, o) → descending o (bl ++ [(pg, o)]).
Proof.
  intros (b & m & s & -> & Hb & Hm & Hs & Hmo) Ho Hle Hpg.
  assert (o = 8 ∨ o = 4 ∨ o = 0) as [->|[->| ->]] by (by apply orders_cases).
  - destruct Hmo as [(-> & -> & ->)|[[-> ->]| ->]]; [|lia..].
    exists (b ++ [(pg, 8)]), [], []. rewrite !app_nil_r, Forall_app, Forall_singleton.
    split_and!; auto.
  - exists b, (m ++ [(pg, 4)]), []. rewrite Forall_app, Forall_singleton.
    assert (s = []) as -> by (destruct Hmo as [(_ & _ & ?)|[[_ ?]| ?]]; [done..|lia]).
    rewrite !app_nil_r, <-app_assoc. split_and!; auto.
  - exists b, m, (s ++ [(pg, 0)]). rewrite Forall_app, Forall_singleton, <-!app_assoc.
    split_and!; auto.
Qed.

Lemma block_sg_ok o x : blk o x → o ∈ orders → seg_ok (o + 12) (block_sg x).
Proof.
  intros (E & H1 & H2 & H3) Ho. unfold seg_ok, block_sg; simpl. rewrite E.
  assert (o = 8 ∨ o = 4 ∨ o = 0) as [->|[->| ->]] by (by apply orders_cases);
    done.
Qed.

Lemma block_sg_all o l : Forall (blk o) l → o ∈ orders →
  Forall (seg_ok (o + 12)) (block_sg <$> l).
Proof.
  intros Hl Ho. apply Forall_fmap. eapply Forall_impl; [done|].
  intros x Hx. by apply block_sg_ok.
Qed.

Lemma descending_sg mo bl : descending mo bl → (length bl ≤ 255)%nat →
  sg_ok (block_sg <$> bl).
Proof.
  intros (b & m & s & -> & Hb & Hm & Hs & _) Hlen.
  split; [|by rewrite length_fmap].
  exists (block_sg <$> b), (block_sg <$> m), (block_sg <$> s). rewrite !fmap_app.
  split_and!; [done|apply (block_sg_all 8)|apply (block_sg_all 4)|apply (block_sg_all 0)];
    try done; apply orders_cases; tauto.
Qed.

Lemma blocks_size_sg mo bl : descending mo bl → sg_size (block_sg <$> bl) = blocks_size bl.
Proof.
  intros (b & m & s & -> & Hb & Hm & Hs & _). unfold sg_size, blocks_size.
  rewrite <-list_fmap_compose. f_equal. apply list_fmap_ext.
  intros i [pg o] Hi. simpl.
  assert (o = 8 ∨ o = 4 ∨ o = 0) as [->|[->| ->]]; [|done..].
  rewrite Forall_lookup in Hb, Hm, Hs.
  apply lookup_app_Some in Hi as [Hi|[_ Hi]]; [left; by apply Hb in Hi as []|].
  apply lookup_app_Some in Hi as [Hi|[_ Hi]].
  - right; left. by apply Hm in Hi as [].
  - right; right. by apply Hs in Hi as [].
Qed.

Section Facts.
Context {K : Type} `{KernelLaws K}.
Implicit Types s : pm_state K.

(** One scan of [orders]: nothing obtained, or a block that fits. *)
Lemma try_orders_spec os sr mo s : os ⊆ orders →
  match try_orders os sr mo s with
  | (Done None, s') => files s' = files s ∧ live s' = live s
  | (Done (Some (pg, o)), s') => files s' = files s ∧ live s' = KInfo :: live s ∧
      o ∈ orders ∧ PAGE_SIZE * 2 ^ o ≤ sr ∧ o ≤ mo ∧ blk o (pg, o)
  | (Undefined, _) => True
  | _ => False
  end.
Proof.
  revert s; induction os as [|o os IH]; intros s Hsub; [done|].
  assert (os ⊆ orders) as Hsub' by set_solver.
  assert (o ∈ orders) as Ho by set_solver. simpl.
  destruct (bool_decide (Z.shiftl PAGE_SIZE o ≤ sr) && bool_decide (o ≤ mo)) eqn:C;
    [|by apply IH].
  apply andb_true_iff in C as [C1%bool_decide_eq_true C2%bool_decide_eq_true].
  unfold mbind, M_bind, kcall.
  destruct (alloc_pages o (kern s)) as [[pg|] k'] eqn:E;
    [|by apply (IH (mkPm k' (files s) (live s)))].
  apply alloc_pages_block in E.
  unfold kalloc, kcall, mbind, M_bind; simpl.
  destruct (kmalloc_ok k') as [[|] k'']; [|done]. simpl. split_and!; try done.
  rewrite shiftl_mul in C1; [done|]. by destruct (proj1 (orders_cases o) Ho) as [->|[->| ->]].
Qed.

(** The allocation loop, for a size that is a whole number of pages: it never
    runs out of its budget, keeps the blocks in descending order, and when it
    ends with a block in hand it has allocated the whole size. *)
Lemma alloc_loop_spec (fuel : nat) sr mo info bl s :
  sr mod PAGE_SIZE = 0 → sr < 2 ^ 63 → sr / PAGE_SIZE ≤ fuel → descending mo bl →
  match alloc_loop fuel sr mo info bl s with
  | (Done (i, bl'), s') => files s' = files s
      ∧ (∃ new, bl' = bl ++ new ∧ live s' = replicate (length new) KInfo ++ live s)
      ∧ (∃ mo', descending mo' bl')
      ∧ (0 < sr → i = true → blocks_size bl' = blocks_size bl + sr)
      ∧ (sr ≤ 0 → i = info ∧ bl' = bl)
  | (Undefined, _) => True
  | _ => False
  end.
Proof.
  revert sr mo info bl s; induction fuel as [|fuel IH];
    intros sr mo info bl s Hm Hb Hf Hd; cbn [alloc_loop]; destruct (decide (0 < sr)) as [Hp|Hp].
  - exfalso. unfold PAGE_SIZE in *. pose proof (Z.div_mod sr 4096). lia.
  - rewrite bool_decide_false by done. split_and!; [done| |by eexists|lia|done].
    exists []. by rewrite app_nil_r.
  - rewrite bool_decide_true by done.
    pose proof (try_orders_spec orders sr mo s ltac:(done)) as T.
    unfold mbind, M_bind. destruct (try_orders orders sr mo s) as [[[[pg o]|]| | | |] s1]; try done.
    + destruct T as (Ef & El & Ho & Hsz & Hmo & Hblk).
      assert (s64 (sr - Z.shiftl 1 o * PAGE_SIZE) = sr - PAGE_SIZE * 2 ^ o) as E.
      { destruct (proj1 (orders_cases o) Ho) as [->|[->| ->]]; rewrite shiftl_mul, s64_small;
          unfold PAGE_SIZE in *; lia. }
      rewrite E.
      assert (PAGE_SIZE * 2 ^ o = PAGE_SIZE ∨ PAGE_SIZE * 2 ^ o = PAGE_SIZE * 16 ∨
        PAGE_SIZE * 2 ^ o = PAGE_SIZE * 256) as Hpo
        by (destruct (proj1 (orders_cases o) Ho) as [->|[->| ->]]; tauto).
      specialize (IH (sr - PAGE_SIZE * 2 ^ o) o true (bl ++ [(pg, o)]) s1).
      rewrite blocks_size_snoc in IH.
      remember (PAGE_SIZE * 2 ^ o) as sz eqn:Esz.
      assert (0 < sz ∧ (sr - sz) mod PAGE_SIZE = 0 ∧ (sr - sz) / PAGE_SIZE ≤ fuel) as (?&?&?)
        by (clear Esz; unfold PAGE_SIZE in *; div_lia).
      destruct (alloc_loop fuel _ o true _ s1) as [[[i bl']| | | |] s2];
        try (apply IH; [done|lia|done|by eapply descending_snoc]).
      destruct IH as (Ef2 & (new & -> & El2) & Hd2 & Hi & Hz);
        [done|lia|done|by eapply descending_snoc|].
      split_and!; [congruence| |done| |lia].
      * exists ((pg, o) :: new). rewrite <-app_assoc, El2, El. simpl.
        split; [done|]. by rewrite cons_middle, app_assoc, <-replicate_S_end.
      * intros _ Hit. destruct (decide (0 < sr - sz)) as [Hgt|Hle].
        { rewrite Hi by done. lia. }
        destruct Hz as [_ Hz]; [lia|].
        rewrite Hz, blocks_size_snoc, <-Esz. lia.
    + destruct T as [Ef El]. split_and!; [done| |by eexists|done|lia].
      exists []. by rewrite app_nil_r.
  - rewrite bool_decide_false by done. split_and!; [done| |by eexists|lia|done].
    exists []. by rewrite app_nil_r.
Qed.

(** The length of the buffer: the request rounded up to whole pages. *)
Lemma page_align_len len : 1 ≤ len ≤ 2 ^ 62 →
  PAGE_ALIGN (round_up len 4096) = (len + 4095) / 4096 * 4096.
Proof.
  intros Hl. unfold PAGE_ALIGN, round_up, PAGE_SIZE.
  change (4096 - 1) with (2 ^ 12 - 1). rewrite (u64_small (len - 1)) by lia.
  rewrite lor_ones by lia. rewrite (u64_small (_ / _ * _ + _ + 1)) by div_lia.
  rewrite (u64_small (_ + (2 ^ 12 - 1))) by div_lia.
  rewrite ldiff_ones, u64_small by (try div_lia). div_lia.
Qed.

Lemma free_infos bl tail s : live s = replicate (length bl) KInfo ++ tail →
  for_each bl (λ _ : Z * Z, kfree KInfo) s = (Done tt, mkPm (kern s) (files s) tail).
Proof.
  revert s; induction bl as [|x bl IH]; intros s E; simpl in *.
  - destruct s; simpl in *. by subst.
  - rewrite (bind_Done _ _ _ tt (mkPm (kern s) (files s) (replicate (length bl) KInfo ++ tail))).
    + by rewrite IH.
    + unfold kfree, modify. by rewrite E.
Qed.

Lemma wp_kcall {A} ub (f : K → A * K) (Q : A → pm_state K → Prop) s :
  (∀ a k, f (kern s) = (a, k) → Q a (mkPm k (files s) (live s))) → wp ub (kcall f) Q s.
Proof. intros HQ. unfold wp, kcall. destruct (f (kern s)) as [a k]. by apply HQ. Qed.

Lemma wp_kalloc ub o (Q : bool → pm_state K → Prop) s :
  (∀ k, kmalloc_ok (kern s) = (true, k) → Q true (mkPm k (files s) (o :: live s))) →
  (∀ k, kmalloc_ok (kern s) = (false, k) → Q false (mkPm k (files s) (live s))) →
  wp ub (kalloc o) Q s.
Proof.
  intros HT HF. apply wp_bind, wp_kcall. intros [|] k E; wp_steps; auto.
Qed.

Lemma wp_alloc_loop (fuel : nat) sr mo info bl s (Q : bool * list (Z * Z) → pm_state K → Prop) :
  0 < sr < 2 ^ 63 → sr mod PAGE_SIZE = 0 → sr / PAGE_SIZE ≤ fuel → descending mo bl →
  (∀ i new mo' s', files s' = files s → live s' = replicate (length new) KInfo ++ live s →
     descending mo' (bl ++ new) → (i = true → blocks_size (bl ++ new) = blocks_size bl + sr) →
     Q (i, bl ++ new) s') →
  wp True (alloc_loop fuel sr mo info bl) Q s.
Proof.
  intros Hsr Hm Hf Hd HQ.
  pose proof (alloc_loop_spec fuel sr mo info bl s Hm ltac:(lia) Hf Hd) as L.
  unfold wp. destruct (alloc_loop _ _ _ _ _ s) as [[[i bl']| | | |] s']; try done.
  destruct L as (Ef & (new & -> & El) & [mo' Hd'] & Hsz & _).
  eapply HQ; eauto. intros. apply Hsz; [lia|done].
Qed.

Lemma wp_create_failed bl s :
  wp True (create_failed bl) (λ fd s', fd = - ENOMEM ∧ bl = [] ∧ files s' = files s
    ∧ live s' = remove_one KBuffer (live s)) s.
Proof. destruct bl; [by repeat split|]. by repeat wp_step. Qed.

Lemma wp_export_blocks len bl tail s :
  live s = replicate (length bl) KInfo ++ KTable :: KBuffer :: tail →
  wp True (export_blocks len bl) (λ fd s',
    (fd < 0 ∧ files s' = files s ∧ live s' = tail) ∨
    (0 ≤ fd ∧ files s' = <[fd := mkBuffer len 0 0 (block_sg <$> bl)]> (files s)
     ∧ live s' = KTable :: KBuffer :: tail)) s.
Proof.
  intros El. unfold export_blocks. apply wp_bind.
  eapply wp_eq; [by apply free_infos|]. apply wp_bind, wp_kcall.
  intros [|] k1 _; [|by repeat wp_step]. apply wp_bind, wp_kcall. intros fd k2 _.
  case_bool_decide; repeat wp_step; simpl; [left|right]; split_and!; try done; lia.
Qed.

Lemma create_wp len s : 1 ≤ len ≤ 2 ^ 62 →
  let L := (len + 4095) / 4096 * 4096 in
  wp True (portalmem_dmabuffer_create len) (λ fd s',
    (fd < 0 ∧ files s' = files s) ∨
    (0 ≤ fd ∧ ∃ sgl, files s' = <[fd := mkBuffer L 0 0 sgl]> (files s)
      ∧ live s' = KTable :: KBuffer :: live s
      ∧ sg_size sgl = L ∧ ((length sgl ≤ 255)%nat → sg_ok sgl))) s.
Proof.
  intros Hlen L. unfold portalmem_dmabuffer_create. rewrite page_align_len by done. fold L.
  assert (0 < L < 2 ^ 63 ∧ L mod PAGE_SIZE = 0) as [HL HLm]
    by (unfold L, PAGE_SIZE; div_lia).
  rewrite s64_small by lia.
  apply wp_bind, wp_kalloc; intros k1 _; [|by left].
  apply wp_bind, wp_kalloc; intros k2 _; [|by left].
  apply wp_bind, wp_alloc_loop; [done|done| |by exists [], [], []; split_and!; auto|].
  { rewrite Z2Nat.id; [done|]. apply Z.div_pos; unfold PAGE_SIZE; lia. }
  intros i bl mo s1 Ef El Hd Hsz. simpl in *. destruct i; simpl.
  - apply wp_bind, wp_kcall. intros ret k3 _. case_bool_decide.
    + eapply wp_mono; [by apply wp_export_blocks|]. simpl.
      intros fd s2 [(? & E & _)|(? & E & Elive)]; [left|right]; rewrite ?E, ?Ef; [done|].
      split; [done|]. exists (block_sg <$> bl). split_and!; [done..| |].
      * by rewrite (blocks_size_sg mo), Hsz.
      * rewrite length_fmap. by apply (descending_sg mo).
    + apply wp_bind, wp_modify. eapply wp_mono; [apply wp_create_failed|].
      intros fd s2 (-> & _ & E & _). left. by rewrite E.
  - eapply wp_mono; [apply wp_create_failed|].
    intros fd s2 (-> & _ & E & _). left. by rewrite E.
Qed.

(** A kernel with memory left: small allocations and single pages are granted. *)
Record healthy : Prop := {
  healthy_kmalloc : ∀ k : K, (kmalloc_ok k).1 = true;
  healthy_page : ∀ k : K, is_Some (alloc_pages 0 k).1;
  healthy_sg : ∀ n (k : K), (sg_alloc_table n k).1 = 0;
  healthy_export : ∀ k : K, (dma_buf_export k).1 = true;
  healthy_fd : ∀ k : K, 0 ≤ (dma_buf_fd k).1;
}.

Lemma kcall_run {A} (f : K → A * K) s :
  kcall f s = (Done (f (kern s)).1, mkPm (f (kern s)).2 (files s) (live s)).
Proof. unfold kcall. by destruct (f (kern s)). Qed.

Lemma kalloc_healthy o s : healthy → ∃ s', kalloc o s = (Done true, s').
Proof.
  intros Hk. unfold kalloc. erewrite bind_Done by apply kcall_run.
  rewrite (healthy_kmalloc Hk). by eexists.
Qed.

Lemma try_orders_healthy sr mo s : healthy → PAGE_SIZE ≤ sr → 0 ≤ mo →
  ∃ pg o s', try_orders orders sr mo s = (Done (Some (pg, o)), s').
Proof.
  intros Hk Hsr Hmo. unfold orders.
  assert (∀ os s, (∀ s, ∃ pg o s', try_orders os sr mo s = (Done (Some (pg, o)), s')) →
    ∀ o', ∃ pg o s', try_orders (o' :: os) sr mo s = (Done (Some (pg, o)), s')) as step.
  { intros os s0 IH o'. cbn [try_orders].
    destruct (bool_decide _ && bool_decide _); [|by apply IH].
    erewrite bind_Done by apply kcall_run.
    destruct (alloc_pages o' (kern s0)).1 as [pg|]; [|by apply IH].
    destruct (kalloc_healthy KInfo (mkPm (alloc_pages o' (kern s0)).2 (files s0) (live s0)) Hk)
      as [s2 E]. rewrite (bind_Done _ _ _ _ _ E). by do 3 eexists. }
  apply step. intros s1. apply step. intros s2. cbn [try_orders].
  rewrite bool_decide_true, bool_decide_true by done. simpl.
  erewrite bind_Done by apply kcall_run.
  destruct (healthy_page Hk (kern s2)) as [pg ->].
  destruct (kalloc_healthy KInfo (mkPm (alloc_pages 0 (kern s2)).2 (files s2) (live s2)) Hk)
    as [s3 E]. rewrite (bind_Done _ _ _ _ _ E). by do 3 eexists.
Qed.

Lemma alloc_loop_healthy (fuel : nat) sr mo info bl s : healthy →
  sr < 2 ^ 63 → sr mod PAGE_SIZE = 0 → sr / PAGE_SIZE ≤ fuel → 0 ≤ mo →
  (sr ≤ 0 → info = true) →
  ∃ bl' s', alloc_loop fuel sr mo info bl s = (Done (true, bl'), s').
Proof.
  intros Hk. revert sr mo info bl s; induction fuel as [|fuel IH];
    intros sr mo info bl s Hb Hm Hf Hmo Hi; cbn [alloc_loop];
    destruct (decide (0 < sr)) as [Hp|Hp];
    try (rewrite bool_decide_false, Hi by (done || lia); by do 2 eexists).
  - exfalso. unfold PAGE_SIZE in *. div_lia.
  - rewrite bool_decide_true by done.
    assert (PAGE_SIZE ≤ sr) as Hge by (unfold PAGE_SIZE in *; div_lia).
    pose proof (try_orders_spec orders sr mo s ltac:(done)) as T.
    destruct (try_orders_healthy sr mo s Hk Hge Hmo) as (pg & o & s1 & E).
    rewrite (bind_Done _ _ _ _ _ E). rewrite E in T.
    destruct T as (_ & _ & Ho & Hsz & _ & _).
    destruct (proj1 (orders_cases o) Ho) as [->|[->| ->]];
      (rewrite shiftl_mul by lia; rewrite s64_small by (unfold PAGE_SIZE in *; lia);
       apply IH; try done; unfold PAGE_SIZE in *; div_lia).
Qed.

Lemma export_healthy len bl s : healthy →
  ∃ fd s', export_blocks len bl s = (Done fd, s') ∧ 0 ≤ fd.
Proof.
  intros Hk. unfold export_blocks.
  erewrite bind_Done by by apply for_each_pure.
  erewrite bind_Done by apply kcall_run. rewrite (healthy_export Hk).
  erewrite bind_Done by apply kcall_run.
  pose proof (healthy_fd Hk) as Hfd. rewrite bool_decide_false by (apply Z.le_ngt, Hfd).
  by do 2 eexists.
Qed.

Lemma create_healthy len s : healthy → 1 ≤ len ≤ 2 ^ 62 →
  ∃ fd s', portalmem_dmabuffer_create len s = (Done fd, s') ∧ 0 ≤ fd.
Proof.
  intros Hk Hlen. unfold portalmem_dmabuffer_create. rewrite page_align_len by done.
  set (L := (len + 4095) / 4096 * 4096).
  assert (0 < L < 2 ^ 63 ∧ L mod PAGE_SIZE = 0) as [HL HLm]
    by (unfold L, PAGE_SIZE; div_lia).
  rewrite s64_small by lia.
  destruct (kalloc_healthy KBuffer s Hk) as [s1 E1]. rewrite (bind_Done _ _ _ _ _ E1).
  destruct (kalloc_healthy KTable s1 Hk) as [s2 E2]. simpl.
  rewrite (bind_Done _ _ _ _ _ E2).
  destruct (alloc_loop_healthy (Z.to_nat (L / PAGE_SIZE)) L 8 false [] s2 Hk)
    as (bl & s3 & E3); [lia|done| |lia|lia|].
  { rewrite Z2Nat.id; [done|]. apply Z.div_pos; unfold PAGE_SIZE; lia. }
  simpl. rewrite (bind_Done _ _ _ _ _ E3). erewrite bind_Done by apply kcall_run.
  rewrite (healthy_sg Hk). by apply export_healthy.
Qed.

End Facts.

(** ** Views of a buffer *)

(** Segments made of whole pages, as the allocator builds them. *)
Definition paged (e : sg_entry) : Prop :=
  0 < sg_len e < 2 ^ 32 ∧ sg_len e mod PAGE_SIZE = 0.

Lemma seg_any_paged e : seg_any e → paged e.
Proof. unfold paged. by intros [(-> & _)|[(-> & _)|(-> & _)]]. Qed.
Lemma sg_ok_paged sgl : sg_ok sgl → Forall paged sgl.
Proof. intros H%sg_ok_any. eapply Forall_impl; [done|apply seg_any_paged]. Qed.
Lemma sg_size_nonneg sgl : Forall paged sgl → 0 ≤ sg_size sgl.
Proof.
  intros Hp. unfold sg_size. apply zsum_nonneg, Forall_fmap.
  eapply Forall_impl; [done|]. intros e [[] _]. simpl. lia.
Qed.
Lemma sg_size_cons e sgl : sg_size (e :: sgl) = sg_len e + sg_size sgl.
Proof. done. Qed.
Lemma sg_size_max sgl : Forall seg_any sgl → sg_size sgl ≤ 2 ^ 20 * length sgl.
Proof.
  induction 1 as [|e sgl He Hs IH]; [done|]. rewrite sg_size_cons. cbn [length].
  assert (sg_len e ≤ 2 ^ 20) by (by destruct He as [(-> & _)|[(-> & _)|(-> & _)]]). lia.
Qed.
Lemma sg_lookup_none sgl off : Forall paged sgl → sg_size sgl ≤ off → sg_lookup sgl off = None.
Proof.
  intros Hp; revert off; induction Hp as [|e sgl [] Hp IH]; intros off Hoff; [done|].
  rewrite sg_size_cons in Hoff. pose proof (sg_size_nonneg sgl Hp). cbn [sg_lookup].
  rewrite bool_decide_false by lia. apply IH. lia.
Qed.
Lemma sg_lookup_some sgl off : Forall paged sgl → 0 ≤ off < sg_size sgl →
  is_Some (sg_lookup sgl off).
Proof.
  intros Hp; revert off; induction Hp as [|e sgl [] Hp IH]; intros off Hoff;
    [unfold sg_size in *; simpl in *; lia|].
  rewrite sg_size_cons in Hoff. cbn [sg_lookup].
  case_bool_decide; [by eexists|]. apply IH. lia.
Qed.

Lemma vma_locate_spec sgl off maddr : Forall paged sgl →
  0 ≤ off < sg_size sgl → sg_size sgl < 2 ^ 31 →
  sg_lookup sgl off = Some (vma_locate sgl off maddr).
Proof.
  intros Hp; revert off maddr; induction Hp as [|e sgl [] Hp IH];
    intros off maddr Hoff Hmax; [unfold sg_size in *; simpl in *; lia|].
  rewrite sg_size_cons in Hoff, Hmax. cbn [sg_lookup vma_locate].
  pose proof (sg_size_nonneg sgl Hp).
  rewrite u32_small by lia. case_bool_decide; [done|].
  rewrite s32_small by lia. apply IH; lia.
Qed.

(** Address translation of a list of mappings. *)
Fixpoint map_lookup (ms : list mapping) (va : Z) : option Z :=
  match ms with
  | [] => None
  | m :: ms =>
      if bool_decide (map_va m ≤ va < map_va m + map_len m)
      then Some (map_pa m + (va - map_va m)) else map_lookup ms va
  end.

Lemma mmap_segments_spec sgl addr offset vm_end va :
  Forall paged sgl → 0 ≤ offset → offset mod PAGE_SIZE = 0 → addr < vm_end →
  addr ≤ va < vm_end →
  map_lookup (mmap_segments sgl addr offset vm_end) va = sg_lookup sgl (offset + (va - addr)).
Proof.
  intros Hp; revert addr offset; induction Hp as [|e sgl [He Hm] Hp IH];
    intros addr offset Ho Hom Hlt Hva; cbn [mmap_segments sg_lookup map_lookup]; [done|].
  destruct (decide (sg_len e ≤ offset)) as [Hs|Hs].
  - rewrite (bool_decide_true (sg_len e ≤ offset)) by done.
    rewrite (bool_decide_false (_ < sg_len e)) by lia.
    rewrite IH by (try done; unfold PAGE_SIZE in *; div_lia). f_equal. lia.
  - rewrite (bool_decide_false (sg_len e ≤ offset)) by done. cbn [map_lookup map_va map_pa map_len].
    replace (offset / PAGE_SIZE * PAGE_SIZE) with offset by (unfold PAGE_SIZE in *; div_lia).
    destruct (decide (offset + (va - addr) < sg_len e)) as [Hin|Hin].
    + rewrite (bool_decide_true (addr ≤ va < _)) by lia.
      rewrite (bool_decide_true (_ < sg_len e)) by done. f_equal. lia.
    + rewrite (bool_decide_false (addr ≤ va < _)), (bool_decide_false (_ < sg_len e)) by lia.
      rewrite Z.min_l by lia. rewrite bool_decide_false by lia.
      rewrite IH by (try done; lia). f_equal. lia.
Qed.

(** Mapping a shared buffer into a process: every address of the mapped
    range, and only the bytes the buffer has, is backed by the buffer byte at
    the corresponding file offset. *)
Lemma pa_dma_buf_mmap_backed b vm_start vm_end vm_pgoff va :
  sg_ok (sg_table b) → 0 ≤ vm_pgoff < 2 ^ 51 → vm_start ≤ va < vm_end →
  map_lookup (pa_dma_buf_mmap b vm_start vm_end vm_pgoff) va =
    sg_lookup (sg_table b) (vm_pgoff * PAGE_SIZE + (va - vm_start)).
Proof.
  intros Hok Hp Hva. unfold pa_dma_buf_mmap.
  rewrite u64_small by (unfold PAGE_SIZE; lia).
  apply mmap_segments_spec; [by apply sg_ok_paged|unfold PAGE_SIZE; lia| |lia|lia].
  unfold PAGE_SIZE. by rewrite Z.mod_mul.
Qed.

(** A debugger or /proc access through the mapping (custom_vma_access)
    reaches exactly the buffer byte at the given offset, for every offset of a
    buffer below 2 GB. *)
Lemma custom_vma_access_locates b vm_start addr len :
  sg_ok (sg_table b) → 0 ≤ addr - vm_start < sg_size (sg_table b) →
  sg_size (sg_table b) < 2 ^ 31 →
  ∃ pa, custom_vma_access (Some b) vm_start addr len = inr (pa, len) ∧
    sg_lookup (sg_table b) (addr - vm_start) = Some pa.
Proof.
  intros Hok%sg_ok_paged Ho Hs. eexists; split; [done|].
  rewrite s32_small by lia. by apply vma_locate_spec.
Qed.

(** *** CPU access *)

Lemma page_align_paged e : paged e → PAGE_ALIGN (sg_len e) = sg_len e.
Proof.
  intros [Hl Hm]. unfold PAGE_ALIGN, PAGE_SIZE in *.
  change (4096 - 1) with (2 ^ 12 - 1).
  rewrite (u64_small (_ + _)) by lia. rewrite ldiff_ones, u64_small by (try div_lia). div_lia.
Qed.

(** The frames of a segment list are the frames of its successive pages. *)
Lemma cpu_pages_spec sgl i npages : Forall paged sgl → i + sg_size sgl / PAGE_SIZE ≤ npages →
  ∃ pages, cpu_pages i npages sgl = Some pages ∧
    PAGE_SIZE * length pages = sg_size sgl ∧
    ∀ j : nat, pages !! j = sg_lookup sgl (j * PAGE_SIZE).
Proof.
  intros Hp; revert i; induction Hp as [|e sgl He Hp IH]; intros i Hi; [by exists []|].
  rewrite sg_size_cons in *. pose proof (sg_size_nonneg sgl Hp) as Hnn.
  cbn [cpu_pages sg_lookup]. rewrite page_align_paged by done. destruct He as [Hl Hm].
  rewrite bool_decide_false by (unfold PAGE_SIZE in *; div_lia).
  destruct (IH (i + 1)) as (pages & -> & Hlen & Hat); [unfold PAGE_SIZE in *; div_lia|].
  simpl. eexists; split; [done|].
  assert (PAGE_SIZE * Z.to_nat (sg_len e / PAGE_SIZE) = sg_len e) as En
    by (rewrite Z2Nat.id; unfold PAGE_SIZE in *; div_lia).
  set (n := Z.to_nat (sg_len e / PAGE_SIZE)) in *. clearbody n. split.
  - rewrite length_app, length_fmap, length_seq, Nat2Z.inj_add. lia.
  - intros j. case_bool_decide as Hj.
    + rewrite lookup_app_l by (rewrite length_fmap, length_seq; unfold PAGE_SIZE in *; lia).
      rewrite list_lookup_fmap, lookup_seq_lt by (unfold PAGE_SIZE in *; lia). done.
    + rewrite lookup_app_r, length_fmap, length_seq
        by (rewrite length_fmap, length_seq; unfold PAGE_SIZE in *; lia).
      rewrite Hat. f_equal. unfold PAGE_SIZE in *. lia.
Qed.

Lemma page_align_size b sgl : Forall paged sgl → sg_size sgl < 2 ^ 63 → b = sg_size sgl →
  PAGE_ALIGN b = b ∧ b mod PAGE_SIZE = 0.
Proof.
  intros Hp Hs ->. pose proof (sg_size_nonneg sgl Hp).
  assert (sg_size sgl mod PAGE_SIZE = 0) as Hm.
  { clear Hs H. induction Hp as [|e sgl [_ He] Hp IH]; [done|].
    rewrite sg_size_cons. unfold PAGE_SIZE in *. div_lia. }
  split; [|done]. unfold PAGE_ALIGN, PAGE_SIZE in *.
  change (4096 - 1) with (2 ^ 12 - 1).
  rewrite (u64_small (_ + _)) by lia. rewrite ldiff_ones, u64_small by (try div_lia). div_lia.
Qed.

(** A buffer is mapped into the kernel exactly while somebody uses it. *)
Definition cpu_ok (b : pa_buffer) : Prop :=
  0 ≤ kmap_cnt b ∧ (vaddr b = 0 ↔ kmap_cnt b = 0) ∧
  Forall paged (sg_table b) ∧ size b = sg_size (sg_table b) ∧ size b < 2 ^ 63.

Section CpuFacts.
Context {K : Type} `{Kernel K}.

(** Preparing a buffer for CPU access never overruns the page array and
    never trips its BUG_ON; it keeps the invariant that the kernel mapping
    exists exactly while the use count is positive, and reports -ENOMEM with the
    buffer unchanged when there is no mapping.  When a mapping is made, page
    [j] of it is the frame that holds byte [j*4096] of the buffer. *)
Lemma begin_cpu_access_spec (k : K) b : cpu_ok b → kmap_cnt b < 2 ^ 31 - 1 →
  wp False pa_dma_buf_begin_cpu_access (λ r s', cpu_ok s'.2 ∧
    ((r = - ENOMEM ∧ s'.2 = b) ∨
     (r = 0 ∧ kmap_cnt s'.2 = kmap_cnt b + 1 ∧
      (kmap_cnt b ≠ 0 → vaddr s'.2 = vaddr b) ∧
      (kmap_cnt b = 0 → ∃ pages k1, vaddr s'.2 = (vmap pages k1).1 ∧
         ∀ j : nat, pages !! j = sg_lookup (sg_table b) (j * PAGE_SIZE))))) (k, b).
Proof.
  intros (Hc & Hv & Hp & Hs & Hb) Hmax. destruct b as [sz cnt va sgl]; simpl in *.
  unfold pa_dma_buf_begin_cpu_access. wp_steps. simpl.
  rewrite s32_small by lia.
  assert (∀ v, v ≠ 0 → cpu_ok (mkBuffer sz (cnt + 1) v sgl)) as Hok.
  { intros v Hne. unfold cpu_ok; simpl.
    split_and!; try done; lia. }
  case_bool_decide as Hz.
  2:{ wp_steps. rewrite !bool_decide_false by tauto. wp_steps.
      split; [apply Hok; tauto|right]. by split_and!. }
  wp_steps. simpl. destruct (vmalloc_ok k) as [[|] k1]; wp_steps; simpl.
  2:{ assert (va = 0) as -> by tauto. rewrite !bool_decide_true by done. wp_steps.
      split; [by split_and!|by left]. }
  destruct (page_align_size sz sgl Hp ltac:(lia) Hs) as [-> Hmod].
  destruct (cpu_pages_spec sgl 0 (sz / PAGE_SIZE) Hp) as (pages & -> & Hlen & Hat);
    [rewrite Hs; lia|].
  rewrite bool_decide_true by (unfold PAGE_SIZE in *; div_lia). wp_steps. simpl.
  destruct (vmap pages k1) as [v k2] eqn:Ev. wp_steps. simpl.
  case_bool_decide as Hv0; wp_steps; simpl.
  - split; [by split_and!|by left].
  - split; [by apply Hok|right]. split_and!; try done. intros _. exists pages, k1. by rewrite Ev.
Qed.

(** Releasing a CPU access drops one use and removes the mapping with the
    last one; after n successful acquisitions and n releases the buffer is
    unmapped again. *)
Lemma end_cpu_access_spec (k : K) b : cpu_ok b → 0 < kmap_cnt b < 2 ^ 31 →
  wp False pa_dma_buf_end_cpu_access (λ _ s', cpu_ok s'.2 ∧ s'.1 = k ∧
    kmap_cnt s'.2 = kmap_cnt b - 1 ∧ (kmap_cnt b = 1 → vaddr s'.2 = 0) ∧
    (kmap_cnt b ≠ 1 → vaddr s'.2 = vaddr b)) (k, b).
Proof.
  intros (Hc & Hv & Hp & Hs & Hb) Hpos. destruct b as [sz cnt va sgl]; simpl in *.
  unfold pa_dma_buf_end_cpu_access. wp_steps. simpl. rewrite s32_small by lia.
  unfold cpu_ok; simpl.
  case_bool_decide; split_and!; simpl; try done; try lia; split; intros; lia || tauto.
Qed.
End CpuFacts.

(** ** Running out of memory *)
Section Failure.
Context {K : Type} `{Kernel K}.
Hypothesis small_ok : ∀ k : K, (kmalloc_ok k).1 = true.
Hypothesis no_pages : ∀ o (k : K), (alloc_pages o k).1 = None.

Lemma try_orders_none os sr mo (s : pm_state K) :
  ∃ k, try_orders os sr mo s = (Done None, mkPm k (files s) (live s)).
Proof.
  revert s; induction os as [|o os IH]; intros s; [destruct s; by eexists|]. simpl.
  case_match; [|apply IH]. unfold kcall, mbind, M_bind.
  pose proof (no_pages o (kern s)) as E.
  destruct (alloc_pages o (kern s)) as [[pg|] k]; [done|].
  apply (IH (mkPm k (files s) (live s))).
Qed.

(** When the page allocator has nothing left, portalmem_dmabuffer_create
    reports -ENOMEM and no descriptor appears, but of the two structures it had
    allocated only the pa_buffer is freed: the sg_table is lost. *)
Lemma dmabuffer_create_no_pages len (s : pm_state K) : 1 ≤ len ≤ 2 ^ 62 →
  wp False (portalmem_dmabuffer_create len) (λ r s',
    r = - ENOMEM ∧ files s' = files s ∧ live s' = KTable :: live s) s.
Proof.
  intros Hlen. unfold portalmem_dmabuffer_create. rewrite page_align_len by done.
  rewrite s64_small by div_lia. set (L := (len + 4095) / 4096 * 4096).
  apply wp_bind, wp_kalloc; intros k1 E1; [|by specialize (small_ok (kern s)); rewrite E1 in small_ok].
  apply wp_bind, wp_kalloc; intros k2 E2; [|by specialize (small_ok k1); simpl in *; rewrite E2 in small_ok].
  cbn [negb]. apply wp_bind.
  set (s2 := mkPm k2 _ _). destruct (try_orders_none orders L (nth 0 orders 0) s2) as [k3 E3].
  assert (0 < L) by (unfold L; div_lia).
  assert (Z.to_nat (L / PAGE_SIZE) = S (Nat.pred (Z.to_nat (L / PAGE_SIZE)))) as EL
    by (unfold L, PAGE_SIZE; rewrite Z.div_mul by lia; div_lia).
  eapply wp_eq.
  { rewrite EL. cbn [alloc_loop]. rewrite bool_decide_true by done.
    rewrite (bind_Done _ _ _ _ _ E3). done. }
  unfold wp. by repeat split.
Qed.
End Failure.

(** ** From allocation to translation *)
Section EndToEnd.
Context {K : Type} `{KernelLaws K}.

(** C2.  End to end: allocate a buffer, hand its descriptor to the hardware.
    Every byte offset of the buffer is then translated by the DMA engine to the
    physical address at which a process that maps the descriptor sees that byte,
    and every offset beyond the buffer is refused. *)
Theorem create_send_mmap_agree len (s : pm_state K) fd s' b p id d va :
  1 ≤ len ≤ 2 ^ 62 → portalmem_dmabuffer_create len s = (Done fd, s') → 0 ≤ fd →
  files s' !! fd = Some b → (length (sg_table b) ≤ 255)%nat →
  0 ≤ id < 32 → ready p d →
  let L := (len + 4095) / 4096 * 4096 in
  ∃ d', send_fd_to_portal (λ fd, sg_table <$> files s' !! fd) p fd id d = (Done id, d') ∧
    (∀ off, 0 ≤ off < L →
      is_Some (mmu_translate (DmaHw.mmu d') id off) ∧
      mmu_translate (DmaHw.mmu d') id off =
        map_lookup (pa_dma_buf_mmap b va (va + L) 0) (va + off)) ∧
    (∀ off, L ≤ off < 2 ^ 40 → mmu_translate (DmaHw.mmu d') id off = None).
Proof.
  intros Hlen E Hfd Hb Hl Hid R L.
  pose proof (create_wp len s Hlen) as W. fold L in W. unfold wp in W. rewrite E in W.
  clearbody L. destruct W as [[]|(_ & sgl & Ef & _ & Hs & Hok)]; [lia|].
  rewrite Ef, lookup_insert_eq in Hb. simplify_eq. simpl in *. specialize (Hok Hl).
  pose proof (sg_ok_paged _ Hok) as Hpg. pose proof Hok as [(b & m & t & Esg & Hb & Hm & Ht) _].
  destruct (send_fd_hw (λ fd, sg_table <$> files s' !! fd) p fd id d b m t)
    as (d' & Ed & _ & P & _); try done.
  { by rewrite Ef, lookup_insert_eq, <-Esg. }
  { by rewrite <-Esg. }
  assert (∀ off, 0 ≤ off < 2 ^ 40 → mmu_translate (DmaHw.mmu d') id off = sg_lookup sgl off)
    as T by (intros off ?; rewrite Esg; apply mmu_translate_walk; try done; by rewrite <-Esg).
  assert (sg_size sgl ≤ 2 ^ 40) as Hmax.
  { pose proof (sg_size_max sgl (sg_ok_any _ Hok)). lia. }
  pose proof (sg_size_nonneg sgl Hpg).
  exists d'. split; [done|]. split; intros off Hoff; rewrite T by lia.
  - split; [apply sg_lookup_some; [done|lia]|]. unfold pa_dma_buf_mmap.
    change (u64 (0 * PAGE_SIZE)) with 0.
    rewrite mmap_segments_spec by (done || simpl; lia). simpl. f_equal. lia.
  - apply sg_lookup_none; [done|lia].
Qed.
End EndToEnd.

(** ** Concrete kernels *)

(** A bump allocator of physical blocks that starts over at the 40-bit limit. *)
Definition bump_alloc (o : Z) (next : N) : option Z * N :=
  if bool_decide (0 ≤ o ≤ 28) then
    let sz := PAGE_SIZE * 2 ^ o in
    let a := (Z.of_N next + (sz - 1)) / sz * sz in
    let a := if bool_decide (a + sz ≤ 2 ^ 40) then a else 0 in
    (Some a, Z.to_N (a + sz))
  else (None, next).
#[export] Instance bump_kernel : Kernel N := {
  alloc_pages := bump_alloc;
  kmalloc_ok k := (true, k);
  sg_alloc_table _ k := (0, k);
  dma_buf_export k := (true, k);
  dma_buf_fd k := (4, k);
  vmalloc_ok k := (true, k);
  vmap _ k := (0xffff0000, k);
}.
#[export] Instance bump_laws : KernelLaws N.
Proof.
  intros o k pg k'. simpl. unfold bump_alloc. case_bool_decide as Ho; [|done].
  intros [= <- _].
  assert (0 < 2 ^ o ≤ 2 ^ 28) as Hp
    by (split; [apply Z.pow_pos_nonneg|apply Z.pow_le_mono_r]; lia).
  unfold PAGE_SIZE. case_bool_decide.
  - split_and!; [|done|by apply Z.mod_mul; lia]. apply Z.mul_nonneg_nonneg; [|lia].
    apply Z.div_pos; lia.
  - split_and!; [lia| |by apply Z.mod_0_l; lia]. lia.
Qed.
Lemma bump_healthy : healthy (K := N).
Proof. split; simpl; try done; by eexists. Qed.

(** A kernel with no page left. *)
#[export] Instance empty_kernel : Kernel unit := {
  alloc_pages _ k := (None, k);
  kmalloc_ok k := (true, k);
  sg_alloc_table _ k := (0, k);
  dma_buf_export k := (true, k);
  dma_buf_fd k := (4, k);
  vmalloc_ok k := (true, k);
  vmap _ k := (0xffff0000, k);
}.
(** A kernel with exactly [n] single pages left. *)
#[export] Instance scarce_kernel : Kernel nat := {
  alloc_pages o k := match k with
    | S k' => if bool_decide (o = 0) then (Some (PAGE_SIZE * k), k') else (None, k)
    | O => (None, O) end;
  kmalloc_ok k := (true, k);
  sg_alloc_table _ k := (0, k);
  dma_buf_export k := (true, k);
  dma_buf_fd k := (4, k);
  vmalloc_ok k := (true, k);
  vmap _ k := (0xffff0000, k);
}.

(** Exhaustion after the first block: the cleanup loop reads freed memory. *)
Example dmabuffer_create_exhausted :
  (portalmem_dmabuffer_create 8192 (mkPm 1%nat ∅ [])).1 = Undefined.
Proof. by vm_compute. Qed.

Definition demo_pm : pm_state N := mkPm 0x123000%N ∅ [].
Definition demo_buffer : pa_buffer := mkBuffer (sg_size demo_sgl) 0 0 demo_sgl.


Lemma demo_cpu_ok cnt va : 0 ≤ cnt → (va = 0 ↔ cnt = 0) →
  cpu_ok (mkBuffer (sg_size demo_sgl) cnt va demo_sgl).
Proof.
  intros Hc Hv. split_and!; try done. apply sg_ok_paged, demo_sgl_ok.
Qed.

Lemma create_send_mmap_agree_witness :
  let s' := (portalmem_dmabuffer_create 70000 demo_pm).2 in
  ∃ d', send_fd_to_portal (λ fd, sg_table <$> files s' !! fd) demo_portal 4 2 demo_dev
      = (Done 2, d') ∧
    ∃ b, files s' !! 4 = Some b ∧
    (∀ off, 0 ≤ off < 73728 →
      is_Some (mmu_translate (DmaHw.mmu d') 2 off) ∧
      mmu_translate (DmaHw.mmu d') 2 off =
        map_lookup (pa_dma_buf_mmap b 0x400000 (0x400000 + 73728) 0) (0x400000 + off)) ∧
    (∀ off, 73728 ≤ off < 2 ^ 40 → mmu_translate (DmaHw.mmu d') 2 off = None).
Proof.
  intros s'. destruct (files s' !! 4) as [b|] eqn:Eb; [|by vm_compute in Eb].
  destruct (create_send_mmap_agree 70000 demo_pm 4 s' b demo_portal 2 demo_dev 0x400000)
    as (d' & Ed & Ha & Hb).
  - lia.
  - subst s'. by vm_compute.
  - lia.
  - exact Eb.
  - subst s'. vm_compute in Eb. injection Eb as <-. vm_compute. lia.
  - lia.
  - exact demo_ready.
  - exists d'. split; [exact Ed|]. exists b. by split_and!.
Defined.
