(* ===== verification/Directory.v ===== *)
(** * Portal initialisation and the directory (src/cpp/portal.c)

    Every portal of a design is listed in a directory, itself portal 0.
    init_portal_internal looks an interface id up there and maps the register
    window of the portal found.  The system calls are an interface, the class
    [OS]; [DirHw] is the directory hardware of src/bsv/Directory.bsv together
    with device nodes that map the windows of one board. *)
From stdpp Require Import base list gmap numbers strings.
From S2P Require Import Prelude Portal SendFd.
Local Open Scope Z_scope.

(** [cpp/portal.h:39-47] PORTAL_DIRECTORY_OFFSET .. PORTAL_DIRECTORY_PORTAL_TYPE:
    word indices into the window of the directory *)
Definition PORTAL_DIRECTORY_OFFSET (A : Z) : Z := 128 + A.
Definition PORTAL_DIRECTORY_VERSION : Z := PORTAL_DIRECTORY_OFFSET 0.
Definition PORTAL_DIRECTORY_TIMESTAMP : Z := PORTAL_DIRECTORY_OFFSET 1.
Definition PORTAL_DIRECTORY_NUMPORTALS : Z := PORTAL_DIRECTORY_OFFSET 2.
Definition PORTAL_DIRECTORY_ADDRBITS : Z := PORTAL_DIRECTORY_OFFSET 3.
Definition PORTAL_DIRECTORY_COUNTER_MSB : Z := PORTAL_DIRECTORY_OFFSET 4.
Definition PORTAL_DIRECTORY_COUNTER_LSB : Z := PORTAL_DIRECTORY_OFFSET 5.
Definition PORTAL_DIRECTORY_PORTAL_ID (A : Z) : Z := PORTAL_DIRECTORY_OFFSET (6 + 2 * A).
Definition PORTAL_DIRECTORY_PORTAL_TYPE (A : Z) : Z := PORTAL_DIRECTORY_OFFSET (6 + 2 * A + 1).

(** The build targets of portal.c, chosen by preprocessor symbols. *)
Inductive target := PCIE | ZYNQ | KERNEL | BSIM.
#[export] Instance target_eq_dec : EqDecision target.
Proof. solve_decision. Defined.

(** [drivers/zynqportal/zynqportal.h:16-20] PortalClockRequest *)
Record PortalClockRequest := mkClockRequest {
  clknum : Z; requested_rate : Z; actual_rate : Z }.

(** The files portal.c opens: "/dev/fpga%d" and the two prog_done nodes. *)
Inductive path := DevFpga (n : Z) | ProgDoneAmba0 | ProgDoneAmba2.

(** The operating system as portal.c uses it.  Results are the C results;
    [sys_read_byte] is [Some c] when a one-byte read returned 1. *)
Class OS (D : Type) := {
  sys_open : path → M D Z;
  sys_close : Z → M D ();
  sys_read_byte : Z → M D (option Z);
  sys_errno : M D Z;
  sys_mmap : Z → Z → M D Z;
  ioctl_enable_interrupt : Z → Z → Z → M D Z;
  ioctl_set_fclk_rate : Z → PortalClockRequest → M D (Z * PortalClockRequest);
  ioctl_trace : Z → Z → M D Z;
  ioctl_dcache_flush_inval : Z → Z → M D Z;
  ioctl_pa_malloc : Z → Z → M D Z;
  connect_to_bsim : M D ();
  get_pcie_bar2io : M D Z;
}.
Definition MAP_FAILED : Z := -1.

(** [cpp/portal.c:51-56] the static data of portal.c (with the [once] flag of
    init_directory), and the world it runs in *)
Record lib (D : Type) := mkLib {
  once : bool;
  globalDirectory : PortalInternal;
  global_pa_fd : Z;
  bar2io : Z;
  dev : D;
}.
Arguments mkLib {D} _ _ _ _ _.
Arguments once {D} _.
Arguments globalDirectory {D} _.
Arguments global_pa_fd {D} _.
Arguments bar2io {D} _.
Arguments dev {D} _.

Definition zeroed : PortalInternal := mkPortalInternal 0 0 0 0 0 None.
Definition lib_init {D} (d : D) : lib D := mkLib false zeroed (-1) 0 d.

Section Portal.
Context {D : Type} `{Bus D} `{OS D} (tgt : target).
Abbreviation L := (M (lib D)).

Definition on_dev {A} (m : M D A) : L A :=
  λ s, let '(r, d) := m (dev s) in
       (r, mkLib (once s) (globalDirectory s) (global_pa_fd s) (bar2io s) d).

(** READL(&globalDirectory, ...) of a directory word *)
Definition dir_read (i : Z) : L Z :=
  g ← gets globalDirectory; on_dev (READL g (reg_addr g i)).

(** [cpp/portal.c:187-190] portalGetFpga: the scan from index [i] *)
Fixpoint fpga_scan (id i : Z) (n : nat) : L Z :=
  match n with
  | O => mret 0
  | S n => v ← dir_read (PORTAL_DIRECTORY_PORTAL_ID i);
           if bool_decide (v = u32 id) then mret (u32 (i + 1)) else fpga_scan id (i + 1) n
  end.

(** [cpp/portal.c:182-194] portalGetFpga; [init] is the call of init_directory.
    The count is read into an int, a negative one gives an empty loop. *)
Definition portalGetFpga_with (init : L ()) (id : Z) : L Z :=
  init;;
  n ← dir_read PORTAL_DIRECTORY_NUMPORTALS;
  fpga_scan id 0 (Z.to_nat (s32 n)).

(** [cpp/portal.c:196-200] portalGetAddrbits *)
Definition portalGetAddrbits_with (init : L ()) : L Z :=
  init;; dir_read PORTAL_DIRECTORY_ADDRBITS.

(** [cpp/portal.c:103-122] init_portal_internal: from the opened descriptor to
    the mapping; a non-zero [rc] ends in exit(1) *)
Definition map_window (pint : PortalInternal) (addrbits : Z) : L PortalInternal :=
  let fail (p : PortalInternal) : L PortalInternal :=
    e ← on_dev sys_errno;
    if bool_decide (s32 (- e) = 0) then mret p else exit 1 in
  if bool_decide (fpga_fd pint < 0) then fail pint
  else
    a ← on_dev (sys_mmap (fpga_fd pint) (Z.shiftl 1 addrbits));
    let pint := mkPortalInternal (poller pint) (fpga_fd pint) (fpga_number pint) a
                  (parent pint) (handler pint) in
    if bool_decide (a = MAP_FAILED) then fail pint else mret pint.

Definition with_fd (p : PortalInternal) (fd : Z) : PortalInternal :=
  mkPortalInternal (poller p) fd (fpga_number p) (map_base p) (parent p) (handler p).

(** [cpp/portal.c:58-123] init_portal_internal; [init] is the call of
    init_directory, the result the structure stored at [pint] *)
Definition init_portal_internal_with (init : L ()) (id : Z) (h : option string) :
    L PortalInternal :=
  init;;
  '(num, addrbits) ←
    (if bool_decide (id = -1) then mret (0, 16)
     else num ← portalGetFpga_with init id;
          bits ← portalGetAddrbits_with init;
          mret (s32 num, s32 bits));
  let pint := mkPortalInternal 0 (-1) num 0 0 h in
  match tgt with
  | BSIM => on_dev connect_to_bsim;; mret pint
  | KERNEL =>
      b ← gets bar2io;
      mret (mkPortalInternal 0 (-1) num (b + num * PORTAL_BASE_OFFSET) 0 h)
  | PCIE =>
      fd ← on_dev (sys_open (DevFpga num));
      map_window (with_fd pint fd) addrbits
  | ZYNQ =>
      pg0 ← on_dev (sys_open ProgDoneAmba0);
      pgfile ← (if bool_decide (pg0 = -1) then on_dev (sys_open ProgDoneAmba2) else mret pg0);
      if bool_decide (pgfile = -1) then exit 1
      else
        st ← on_dev (sys_read_byte pgfile);
        if bool_decide (st = Some 49) then     (* '1' *)
          on_dev (sys_close pgfile);;
          fd ← on_dev (sys_open (DevFpga num));
          on_dev (ioctl_enable_interrupt fd (Z.shiftl 3 14) (Z.shiftl 3 14 + 4));;
          map_window (with_fd pint fd) addrbits
        else exit 1
  end.

(** [cpp/portal.c:166-179] init_directory: the listing of the directory *)
Definition list_directory : L () :=
  dir_read PORTAL_DIRECTORY_TIMESTAMP;;
  n ← dir_read PORTAL_DIRECTORY_NUMPORTALS;
  dir_read PORTAL_DIRECTORY_VERSION;;
  dir_read PORTAL_DIRECTORY_ADDRBITS;;
  for_each (seq 0 (Z.to_nat (Z.min n 32))) (λ i : nat,
    dir_read (PORTAL_DIRECTORY_PORTAL_ID i);;
    dir_read (PORTAL_DIRECTORY_PORTAL_TYPE i);; mret tt).

(** [cpp/portal.c:142-180] init_directory.  It calls init_portal_internal, which
    calls it back; [depth] bounds that recursion (one level is enough). *)
Fixpoint init_directory (depth : nat) : L () :=
  o ← gets once;
  if o : bool then mret tt
  else
    match depth with
    | O => no_fuel
    | S depth =>
        modify (λ s, mkLib true (globalDirectory s) (global_pa_fd s) (bar2io s) (dev s));;
        (if bool_decide (tgt = KERNEL) then
           b ← on_dev get_pcie_bar2io;
           modify (λ s, mkLib (once s) (globalDirectory s) (global_pa_fd s) b (dev s))
         else mret tt);;
        g ← init_portal_internal_with (init_directory depth) (-1) None;
        modify (λ s, mkLib (once s) g (global_pa_fd s) (bar2io s) (dev s));;
        (if bool_decide (tgt = ZYNQ) then
           on_dev (ioctl_set_fclk_rate (fpga_fd g) (mkClockRequest 0 100000000 0));; mret tt
         else mret tt);;
        list_directory
    end.

(** [cpp/portal.c:58-123] init_portal_internal *)
Definition init_portal_internal := init_portal_internal_with (init_directory 1).

(** [cpp/portal.c:182-194] portalGetFpga *)
Definition portalGetFpga := portalGetFpga_with (init_directory 1).

(** [cpp/portal.c:196-200] portalGetAddrbits *)
Definition portalGetAddrbits (id : Z) := portalGetAddrbits_with (init_directory 1).

(** [cpp/portal.c:125-140] setClockFrequency: the status and the value stored
    through [actualFrequency], [None] when nothing is stored *)
Definition setClockFrequency (clkNum requestedFrequency : Z) (wanted : bool) :
    L (Z * option Z) :=
  init_directory 1;;
  if bool_decide (tgt = ZYNQ) then
    g ← gets globalDirectory;
    '(status, r) ← on_dev (ioctl_set_fclk_rate (fpga_fd g)
                             (mkClockRequest clkNum requestedFrequency 0));
    let stored := if bool_decide (status = 0) && wanted then Some (actual_rate r) else None in
    if bool_decide (status < 0) then e ← on_dev sys_errno; mret (e, stored)
    else mret (status, stored)
  else mret (0, None).

Definition set_trace (on : Z) : L () :=
  init_directory 1;;
  if bool_decide (tgt = ZYNQ) || bool_decide (tgt = KERNEL) then mret tt
  else g ← gets globalDirectory; on_dev (ioctl_trace (fpga_fd g) on);; mret tt.

(** [cpp/portal.c:202-212] portalTrace_start *)
Definition portalTrace_start : L () := set_trace 1.

(** [cpp/portal.c:213-223] portalTrace_stop *)
Definition portalTrace_stop : L () := set_trace 0.

(** [cpp/portal.c:225-232] portalCycleCount *)
Definition portalCycleCount : L Z :=
  init_directory 1;;
  high_bits ← dir_read PORTAL_DIRECTORY_COUNTER_MSB;
  low_bits ← dir_read PORTAL_DIRECTORY_COUNTER_LSB;
  mret (Z.lor (u64 (Z.shiftl high_bits 32)) low_bits).

(** [cpp/portal.c:234-237] portalEnableInterrupts *)
Definition portalEnableInterrupts (p : PortalInternal) : M D () :=
  WRITEL p (reg_addr p IND_REG_INTERRUPT_MASK) 1.

(** [cpp/portal.c:277-286] portalAlloc; [create] is portalmem_dmabuffer_create *)
Definition portalAlloc (create : Z → M D Z) (size : Z) : L Z :=
  match tgt with
  | KERNEL => on_dev (create size)
  | _ => fd ← gets global_pa_fd; on_dev (ioctl_pa_malloc fd size)
  end.
End Portal.

(** ** Cache maintenance *)
Inductive cache_op :=
  | CleanRange (first last : Z)
  | InvRange (first last : Z)
  | Clflush (a : Z)
  | Mfence.

(** [cpp/portal.c:248-254] portalDCacheFlushInval, ARM kernel variant *)
Definition flush_inval_arm (sgl : list sg_entry) : list cache_op :=
  sgl ≫= λ sg, [CleanRange (sg_addr sg) (sg_addr sg + sg_len sg);
                InvRange (sg_addr sg) (sg_addr sg + sg_len sg)].

(** [cpp/portal.c:263-269] portalDCacheFlushInval, x86 variant *)
Definition flush_inval_x86 (size p : Z) : list cache_op :=
  ((λ i : nat, Clflush (p + i)) <$> seq 0 (Z.to_nat size)) ++ [Mfence].

(** [cpp/portal.c:239-275] portalDCacheFlushInval, ARM user variant *)
Definition flush_inval_user {D} `{OS D} (fd : Z) : M (lib D) Z :=
  g ← gets globalDirectory; on_dev (ioctl_dcache_flush_inval (fpga_fd g) fd).

(** ** The directory hardware and the device nodes of a board *)
Module DirHw.

(** [bsv/Directory.bsv:65-71] mkStdDirectory: the counter and its snapshot
    register, over the ids and types of the portals.  [delays] are the numbers
    of cycles that pass before the next bus accesses, [unmapped] what a read of
    an address outside the directory returns, [bar] the base of the board's
    windows, [nodes] the highest /dev/fpga number, [fds] the open nodes and [maps]
    the mappings made, the latest first, with their lengths. *)
Record t := mk {
  portals : list (Z * Z);
  cycle_count : Z;
  snapshot : Z;
  delays : list Z;
  unmapped : Z → Z;
  bar : Z;
  nodes : Z;
  fds : gmap Z Z;
  next_fd : Z;
  maps : list (Z * Z);
}.

(** [bsv/Directory.bsv:75-77] count: time passes before an access *)
Definition elapse (d : t) : t :=
  mk (portals d) ((cycle_count d + hd 1 (delays d)) mod 2 ^ 64) (snapshot d)
     (tl (delays d)) (unmapped d) (bar d) (nodes d) (fds d) (next_fd d) (maps d).

Definition latch (d : t) : t :=
  mk (portals d) (cycle_count d) (u32 (cycle_count d))
     (delays d) (unmapped d) (bar d) (nodes d) (fds d) (next_fd d) (maps d).

(** [bsv/Directory.bsv:80-113] the BRAM server of the directory, by word index *)
Definition dir_word (w : Z) (d : t) : Z * t :=
  if bool_decide (w = 128) then (2, d)
  else if bool_decide (w = 129) then (0, d)
  else if bool_decide (w = 130) then (length (portals d) : Z, d)
  else if bool_decide (w = 131) then (16, d)
  else if bool_decide (w = 132) then (cycle_count d / 2 ^ 32, latch d)
  else if bool_decide (w = 133) then (snapshot d, d)
  else
    let idx := (w - 6 - 128) mod 2 ^ 16 in
    match portals d !! Z.to_nat (idx / 2) with
    | Some (ifcId, ifcType) => (if bool_decide (idx mod 2 = 0) then ifcId else ifcType, d)
    | None => (unmapped d w, d)
    end.

Definition read (a : Z) (d : t) : Z * t :=
  let d := elapse d in
  if bool_decide (0 ≤ a - bar d < PORTAL_BASE_OFFSET) then dir_word ((a - bar d) / 4) d
  else (unmapped d a, d).

#[global] Instance mmio : MMIO t := {| mmio_read := read; mmio_write _ _ d := elapse d |}.

Definition open (p : path) (d : t) : Z * t :=
  match p with
  | DevFpga n =>
      if bool_decide (0 ≤ n ≤ nodes d)
      then (next_fd d, mk (portals d) (cycle_count d) (snapshot d) (delays d) (unmapped d)
                          (bar d) (nodes d) (<[next_fd d := n]> (fds d)) (next_fd d + 1) (maps d))
      else (-1, d)
  | _ => (next_fd d, mk (portals d) (cycle_count d) (snapshot d) (delays d) (unmapped d)
                        (bar d) (nodes d) (fds d) (next_fd d + 1) (maps d))
  end.
Definition mmap (fd len : Z) (d : t) : Z * t :=
  match fds d !! fd with
  | Some n =>
      let a := bar d + n * PORTAL_BASE_OFFSET in
      (a, mk (portals d) (cycle_count d) (snapshot d) (delays d) (unmapped d)
             (bar d) (nodes d) (fds d) (next_fd d) ((a, len) :: maps d))
  | None => (MAP_FAILED, d)
  end.

#[global] Instance os : OS t := {
  sys_open p d := let '(fd, d') := open p d in (Done fd, d');
  sys_close _ := mret tt;
  sys_read_byte _ := mret (Some 49);
  sys_errno := mret ENODEV;
  sys_mmap fd len d := let '(a, d') := mmap fd len d in (Done a, d');
  ioctl_enable_interrupt _ _ _ := mret 0;
  ioctl_set_fclk_rate _ r := mret (0, mkClockRequest (clknum r) (requested_rate r) (requested_rate r));
  ioctl_trace _ _ := mret 0;
  ioctl_dcache_flush_inval _ _ := mret 0;
  ioctl_pa_malloc _ _ := mret (-1);
  connect_to_bsim := mret tt;
  get_pcie_bar2io := gets bar;
}.

(** What no access changes. *)
Definition config (d : t) := (portals d, bar d, nodes d).

Definition wf (d : t) : Prop :=
  length (portals d) ≤ 8000 ∧ (∀ i p, portals d !! i = Some p → 0 ≤ p.1 < 2 ^ 32) ∧
  length (portals d) ≤ nodes d ∧ 0 ≤ next_fd d ∧ 0 ≤ bar d ∧ 0 ≤ cycle_count d < 2 ^ 64.

(** The index software should find: 1 + the first portal with this id, else 0. *)
Definition find_id (id : Z) (d : t) : Z :=
  match list_find (λ p, p.1 = id) (portals d) with
  | Some (i, _) => i + 1 | None => 0 end.
End DirHw.
Import DirHw (config, wf, find_id).

Section DirFacts.
Implicit Types s : lib DirHw.t.

(** The directory is known to the library and its portal window mapped. *)
Definition dir_ready s : Prop :=
  once s = true ∧ map_base (globalDirectory s) = DirHw.bar (dev s) ∧ wf (dev s).

(** [s'] differs from [s] only in the time and the counter snapshot. *)
Definition same_dir s s' : Prop :=
  once s' = once s ∧ globalDirectory s' = globalDirectory s ∧ global_pa_fd s' = global_pa_fd s ∧
  bar2io s' = bar2io s ∧ config (dev s') = config (dev s) ∧
  DirHw.fds (dev s') = DirHw.fds (dev s) ∧ DirHw.next_fd (dev s') = DirHw.next_fd (dev s).

Lemma dir_word_config w d : 
  (DirHw.dir_word w d).2 = d ∨ (DirHw.dir_word w d).2 = DirHw.latch d.
Proof. unfold DirHw.dir_word. repeat case_match; eauto. Qed.

(** A directory read: its value is that of the word, everything else stays. *)
Lemma wp_dir_read ub i (Q : Z → lib DirHw.t → Prop) s :
  map_base (globalDirectory s) = DirHw.bar (dev s) → wf (dev s) → 0 ≤ i < 2 ^ 14 →
  (∀ s', same_dir s s' → map_base (globalDirectory s') = DirHw.bar (dev s') → wf (dev s') →
     dev s' = (DirHw.dir_word i (DirHw.elapse (dev s))).2 →
     Q (u32 (DirHw.dir_word i (DirHw.elapse (dev s))).1) s') →
  wp ub (dir_read i) Q s.
Proof.
  intros Hb Hwf Hi HQ. unfold dir_read. wp_steps. unfold wp, on_dev.
  cbn [READL mapped_bus mmio_read DirHw.mmio]. unfold DirHw.read, reg_addr.
  rewrite bool_decide_true by (rewrite Hb; change PORTAL_BASE_OFFSET with 65536; simpl; lia).
  replace ((map_base _ + 4 * i - _) / 4) with i
    by (simpl; rewrite Hb; replace (_ + _ - _) with (i * 4) by lia; by rewrite Z.div_mul).
  assert (wf (DirHw.elapse (dev s))) as Hwf'.
  { destruct Hwf as (? & ? & ? & ? & ? & ?). split_and!; simpl; try done; apply Z.mod_pos_bound; lia. }
  pose proof (dir_word_config i (DirHw.elapse (dev s))) as C.
  destruct (DirHw.dir_word i (DirHw.elapse (dev s))) as [v d'] eqn:E. simpl in C.
  apply HQ; try done; by destruct C as [-> | ->].
Qed.

Lemma same_dir_trans s1 s2 s3 : same_dir s1 s2 → same_dir s2 s3 → same_dir s1 s3.
Proof. unfold same_dir. intros (?&?&?&?&?&?&?) (?&?&?&?&?&?&?). split_and!; congruence. Qed.
Lemma same_dir_portals s s' : same_dir s s' → DirHw.portals (dev s') = DirHw.portals (dev s).
Proof. intros (_&_&_&_&E&_). by injection E. Qed.

Lemma dir_word_id (i : nat) d p : DirHw.portals d !! i = Some p → wf d →
  DirHw.dir_word (PORTAL_DIRECTORY_PORTAL_ID i) d = (p.1, d).
Proof.
  intros E (Hl & _). apply lookup_lt_Some in E as Hi.
  unfold DirHw.dir_word, PORTAL_DIRECTORY_PORTAL_ID, PORTAL_DIRECTORY_OFFSET.
  rewrite !bool_decide_false by lia.
  replace ((128 + (6 + 2 * i) - 6 - 128) mod 2 ^ 16) with (2 * i : Z)
    by (rewrite Z.mod_small; lia).
  replace (Z.to_nat (2 * i / 2)) with i by (rewrite Z.mul_comm, Z.div_mul; lia).
  rewrite E. destruct p as [p1 p2]. rewrite bool_decide_true; [done|].
  by rewrite Z.mul_comm, Z.mod_mul.
Qed.

Lemma wp_fpga_scan ub id n (i : nat) (Q : Z → lib DirHw.t → Prop) s :
  map_base (globalDirectory s) = DirHw.bar (dev s) → wf (dev s) → 0 ≤ id < 2 ^ 32 →
  (i + n = length (DirHw.portals (dev s)))%nat →
  (∀ s', same_dir s s' → map_base (globalDirectory s') = DirHw.bar (dev s') → wf (dev s') →
     Q (match list_find (λ p, p.1 = id) (drop i (DirHw.portals (dev s))) with
        | Some (j, _) => i + j + 1 | None => 0 end) s') →
  wp ub (fpga_scan id i n) Q s.
Proof.
  intros Hb Hwf Hid. revert i s Hb Hwf; induction n as [|n IH];
    intros i s Hb Hwf Hlen HQ; cbn [fpga_scan].
  - rewrite drop_ge in HQ by lia. apply wp_ret, HQ; done.
  - destruct (lookup_lt_is_Some_2 (DirHw.portals (dev s)) i) as [p Ep]; [lia|].
    rewrite (drop_S _ p) in HQ by done. simpl in HQ.
    pose proof Hwf as (Hmax & Hrange & _). pose proof (Hrange _ _ Ep) as Hp.
    apply wp_bind, wp_dir_read; [done|done|unfold PORTAL_DIRECTORY_PORTAL_ID,
      PORTAL_DIRECTORY_OFFSET; lia|].
    intros s' Hsame Hb' Hwf' _.
    rewrite (dir_word_id i _ p); [|done|]; cycle 1.
    { destruct Hwf as (?&?&?&?&?&?). split_and!; simpl; try done; apply Z.mod_pos_bound; lia. }
    cbn [fst]. rewrite (u32_small p.1), (u32_small id) by done.
    case_bool_decide as E.
    + rewrite decide_True in HQ by done. apply wp_ret. rewrite u32_small by lia.
      replace (i + 1) with (i + 0%nat + 1) by lia. by apply HQ.
    + rewrite decide_False in HQ by done. replace (i + 1) with (S i : Z) by lia.
      apply IH; [done|done|by rewrite (same_dir_portals s s'); [lia|]|].
      intros s2 H2 Hb2 Hwf2. rewrite (same_dir_portals s s') by done.
      specialize (HQ s2 (same_dir_trans _ _ _ Hsame H2) Hb2 Hwf2). revert HQ.
      destruct (list_find _ _) as [[j q]|]; simpl; [|done].
      by replace (i + S j + 1) with (S i + j + 1) by lia.
Qed.

Lemma wp_scan_directory ub id (Q : Z → lib DirHw.t → Prop) s :
  dir_ready s → 0 ≤ id < 2 ^ 32 →
  (∀ s', same_dir s s' → dir_ready s' → Q (find_id id (dev s)) s') →
  wp ub (n ← dir_read PORTAL_DIRECTORY_NUMPORTALS; fpga_scan id 0 (Z.to_nat (s32 n))) Q s.
Proof.
  intros (Ho & Hb & Hwf) Hid HQ. apply wp_bind, wp_dir_read; [done..|].
  intros s1 H1 Hb1 Hwf1 _. pose proof Hwf as (Hmax & _).
  change (DirHw.dir_word PORTAL_DIRECTORY_NUMPORTALS (DirHw.elapse (dev s))) with
    (length (DirHw.portals (dev s)) : Z, DirHw.elapse (dev s)). cbn [fst].
  rewrite u32_small, s32_small by lia. rewrite Nat2Z.id.
  apply (wp_fpga_scan ub id _ 0 Q s1); [done..|by rewrite (same_dir_portals s s1)|].
  intros s2 H2 Hb2 Hwf2. unfold find_id in HQ. rewrite (same_dir_portals s s1) by done.
  rewrite drop_0. assert (same_dir s s2) as H12 by by eapply same_dir_trans.
  assert (dir_ready s2) as R2 by (split; [|done]; by destruct H12 as [-> _]).
  specialize (HQ s2 H12 R2). revert HQ. by destruct (list_find _ _) as [[j q]|].
Qed.

Lemma init_directory_once tgt n s : once s = true → init_directory tgt n s = (Done tt, s).
Proof.
  intros E. destruct n; cbn [init_directory]; unfold mbind, M_bind, gets; by rewrite E.
Qed.

(** Time passes and files are opened; the configuration of the board stays. *)
Definition evolves s s' : Prop := config (dev s') = config (dev s).

Lemma wp_list_directory ub (Q : () → lib DirHw.t → Prop) s :
  dir_ready s → (∀ s', same_dir s s' → dir_ready s' → Q tt s') → wp ub list_directory Q s.
Proof.
  intros (Ho & Hb & Hwf) HQ. pose proof Hwf as (Hmax & _). unfold list_directory.
  apply wp_bind, wp_dir_read; [done..|]. intros s1 H1 Hb1 Hwf1 _.
  apply wp_bind, wp_dir_read; [done..|]. intros s2 H2 Hb2 Hwf2 _.
  apply wp_bind, wp_dir_read; [done..|]. intros s3 H3 Hb3 Hwf3 _.
  apply wp_bind, wp_dir_read; [done..|]. intros s4 H4 Hb4 Hwf4 _.
  set (n := Z.to_nat (Z.min _ 32)).
  eapply wp_mono; [apply (wp_for_each _ _ _ (λ _ s', same_dir s s' ∧
    map_base (globalDirectory s') = DirHw.bar (dev s') ∧ wf (dev s')))|].
  - split_and!; try done. eauto using same_dir_trans.
  - intros i a t Ha (Hs & Hbt & Hwt). apply lookup_seq in Ha as [-> Hi].
    assert (0 + i < 32)%nat by (unfold n in Hi; lia).
    unfold PORTAL_DIRECTORY_PORTAL_ID, PORTAL_DIRECTORY_PORTAL_TYPE, PORTAL_DIRECTORY_OFFSET.
    apply wp_bind, wp_dir_read; [done|done|lia|]. intros t1 T1 Hb5 Hwf5 _.
    apply wp_bind, wp_dir_read; [done|done|lia|]. intros t2 T2 Hb6 Hwf6 _.
    wp_steps. split_and!; try done. eauto using same_dir_trans.
  - intros [] s5 (H5 & Hb5 & Hwf5). apply HQ; [done|]. split_and!; try done.
    by destruct H5 as [-> _].
Qed.

(** Opening and mapping the device node of portal [num]. *)
Lemma wp_open_map ub num bits pint (Q : PortalInternal → lib DirHw.t → Prop) s :
  wf (dev s) → 0 ≤ num ≤ DirHw.nodes (dev s) →
  (∀ s', once s' = once s → globalDirectory s' = globalDirectory s → evolves s s' → wf (dev s') →
     DirHw.fds (dev s') = <[DirHw.next_fd (dev s) := num]> (DirHw.fds (dev s)) →
     DirHw.maps (dev s') = (DirHw.bar (dev s) + num * PORTAL_BASE_OFFSET, Z.shiftl 1 bits) ::
       DirHw.maps (dev s) →
     Q (mkPortalInternal (poller pint) (DirHw.next_fd (dev s)) (fpga_number pint)
          (DirHw.bar (dev s) + num * PORTAL_BASE_OFFSET) (parent pint) (handler pint)) s') →
  wp ub (fd ← on_dev (sys_open (DevFpga num)); map_window (with_fd pint fd) bits) Q s.
Proof.
  intros Hwf Hn HQ. pose proof Hwf as (? & ? & ? & Hfd & Hbar & ?).
  eapply wp_bind, wp_eq.
  { unfold on_dev. cbn [sys_open DirHw.os]. unfold DirHw.open.
    rewrite bool_decide_true by done. done. }
  unfold map_window. simpl fpga_fd. rewrite bool_decide_false by lia.
  eapply wp_bind, wp_eq.
  { unfold on_dev. cbn [sys_mmap DirHw.os]. unfold DirHw.mmap. simpl.
    rewrite lookup_insert_eq. done. }
  rewrite bool_decide_false by
    (unfold MAP_FAILED; change PORTAL_BASE_OFFSET with 65536; lia).
  apply wp_ret, HQ; try done. split_and!; simpl; try done; lia.
Qed.

(** A board the library has not looked at yet, or one it knows. *)
Definition usable s : Prop := wf (dev s) ∧ (once s = true → dir_ready s).

Lemma wp_init_directory ub (Q : () → lib DirHw.t → Prop) s : usable s →
  (∀ s', evolves s s' → dir_ready s' → Q tt s') → wp ub (init_directory PCIE 1) Q s.
Proof.
  intros [Hwf Hr] HQ. destruct (once s) eqn:Eo.
  - eapply wp_eq; [by apply init_directory_once|]. apply HQ; [done|auto].
  - cbn [init_directory]. apply wp_bind, wp_gets. rewrite Eo. wp_steps.
    set (s1 := mkLib true _ _ _ _). unfold init_portal_internal_with.
    apply wp_bind, wp_bind. eapply wp_eq; [by apply (init_directory_once PCIE 0)|].
    rewrite bool_decide_true by done. apply wp_bind, wp_ret. apply (wp_open_map ub 0 16 _ _ s1); [done| |].
    { destruct Hwf as (?&?&?&?&?&?). simpl. lia. }
    intros s2 Ho2 _ He2 Hwf2 _ _. wp_steps. rewrite bool_decide_false by done.
    apply wp_list_directory.
    + split_and!; simpl; try done. rewrite Z.add_0_r. by injection He2 as _ ->.
    + intros s3 H3 Hr3. apply HQ; [|done].
      destruct H3 as (_&_&_&_&Hc&_). unfold evolves in *. simpl in *. congruence.
Qed.

Lemma find_id_range id d : 0 ≤ find_id id d ≤ length (DirHw.portals d).
Proof.
  unfold find_id. destruct (list_find _ _) as [[i p]|] eqn:E; [|lia].
  apply list_find_Some in E as (E & _). apply lookup_lt_Some in E. lia.
Qed.

Lemma find_id_config id d d' : config d = config d' → find_id id d = find_id id d'.
Proof. unfold find_id. by intros [= -> _ _]. Qed.

(** C21.  portalGetFpga: the directory scan returns one plus the position of the
    first portal with the given interface id, and 0 when there is none; the
    directory is initialised on the first call, and a later call finds it as the
    first one left it. *)
Theorem portalGetFpga_spec id s : usable s → 0 ≤ id < 2 ^ 32 →
  wp False (portalGetFpga PCIE id) (λ r s',
    r = find_id id (dev s) ∧ evolves s s' ∧ dir_ready s') s.
Proof.
  intros Hu Hid. unfold portalGetFpga, portalGetFpga_with. apply wp_bind.
  apply wp_init_directory; [done|]. intros s1 He1 Hr1.
  apply wp_scan_directory; [done..|].
  intros s2 H2 Hr2. destruct H2 as (_&_&_&_&Hc&_). unfold evolves in *.
  split_and!; [by apply find_id_config|congruence|done].
Qed.

(** C34.  init_portal_internal on the PCIe target: for every interface id the
    portal structure is fully initialised (no poller, no parent, the handler given, the
    number of the portal that the directory lists under that id, or 0, the directory
    itself, when it lists none), its descriptor is open on the device node of that
    portal, and the last mapping made is of that portal's window, at [map_base] and
    of 64 Kbytes, the size the directory tells.  The mutual recursion with
    init_directory ends, whether or not the directory was known before. *)
Theorem init_portal_internal_window id h s : usable s → 0 ≤ id < 2 ^ 31 →
  wp False (init_portal_internal PCIE id h) (λ p s',
    let num := find_id id (dev s) in
    let base := DirHw.bar (dev s) + num * PORTAL_BASE_OFFSET in
    dir_ready s' ∧ evolves s s' ∧
    (∃ fd, 0 ≤ fd ∧ p = mkPortalInternal 0 fd num base 0 h ∧ DirHw.fds (dev s') !! fd = Some num) ∧
    head (DirHw.maps (dev s')) = Some (base, 2 ^ 16)) s.
Proof.
  intros Hu Hid. unfold init_portal_internal, init_portal_internal_with.
  apply wp_bind, wp_init_directory; [done|]. intros s1 He1 Hr1.
  rewrite (bool_decide_false (id = -1)) by lia. apply wp_bind, wp_bind.
  apply wp_bind. eapply wp_eq; [apply init_directory_once; by destruct Hr1|].
  apply wp_scan_directory; [done|lia|].
  intros s2 H2 Hr2. apply wp_bind. unfold portalGetAddrbits_with. apply wp_bind.
  eapply wp_eq; [apply init_directory_once; by destruct Hr2|].
  pose proof Hr2 as (Ho2 & Hb2 & Hwf2). apply wp_dir_read; [done..|].
  intros s3 H3 Hb3 Hwf3 _. apply wp_ret. cbv beta iota.
  change (DirHw.dir_word PORTAL_DIRECTORY_ADDRBITS (DirHw.elapse (dev s2))) with
    (16, DirHw.elapse (dev s2)). cbn [fst].
  pose proof (find_id_range id (dev s1)) as Hf.
  assert (config (dev s3) = config (dev s1)) as Hc.
  { destruct H2 as (_&_&_&_&E2&_), H3 as (_&_&_&_&E3&_). congruence. }
  assert (config (dev s1) = config (dev s)) as Hc1 by done.
  pose proof Hwf3 as (Hlen & _ & Hnodes & Hfd & _).
  assert (DirHw.portals (dev s3) = DirHw.portals (dev s1)) as Ep by by injection Hc.
  rewrite Ep in *.
  rewrite s32_small by lia. apply wp_open_map; [done|lia|].
  intros s4 Ho4 Hg4 He4 Hwf4 Hfds4 Hmaps4. unfold evolves in *. simpl.
  rewrite <-(find_id_config id (dev s1) (dev s)) by done.
  assert (DirHw.bar (dev s3) = DirHw.bar (dev s)) as Eb3 by (by injection Hc as _ -> _; injection Hc1).
  assert (DirHw.bar (dev s4) = DirHw.bar (dev s3)) as Eb4 by by injection He4.
  split_and!; [|congruence| |by rewrite Hmaps4, Eb3].
  - split; [|split]; [|by rewrite Hg4, Eb4|done].
    rewrite Ho4. destruct H3 as [-> _]. done.
  - eexists. rewrite Eb3. split; [|split; [done|]]; [done|]. rewrite Hfds4. apply lookup_insert_eq.
Qed.

(** C23.  portalCycleCount reads the 64-bit counter in two 32-bit halves and never
    returns a torn value, however many cycles pass between the accesses: the
    result is the counter at the moment of the first read, because that read
    makes the hardware latch the low half. *)
Theorem portalCycleCount_untorn tgt s : dir_ready s →
  wp False (portalCycleCount tgt) (λ c s',
    c = (DirHw.cycle_count (dev s) + hd 1 (DirHw.delays (dev s))) mod 2 ^ 64) s.
Proof.
  intros (Ho & Hb & Hwf). unfold portalCycleCount. apply wp_bind.
  eapply wp_eq; [by apply init_directory_once|].
  apply wp_bind, wp_dir_read; [done..|]. intros s1 H1 Hb1 Hwf1 E1.
  apply wp_bind, wp_dir_read; [done..|]. intros s2 H2 Hb2 Hwf2 E2. apply wp_ret.
  rewrite E1. simpl. set (c := (_ + _) mod 2 ^ 64).
  assert (0 ≤ c < 2 ^ 64) as Hc by (apply Z.mod_pos_bound; lia). clearbody c.
  etransitivity; [|by apply join64_split]. unfold join64, hi32. rewrite shiftr_div by lia.
  rewrite !(u32_small (c / 2 ^ 32)) by div_lia.
  rewrite (u64_small (Z.shiftl _ _)) by (rewrite shiftl_mul by lia; div_lia).
  f_equal. unfold u32. by rewrite !Z.mod_mod.
Qed.
End DirFacts.

(** The cache maintenance of portalDCacheFlushInval on ARM covers the whole
    buffer: every byte lies in a range that is cleaned and then invalidated. *)
Lemma flush_inval_arm_covers sgl off pa :
  sg_lookup sgl off = Some pa → 0 ≤ off → ∃ a b k,
    a ≤ pa < b ∧ flush_inval_arm sgl !! k = Some (CleanRange a b) ∧
    flush_inval_arm sgl !! S k = Some (InvRange a b).
Proof.
  revert off; induction sgl as [|e sgl IH]; intros off E Ho; [done|].
  cbn [sg_lookup] in E. case_bool_decide.
  - exists (sg_addr e), (sg_addr e + sg_len e), 0%nat. simplify_eq. split; [lia|done].
  - destruct (IH _ E) as (a & b & k & Hr & E1 & E2); [lia|].
    by exists a, b, (S (S k)).
Qed.

(** *** A concrete board *)
Definition demo_board : DirHw.t :=
  DirHw.mk [(7, 100); (1008, 101); (1009, 102)] (2 ^ 32 - 1) 0 [1; 5; 3] (λ _, 0xdead)
    0x40000000 16 ∅ 3 [].
Lemma demo_board_wf : wf demo_board.
Proof.
  split_and!; simpl; try lia. intros i p Hi.
  apply list_elem_of_lookup_2 in Hi. rewrite !elem_of_cons, elem_of_nil in Hi.
  destruct Hi as [->|[->|[->|[]]]]; simpl; lia.
Qed.
Lemma demo_usable : usable (lib_init demo_board).
Proof. split; [exact demo_board_wf|done]. Qed.
Lemma demo_dir_ready :
  dir_ready (mkLib true (mkPortalInternal 0 3 0 0x40000000 0 None) (-1) 0 demo_board).
Proof. split_and!; [done|done|exact demo_board_wf]. Qed.

Lemma portalGetFpga_spec_witness :
  wp False (portalGetFpga PCIE 1008) (λ r s',
    r = find_id 1008 demo_board ∧ evolves (lib_init demo_board) s' ∧ dir_ready s')
    (lib_init demo_board).
Proof. apply (portalGetFpga_spec 1008 (lib_init demo_board)); [exact demo_usable|lia]. Defined.

Lemma init_portal_internal_window_witness :
  wp False (init_portal_internal PCIE 1008 None) (λ p s',
    (∃ fd, p = mkPortalInternal 0 fd 2 0x40020000 0 None ∧ DirHw.fds (dev s') !! fd = Some 2) ∧
    head (DirHw.maps (dev s')) = Some (0x40020000, 0x10000)) (lib_init demo_board).
Proof.
  eapply wp_mono; [apply (init_portal_internal_window 1008 None (lib_init demo_board));
    [exact demo_usable|lia]|].
  intros p s' (_ & _ & (fd & _ & -> & Hfd) & Hm). split; [by exists fd|exact Hm].
Defined.

Lemma portalCycleCount_untorn_witness :
  wp False (portalCycleCount PCIE) (λ c _, c = 2 ^ 32)
    (mkLib true (mkPortalInternal 0 3 0 0x40000000 0 None) (-1) 0 demo_board).
Proof.
  apply (portalCycleCount_untorn PCIE
    (mkLib true (mkPortalInternal 0 3 0 0x40000000 0 None) (-1) 0 demo_board)).
  exact demo_dir_ready.
Defined.

Lemma flush_inval_arm_covers_witness : ∃ a b k,
    a ≤ 0x50010 < b ∧ flush_inval_arm demo_sgl !! k = Some (CleanRange a b) ∧
    flush_inval_arm demo_sgl !! S k = Some (InvRange a b).
Proof.
  apply (flush_inval_arm_covers demo_sgl (2 ^ 20 + 16)); [reflexivity|lia].
Defined.
