(* ===== verification/Poller.v ===== *)
(** * The event loop (src/cpp/poller.cpp, src/cpp/poller.h)

    A PortalPoller keeps the registered portals in two parallel arrays, waits
    for interrupts and dispatches the pending indications of every portal to its
    handler.  [IndHw] is the indication side of the portal hardware
    (src/bsv/MemPortal.bsv): per-channel queues behind a status register. *)
From stdpp Require Import base list gmap numbers strings.
From S2P Require Import Prelude Portal Directory.
Local Open Scope Z_scope.

(** struct pollfd *)
Record pollfd := mkPollfd { fd : Z; events : Z; revents : Z }.
Definition POLLIN : Z := 1.

(** [cpp/poller.h:32-51] PortalPoller.  The arrays hold numFds elements;
    [portal_wrappers] holds addresses of Portal objects. *)
Record PortalPoller := mkPoller {
  portal_wrappers : list Z;
  portal_fds : list pollfd;
  numFds : Z;
  portalExec_timeout : Z;
  stopping : Z;
}.

(** [cpp/poller.cpp:58-62] PortalPoller::PortalPoller.  portalExec_timeout is
    not initialised; the value here is never used before portalExec_init. *)
Definition PortalPoller_new : PortalPoller := mkPoller [] [] 0 0 0.

(** The process: the poller, the Portal objects by address, the rest. *)
Record pstate (D : Type) := mkP {
  pol : PortalPoller;
  objects : gmap Z PortalInternal;
  pdev : D;
}.
Arguments mkP {D} _ _ _.
Arguments pol {D} _.
Arguments objects {D} _.
Arguments pdev {D} _.

(** [cpp/poller.cpp:67-71] unregisterInstance: index of the first entry with
    this descriptor, numFds if there is none *)
Fixpoint find_fd (x : Z) (fds : list pollfd) : nat :=
  match fds with
  | [] => 0
  | p :: fds => if bool_decide (fd p = x) then 0 else S (find_fd x fds)
  end.

Section Ops.
Context {D : Type} `{Bus D}.
Abbreviation P := (M (pstate D)).

Definition set_pol (p : PortalPoller) : P () := modify (λ s, mkP p (objects s) (pdev s)).
Definition on_pdev {A} (m : M D A) : P A :=
  λ s, let '(r, d) := m (pdev s) in (r, mkP (pol s) (objects s) d).
(** Dereferencing a Portal pointer. *)
Definition deref (a : Z) : P PortalInternal :=
  o ← gets objects; match o !! a with Some p => mret p | None => undefined end.

(** [cpp/poller.cpp:73-76] unregisterInstance: the loop that closes the gap.  Its
    body does not change [i]. *)
Fixpoint close_gap (fuel : nat) (i : nat) : P () :=
  p ← gets pol;
  if bool_decide (i < numFds p - 1) then
    match fuel with
    | O => no_fuel
    | S fuel =>
        match portal_fds p !! S i, portal_wrappers p !! S i with
        | Some f, Some w =>
            set_pol (mkPoller (<[i := w]> (portal_wrappers p)) (<[i := f]> (portal_fds p))
                       (numFds p) (portalExec_timeout p) (stopping p));;
            close_gap fuel i
        | _, _ => undefined
        end
    end
  else mret tt.

(** [cpp/poller.cpp:64-82] PortalPoller::unregisterInstance *)
Definition unregisterInstance (fuel : nat) (portal : Z) : P Z :=
  pint ← deref portal;
  p ← gets pol;
  close_gap fuel (find_fd (fpga_fd pint) (portal_fds p));;
  p ← gets pol;
  let n := numFds p - 1 in
  if bool_decide (n < 0) then undefined   (* realloc of a negative size *)
  else
    set_pol (mkPoller (take (Z.to_nat n) (portal_wrappers p)) (take (Z.to_nat n) (portal_fds p))
               n (portalExec_timeout p) (stopping p));;
    mret 0.

(** [cpp/poller.cpp:84-96] PortalPoller::registerInstance *)
Definition registerInstance (portal : Z) : P Z :=
  pint ← deref portal;
  p ← gets pol;
  set_pol (mkPoller (portal_wrappers p ++ [portal])
             (portal_fds p ++ [mkPollfd (fpga_fd pint) POLLIN 0])
             (numFds p + 1) (portalExec_timeout p) (stopping p));;
  mret 0.

(** [cpp/poller.cpp:98-116] PortalPoller::portalExec_init *)
Definition portalExec_init : P Z :=
  p ← gets pol;
  set_pol (mkPoller (portal_wrappers p) (portal_fds p) (numFds p) (-1) (stopping p));;
  if bool_decide (numFds p = 0) then mret (- ENODEV)
  else
    for_each (portal_wrappers p) (λ w,
      pint ← deref w; on_pdev (portalEnableInterrupts pint));;
    mret 0.

(** [cpp/poller.cpp:117-125] PortalPoller::portalExec_end *)
Definition portalExec_end : P () :=
  p ← gets pol;
  set_pol (mkPoller (portal_wrappers p) (portal_fds p) (numFds p) (portalExec_timeout p) 1);;
  for_each (portal_wrappers p) (λ w,
    pint ← deref w; on_pdev (WRITEL pint (reg_addr pint IND_REG_INTERRUPT_MASK) 0)).

(** poll(2) on the descriptors, and the call of a handler by its name. *)
Context (poll : list pollfd → Z → M D Z).
Context (call : string → PortalInternal → Z → M D Z).

(** [cpp/poller.cpp:127-148] PortalPoller::portalExec_poll, hardware variant *)
Definition portalExec_poll (timeout : Z) : P Z :=
  if bool_decide (timeout = 0) then mret 0
  else p ← gets pol; on_pdev (poll (portal_fds p) timeout).

(** [cpp/poller.cpp:164-173] portalExec_event: the messages of one portal *)
Fixpoint drain (fuel : nat) (pint : PortalInternal) : P () :=
  queue_status ← on_pdev (READL pint (reg_addr pint IND_REG_QUEUE_STATUS));
  if bool_decide (queue_status = 0) then mret tt
  else
    match fuel with
    | O => no_fuel
    | S fuel =>
        match handler pint with
        | None => undefined
        | Some h => on_pdev (call h pint (u32 (queue_status - 1)));; drain fuel pint
        end
    end.

(** [cpp/poller.cpp:150-180] PortalPoller::portalExec_event *)
Definition portalExec_event (fuel : nat) : P Z :=
  p ← gets pol;
  for_each (portal_wrappers p) (λ w,
    pint ← deref w;
    drain fuel pint;;
    on_pdev (portalEnableInterrupts pint));;
  mret 0.

(** [cpp/poller.cpp:186-190] portalExec: the loop; [others] is what other threads
    do between iterations *)
Fixpoint exec_loop (fuel : nat) (others : P ()) (rc : Z) (efuel : nat) : P Z :=
  others;;
  p ← gets pol;
  if bool_decide (rc = 0) && bool_decide (stopping p = 0) then
    match fuel with
    | O => no_fuel
    | S fuel =>
        rc ← portalExec_poll (portalExec_timeout p);
        rc ← (if bool_decide (0 ≤ rc) then portalExec_event efuel else mret rc);
        exec_loop fuel others rc efuel
    end
  else mret rc.

(** [cpp/poller.cpp:182-194] PortalPoller::portalExec *)
Definition portalExec (fuel : nat) (others : P ()) (efuel : nat) : P Z :=
  rc ← portalExec_init;
  rc ← exec_loop fuel others rc efuel;
  portalExec_end;;
  mret rc.

(** [cpp/poller.h:71-76] Portal::Portal, with an explicit poller: the object at
    address [a] is initialised by init_portal_internal ([pint]) with no handler,
    then registered *)
Definition Portal_new (a poller : Z) (pint : PortalInternal) : P Z :=
  modify (λ s, mkP (pol s) (<[a := mkPortalInternal poller (fpga_fd pint) (fpga_number pint)
    (map_base pint) (parent pint) (handler pint)]> (objects s)) (pdev s));;
  registerInstance a.

(** [cpp/poller.h:77-77] Portal::~Portal followed by ~PortalInternalCpp, which
    closes the descriptor *)
Definition Portal_delete (fuel : nat) (a : Z) (close : Z → M D ()) : P () :=
  unregisterInstance fuel a;;
  pint ← deref a;
  when (bool_decide (0 < fpga_fd pint)) (on_pdev (close (fpga_fd pint)));;
  modify (λ s, mkP (pol s) (delete a (objects s)) (pdev s)).
End Ops.

(** ** Registration *)
Section Registration.
Context {D : Type} `{Bus D}.
Implicit Types s : pstate D.

(** The two arrays run in parallel, entry by entry. *)
Record poller_ok s : Prop := {
  ok_len : numFds (pol s) = length (portal_wrappers (pol s));
  ok_objs : Forall (λ w, is_Some (objects s !! w)) (portal_wrappers (pol s));
  ok_fds : portal_fds (pol s) =
    (λ w, mkPollfd (default 0 (fpga_fd <$> objects s !! w)) POLLIN 0) <$> portal_wrappers (pol s);
}.

Lemma poller_new_ok objs d : poller_ok (mkP PortalPoller_new objs d).
Proof. by split; simpl. Qed.

Lemma register_ok w s : poller_ok s → is_Some (objects s !! w) →
  wp False (registerInstance w) (λ r s', r = 0 ∧ poller_ok s' ∧
    portal_wrappers (pol s') = portal_wrappers (pol s) ++ [w] ∧
    objects s' = objects s ∧ pdev s' = pdev s) s.
Proof.
  intros [Hl Ho Hf] [pi E]. unfold registerInstance, deref. wp_steps. rewrite E. wp_steps.
  unfold set_pol. wp_steps. simpl. split_and!; try done. split; simpl.
  - rewrite length_app. simpl. lia.
  - rewrite Forall_app. split; [done|]. constructor; [by rewrite E|constructor].
  - by rewrite fmap_app, Hf; simpl; rewrite E.
Qed.

(** The position found is that of the first portal with the descriptor. *)
Lemma find_fd_le x fds : (find_fd x fds ≤ length fds)%nat.
Proof. induction fds; simpl; [lia|]. case_bool_decide; lia. Qed.
Lemma find_fd_app x fds f : Forall (λ p, fd p ≠ x) fds → find_fd x (fds ++ [f]) =
  if bool_decide (fd f = x) then length fds else S (length fds).
Proof.
  induction 1 as [|p fds Hp Hf IH]; simpl; [by case_bool_decide|].
  rewrite bool_decide_false, IH by done. by case_bool_decide.
Qed.

Lemma close_gap_done fuel (i : nat) s : numFds (pol s) - 1 ≤ i → close_gap fuel i s = (Done tt, s).
Proof.
  intros Hi. destruct fuel; cbn [close_gap]; unfold mbind, M_bind, gets;
    by rewrite bool_decide_false by lia.
Qed.

Lemma close_gap_diverges fuel (i : nat) s :
  i < numFds (pol s) - 1 → numFds (pol s) = length (portal_wrappers (pol s)) →
  length (portal_fds (pol s)) = length (portal_wrappers (pol s)) →
  (close_gap fuel i s).1 = OutOfFuel.
Proof.
  revert s; induction fuel as [|fuel IH]; intros s Hi Hl Hf; cbn [close_gap];
    unfold mbind, M_bind, gets; rewrite bool_decide_true by done; [done|].
  destruct (lookup_lt_is_Some_2 (portal_fds (pol s)) (S i)) as [f ->]; [lia|].
  destruct (lookup_lt_is_Some_2 (portal_wrappers (pol s)) (S i)) as [w ->]; [lia|].
  cbv [set_pol modify]. apply IH; simpl; rewrite ?length_insert; done.
Qed.

(** A portal that was registered last is unregistered cleanly: creating a
    portal with a fresh descriptor and destroying it restores the poller, and
    the clean-up loop ends. *)
Lemma register_unregister fuel w pi s : poller_ok s → objects s !! w = Some pi →
  Forall (λ f, fd f ≠ fpga_fd pi) (portal_fds (pol s)) →
  wp False (registerInstance w;; unregisterInstance fuel w) (λ r s',
    r = 0 ∧ poller_ok s' ∧ portal_wrappers (pol s') = portal_wrappers (pol s) ∧
    portal_fds (pol s') = portal_fds (pol s)) s.
Proof.
  intros Hok Hw Hnew. apply wp_bind. eapply wp_mono; [apply register_ok; [done|by eexists]|].
  intros r s1 (_ & Hok1 & Ew & Eo & _). pose proof Hok as [Hl Ho Hf]. pose proof Hok1 as [Hl1 Ho1 Hf1].
  rewrite Ew, Eo in *. rewrite fmap_app, <-Hf in Hf1. simpl in Hf1. rewrite Hw in Hf1. simpl in Hf1.
  unfold unregisterInstance, deref. apply wp_bind, wp_bind, wp_gets. rewrite Eo, Hw. wp_steps.
  rewrite Hf1, find_fd_app, bool_decide_true by done.
  assert (length (portal_fds (pol s)) = length (portal_wrappers (pol s))) as Elen
    by (by rewrite Hf, length_fmap).
  rewrite length_app in Hl1. simpl in Hl1.
  eapply wp_eq; [apply close_gap_done; lia|]. wp_steps.
  rewrite bool_decide_false by lia. unfold set_pol. wp_steps. simpl.
  rewrite Ew, Hf1. rewrite (take_app_length' (portal_wrappers (pol s))) by lia.
  rewrite (take_app_length' (portal_fds (pol s))) by lia.
  split_and!; try done. split; simpl; [lia|by rewrite Eo|by rewrite Eo].
Qed.

(** Unregistering any portal but the last never returns: the loop that
    should close the gap does not advance its index. *)
Lemma unregister_not_last_diverges fuel w pi s : poller_ok s → objects s !! w = Some pi →
  find_fd (fpga_fd pi) (portal_fds (pol s)) < numFds (pol s) - 1 →
  (unregisterInstance fuel w s).1 = OutOfFuel.
Proof.
  intros [Hl Ho Hf] Hw Hi. unfold unregisterInstance, deref, mbind, M_bind, gets.
  rewrite Hw. simpl.
  pose proof (close_gap_diverges fuel (find_fd (fpga_fd pi) (portal_fds (pol s))) s Hi Hl) as C.
  rewrite Hf, length_fmap in C at 1. specialize (C eq_refl).
  destruct (close_gap _ _ s) as [[] s']; done.
Qed.

(** Unregistering a portal that is not registered removes the last one. *)
Lemma unregister_unknown_drops fuel w pi s : poller_ok s → objects s !! w = Some pi →
  0 < numFds (pol s) → find_fd (fpga_fd pi) (portal_fds (pol s)) = length (portal_fds (pol s)) →
  wp False (unregisterInstance fuel w) (λ r s',
    r = 0 ∧ portal_wrappers (pol s') = removelast (portal_wrappers (pol s))) s.
Proof.
  intros [Hl Ho Hf] Hw Hpos Hi. unfold unregisterInstance, deref.
  apply wp_bind, wp_bind, wp_gets. rewrite Hw. wp_steps.
  rewrite Hi, Hf, length_fmap. eapply wp_eq; [apply close_gap_done; lia|].
  wp_steps. rewrite bool_decide_false by lia. unfold set_pol. wp_steps. simpl.
  split; [done|]. rewrite removelast_firstn_len, Hl. f_equal. lia.
Qed.
End Registration.

(** ** The indication hardware of a board *)
Module IndHw.

(** [bsv/MemPortal.bsv:44-56] mkPortalCtrlMemSlave and the indication pipes: the
    words waiting on every channel of every portal, by window number, and the
    interrupt enable bits *)
Record t := mk { queues : gmap Z (list (list Z)); enabled : gmap Z bool }.

Definition window (a : Z) : Z := a / PORTAL_BASE_OFFSET.
Definition chans (w : Z) (d : t) : list (list Z) := default [] (queues d !! w).

(** [bsv/MemPortal.bsv:59-65] mkPortalCtrlMemSlave: readyChannel is the highest
    channel with a word waiting; the register holds it plus one *)
Fixpoint queue_status (c : list (list Z)) : Z :=
  match c with
  | [] => 0
  | q :: c =>
      let r := queue_status c in
      if bool_decide (r = 0) then (if bool_decide (q = []) then 0 else 1) else r + 1
  end.

(** [bsv/MemPortal.bsv:180-191] mkPipeOutMemSlave: reading a channel's window at
    offset 0 takes a word *)
Definition pop (w : Z) (c : nat) (d : t) : Z * t :=
  match chans w d !! c with
  | Some (x :: q) => (x, mk (<[w := <[c := q]> (chans w d)]> (queues d)) (enabled d))
  | _ => (0, d)
  end.

(** [bsv/CtrlMux.bsv:138-177] mkMemSlaveMux: the part of a portal that answers an
    address, 0 for the control registers and c + 1 for channel c.  The select bits of
    the address are cut to the number needed for the parts there are, so that the
    parts repeat throughout the window *)
Definition psel (w o : Z) (d : t) : Z :=
  (o / 256) mod 2 ^ Z.log2_up (1 + length (chans w d)).
Definition asel (o : Z) : Z := o mod 256.

(** [bsv/MemPortal.bsv:70-95] mkPortalCtrlMemSlave: register reads; the error
    counters are never incremented *)
Definition ctrl_read (w o : Z) (d : t) : Z :=
  if bool_decide (o = 0) then (if bool_decide (queue_status (chans w d) = 0) then 0 else 1)
  else if bool_decide (o = 4) then (if default false (enabled d !! w) then 1 else 0)
  else if bool_decide (o = 8) then 7
  else if bool_decide (o = 12) || bool_decide (o = 16) || bool_decide (o = 20) then 0
  else if bool_decide (o = 24) then queue_status (chans w d)
  else 0x05a05a0.
Definition read (a : Z) (d : t) : Z * t :=
  let w := window a in let o := a mod PORTAL_BASE_OFFSET in
  if bool_decide (psel w o d = 0) then (ctrl_read w (asel o) d, d)
  else let c := Z.to_nat (psel w o d - 1) in
  if bool_decide (asel o = 0) then pop w c d
  else if bool_decide (asel o = 4) then
    (if bool_decide (chans w d !! c = Some []) then 0 else 1, d)
  else (0, d).

(** [bsv/MemPortal.bsv:101-112] mkPortalCtrlMemSlave: register writes *)
Definition write (a v : Z) (d : t) : t :=
  let w := window a in let o := a mod PORTAL_BASE_OFFSET in
  if bool_decide (psel w o d = 0 ∧ asel o = 4)
  then mk (queues d) (<[w := bool_decide (v mod 2 = 1)]> (enabled d)) else d.

(** The control registers stand at the beginning of the window. *)
Lemma psel_ctrl w o d : 0 ≤ o < 256 → psel w o d = 0 ∧ asel o = o.
Proof.
  intros Ho. unfold psel, asel. rewrite Z.div_small, (Z.mod_small o) by done. split; [|done].
  apply Z.mod_0_l, Z.pow_nonzero; [done|]. apply Z.log2_up_nonneg.
Qed.
Lemma read_ctrl a d w o : window a = w → a mod PORTAL_BASE_OFFSET = o → 0 ≤ o < 256 →
  read a d = (ctrl_read w o d, d).
Proof.
  intros <- <- Ho. unfold read. destruct (psel_ctrl (window a) _ d Ho) as [E1 E2].
  by rewrite E1, E2, bool_decide_true.
Qed.
Lemma read_queue_status a d w : window a = w → a mod PORTAL_BASE_OFFSET = 24 →
  read a d = (queue_status (chans w d), d).
Proof. intros Ew Eo. by rewrite (read_ctrl _ _ _ _ Ew Eo). Qed.
Lemma write_enable a v d w : window a = w → a mod PORTAL_BASE_OFFSET = 4 →
  write a v d = mk (queues d) (<[w := bool_decide (v mod 2 = 1)]> (enabled d)).
Proof.
  intros <- E. unfold write. rewrite E.
  destruct (psel_ctrl (window a) 4 d ltac:(lia)) as [E1 E2]. by rewrite E1, E2, bool_decide_true.
Qed.

#[global] Instance mmio : MMIO t := {| mmio_read := read; mmio_write := write |}.

Definition words (w : Z) (d : t) : nat := sum_list_with length (chans w d).
End IndHw.

Section Drain.
Import IndHw.
(** The window of a portal: aligned, with a handler attached. *)
Definition attached (p : PortalInternal) : Prop :=
  map_base p mod PORTAL_BASE_OFFSET = 0 ∧ is_Some (handler p).

Lemma reg_window p i : map_base p mod PORTAL_BASE_OFFSET = 0 → 0 ≤ i < 2 ^ 14 →
  window (reg_addr p i) = window (map_base p) ∧ reg_addr p i mod PORTAL_BASE_OFFSET = 4 * i.
Proof.
  unfold window, reg_addr. change PORTAL_BASE_OFFSET with 65536. intros Hm Hi.
  split; div_lia.
Qed.

Lemma queue_status_zero c : queue_status c = 0 ↔ Forall (λ q, q = []) c.
Proof.
  induction c as [|q c IH]; simpl; [done|]. rewrite Forall_cons, <-IH.
  assert (0 ≤ queue_status c) by (clear; induction c; simpl; repeat case_bool_decide; lia).
  repeat case_bool_decide; simplify_eq; intuition (lia || congruence).
Qed.

(** The status names a channel that has a word waiting. *)
Lemma queue_status_ready c : queue_status c ≠ 0 →
  0 < queue_status c ≤ length c ∧
  ∃ q, c !! Z.to_nat (queue_status c - 1) = Some q ∧ q ≠ [].
Proof.
  induction c as [|q c IH]; simpl; [done|]. case_bool_decide as E.
  - case_bool_decide; [done|]. intros _. split; [lia|]. by exists q.
  - intros _. destruct (IH E) as (Hr & q' & Eq & Hne). split; [lia|]. exists q'.
    split; [|done]. replace (Z.to_nat (queue_status c + 1 - 1)) with
      (S (Z.to_nat (queue_status c - 1))) by lia. done.
Qed.

Lemma sum_length_insert (c : list (list Z)) i q n : c !! i = Some q → q ≠ [] → (0 < n)%nat →
  (sum_list_with length (<[i := drop n q]> c) < sum_list_with length c)%nat.
Proof.
  revert i; induction c as [|x c IH]; intros [|i] E Hne Hn; simplify_eq/=.
  - rewrite length_drop. destruct q; [done|]. simpl. lia.
  - specialize (IH _ E Hne Hn). lia.
Qed.

Lemma wp_enable p v (Q : () → pstate IndHw.t → Prop) s :
  map_base p mod PORTAL_BASE_OFFSET = 0 →
  Q tt (mkP (pol s) (objects s)
    (mk (queues (pdev s)) (<[window (map_base p) := bool_decide (u32 v mod 2 = 1)]> (enabled (pdev s))))) →
  wp False (on_pdev (WRITEL p (reg_addr p IND_REG_INTERRUPT_MASK) v)) Q s.
Proof.
  intros Hm HQ. destruct (reg_window p IND_REG_INTERRUPT_MASK Hm) as [Ew Eo]; [done|].
  eapply wp_eq; [|exact HQ]. unfold on_pdev. cbn [WRITEL mapped_bus mmio_write IndHw.mmio].
  by rewrite (write_enable _ _ _ _ Ew Eo).
Qed.

Context (call : string → PortalInternal → Z → M IndHw.t Z).

(** What the poller relies on: a handler called for a channel with a word
    waiting returns, takes at least one word from that channel and touches
    nothing else. *)
Definition handler_takes : Prop := ∀ h p (c : nat) d q,
  chans (window (map_base p)) d !! c = Some q → q ≠ [] →
  ∃ r n, (0 < n)%nat ∧ call h p c d = (Done r,
    mk (<[window (map_base p) := <[c := drop n q]> (chans (window (map_base p)) d)]> (queues d))
       (enabled d)).

(** [d'] is [d] with words taken from window [w] only. *)
Definition only_window (w : Z) (d d' : IndHw.t) : Prop :=
  (∀ w', w' ≠ w → queues d' !! w' = queues d !! w') ∧ enabled d' = enabled d ∧
  length (chans w d') = length (chans w d).

Lemma wp_drain fuel p (Q : () → pstate IndHw.t → Prop) s :
  handler_takes → attached p →
  (words (window (map_base p)) (pdev s) ≤ fuel)%nat →
  (length (chans (window (map_base p)) (pdev s)) < 2 ^ 31) →
  (∀ d', only_window (window (map_base p)) (pdev s) d' →
     queue_status (chans (window (map_base p)) d') = 0 → Q tt (mkP (pol s) (objects s) d')) →
  wp False (drain call fuel p) Q s.
Proof.
  intros Hcall [Hm [h Hh]]. set (w := window (map_base p)).
  destruct (reg_window p IND_REG_QUEUE_STATUS Hm) as [Ew Eo]; [done|].
  revert s; induction fuel as [|fuel IH]; intros s Hf Hlen HQ; cbn [drain];
    (eapply wp_bind, wp_eq;
      [unfold on_pdev; cbn [READL mapped_bus mmio_read IndHw.mmio];
       rewrite (read_queue_status _ _ _ Ew Eo); reflexivity|]); fold w;
    set (c := chans w (pdev s)) in *; destruct (decide (queue_status c = 0)) as [E|E].
  1, 3: rewrite E; wp_steps; apply HQ; [by destruct s|done].
  - exfalso. destruct (queue_status_ready c E) as (_ & q & Eq & Hne).
    pose proof (sum_length_insert c _ q 1 Eq Hne ltac:(lia)). unfold words in Hf. fold c in Hf. lia.
  - destruct (queue_status_ready c E) as (Hr & q & Eq & Hne).
    rewrite u32_small by lia. rewrite bool_decide_false by done. rewrite Hh.
    rewrite u32_small by lia.
    destruct (Hcall h p (Z.to_nat (queue_status c - 1)) (pdev s) q Eq Hne) as (r & n & Hn & Er).
    rewrite Z2Nat.id in Er by lia. fold w c in Er.
    eapply wp_bind, wp_eq; [unfold on_pdev; cbn [pdev]; rewrite Er; reflexivity|].
    set (d' := mk _ _). apply IH; simpl.
    + unfold words, chans, d'. simpl. rewrite lookup_insert_eq. simpl.
      pose proof (sum_length_insert c _ q n Eq Hne Hn). unfold words in Hf. fold c in Hf. lia.
    + unfold chans, d'. simpl. rewrite lookup_insert_eq. simpl. by rewrite length_insert.
    + intros d2 (Hq & He & Hl2) Hz. apply HQ; [|done]. split_and!; [|done|].
      * intros w' Hw'. rewrite Hq by done. unfold d'. simpl. by rewrite lookup_insert_ne.
      * rewrite Hl2. unfold d', chans. simpl. rewrite lookup_insert_eq. simpl. by rewrite length_insert.
Qed.

Definition window_of (s : pstate IndHw.t) (a : Z) : Z :=
  default 0 ((λ p, window (map_base p)) <$> objects s !! a).
Definition windows (s : pstate IndHw.t) : list Z := window_of s <$> portal_wrappers (pol s).

(** Every registered portal is attached and no queue is longer than [fuel]. *)
Definition event_ready (fuel : nat) (s : pstate IndHw.t) : Prop :=
  poller_ok s ∧
  (∀ a p, a ∈ portal_wrappers (pol s) → objects s !! a = Some p → attached p) ∧
  (∀ x, (words x (pdev s) ≤ fuel)%nat ∧ length (chans x (pdev s)) < 2 ^ 31).

(** After serving the portals in [ws]. *)
Definition served (ws : list Z) (d d' : IndHw.t) : Prop :=
  (∀ x, (x ∈ ws ∧ queue_status (chans x d') = 0) ∨ (¬ (x ∈ ws) ∧ queues d' !! x = queues d !! x)) ∧
  (∀ x, enabled d' !! x = if bool_decide (x ∈ ws) then Some true else enabled d !! x) ∧
  (∀ x, length (chans x d') = length (chans x d)).

Lemma served_words fuel ws d d' x : served ws d d' →
  (words x d ≤ fuel)%nat ∧ length (chans x d) < 2 ^ 31 →
  queue_status (chans x d') = 0 ∨
  (words x d' ≤ fuel)%nat ∧ length (chans x d') < 2 ^ 31.
Proof.
  intros [Hs _] Hx. destruct (Hs x) as [[_ ?]|[_ E]]; [by left|right].
  unfold words, chans in *. by rewrite E.
Qed.

(** The messages of one portal, whose queues may already be empty. *)
Lemma wp_serve_one fuel p a ws d0 s : handler_takes → attached p → objects s !! a = Some p →
  (∀ x, (words x d0 ≤ fuel)%nat ∧ length (chans x d0) < 2 ^ 31) → served ws d0 (pdev s) →
  wp False (drain call fuel p;; on_pdev (portalEnableInterrupts p)) (λ _ s',
    pol s' = pol s ∧ objects s' = objects s ∧
    served (ws ++ [window (map_base p)]) d0 (pdev s')) s.
Proof.
  intros Hcall Ha Ho Hfuel Hserved. set (w := window (map_base p)).
  apply wp_bind. eapply (wp_mono _ _ (λ _ s', ∃ d', only_window w (pdev s) d' ∧
    queue_status (chans w d') = 0 ∧ s' = mkP (pol s) (objects s) d')).
  - destruct (served_words fuel ws d0 (pdev s) w Hserved (Hfuel w)) as [Hz|[Hf Hl]];
      [|apply wp_drain; eauto].
    destruct Ha as [Hm _]. destruct (reg_window p IND_REG_QUEUE_STATUS Hm) as [Ew Eo]; [done|].
    destruct fuel; cbn [drain];
      (eapply wp_bind, wp_eq;
        [unfold on_pdev; cbn [READL mapped_bus mmio_read IndHw.mmio];
         rewrite (read_queue_status _ _ _ Ew Eo); fold w; rewrite Hz; reflexivity|]);
      wp_steps; exists (pdev s); by destruct s.
  - clear Hfuel. intros [] s' (d' & (Hq & He & Hl) & Hz & ->). unfold portalEnableInterrupts.
    apply wp_enable; [by destruct Ha|]. simpl. split_and!; [done..|].
    destruct Hserved as (Hs1 & Hs2 & Hs3). split_and!; simpl.
    + intros x. destruct (decide (x = w)) as [->|Hne].
      * left. split; [set_solver|done].
      * rewrite Hq by done. unfold chans in *. simpl. rewrite Hq by done.
        rewrite elem_of_app, elem_of_cons, elem_of_nil.
        destruct (Hs1 x) as [[? ?]|[? ?]]; tauto.
    + intros x. fold w. destruct (decide (x = w)) as [->|Hne].
      * rewrite lookup_insert_eq. rewrite !bool_decide_true by (done || set_solver). done.
      * rewrite lookup_insert_ne, He, Hs2 by done.
        by rewrite (bool_decide_ext (x ∈ ws ++ [w]) (x ∈ ws))
          by (rewrite elem_of_app, elem_of_cons, elem_of_nil; tauto).
    + intros x. rewrite <-Hs3. destruct (decide (x = w)) as [->|Hne]; [exact Hl|].
      unfold chans. simpl. by rewrite Hq.
Qed.

(** C19.  One round of event dispatch terminates and delivers everything: with
    handlers that take what they are called for, every queue of every registered
    portal ends up empty, every registered portal has its interrupt re-enabled,
    and portals of other pollers are untouched. *)
Theorem portalExec_event_drains fuel s : handler_takes → event_ready fuel s →
  wp False (portalExec_event call fuel) (λ r s',
    r = 0 ∧ pol s' = pol s ∧
    (∀ x, x ∈ windows s → queue_status (chans x (pdev s')) = 0 ∧
                          enabled (pdev s') !! x = Some true) ∧
    (∀ x, x ∉ windows s → queues (pdev s') !! x = queues (pdev s) !! x ∧
                          enabled (pdev s') !! x = enabled (pdev s) !! x)) s.
Proof.
  intros Hcall (Hok & Hatt & Hfuel). unfold portalExec_event. apply wp_bind, wp_gets, wp_bind.
  eapply wp_mono; [apply (wp_for_each False _ _ (λ i s', pol s' = pol s ∧ objects s' = objects s ∧
    served (take i (windows s)) (pdev s) (pdev s')))|].
  - split_and!; [done..|]. split_and!; intros x; [right| |done]; rewrite take_0.
    + split; [set_solver|done].
    + by rewrite bool_decide_false by set_solver.
  - intros i a t Hi (Ep & Eo & Hserved).
    pose proof (ok_objs s Hok) as Hobjs. rewrite Forall_lookup in Hobjs.
    destruct (Hobjs _ _ Hi) as [pi Epi].
    apply wp_bind. unfold deref. apply wp_bind, wp_gets. rewrite Eo, Epi. apply wp_ret.
    eapply wp_mono; [apply (wp_serve_one fuel pi a (take i (windows s)) (pdev s)); try done|].
    + eapply Hatt; [by eapply list_elem_of_lookup_2|done].
    + by rewrite Eo.
    + intros [] t' (Ep' & Eo' & Hs'). split_and!; [congruence..|].
      erewrite take_S_r; [exact Hs'|]. unfold windows.
      rewrite list_lookup_fmap, Hi. simpl. unfold window_of. by rewrite Epi.
  - intros [] s' (Ep & Eo & Hs1 & Hs2 & _). apply wp_ret. split_and!; [done..| |].
    + intros x Hx. rewrite take_ge in Hs1, Hs2 by (unfold windows; by rewrite length_fmap).
      rewrite Hs2, bool_decide_true by done. split; [|done].
      by destruct (Hs1 x) as [[_ ?]|[? _]].
    + intros x Hx. rewrite take_ge in Hs1, Hs2 by (unfold windows; by rewrite length_fmap).
      rewrite Hs2, bool_decide_false by done. split; [|done].
      by destruct (Hs1 x) as [[? _]|[_ ?]].
Qed.
End Drain.

Section Exec.
Import IndHw.
Context (poll : list pollfd → Z → M IndHw.t Z).
Context (call : string → PortalInternal → Z → M IndHw.t Z).

(** Writing the interrupt mask of all registered portals. *)
Lemma wp_masks v s (Q : () → pstate IndHw.t → Prop) :
  poller_ok s →
  (∀ a p, a ∈ portal_wrappers (pol s) → objects s !! a = Some p →
     map_base p mod PORTAL_BASE_OFFSET = 0) →
  (∀ d', queues d' = queues (pdev s) →
     (∀ x, enabled d' !! x = if bool_decide (x ∈ windows s)
       then Some (bool_decide (u32 v mod 2 = 1)) else enabled (pdev s) !! x) →
     Q tt (mkP (pol s) (objects s) d')) →
  wp False (for_each (portal_wrappers (pol s)) (λ w, pint ← deref w;
    on_pdev (WRITEL pint (reg_addr pint IND_REG_INTERRUPT_MASK) v))) Q s.
Proof.
  intros Hok Hal HQ.
  eapply wp_mono; [apply (wp_for_each False _ _ (λ i s', ∃ d', s' = mkP (pol s) (objects s) d' ∧
    queues d' = queues (pdev s) ∧ ∀ x, enabled d' !! x = if bool_decide (x ∈ take i (windows s))
       then Some (bool_decide (u32 v mod 2 = 1)) else enabled (pdev s) !! x))|].
  - exists (pdev s). split_and!; [by destruct s|done|]. intros x. rewrite take_0.
    by rewrite bool_decide_false by apply not_elem_of_nil.
  - intros i a t Hi (d' & -> & Eq & He). pose proof (ok_objs s Hok) as Hobjs.
    rewrite Forall_lookup in Hobjs. destruct (Hobjs _ _ Hi) as [pi Epi].
    apply wp_bind. unfold deref. apply wp_bind, wp_gets. simpl. rewrite Epi. apply wp_ret.
    apply wp_enable; [eapply Hal; [by eapply list_elem_of_lookup_2|done]|]. simpl.
    eexists. split_and!; [done|done|]. simpl.
    assert (windows s !! i = Some (window (map_base pi))) as Ew
      by (unfold windows, window_of; by rewrite list_lookup_fmap, Hi; simpl; rewrite Epi).
    intros x. rewrite (take_S_r _ _ _ Ew). destruct (decide (x = window (map_base pi))) as [->|Hne].
    + rewrite lookup_insert_eq, (bool_decide_true (_ ∈ _)); [done|].
      rewrite elem_of_app, elem_of_cons. tauto.
    + rewrite lookup_insert_ne, He by done.
      by rewrite (bool_decide_ext (x ∈ take i (windows s) ++ [_]) (x ∈ take i (windows s)))
        by (rewrite elem_of_app, elem_of_cons, elem_of_nil; tauto).
  - intros [] s' (d' & -> & Eq & He). apply HQ; [done|]. intros x. rewrite He.
    rewrite take_ge; [done|]. unfold windows. by rewrite length_fmap.
Qed.

Lemma exec_loop_stop fuel rc efuel s : rc ≠ 0 →
  exec_loop poll call fuel (mret tt) rc efuel s = (Done rc, s).
Proof.
  intros Hrc. destruct fuel; cbn [exec_loop]; unfold mbind, M_bind, gets, mret, M_ret;
    by rewrite (bool_decide_false (rc = 0)) by done.
Qed.

(** Without portals the event loop returns at once with -ENODEV. *)
Lemma portalExec_no_portals fuel efuel s : poller_ok s → numFds (pol s) = 0 →
  wp False (portalExec poll call fuel (mret tt) efuel) (λ rc s',
    rc = - ENODEV ∧ pdev s' = pdev s ∧ stopping (pol s') = 1) s.
Proof.
  intros [Hl _ _] Hn. assert (portal_wrappers (pol s) = []) as Ew
    by (destruct (portal_wrappers (pol s)); [done|simpl in *; lia]).
  unfold portalExec, portalExec_init, set_pol. wp_steps. rewrite Hn, bool_decide_true by done.
  wp_steps. destruct fuel; cbn [exec_loop]; wp_steps; unfold portalExec_end, set_pol; wp_steps;
    simpl; rewrite Ew; by wp_steps.
Qed.

(** When poll fails, the event loop returns its error code and leaves the
    interrupts of every registered portal disabled, the others as they were. *)
Lemma portalExec_poll_error fuel efuel e s : poller_ok s →
  (∀ a p, a ∈ portal_wrappers (pol s) → objects s !! a = Some p →
     map_base p mod PORTAL_BASE_OFFSET = 0) →
  numFds (pol s) ≠ 0 → stopping (pol s) = 0 → e < 0 → (∀ fds t d, poll fds t d = (Done e, d)) →
  wp False (portalExec poll call (S fuel) (mret tt) efuel) (λ rc s',
    rc = e ∧ queues (pdev s') = queues (pdev s) ∧ stopping (pol s') = 1 ∧
    (∀ x, enabled (pdev s') !! x =
      if bool_decide (x ∈ windows s) then Some false else enabled (pdev s) !! x)) s.
Proof.
  intros Hok Hal Hn Hst He Hpoll. unfold portalExec, portalExec_init, set_pol.
  apply wp_bind, wp_bind, wp_gets, wp_bind, wp_modify. rewrite bool_decide_false by done.
  set (s1 := mkP (mkPoller _ _ _ (-1) _) _ _).
  assert (poller_ok s1) as Hok1 by (destruct Hok; by split).
  apply wp_bind, (wp_masks 1 s1); [done|done|]. intros d' Eq1 He1. wp_steps.
  cbn [exec_loop]. apply wp_bind, wp_ret, wp_bind, wp_gets. simpl.
  rewrite Hst. simpl. apply wp_bind. unfold portalExec_poll. simpl.
  apply wp_bind, wp_gets. simpl. eapply wp_eq; [unfold on_pdev; simpl; by rewrite Hpoll|].
  rewrite bool_decide_false by lia. apply wp_bind, wp_ret.
  eapply wp_eq; [by apply exec_loop_stop; lia|]. apply wp_bind.
  unfold portalExec_end, set_pol. apply wp_bind, wp_gets, wp_bind, wp_modify. simpl.
  set (s2 := mkP (mkPoller _ _ _ _ 1) _ _). apply (wp_masks 0 s2); [destruct Hok; by split|done|].
  intros d2 Eq2 He2. apply wp_ret. split_and!; [done|exact (eq_trans Eq2 Eq1)|done|].
  intros x. cbn [pdev]. rewrite He2. change (windows s2) with (windows s).
  change (enabled (pdev s2) !! x) with (enabled d' !! x). rewrite He1.
  change (windows s1) with (windows s). by destruct (bool_decide (x ∈ windows s)).
Qed.
End Exec.

(** *** A concrete poller: two portals, windows 1 and 2 *)
Section Demo.
Import IndHw.
Definition take_one (_ : string) (p : PortalInternal) (c : Z) : M IndHw.t Z :=
  λ d, let '(v, d') := pop (window (map_base p)) (Z.to_nat c) d in (Done v, d').
Lemma take_one_takes : handler_takes take_one.
Proof.
  intros h p c d [|x q] E Hne; [done|]. exists x, 1%nat. split; [lia|].
  unfold take_one, pop. rewrite Nat2Z.id, E. simpl. by rewrite drop_0.
Qed.

Definition demo_pint (n fd : Z) : PortalInternal :=
  mkPortalInternal 0 fd n (n * PORTAL_BASE_OFFSET) 0 (Some "handler"%string).
Definition demo_ind : IndHw.t := mk {[1 := [[10; 11]; []; [12]]; 2 := [[13]]; 3 := [[14]]]} ∅.
Definition demo_ps : pstate IndHw.t :=
  mkP (mkPoller [100; 200] [mkPollfd 5 1 0; mkPollfd 6 1 0] 2 0 0)
      {[100 := demo_pint 1 5; 200 := demo_pint 2 6; 300 := demo_pint 3 7]} demo_ind.

Lemma demo_poller_ok : poller_ok demo_ps.
Proof. by split; [|repeat constructor; eexists|]. Qed.
Lemma demo_aligned a p : a ∈ portal_wrappers (pol demo_ps) →
  objects demo_ps !! a = Some p → attached p.
Proof.
  simpl. rewrite !elem_of_cons, elem_of_nil.
  intros [->|[->|[]]] [= <-]; by split; [|eexists].
Qed.
Lemma demo_chans x : (words x demo_ind ≤ 10)%nat ∧ length (chans x demo_ind) < 2 ^ 31.
Proof.
  destruct (decide (x = 1)) as [->|]; [by split; [apply Nat.leb_le|]|].
  destruct (decide (x = 2)) as [->|]; [by split; [apply Nat.leb_le|]|].
  destruct (decide (x = 3)) as [->|]; [by split; [apply Nat.leb_le|]|].
  assert (queues demo_ind !! x = None) as E
    by (simpl; by rewrite !lookup_insert_ne, lookup_singleton_ne by done).
  unfold words, chans. rewrite E. simpl. split; [lia|done].
Qed.

Lemma portalExec_event_drains_witness :
  wp False (portalExec_event take_one 10) (λ r s',
    r = 0 ∧ pol s' = pol demo_ps ∧
    (∀ x, x ∈ windows demo_ps → queue_status (chans x (pdev s')) = 0 ∧
                          enabled (pdev s') !! x = Some true) ∧
    (∀ x, ¬ (x ∈ windows demo_ps) → queues (pdev s') !! x = queues demo_ind !! x ∧
                          enabled (pdev s') !! x = enabled demo_ind !! x)) demo_ps.
Proof.
  apply (portalExec_event_drains take_one 10 demo_ps); [exact take_one_takes|].
  split; [exact demo_poller_ok|]. split; [exact demo_aligned|exact demo_chans].
Defined.

Lemma portalExec_poll_error_witness :
  wp False (portalExec (λ _ _, mret (-1)) take_one 1 (mret tt) 10) (λ rc s',
    rc = -1 ∧ queues (pdev s') = queues demo_ind ∧ stopping (pol s') = 1 ∧
    (∀ x, enabled (pdev s') !! x =
      if bool_decide (x ∈ windows demo_ps) then Some false else enabled demo_ind !! x)) demo_ps.
Proof.
  apply (portalExec_poll_error (λ _ _, mret (-1)) take_one 0 10 (-1) demo_ps);
    [exact demo_poller_ok| |done|done|lia|done].
  intros a p Ha Hp. by destruct (demo_aligned a p Ha Hp).
Defined.

End Demo.
