(* ===== verification/DmaManager.v ===== *)
(** * The DMA manager (src/cpp/dmaManager.c, dmaManager.h, StdDmaIndication.h)

    Hands buffers to the hardware under consecutive object ids and waits for the
    hardware's answers.  Semaphores are counters; the thread that delivers
    indications is a parameter ([deliver]) which runs when the manager has to
    wait, and [deliver_hw] is that thread on the hardware of DmaConfigProxy.v. *)
From stdpp Require Import base list gmap numbers strings.
From S2P Require Import Prelude Portal SGListMMU DmaConfigProxy SendFd PortalMem.
Local Open Scope Z_scope.

(** [cpp/dmaManager.h:48-56] DmaManagerPrivate *)
Record DmaManagerPrivate := mkPriv {
  confSem : Z;
  mtSem : Z;
  dbgSem : Z;
  mtCnt : Z;
  device : PortalInternal;
  pa_fd : Z;
  handle : Z;
}.

(** [cpp/dmaManager.c:55-75] DmaManager_init: the structure, and the new value of
    global_pa_fd; [portalmem] is what open("/dev/portalmem") returns *)
Definition DmaManager_init (global_pa_fd portalmem : Z) (argDevice : PortalInternal) :
    DmaManagerPrivate * Z :=
  (mkPriv 0 0 0 0 argDevice 0 0,
   if bool_decide (global_pa_fd = -1) then portalmem else global_pa_fd).

(** The manager with the indication wrapper's error budget, the hardware and the
    number of its answers already delivered. *)
Record sys (D : Type) := mkSys {
  priv : DmaManagerPrivate;
  error_limit : Z;
  answered : nat;
  hw : D;
}.
Arguments mkSys {D} _ _ _ _.
Arguments priv {D} _.
Arguments error_limit {D} _.
Arguments answered {D} _.
Arguments hw {D} _.

Section Manager.
Context {D : Type} `{Bus D}.
Abbreviation S := (M (sys D)).

Definition on_priv (f : DmaManagerPrivate → DmaManagerPrivate) : S () :=
  modify (λ s, mkSys (f (priv s)) (error_limit s) (answered s) (hw s)).
Definition on_hw {A} (m : M D A) : S A :=
  λ s, let '(r, d) := m (hw s) in (r, mkSys (priv s) (error_limit s) (answered s) d).

Definition add_conf (n : Z) (p : DmaManagerPrivate) : DmaManagerPrivate :=
  mkPriv (confSem p + n) (mtSem p) (dbgSem p) (mtCnt p) (device p) (pa_fd p) (handle p).
Definition add_mt (n : Z) (p : DmaManagerPrivate) : DmaManagerPrivate :=
  mkPriv (confSem p) (mtSem p + n) (dbgSem p) (mtCnt p) (device p) (pa_fd p) (handle p).

(** [cpp/dmaManager.h:85-88] DmaManager::confResp *)
Definition confResp (channelId : Z) : S () := on_priv (add_conf 1).

(** [cpp/dmaManager.h:89-92] DmaManager::mtResp *)
Definition mtResp (words : Z) : S () :=
  on_priv (λ p, mkPriv (confSem p) (mtSem p + 1) (dbgSem p) words (device p) (pa_fd p) (handle p)).

(** [cpp/dmaManager.h:93-96] DmaManager::dbgResp *)
Definition dbgResp (dbgRec : DmaDbgRec) : S () :=
  on_priv (λ p, mkPriv (confSem p) (mtSem p) (dbgSem p + 1) (mtCnt p) (device p) (pa_fd p) (handle p)).

(** [cpp/StdDmaIndication.h:34-37] DmaIndication::configResp *)
Definition configResp (pointer : Z) : S () := confResp pointer.

(** [cpp/StdDmaIndication.h:41-44] DmaIndication::reportStateDbg *)
Definition reportStateDbg (rec : DmaDbgRec) : S () := dbgResp rec.

(** [cpp/StdDmaIndication.h:45-48] DmaIndication::reportMemoryTraffic *)
Definition reportMemoryTraffic (words : Z) : S () := mtResp words.

(** [cpp/StdDmaIndication.h:49-53] DmaIndication::dmaError *)
Definition dmaError (code pointer offset extra : Z) : S () :=
  l ← gets error_limit;
  modify (λ s, mkSys (priv s) (s32 (l - 1)) (answered s) (hw s));;
  if bool_decide (s32 (l - 1) < 0) then exit (-1) else mret tt.

(** sem_wait: take a unit, or let the indication thread run; when that thread
    has nothing left to deliver the call never returns. *)
Context (deliver : S bool).
Fixpoint sem_wait (count : DmaManagerPrivate → Z) (take : DmaManagerPrivate → DmaManagerPrivate)
    (fuel : nat) : S () :=
  p ← gets priv;
  if bool_decide (0 < count p) then on_priv take
  else
    match fuel with
    | O => no_fuel
    | Datatypes.S fuel =>
        some ← deliver;
        if some : bool then sem_wait count take fuel else no_fuel
    end.

(** [cpp/dmaManager.c:88-88] priv->handle++ *)
Definition next_handle : S Z :=
  p ← gets priv;
  on_priv (λ p, mkPriv (confSem p) (mtSem p) (dbgSem p) (mtCnt p) (device p) (pa_fd p)
                  (s32 (handle p + 1)));;
  mret (handle p).

(** [cpp/dmaManager.c:86-113] DmaManager_reference in user space on hardware:
    [send_ioctl] is ioctl(PCIE_SEND_FD or PORTAL_SEND_FD) *)
Definition DmaManager_reference_user (fuel : nat) (send_ioctl : Z → Z → Z → M D Z) (fd : Z) : S Z :=
  id ← next_handle;
  p ← gets priv;
  rc ← on_hw (send_ioctl (fpga_fd (device p)) fd id);
  (if bool_decide (rc = 0) then sem_wait confSem (add_conf (-1)) fuel else mret tt);;
  mret id.

(** [cpp/dmaManager.c:86-113] DmaManager_reference in the kernel or on the
    simulator: [send] is send_fd_to_portal *)
Definition DmaManager_reference (fuel : nat) (send : PortalInternal → Z → Z → M D Z) (fd : Z) : S Z :=
  id ← next_handle;
  p ← gets priv;
  rc ← on_hw (send (device p) fd id);
  (if bool_decide (rc ≤ 0) then sem_wait confSem (add_conf (-1)) fuel else mret tt);;
  mret rc.

(** [cpp/dmaManager.c:77-84] DmaManager_show_mem_stats *)
Definition DmaManager_show_mem_stats (fuel : nat) (rc : ChannelType) : S Z :=
  p ← gets priv;
  on_hw (DmaConfigProxy_getMemoryTraffic (device p) rc);;
  sem_wait mtSem (add_mt (-1)) fuel;;
  p ← gets priv;
  mret (u64 (0 + mtCnt p)).
End Manager.

(** The indication thread on the DMA hardware: the oldest answer not delivered
    yet is passed to the DmaIndication wrapper.  [traffic] is the value of the
    hardware's traffic counter. *)
Definition deliver_hw (traffic : Z) : M (sys DmaHw.t) bool :=
  s ← get;
  match DmaHw.responses (DmaHw.log (hw s)) !! answered s with
  | None => mret false
  | Some r =>
      modify (λ s, mkSys (priv s) (error_limit s) (Datatypes.S (answered s)) (hw s));;
      match r with
      | DmaHw.ConfigResp ptr => configResp ptr
      | DmaHw.AddrResponse => mret tt
      | DmaHw.ReportStateDbg => reportStateDbg (mkDmaDbgRec 0 0 0 0)
      | DmaHw.ReportMemoryTraffic => reportMemoryTraffic traffic
      end;;
      mret true
  end.

(** [drivers/pcieportal/pcieportal.c:260-281] portal_unlocked_ioctl, PCIE_SEND_FD:
    the driver sends the buffer's segments and returns 0 or -EFAULT, which
    ioctl(2) reports as -1 *)
Definition send_fd_ioctl {D} `{Bus D} (fget : Z → option (list sg_entry))
    (devptr : PortalInternal) (fpga_fd fd id : Z) : M D Z :=
  err ← send_fd_to_portal fget devptr fd id;
  mret (if bool_decide (err < 0) then -1 else 0).

Section Facts.
Context (fget : Z → option (list sg_entry)) (traffic : Z).
Implicit Types s : sys DmaHw.t.

(** Nothing in flight: the hardware is idle, every answer was delivered and
    every configuration answer was waited for. *)
Record quiet s : Prop := {
  quiet_ready : ready (device (priv s)) (hw s);
  quiet_answered : answered s = length (DmaHw.responses (DmaHw.log (hw s)));
  quiet_conf : confSem (priv s) = 0;
}.

(** What one successful transfer does. *)
Definition transferred (id : Z) (sgl : list sg_entry) (d d' : DmaHw.t) : Prop :=
  (∀ off, 0 ≤ off < 2 ^ 40 → mmu_translate (DmaHw.mmu d') id off = sg_lookup sgl off) ∧
  (∀ id' off, id' ≠ id → mmu_translate (DmaHw.mmu d') id' off = mmu_translate (DmaHw.mmu d) id' off).

Lemma send_transferred p fd id sgl d : fget fd = Some sgl → sg_ok sgl → 0 ≤ id < 32 → ready p d →
  ∃ d', send_fd_to_portal fget p fd id d = (Done id, d') ∧ ready p d' ∧ transferred id sgl d d' ∧
    DmaHw.responses (DmaHw.log d') = DmaHw.responses (DmaHw.log d) ++ [DmaHw.ConfigResp id].
Proof.
  intros Hf [(b & m & t & -> & Hb & Hm & Ht) Hl] Hid R.
  destruct (send_fd_hw fget p fd id d b m t) as (d' & E & R' & P & Lg & Hr & Hp); try done.
  exists d'. split_and!; try done. split.
  - intros off Ho. by apply mmu_translate_walk.
  - intros id' off Hne. apply mmu_translate_ext; [by apply Hr..|]. intros k Hk. apply Hp. lia.
Qed.

(** Waiting for a configuration answer that is the next one to be delivered. *)
Lemma wait_conf fuel ptr s (Q : () → sys DmaHw.t → Prop) :
  confSem (priv s) = 0 →
  DmaHw.responses (DmaHw.log (hw s)) !! answered s = Some (DmaHw.ConfigResp ptr) →
  Q tt (mkSys (add_conf (-1) (add_conf 1 (priv s))) (error_limit s) (Datatypes.S (answered s)) (hw s)) →
  wp False (sem_wait (deliver_hw traffic) confSem (add_conf (-1)) (Datatypes.S fuel)) Q s.
Proof.
  intros Hc Hr HQ. cbn [sem_wait]. apply wp_bind, wp_gets. rewrite Hc. simpl.
  apply wp_bind. unfold deliver_hw. apply wp_bind, wp_get. rewrite Hr.
  unfold configResp, confResp, on_priv. wp_steps. simpl.
  destruct fuel; cbn [sem_wait]; apply wp_bind, wp_gets; simpl; rewrite Hc; simpl;
    unfold on_priv; wp_steps; exact HQ.
Qed.

Lemma reference_user_wp fuel fd id sgl s : quiet s →
  fget fd = Some sgl → sg_ok sgl → handle (priv s) = id → 0 ≤ id < 32 →
  wp False (DmaManager_reference_user (deliver_hw traffic) (Datatypes.S fuel)
              (send_fd_ioctl fget (device (priv s))) fd) (λ r s',
    r = id ∧ quiet s' ∧ handle (priv s') = id + 1 ∧ device (priv s') = device (priv s) ∧
    transferred id sgl (hw s) (hw s')) s.
Proof.
  intros [R A C] Hf Hok Hh Hid. unfold DmaManager_reference_user, next_handle, on_priv. wp_steps.
  simpl. destruct (send_transferred (device (priv s)) fd id sgl (hw s)) as (d' & E & R' & T & Lg);
    [done..|].
  rewrite Hh. eapply wp_eq.
  { unfold on_hw, send_fd_ioctl. simpl. rewrite (bind_Done _ _ _ _ _ E). done. }
  rewrite (bool_decide_false (id < 0)) by lia. rewrite bool_decide_true by done.
  apply wp_bind, (wait_conf fuel id); simpl; [done| |].
  - by rewrite Lg, A, list_lookup_middle.
  - apply wp_ret. simpl. rewrite s32_small by lia. split_and!; try done.
    split; simpl; [done| |lia]. rewrite Lg, length_app, A. simpl. lia.
Qed.

(** References taken one after the other. *)
Fixpoint reference_all (ref : Z → M (sys DmaHw.t) Z) (fds : list Z) : M (sys DmaHw.t) (list Z) :=
  match fds with
  | [] => mret []
  | fd :: fds => id ← ref fd; ids ← reference_all ref fds; mret (id :: ids)
  end.

(** C3.  References taken from user space, one after the other, up to the 32
    objects the hardware has: each call returns (its wait for the hardware's
    answer is always satisfied and consumes exactly that answer), the ids are
    consecutive, and at the end the hardware translates every referenced object
    to its own buffer, and all older objects as before. *)
Theorem references_translate fuel s (fds : list Z) (sgls : list (list sg_entry)) :
  quiet s → Forall2 (λ fd sgl, fget fd = Some sgl ∧ sg_ok sgl) fds sgls →
  0 ≤ handle (priv s) → handle (priv s) + length fds ≤ 32 →
  wp False (reference_all (DmaManager_reference_user (deliver_hw traffic) (Datatypes.S fuel)
              (send_fd_ioctl fget (device (priv s)))) fds) (λ ids s',
    quiet s' ∧ ids = (λ i : nat, handle (priv s) + i) <$> seq 0 (length fds) ∧
    (∀ i sgl off, sgls !! i = Some sgl → 0 ≤ off < 2 ^ 40 →
       mmu_translate (DmaHw.mmu (hw s')) (handle (priv s) + Z.of_nat i) off = sg_lookup sgl off) ∧
    (∀ id off, id < handle (priv s) →
       mmu_translate (DmaHw.mmu (hw s')) id off = mmu_translate (DmaHw.mmu (hw s)) id off)) s.
Proof.
  intros Hq HF. revert s Hq; induction HF as [|fd sgl fds sgls [Hf Hok] HF IH];
    intros s Hq Hh Hlen; [by apply wp_ret; split_and!; try done; intros [|i]|].
  cbn [reference_all length] in *. apply wp_bind.
  eapply wp_mono; [by apply (reference_user_wp fuel fd (handle (priv s)) sgl); try lia|].
  intros id s1 (-> & Hq1 & Hh1 & Hd1 & T1). apply wp_bind.
  rewrite <-Hd1. eapply wp_mono; [apply IH; [done|lia|lia]|].
  intros ids s2 (Hq2 & -> & Hnew & Hold). apply wp_ret. rewrite Hh1 in *. destruct T1 as [T1 T2].
  split_and!; [done| | |].
  - simpl. rewrite Z.add_0_r. f_equal. rewrite <-seq_shift, <-list_fmap_compose.
    apply list_fmap_ext. intros i x _. simpl. lia.
  - intros [|i] sg off Hi Hoff; simplify_eq/=.
    + rewrite Z.add_0_r, Hold by lia. by apply T1.
    + replace (handle (priv s) + Datatypes.S i) with (handle (priv s) + 1 + i) by lia.
      by apply Hnew.
  - intros id off Hid. rewrite Hold, T2 by lia. done.
Qed.

(** The hardware's answers still to be delivered. *)
Definition outstanding s : Z :=
  length (DmaHw.responses (DmaHw.log (hw s))) - answered s.

(** DmaManager_reference as compiled for the kernel and the simulator: the
    first object (id 0) is confirmed by the hardware before the call returns,
    but for every later object the call returns with the hardware's answer
    still outstanding, because it only waits when the returned id is not
    positive. *)
Lemma reference_kernel_confirmed fuel fd id sgl s : quiet s →
  fget fd = Some sgl → sg_ok sgl → handle (priv s) = id → 0 ≤ id < 32 →
  wp False (DmaManager_reference (deliver_hw traffic) (Datatypes.S fuel)
              (λ p, send_fd_to_portal fget p) fd) (λ r s',
    r = id ∧ transferred id sgl (hw s) (hw s') ∧
    outstanding s' = if bool_decide (id = 0) then 0 else 1) s.
Proof.
  intros [R A C] Hf Hok Hh Hid. unfold DmaManager_reference, next_handle, on_priv. wp_steps.
  simpl. destruct (send_transferred (device (priv s)) fd id sgl (hw s)) as (d' & E & R' & T & Lg);
    [done..|].
  rewrite Hh. eapply wp_eq; [unfold on_hw; simpl; rewrite E; done|].
  apply wp_bind. destruct (decide (id = 0)) as [->|Hne].
  - rewrite bool_decide_true by done. apply (wait_conf fuel 0); simpl; [done| |].
    + by rewrite Lg, A, list_lookup_middle.
    + apply wp_ret. split_and!; try done. unfold outstanding; simpl.
      rewrite Lg, length_app, A. simpl. lia.
  - rewrite bool_decide_false by lia. wp_steps. split_and!; try done.
    rewrite bool_decide_false by done. unfold outstanding; simpl.
    rewrite Lg, length_app, A. simpl. lia.
Qed.

(** When the transfer itself fails (a negative code, nothing sent to the
    hardware), DmaManager_reference never returns the error: it waits for an
    answer that is not coming. *)
Lemma reference_error_blocks fuel send e s : quiet s → e < 0 →
  (∀ p fd id, send p fd id (hw s) = (Done e, hw s)) →
  ∀ fd, (DmaManager_reference (deliver_hw traffic) fuel send fd s).1 = OutOfFuel.
Proof.
  intros [R A C] He Hs fd. unfold DmaManager_reference, next_handle, on_priv, mbind, M_bind, gets,
    modify, mret, M_ret. unfold on_hw; simpl. rewrite Hs. simpl.
  rewrite bool_decide_true by lia.
  destruct fuel; cbn [sem_wait]; unfold mbind, M_bind, gets; simpl; rewrite C; simpl; [done|].
  unfold deliver_hw, mbind, M_bind, get. simpl.
  by rewrite lookup_ge_None_2 by (by rewrite A).
Qed.

(** DmaManager_show_mem_stats returns the traffic counter the hardware
    reports for this very request. *)
Lemma show_mem_stats_returns fuel rc s : quiet s → mtSem (priv s) = 0 →
  DmaHw.idle (device (priv s)) 4 (hw s) → 0 ≤ traffic < 2 ^ 64 →
  wp False (DmaManager_show_mem_stats (deliver_hw traffic) (Datatypes.S fuel) rc) (λ v s',
    v = traffic ∧ mtSem (priv s') = 0 ∧ outstanding s' = 0) s.
Proof.
  intros [R A C] Hmt I Ht. unfold DmaManager_show_mem_stats. wp_steps.
  destruct (DmaHw.request_sent (device (priv s)) 4 (hw s) (ChannelType_to_Z rc)
    (DmaHw.GetMemoryTraffic (u32 (ChannelType_to_Z rc)))) as [d' [E Lg]]; [done|done|].
  eapply wp_eq; [unfold on_hw, DmaConfigProxy_getMemoryTraffic,
    CHAN_NUM_DmaConfigProxy_getMemoryTraffic; rewrite E; done|].
  apply wp_bind. cbn [sem_wait]. apply wp_bind, wp_gets. simpl. rewrite Hmt. simpl.
  apply wp_bind. unfold deliver_hw. apply wp_bind, wp_get. simpl.
  rewrite Lg. simpl. rewrite A, list_lookup_middle by done.
  unfold reportMemoryTraffic, mtResp, on_priv. wp_steps. simpl.
  destruct fuel; cbn [sem_wait]; apply wp_bind, wp_gets; simpl; rewrite Hmt; simpl;
    unfold on_priv; wp_steps; unfold outstanding;
    cbn [priv hw answered mtSem mtCnt add_mt];
    rewrite Lg; cbn [DmaHw.responses]; rewrite length_app, u64_small by lia; simpl length;
    split_and!; lia.
Qed.
End Facts.

(** *** Concrete managers *)
Definition demo_sys : sys DmaHw.t :=
  mkSys (DmaManager_init (-1) 9 demo_portal).1 20 0 demo_dev.
Lemma demo_quiet : quiet demo_sys.
Proof. split; [exact demo_ready|done|done]. Qed.
Definition demo_sys1 : sys DmaHw.t :=
  mkSys (mkPriv 0 0 0 0 demo_portal 0 1) 20 0 demo_dev.
Lemma demo_quiet1 : quiet demo_sys1.
Proof. split; [exact demo_ready|done|done]. Qed.

Lemma references_translate_witness :
  wp False (reference_all (DmaManager_reference_user (deliver_hw 0) 1
              (send_fd_ioctl demo_fget demo_portal)) [3; 3]) (λ ids s',
    quiet s' ∧ ids = (λ i : nat, 0 + i) <$> seq 0 2 ∧
    (∀ i sgl off, [demo_sgl; demo_sgl] !! i = Some sgl → 0 ≤ off < 2 ^ 40 →
       mmu_translate (DmaHw.mmu (hw s')) (0 + Z.of_nat i) off = sg_lookup sgl off) ∧
    (∀ id off, id < 0 →
       mmu_translate (DmaHw.mmu (hw s')) id off = mmu_translate (DmaHw.mmu demo_dev) id off)) demo_sys.
Proof.
  apply (references_translate demo_fget 0 0 demo_sys [3; 3] [demo_sgl; demo_sgl]);
    [exact demo_quiet|repeat constructor; try apply demo_sgl_ok|simpl; lia|simpl; lia].
Defined.

Lemma reference_error_blocks_witness :
  (DmaManager_reference (deliver_hw 0) 50 (λ _ _ _, mret (-14)) 3 demo_sys).1 = OutOfFuel.
Proof.
  apply (reference_error_blocks 0 50 (λ _ _ _, mret (-14)) (-14) demo_sys);
    [exact demo_quiet|lia|reflexivity].
Defined.

(** The manager does not check the number of objects: object 32 is programmed
    over object 0, whose first byte moves from 0x300000 to 0x9000. *)
Example reference_33_aliases :
  let fget := λ fd, if bool_decide (fd = 3) then Some demo_sgl else Some [mkSg 0x9000 4096] in
  let run := reference_all (DmaManager_reference_user (deliver_hw 0) 1
               (send_fd_ioctl fget demo_portal)) in
  let before := (run [3] demo_sys).2 in
  let after := (run (replicate 32 5) before).2 in
  mmu_translate (DmaHw.mmu (hw before)) 0 0 = Some 0x300000 ∧
  mmu_translate (DmaHw.mmu (hw after)) 0 0 = Some 0x9000.
Proof. by vm_compute. Qed.
