(* ===== verification/Timer.v ===== *)
(** * Cycle timers (src/cpp/timer.c)

    Interval measurements on top of portalCycleCount, which is an operation of
    the environment here; [clock] below instantiates it with a sequence of
    readings. *)
From stdpp Require Import base sets numbers list.
From S2P Require Import Prelude.
Local Open Scope Z_scope.

(** [cpp/timer.c:34-34] MAX_TIMER_COUNT *)
Definition MAX_TIMER_COUNT : Z := 16.

(** [cpp/portal.h:123-123] MAX_TIMERS *)
Definition MAX_TIMERS : Z := 50.

(** [cpp/timer.c:36-38] PORTAL_TIMETYPE *)
Record PORTAL_TIMETYPE := mkTime { total : Z; min : Z; max : Z; over : Z }.

(** [cpp/timer.c:40-42] c_start, lap_timer_temp, timers *)
Record timer_state := mkTimers {
  c_start : list Z;
  lap_timer_temp : Z;
  timers : list PORTAL_TIMETYPE;
}.
Definition timer_zero : timer_state :=
  mkTimers (replicate 16 0) 0 (replicate 50 (mkTime 0 0 0 0)).

Section Timers.
Context {D : Type} (portalCycleCount : M D Z).
Abbreviation T := (M (timer_state * D)).

(** [cpp/timer.c:44-48] portalTimerStart *)
Definition portalTimerStart (i : Z) : T () :=
  assert (bool_decide (u32 i < MAX_TIMER_COUNT));;
  c ← on_snd portalCycleCount;
  modify (λ s, (mkTimers (<[Z.to_nat (u32 i) := c]> (c_start s.1)) (lap_timer_temp s.1) (timers s.1), s.2)).

(** [cpp/timer.c:50-56] portalTimerLap *)
Definition portalTimerLap (i : Z) : T Z :=
  temp ← on_snd portalCycleCount;
  assert (bool_decide (u32 i < MAX_TIMER_COUNT));;
  modify (λ s, (mkTimers (c_start s.1) temp (timers s.1), s.2));;
  start ← gets (λ s, nth (Z.to_nat (u32 i)) (c_start s.1) 0);
  mret (u64 (temp - start)).

(** [cpp/timer.c:58-64] portalTimerInit *)
Definition portalTimerInit : T () :=
  modify (λ s, (mkTimers (c_start s.1) (lap_timer_temp s.1)
    (replicate (Z.to_nat MAX_TIMERS) (mkTime 0 (2 ^ 63) 0 0)), s.2)).

(** [cpp/timer.c:71-77] portalTimerCatch: the update of one timer *)
Definition record_val (val : Z) (t : PORTAL_TIMETYPE) : PORTAL_TIMETYPE :=
  let mx := if bool_decide (max t < val) then val else max t in
  let mn := if bool_decide (val < min t) then val else min t in
  let ov := if bool_decide (val = 0) then u64 (over t + 1) else over t in
  mkTime (u64 (total t + val)) mn mx ov.

(** [cpp/timer.c:66-79] portalTimerCatch *)
Definition portalTimerCatch (i : Z) : T Z :=
  val ← portalTimerLap 0;
  if bool_decide (MAX_TIMERS ≤ u32 i) then mret 0
  else
    modify (λ s, (mkTimers (c_start s.1) (lap_timer_temp s.1)
      (alter (record_val val) (Z.to_nat (u32 i)) (timers s.1)), s.2));;
    gets (λ s, lap_timer_temp s.1).

(** [cpp/timer.c:81-89] portalTimerPrint: the lines printed, as (index, average,
    min, max, over).  The average divides an unsigned total by [loops] converted
    to unsigned; division by 0 is undefined. *)
Definition portalTimerPrint (loops : Z) (s : timer_state) : option (list (Z * Z * Z * Z * Z)) :=
  let used := filter (λ it : nat * PORTAL_TIMETYPE, min it.2 ≠ 2 ^ 63)
                (zip (seq 0 (length (timers s))) (timers s)) in
  if bool_decide (used ≠ []) && bool_decide (u64 loops = 0) then None
  else Some ((λ it : nat * PORTAL_TIMETYPE,
                (it.1 : Z, total it.2 / u64 loops, min it.2, max it.2, over it.2)) <$> used).
End Timers.

(** ** What the statistics mean *)

(** The summary of a list of samples, latest last. *)
Definition summary (vals : list Z) : PORTAL_TIMETYPE :=
  foldl (λ t v, record_val v t) (mkTime 0 (2 ^ 63) 0 0) vals.

Lemma record_val_min v t : min (record_val v t) = Z.min v (min t).
Proof. unfold record_val; simpl. case_bool_decide; lia. Qed.
Lemma record_val_max v t : max (record_val v t) = Z.max v (max t).
Proof. unfold record_val; simpl. case_bool_decide; lia. Qed.

Lemma summary_snoc vals v : summary (vals ++ [v]) = record_val v (summary vals).
Proof. unfold summary. by rewrite foldl_app. Qed.

(** The statistics a timer keeps are exact: for any sequence of recorded
    intervals (64-bit values below 2^63) the minimum and maximum are those of
    the intervals, the total is their sum modulo 2^64 and [over] counts the
    zero intervals. *)
Lemma timer_summary vals : Forall (λ v, 0 ≤ v < 2 ^ 63) vals →
  let t := summary vals in
  (vals ≠ [] → min t ∈ vals) ∧ Forall (λ v, min t ≤ v ≤ max t) vals ∧
  (vals ≠ [] → max t ∈ vals) ∧ total t = u64 (zsum vals) ∧
  (length vals < 2 ^ 63 → over t = length (filter (.= 0) vals)).
Proof.
  induction vals as [|v vals IH] using rev_ind; [by repeat split|].
  rewrite Forall_app, Forall_singleton. intros [Hvs Hv]. specialize (IH Hvs).
  cbv zeta in *. rewrite summary_snoc, record_val_min, record_val_max.
  destruct IH as (Hmin & Hall & Hmax & Htot & Hov).
  assert (vals = [] ∨ vals ≠ []) as [->|Hne] by (destruct vals; auto).
  - simpl. rewrite Z.min_l, Z.max_l by lia. split_and!.
    + intros _. apply elem_of_cons; by left.
    + repeat constructor; lia.
    + intros _. apply elem_of_cons; by left.
    + unfold record_val; simpl. f_equal. lia.
    + intros _. unfold record_val; simpl. rewrite filter_cons. simpl.
      case_bool_decide; [by rewrite decide_True|by rewrite decide_False].
  - specialize (Hmin Hne). specialize (Hmax Hne). split_and!.
    + intros _. destruct (Z.min_spec v (min (summary vals))) as [[_ ->]|[_ ->]];
        rewrite elem_of_app, elem_of_cons; auto.
    + rewrite Forall_app, Forall_singleton. split; [|lia].
      rewrite Forall_forall in Hall |- *. intros x Hx. specialize (Hall x Hx). lia.
    + intros _. destruct (Z.max_spec v (max (summary vals))) as [[_ ->]|[_ ->]];
        rewrite elem_of_app, elem_of_cons; auto.
    + unfold record_val; simpl. rewrite Htot, zsum_app. simpl. unfold u64.
      rewrite Zplus_mod_idemp_l. f_equal. lia.
    + intros Hl. rewrite length_app in Hl. simpl in Hl. unfold record_val; simpl.
      rewrite filter_app, length_app. rewrite Hov by lia.
      pose proof (length_filter (.= 0) vals).
      case_bool_decide; rewrite filter_cons; simpl.
      * rewrite decide_True by done. simpl. rewrite u64_small; lia.
      * rewrite decide_False by done. simpl. lia.
Qed.

(** A clock that returns the given readings in turn. *)
Definition clock : M (list Z) Z := λ l, (Done (hd 0 l), tl l).

(** portalTimerCatch files every interval since portalTimerStart(0) under
    its timer: after any number of calls the timer holds the summary of exactly
    the elapsed cycle counts (modulo 2^64), and the call returns the clock
    reading it used. *)
Lemma timer_catch_records (i : nat) start vals s readings rest :
  (i < 50)%nat → length (timers s) = 50%nat → timers s !! i = Some (summary vals) →
  c_start s !! 0%nat = Some start →
  ∃ s', for_each readings (λ c, r ← portalTimerCatch clock i; assert (bool_decide (r = c)))
      (s, readings ++ rest) = (Done tt, (s', rest)) ∧
    timers s' !! i = Some (summary (vals ++ ((λ c, u64 (c - start)) <$> readings))).
Proof.
  revert vals s; induction readings as [|c readings IH]; intros vals s Hi Hl Ht Hc.
  - exists s. split; [done|]. by rewrite app_nil_r.
  - set (s1 := mkTimers (c_start s) c (alter (record_val (u64 (c - start))) i (timers s))).
    destruct (IH (vals ++ [u64 (c - start)]) s1) as (s' & E & H'); [done| | |done|].
    { simpl. by rewrite length_alter. }
    { simpl. rewrite list_lookup_alter_eq, Ht. simpl. by rewrite summary_snoc. }
    exists s'. rewrite <-app_assoc in H'. split; [|done].
    cbn [for_each app]. rewrite <-E.
    assert (u32 i = i) as Ei by (apply u32_small; lia).
    destruct s as [[|start' cs] lt ts]; simplify_eq/=.
    unfold portalTimerCatch, portalTimerLap, on_snd, clock, mbind, M_bind, assert, modify, gets.
    simpl. rewrite Ei, (bool_decide_false (MAX_TIMERS ≤ i)) by (unfold MAX_TIMERS; lia).
    simpl. rewrite Nat2Z.id, bool_decide_true by done. done.
Qed.

