(* ===== verification/BsimSocket.v ===== *)
(** * The simulator link (src/cpp/sock_utils.c, src/cpp/BsimCtrl.cxx)

    In simulation, READL and WRITEL become messages over a Unix socket to the
    Bluesim process, which plays them against the simulated hardware.  Both ends
    are modelled with the two message queues between them; [sock_bus] is the
    resulting [Bus] instance, and the refinement theorem at the end says that it
    behaves like the memory-mapped bus of Portal.v. *)
From stdpp Require Import base list gmap numbers strings.
From S2P Require Import Prelude Portal.
Local Open Scope Z_scope.

(** [cpp/sock_utils.h:27-28] MAGIC_PORTAL_FOR_SENDING_FD, ..._INTERRUPT *)
Definition MAGIC_PORTAL_FOR_SENDING_FD : Z := 666.
Definition MAGIC_PORTAL_FOR_SENDING_INTERRUPT : Z := 999.

(** [cpp/sock_utils.h:30-35] memrequest *)
Record memrequest := mkReq { rq_portal : Z; rq_write_flag : Z; rq_addr : Z; rq_data : Z }.

(** [cpp/sock_utils.h:36-39] memresponse *)
Record memresponse := mkResp { rs_portal : Z; rs_data : Z }.

(** A message to the simulator: a request, or a descriptor sent with SCM_RIGHTS. *)
Inductive sockmsg := MReq (r : memrequest) | MFd (fd : Z).

(** [cpp/BsimCtrl.cxx:38-49] head, respitem, dma_fd, dma_waiting of the simulator
    (with last_level of interruptLevel), the client's interrupt_value, the two
    directions of the socket and the simulated hardware *)
Record sim (D : Type) := mkSim {
  to_sim : list sockmsg;
  to_client : list memresponse;
  interrupt_value : Z;
  head_req : memrequest;
  head_valid : bool;
  head_inflight : bool;
  respitem : memresponse;
  last_level : Z;
  dma_fd : Z;
  dma_waiting : Z;
  design : D;
}.
Arguments mkSim {D} _ _ _ _ _ _ _ _ _ _ _.
Arguments to_sim {D} _.
Arguments to_client {D} _.
Arguments interrupt_value {D} _.
Arguments head_req {D} _.
Arguments head_valid {D} _.
Arguments head_inflight {D} _.
Arguments respitem {D} _.
Arguments last_level {D} _.
Arguments dma_fd {D} _.
Arguments dma_waiting {D} _.
Arguments design {D} _.

Definition sim_init {D} (d : D) : sim D :=
  mkSim [] [] 0 (mkReq 0 0 0 0) false false (mkResp 0 0) 0 (-1) 0 d.

Section Link.
Context {D : Type} `{MMIO D} (irq : D → Z).
Abbreviation S := (M (sim D)).

Definition with_sim_msgs (l : list sockmsg) (s : sim D) : sim D :=
  mkSim l (to_client s) (interrupt_value s) (head_req s) (head_valid s) (head_inflight s)
    (respitem s) (last_level s) (dma_fd s) (dma_waiting s) (design s).
Definition with_client_msgs (l : list memresponse) (s : sim D) : sim D :=
  mkSim (to_sim s) l (interrupt_value s) (head_req s) (head_valid s) (head_inflight s)
    (respitem s) (last_level s) (dma_fd s) (dma_waiting s) (design s).
Definition with_interrupt (v : Z) (s : sim D) : sim D :=
  mkSim (to_sim s) (to_client s) v (head_req s) (head_valid s) (head_inflight s)
    (respitem s) (last_level s) (dma_fd s) (dma_waiting s) (design s).
Definition with_head (r : memrequest) (valid inflight : bool) (s : sim D) : sim D :=
  mkSim (to_sim s) (to_client s) (interrupt_value s) r valid inflight
    (respitem s) (last_level s) (dma_fd s) (dma_waiting s) (design s).
Definition with_resp (r : memresponse) (s : sim D) : sim D :=
  mkSim (to_sim s) (to_client s) (interrupt_value s) (head_req s) (head_valid s) (head_inflight s)
    r (last_level s) (dma_fd s) (dma_waiting s) (design s).
Definition with_level (v : Z) (s : sim D) : sim D :=
  mkSim (to_sim s) (to_client s) (interrupt_value s) (head_req s) (head_valid s) (head_inflight s)
    (respitem s) v (dma_fd s) (dma_waiting s) (design s).
Definition with_dma (fd waiting : Z) (s : sim D) : sim D :=
  mkSim (to_sim s) (to_client s) (interrupt_value s) (head_req s) (head_valid s) (head_inflight s)
    (respitem s) (last_level s) fd waiting (design s).
Definition with_design (d : D) (s : sim D) : sim D :=
  mkSim (to_sim s) (to_client s) (interrupt_value s) (head_req s) (head_valid s) (head_inflight s)
    (respitem s) (last_level s) (dma_fd s) (dma_waiting s) d.

(** ** The simulator's end *)

(** [cpp/sock_utils.c:242-245] bsim_ctrl_send *)
Definition bsim_ctrl_send (r : memresponse) : S () :=
  modify (λ s, with_client_msgs (to_client s ++ [r]) s).

(** [cpp/sock_utils.c:153-177] sock_fd_read: the descriptor that follows a magic
    request; anything else ends the process *)
Definition sock_fd_read : S Z :=
  l ← gets to_sim;
  match l with
  | MFd fd :: l => modify (with_sim_msgs l);; mret fd
  | _ => exit (-1)
  end.

(** [cpp/sock_utils.c:231-240] bsim_ctrl_recv: [None] when nothing is waiting *)
Definition bsim_ctrl_recv : S (option memrequest) :=
  l ← gets to_sim;
  match l with
  | [] => mret None
  | MFd _ :: _ => exit (-1)
  | MReq r :: l =>
      modify (with_sim_msgs l);;
      if bool_decide (rq_portal r = MAGIC_PORTAL_FOR_SENDING_FD) then
        fd ← sock_fd_read;
        mret (Some (mkReq (rq_portal r) (rq_write_flag r) (rq_addr r) (u32 fd)))
      else mret (Some r)
  end.

(** [cpp/BsimCtrl.cxx:63-79] interruptLevel *)
Definition interruptLevel (ivalue : Z) : S () :=
  s ← get;
  if bool_decide (ivalue = u32 (last_level s)) then mret tt
  else
    modify (with_level (s32 ivalue));;
    let temp := rs_portal (respitem s) in
    modify (with_resp (mkResp MAGIC_PORTAL_FOR_SENDING_INTERRUPT ivalue));;
    bsim_ctrl_send (mkResp MAGIC_PORTAL_FOR_SENDING_INTERRUPT ivalue);;
    modify (with_resp (mkResp temp ivalue)).

(** [cpp/BsimCtrl.cxx:81-87] pareff_fd: the wait on dma_waiting blocks while no
    descriptor has arrived *)
Definition pareff_fd : S Z :=
  s ← get;
  if bool_decide (0 < dma_waiting s) then
    modify (with_dma (-1) (dma_waiting s - 1));; mret (dma_fd s)
  else no_fuel.

(** [cpp/BsimCtrl.cxx:89-115] processReq32 *)
Definition processReq32 (rr : Z) : S bool :=
  s ← get;
  fd_taken ←
    (if head_valid s then mret false
     else
       r ← bsim_ctrl_recv;
       match r with
       | None => mret false
       | Some req =>
           modify (with_resp (mkResp (rq_portal req) (rs_data (respitem s))));;
           if bool_decide (rq_portal req = MAGIC_PORTAL_FOR_SENDING_FD) then
             modify (λ s, with_head req (head_valid s) (head_inflight s)
                            (with_dma (s32 (rq_data req)) (dma_waiting s + 1) s));;
             mret true
           else
             modify (with_head (mkReq (rq_portal req) (rq_write_flag req)
               (Z.lor (rq_addr req) (Z.shiftl (rq_portal req) 16)) (rq_data req)) true true);;
             mret false
       end);
  if fd_taken : bool then mret false
  else
    s ← get;
    mret (head_valid s && head_inflight s && bool_decide (u32 (rq_write_flag (head_req s)) = rr)).

(** [cpp/BsimCtrl.cxx:117-122] processAddr32 *)
Definition processAddr32 (rr : Z) : S Z :=
  s ← get;
  modify (with_head (head_req s) (head_valid s) false);;
  mret (rq_addr (head_req s)).

(** [cpp/BsimCtrl.cxx:124-129] writeData32 *)
Definition writeData32 : S Z :=
  s ← get;
  modify (with_head (head_req s) false (head_inflight s));;
  mret (rq_data (head_req s)).

(** [cpp/BsimCtrl.cxx:131-139] readData32 *)
Definition readData32 (x : Z) : S () :=
  modify (λ s, with_head (head_req s) false (head_inflight s) s);;
  s ← get;
  modify (with_resp (mkResp (rs_portal (respitem s)) x));;
  bsim_ctrl_send (mkResp (rs_portal (respitem s)) x).

(** [bsv/BsimTop.bsv:313-347] mem_client, with int_rule: one round of the
    simulated host interface.  A read is answered before the next request is
    taken, and a write's data leaves its one-place FIFO in the round in which
    the write is taken. *)
Definition sim_cycle : S () :=
  s ← get;
  interruptLevel (u32 (irq (design s)));;
  rd ← processReq32 0;
  if rd : bool then
    a ← processAddr32 0;
    s ← get;
    let '(v, d) := mmio_read a (design s) in
    modify (with_design d);;
    readData32 (u32 v)
  else
    wr ← processReq32 1;
    if wr : bool then
      a ← processAddr32 1;
      v ← writeData32;
      modify (λ s, with_design (mmio_write a (u32 v) (design s)) s)
    else mret tt.

(** ** The application's end *)

Definition send (m : sockmsg) : S () := modify (λ s, with_sim_msgs (to_sim s ++ [m]) s).

(** recv on the client: while nothing is there, the simulator runs. *)
Fixpoint recv (fuel : nat) : S memresponse :=
  l ← gets to_client;
  match l with
  | r :: l => modify (with_client_msgs l);; mret r
  | [] => match fuel with O => no_fuel | Datatypes.S fuel => sim_cycle;; recv fuel end
  end.

(** [cpp/sock_utils.c:205-214] read_portal_bsim: the receive loop *)
Fixpoint await_reply (fuel : nat) : S Z :=
  match fuel with
  | O => no_fuel
  | Datatypes.S fuel' =>
      rv ← recv fuel;
      if bool_decide (rs_portal rv = MAGIC_PORTAL_FOR_SENDING_INTERRUPT) then
        modify (with_interrupt (rs_data rv));; await_reply fuel'
      else mret (rs_data rv)
  end.

(** [cpp/sock_utils.c:195-217] read_portal_bsim *)
Definition read_portal_bsim (fuel : nat) (addr id : Z) : S Z :=
  send (MReq (mkReq id 0 addr 0));; await_reply fuel.

(** [cpp/sock_utils.c:219-229] write_portal_bsim *)
Definition write_portal_bsim (addr v id : Z) : S () := send (MReq (mkReq id 1 addr v)).

(** [cpp/sock_utils.c:122-151] sock_fd_write, bluesim_sock_fd_write *)
Definition bluesim_sock_fd_write (fd : Z) : S Z :=
  send (MReq (mkReq MAGIC_PORTAL_FOR_SENDING_FD 0 0 0));; send (MFd fd);; mret 2.

(** [cpp/sock_utils.c:179-193] bsim_poll_interrupt: a non-blocking receive; a
    message that is not an interrupt would be dropped *)
Definition bsim_poll_interrupt : S Z :=
  l ← gets to_client;
  match l with
  | [] => gets interrupt_value
  | rv :: l =>
      modify (with_client_msgs l);;
      (if bool_decide (rs_portal rv = MAGIC_PORTAL_FOR_SENDING_INTERRUPT)
       then modify (with_interrupt (rs_data rv)) else mret tt);;
      gets interrupt_value
  end.
End Link.

(** [cpp/portal.h:129-130] READL/WRITEL in simulation.  The budget of a
    read is three steps per request in flight, which may each be preceded by an
    interrupt report, and one per message already received. *)
Definition sock_bus {D} `{MMIO D} (irq : D → Z) : Bus (sim D) := {|
  READL p A s := read_portal_bsim irq (3 * length (to_sim s) + length (to_client s) + 4) A (fpga_number p) s;
  WRITEL p A B := write_portal_bsim A (u32 B) (fpga_number p);
|}.

(** ** The link implements the memory-mapped bus *)
Section Refinement.
Context {D : Type} `{MMIO D} (irq : D → Z).
Implicit Types s : sim D.

(** A write on its way: portal, address, value. *)
Record wr := mkWr { w_portal : Z; w_addr : Z; w_val : Z }.
Definition wr_msg (w : wr) : sockmsg := MReq (mkReq (w_portal w) 1 (w_addr w) (w_val w)).
Definition bus_addr (portal a : Z) : Z := Z.lor a (Z.shiftl portal 16).
Definition wr_apply (d : D) (w : wr) : D :=
  mmio_write (bus_addr (w_portal w) (w_addr w)) (u32 (w_val w)) d.

(** Portal numbers that are not message tags. *)
Definition plain (portal : Z) : Prop :=
  portal ≠ MAGIC_PORTAL_FOR_SENDING_FD ∧ portal ≠ MAGIC_PORTAL_FOR_SENDING_INTERRUPT.
Definition is_interrupt (r : memresponse) : Prop :=
  rs_portal r = MAGIC_PORTAL_FOR_SENDING_INTERRUPT.

(** Between two operations of the application: only writes are on their way to
    the simulator and only interrupt reports on the way back.  The hardware the
    application sees is [d]: what the design will be after those writes. *)
Definition link_state s (d : D) : Prop :=
  head_valid s = false ∧ Forall is_interrupt (to_client s) ∧
  ∃ ws, Forall (λ w, plain (w_portal w)) ws ∧ to_sim s = wr_msg <$> ws ∧
    d = foldl wr_apply (design s) ws.

(** During a read: the request is on its way, behind the writes, or the reply is
    on its way back.  [v] and [d] are the value and the hardware afterwards. *)
Inductive expects s (v : Z) (d : D) : Prop :=
  | expects_request ws portal a :
      head_valid s = false → Forall is_interrupt (to_client s) →
      Forall (λ w, plain (w_portal w)) ws → plain portal →
      to_sim s = (wr_msg <$> ws) ++ [MReq (mkReq portal 0 a 0)] →
      mmio_read (bus_addr portal a) (foldl wr_apply (design s) ws) = (v, d) →
      expects s v d
  | expects_reply ints portal :
      head_valid s = false → Forall is_interrupt ints → plain portal →
      to_sim s = [] → to_client s = ints ++ [mkResp portal (u32 v)] → design s = d →
      expects s v d.

Definition measure s : nat := 3 * length (to_sim s) + length (to_client s).

(** interruptLevel adds at most one interrupt report. *)
Lemma interruptLevel_run x s :
  ∃ ints r l, interruptLevel x s = (Done tt, with_level l (with_resp r
      (with_client_msgs (to_client s ++ ints) s))) ∧
    Forall is_interrupt ints ∧ (length ints ≤ 1)%nat.
Proof.
  unfold interruptLevel, mbind, M_bind, get, mret, M_ret, modify, bsim_ctrl_send.
  case_bool_decide.
  - exists [], (respitem s), (last_level s). rewrite app_nil_r.
    split; [by destruct s|]. split; [constructor|simpl; lia].
  - exists [mkResp MAGIC_PORTAL_FOR_SENDING_INTERRUPT x], (mkResp (rs_portal (respitem s)) x), (s32 x).
    split; [reflexivity|]. split; [by apply Forall_singleton|done].
Qed.

(** Taking a request from the socket. *)
Definition taken (r : memrequest) (l : list sockmsg) s : sim D :=
  with_head (mkReq (rq_portal r) (rq_write_flag r) (bus_addr (rq_portal r) (rq_addr r)) (rq_data r))
    true true (with_resp (mkResp (rq_portal r) (rs_data (respitem s))) (with_sim_msgs l s)).

Lemma processReq32_take rr r l s : head_valid s = false → plain (rq_portal r) →
  to_sim s = MReq r :: l →
  processReq32 rr s = (Done (bool_decide (u32 (rq_write_flag r) = rr)), taken r l s).
Proof.
  intros Hv [Hp _] Hl. destruct s; simpl in *; subst.
  unfold processReq32, bsim_ctrl_recv, mbind, M_bind, get, gets, modify; simpl.
  rewrite bool_decide_false by done. simpl. by rewrite bool_decide_false.
Qed.

Lemma processReq32_busy rr s : head_valid s = true → head_inflight s = true →
  processReq32 rr s = (Done (bool_decide (u32 (rq_write_flag (head_req s)) = rr)), s).
Proof. intros Hv Hi. destruct s; simpl in *; by subst. Qed.

(** One round of the simulator with a write at the head of the queue. *)
Lemma sim_cycle_write s w l : head_valid s = false → plain (w_portal w) →
  to_sim s = wr_msg w :: l →
  ∃ s' ints, sim_cycle irq s = (Done tt, s') ∧ head_valid s' = false ∧ to_sim s' = l ∧
    design s' = wr_apply (design s) w ∧ to_client s' = to_client s ++ ints ∧
    Forall is_interrupt ints ∧ (length ints ≤ 1)%nat.
Proof.
  intros Hv Hp Hl. unfold sim_cycle.
  destruct (interruptLevel_run (u32 (irq (design s))) s) as (ints & r & lv & E & Hi & Hn).
  unfold mbind at 1, M_bind at 1, get at 1. rewrite (bind_Done _ _ _ _ _ E).
  erewrite bind_Done by by apply
    (processReq32_take 0 (mkReq (w_portal w) 1 (w_addr w) (w_val w)) l).
  rewrite bool_decide_false by done. erewrite bind_Done by by apply processReq32_busy.
  rewrite bool_decide_true by done. eexists _, ints. split; [reflexivity|]. by split_and!.
Qed.

(** One round with a read at the head. *)
Lemma sim_cycle_read s portal a l v d : head_valid s = false → plain portal →
  to_sim s = MReq (mkReq portal 0 a 0) :: l →
  mmio_read (bus_addr portal a) (design s) = (v, d) →
  ∃ s' ints, sim_cycle irq s = (Done tt, s') ∧ head_valid s' = false ∧ to_sim s' = l ∧
    design s' = d ∧ to_client s' = to_client s ++ ints ++ [mkResp portal (u32 v)] ∧
    Forall is_interrupt ints ∧ (length ints ≤ 1)%nat.
Proof.
  intros Hv Hp Hl Hr. unfold sim_cycle.
  destruct (interruptLevel_run (u32 (irq (design s))) s) as (ints & r & lv & E & Hi & Hn).
  unfold mbind at 1, M_bind at 1, get at 1. rewrite (bind_Done _ _ _ _ _ E).
  erewrite bind_Done by by apply
    (processReq32_take 0 (mkReq portal 0 a 0) l).
  rewrite bool_decide_true by done.
  unfold processAddr32, mbind, M_bind, get, modify, mret, M_ret. simpl. rewrite Hr.
  eexists _, ints. split; [reflexivity|]. simpl. rewrite <-app_assoc. by split_and!.
Qed.

(** Progress: with nothing received yet, a round of the simulator brings the
    read closer to its completion. *)
Lemma expects_cycle s v d : expects s v d → to_client s = [] →
  ∃ s', sim_cycle irq s = (Done tt, s') ∧ expects s' v d ∧ (measure s' < measure s)%nat.
Proof.
  intros [ws portal a Hv Hc Hw Hp Hl Hr|ints portal Hv Hi Hp Hl Hc Hd] Hnil;
    [|exfalso; rewrite Hnil in Hc; symmetry in Hc; by apply app_eq_nil in Hc as []].
  destruct ws as [|w ws].
  - destruct (sim_cycle_read s portal a [] v d) as (s' & ints & E & Hv' & Hl' & Hd' & Hc' & Hi & Hn);
      try done.
    exists s'. split; [done|]. rewrite Hnil in Hc'. split; [by eapply expects_reply|].
    unfold measure. rewrite Hl', Hl, Hc', Hnil, !length_app. simpl. lia.
  - inversion_clear Hw as [|? ? Hw1 Hws].
    destruct (sim_cycle_write s w ((wr_msg <$> ws) ++ [MReq (mkReq portal 0 a 0)]))
      as (s' & ints & E & Hv' & Hl' & Hd' & Hc' & Hi & Hn); try done.
    exists s'. split; [done|]. rewrite Hnil in Hc'. simpl in Hc'. split.
    + apply (expects_request s' v d ws portal a); try done; [by rewrite Hc'|]. by rewrite Hd'.
    + unfold measure. rewrite Hl', Hl, Hc', Hnil, fmap_cons, !length_app. cbn [length]. lia.
Qed.

(** A received message is an interrupt report, or the reply and the last one. *)
Lemma expects_pop s v d r l : expects s v d → to_client s = r :: l →
  (is_interrupt r ∧ expects (with_client_msgs l s) v d) ∨
  (plain (rs_portal r) ∧ rs_data r = u32 v ∧ link_state (with_client_msgs l s) d).
Proof.
  intros [ws portal a Hv Hc Hw Hp Hl Hr|ints portal Hv Hi Hp Hl Hc Hd] E.
  - left. rewrite E in Hc. inversion_clear Hc. split; [done|]. by eapply expects_request.
  - rewrite E in Hc. destruct ints as [|i ints]; simplify_eq/=.
    + right. split; [done|]. split; [done|]. split; [done|]. split; [constructor|].
      exists []. by repeat split.
    + left. inversion_clear Hi. split; [done|]. by eapply expects_reply.
Qed.

Lemma recv_expects fuel s v d : expects s v d → (measure s < fuel)%nat →
  ∃ r s', recv irq fuel s = (Done r, s') ∧
    ((is_interrupt r ∧ expects s' v d ∧ (measure s' < measure s)%nat) ∨
     (plain (rs_portal r) ∧ rs_data r = u32 v ∧ link_state s' d)).
Proof.
  revert s; induction fuel as [|fuel IH]; intros s He Hm; [lia|].
  cbn [recv]. unfold mbind at 1, M_bind at 1, gets. destruct (to_client s) as [|r l] eqn:E.
  - destruct (expects_cycle s v d He E) as (s1 & E1 & He1 & Hm1).
    rewrite (bind_Done _ _ _ _ _ E1). destruct (IH s1 He1) as (r & s' & Er & Hr); [lia|].
    exists r, s'. split; [done|]. destruct Hr as [(?&?&?)|?]; [left|by right].
    split_and!; try done. lia.
  - destruct (expects_pop s v d r l He E) as [[Hi He']|Hr];
      exists r, (with_client_msgs l s); (split; [done|]); [left|by right].
    split_and!; try done. unfold measure. rewrite E. simpl. lia.
Qed.

Lemma await_expects fuel s v d : expects s v d → (measure s < fuel)%nat →
  ∃ s', await_reply irq fuel s = (Done (u32 v), s') ∧ link_state s' d.
Proof.
  revert s; induction fuel as [|fuel IH]; intros s He Hm; [lia|].
  destruct (recv_expects (Datatypes.S fuel) s v d He Hm) as (r & s1 & E1 & Hr).
  cbn [await_reply]. rewrite (bind_Done _ _ _ _ _ E1).
  destruct Hr as [(Hi & He1 & Hm1)|([_ Hp] & Hd & Hl)].
  - rewrite bool_decide_true by done. unfold mbind, M_bind, modify.
    apply IH; [|unfold measure in *; simpl; lia].
    destruct He1; [by eapply expects_request|by eapply expects_reply].
  - rewrite bool_decide_false by done. exists s1. by rewrite Hd.
Qed.

(** C4.  The simulator link is a correct register bus.  In any state between two
    operations, in which the application sees hardware [d], a read over the
    socket returns (in bounded time) exactly the word a memory-mapped read of
    [d] returns and leaves the application seeing the hardware after that read;
    a write leaves it seeing the hardware after that write.  Interrupt reports
    that arrive in between are never mistaken for replies, and writes still in
    flight are taken into account. *)
Theorem sock_bus_refines s d p a :
  link_state s d → plain (fpga_number p) →
  (∃ s', READL (Bus := sock_bus irq) p a s =
           (Done (u32 (mmio_read (bus_addr (fpga_number p) a) d).1), s') ∧
         link_state s' (mmio_read (bus_addr (fpga_number p) a) d).2) ∧
  (∀ v, ∃ s', WRITEL (Bus := sock_bus irq) p a v s = (Done tt, s') ∧
         link_state s' (mmio_write (bus_addr (fpga_number p) a) (u32 v) d)).
Proof.
  intros (Hv & Hc & ws & Hw & Hl & ->) Hp.
  destruct (mmio_read (bus_addr (fpga_number p) a) (foldl wr_apply (design s) ws))
    as [v d'] eqn:Er. split.
  - apply await_expects; [by eapply expects_request; try done; simpl; rewrite Hl|].
    unfold measure. simpl. rewrite length_app. simpl. lia.
  - intros x. eexists. split; [reflexivity|]. split_and!; try done.
    exists (ws ++ [mkWr (fpga_number p) a (u32 x)]). simpl. split_and!.
    + rewrite Forall_app, Forall_singleton. done.
    + by rewrite Hl, fmap_app.
    + rewrite foldl_app. simpl. unfold wr_apply; simpl. f_equal.
      unfold u32. by rewrite Z.mod_mod.
Qed.
End Refinement.

Section FdTransfer.
Context {D : Type} `{MMIO D} (irq : D → Z).
Implicit Types s : sim D.

(** Taking a descriptor, and finding nothing. *)
Lemma processReq32_fd rr s fd wf ad dt l : head_valid s = false →
  to_sim s = MReq (mkReq MAGIC_PORTAL_FOR_SENDING_FD wf ad dt) :: MFd fd :: l →
  ∃ r h, processReq32 rr s =
    (Done false, with_head h false (head_inflight s)
       (with_dma (s32 (u32 fd)) (dma_waiting s + 1) (with_resp r (with_sim_msgs l s)))).
Proof. intros Hv Hl. destruct s; simpl in *; subst. by do 2 eexists. Qed.
Lemma processReq32_idle rr s : head_valid s = false → to_sim s = [] →
  processReq32 rr s = (Done false, s).
Proof. intros Hv Hl. destruct s; simpl in *; by subst. Qed.

(** A descriptor sent with bluesim_sock_fd_write reaches the simulated DMA
    engine: one round of the simulator later, pareff_fd returns that very
    descriptor without blocking, and the design has not been disturbed. *)
Lemma fd_transfer s fd :
  head_valid s = false → to_sim s = [] → dma_waiting s = 0 → 0 ≤ fd < 2 ^ 31 →
  wp False (bluesim_sock_fd_write fd;; sim_cycle irq;; pareff_fd) (λ r s',
    r = fd ∧ design s' = design s ∧ head_valid s' = false ∧ to_sim s' = [] ∧
    dma_waiting s' = 0) s.
Proof.
  intros Hv Hl Hw Hfd. unfold bluesim_sock_fd_write, send. wp_steps.
  lazymatch goal with |- wp _ _ _ ?x => set (s1 := x) end.
  assert (to_sim s1 = [MReq (mkReq MAGIC_PORTAL_FOR_SENDING_FD 0 0 0); MFd fd]) as Hl1
    by (unfold s1; simpl; by rewrite Hl).
  assert (head_valid s1 = false ∧ dma_waiting s1 = 0 ∧ design s1 = design s) as (Hv1 & Hw1 & Hd1)
    by done.
  clearbody s1. unfold sim_cycle. apply wp_bind, wp_get, wp_bind.
  destruct (interruptLevel_run (u32 (irq (design s1))) s1) as (ints & r & lv & E & _).
  eapply wp_eq; [exact E|]. set (s2 := with_level _ _).
  destruct (processReq32_fd 0 s2 fd 0 0 0 []) as (r2 & h2 & E2); [done..|].
  apply wp_bind. eapply wp_eq; [exact E2|]. apply wp_bind.
  eapply wp_eq; [by apply processReq32_idle|]. apply wp_ret.
  unfold pareff_fd. apply wp_bind, wp_get. simpl. rewrite Hw1, bool_decide_true by done.
  apply wp_bind, wp_modify, wp_ret. cbn [with_dma with_head dma_fd].
  rewrite u32_small, s32_small by lia. split_and!; try done; by simpl.
Qed.
End FdTransfer.

(** *** A concrete design: a register file that interrupts while word 0 is set *)
Definition regfile := gmap Z Z.
#[export] Instance regfile_mmio : MMIO regfile := {
  mmio_read a d := (default 0 (d !! a), d);
  mmio_write a v d := <[a := v]> d;
}.
Definition regfile_irq (d : regfile) : Z := default 0 (d !! 0x10000).
Definition demo_sim : sim regfile :=
  mkSim [MReq (mkReq 1 1 0 7)] [mkResp 999 1] 0 (mkReq 0 0 0 0) false false (mkResp 0 0) 0 (-1) 0 ∅.

Lemma sock_bus_refines_witness :
  let p := mkPortalInternal 0 (-1) 1 0 0 None in
  let d : regfile := {[0x10000 := 7]} in
  (∃ s', READL (Bus := sock_bus regfile_irq) p 0 demo_sim =
           (Done (u32 (mmio_read (bus_addr 1 0) d).1), s') ∧
         link_state s' (mmio_read (bus_addr 1 0) d).2) ∧
  (∀ v, ∃ s', WRITEL (Bus := sock_bus regfile_irq) p 0 v demo_sim = (Done tt, s') ∧
         link_state s' (mmio_write (bus_addr 1 0) (u32 v) d)).
Proof.
  intros p d. apply (sock_bus_refines regfile_irq demo_sim d p 0).
  - split; [reflexivity|]. split; [by apply Forall_singleton|].
    exists [mkWr 1 0 7]. split; [by apply Forall_singleton|]. split; reflexivity.
  - done.
Defined.

