(* ===== verification/BsimRelay.v ===== *)
(** * The in-kernel simulator relay (src/cpp/sock_utils.c kernel part,
    src/cpp/bsim_relay.c)

    When the application runs in the kernel, its register accesses go through a
    one-place mailbox to a user process (bsim_relay) that plays them over the
    simulator socket.  The client and the relay are two threads; their
    interleavings are a step relation, one step per access to the shared
    mailbox, its flag or a semaphore. *)
From stdpp Require Import base list gmap numbers relations.
From S2P Require Import Prelude Portal BsimSocket.
Local Open Scope Z_scope.

(** Where the client thread is: between calls, holding [bsim_avail] and about to
    fill the mailbox, or waiting for [bsim_have_response]. *)
Inductive client_pc := CIdle | CPosting (r : memrequest) | CAwait.

(** Where the relay is: about to read /dev/xbsvtest, inside xbsv_kernel_read
    after the copy, executing a request, about to write the response. *)
Inductive relay_pc := RPoll | RCopied (r : memrequest) | RGot (r : memrequest) | RReply (v : memresponse).

(** [cpp/sock_utils.c:259-267] the mailbox and its semaphores, with both threads:
    [todo] are the requests the client still has to make, [results] the values
    its calls returned *)
Record relay (D : Type) := mkRelay {
  avail : Z;
  have_response : Z;
  have_request : bool;
  upreq : memrequest;
  downresp : memresponse;
  cpc : client_pc;
  rpc : relay_pc;
  todo : list memrequest;
  results : list Z;
  rhw : D;
}.
Arguments mkRelay {D} _ _ _ _ _ _ _ _ _ _.
Arguments avail {D} _.
Arguments have_response {D} _.
Arguments have_request {D} _.
Arguments upreq {D} _.
Arguments downresp {D} _.
Arguments cpc {D} _.
Arguments rpc {D} _.
Arguments todo {D} _.
Arguments results {D} _.
Arguments rhw {D} _.

Section Relay.
Context {D : Type} `{MMIO D} (fd_write : Z → D → D).

(** [cpp/sock_utils.c:299-307] connect_to_bsim *)
Definition relay_init (ops : list memrequest) (d : D) : relay D :=
  mkRelay 1 0 false (mkReq 0 0 0 0) (mkResp 0 0) CIdle RPoll ops [] d.

(** Does the client wait for a response after posting this request? *)
Definition waits (r : memrequest) : bool :=
  bool_decide (rq_portal r = MAGIC_PORTAL_FOR_SENDING_FD) || bool_decide (rq_write_flag r = 0).

(** [cpp/bsim_relay.c:75-86] main: what the relay does with a request; a value is
    a response it will write back *)
Definition relay_exec (r : memrequest) (d : D) : option Z * D :=
  if bool_decide (rq_portal r = MAGIC_PORTAL_FOR_SENDING_FD) then (Some 0xdead, fd_write (rq_addr r) d)
  else if bool_decide (rq_write_flag r = 0) then
    let '(v, d') := mmio_read (bus_addr (rq_portal r) (rq_addr r)) d in (Some (u32 v), d')
  else (None, mmio_write (bus_addr (rq_portal r) (rq_addr r)) (u32 (rq_data r)) d).

(** [cpp/sock_utils.c:269-348] xbsv_kernel_read, xbsv_kernel_write,
    read_portal_bsim, write_portal_bsim, bluesim_sock_fd_write *)
Inductive step : relay D → relay D → Prop :=
  | client_down n hr q u dr rp r ops res d : (* down_interruptible(&bsim_avail) *)
      0 < n → step (mkRelay n hr q u dr CIdle rp (r :: ops) res d)
                   (mkRelay (n - 1) hr q u dr (CPosting r) rp ops res d)
  | client_fill n hr q u dr r rp ops res d : (* memcpy(&upreq, ...); have_request = 1 *)
      step (mkRelay n hr q u dr (CPosting r) rp ops res d)
           (mkRelay n hr true r dr (if waits r then CAwait else CIdle) rp ops res d)
  | client_resume n hr q u dr rp ops res d : (* down_interruptible(&bsim_have_response) *)
      0 < hr → step (mkRelay n hr q u dr CAwait rp ops res d)
                    (mkRelay n (hr - 1) q u dr CIdle rp ops (res ++ [rs_data dr]) d)
  | relay_poll n hr u dr cp ops res d : (* xbsv_kernel_read: -EAGAIN *)
      step (mkRelay n hr false u dr cp RPoll ops res d) (mkRelay n hr false u dr cp RPoll ops res d)
  | relay_copy n hr u dr cp ops res d : (* copy_to_user; have_request = 0 *)
      step (mkRelay n hr true u dr cp RPoll ops res d) (mkRelay n hr false u dr cp (RCopied u) ops res d)
  | relay_up n hr q u dr cp r ops res d : (* up(&bsim_avail) *)
      step (mkRelay n hr q u dr cp (RCopied r) ops res d) (mkRelay (n + 1) hr q u dr cp (RGot r) ops res d)
  | relay_run n hr q u dr cp r ops res d : (* read_portal_bsim, write_portal_bsim, ... *)
      step (mkRelay n hr q u dr cp (RGot r) ops res d)
           (mkRelay n hr q u dr cp
              (match (relay_exec r d).1 with Some v => RReply (mkResp (rq_portal r) v) | None => RPoll end)
              ops res (relay_exec r d).2)
  | relay_reply n hr q u dr cp v ops res d : (* xbsv_kernel_write *)
      step (mkRelay n hr q u dr cp (RReply v) ops res d) (mkRelay n (hr + 1) q u v cp RPoll ops res d).

(** The reference: the requests executed one after the other. *)
Fixpoint seq_exec (ops : list memrequest) (d : D) : list Z * D :=
  match ops with
  | [] => ([], d)
  | r :: ops =>
      let '(o, d1) := relay_exec r d in
      let '(vs, d2) := seq_exec ops d1 in
      (option_list o ++ vs, d2)
  end.

Lemma seq_exec_app a b d :
  seq_exec (a ++ b) d = ((seq_exec a d).1 ++ (seq_exec b (seq_exec a d).2).1,
                         (seq_exec b (seq_exec a d).2).2).
Proof.
  revert d; induction a as [|r a IH]; intros d; simpl; [by destruct (seq_exec b d)|].
  destruct (relay_exec r d) as [o d1]. rewrite IH. destruct (seq_exec a d1) as [vs d2]. simpl.
  by rewrite app_assoc.
Qed.

(** Requests posted and not yet executed, oldest first: the relay's, then the
    mailbox's, then the one the client is about to post. *)
Definition in_relay (s : relay D) : list memrequest :=
  match rpc s with RCopied r | RGot r => [r] | _ => [] end.
Definition in_mailbox (s : relay D) : list memrequest := if have_request s then [upreq s] else [].
Definition in_client (s : relay D) : list memrequest :=
  match cpc s with CPosting r => [r] | _ => [] end.
Definition pending (s : relay D) : list memrequest := in_relay s ++ in_mailbox s ++ in_client s.
(** Values on their way back to the client. *)
Definition replies (s : relay D) : list Z :=
  match rpc s with RReply v => [rs_data v] | _ => [] end ++
  (if bool_decide (have_response s = 0) then [] else [rs_data (downresp s)]).

Definition tokens (s : relay D) : Z :=
  avail s + match cpc s with CPosting _ => 1 | _ => 0 end + (if have_request s then 1 else 0)
  + match rpc s with RCopied _ => 1 | _ => 0 end.

(** How many answers are owed to the client. *)
Definition owed (s : relay D) : Z :=
  length (filter (λ r, waits r = true) (in_relay s ++ in_mailbox s)) +
  match rpc s with RReply _ => 1 | _ => 0 end + have_response s.

Record relay_inv (ops : list memrequest) (d0 : D) (s : relay D) : Prop := {
  inv_tokens : tokens s = 1 ∧ 0 ≤ avail s;
  inv_owed : owed s = match cpc s with CAwait => 1 | _ => 0 end ∧ 0 ≤ have_response s;
  inv_seq : let '(vs, d) := seq_exec (pending s ++ todo s) (rhw s) in
            seq_exec ops d0 = (results s ++ replies s ++ vs, d);
}.

Lemma relay_exec_waits r d : is_Some (relay_exec r d).1 ↔ waits r = true.
Proof.
  unfold relay_exec, waits. case_bool_decide; simpl; [by split|].
  case_bool_decide; [destruct (mmio_read _ _); by split|]. simpl. split; [by intros []|done].
Qed.

Lemma relay_init_inv ops d : relay_inv ops d (relay_init ops d).
Proof. split; [done|done|]. simpl. by destruct (seq_exec ops d). Qed.

Ltac relay_simpl :=
  unfold tokens, owed, pending, replies, in_relay, in_mailbox, in_client in *; simpl in *.

(** A waiting request counts for one owed answer. *)
Lemma owed_one (r : memrequest) :
  Z.of_nat (length (filter (λ r, waits r = true) [r])) = if waits r then 1 else 0.
Proof. rewrite filter_cons. by destruct (waits r). Qed.
Lemma owed_two (r r' : memrequest) :
  Z.of_nat (length (filter (λ r, waits r = true) [r; r'])) =
    (if waits r then 1 else 0) + (if waits r' then 1 else 0).
Proof. rewrite !filter_cons. by destruct (waits r), (waits r'). Qed.

Lemma pend_shift (a b : list memrequest) r l : (a ++ b ++ []) ++ r :: l = (a ++ b ++ [r]) ++ l.
Proof. by rewrite <-!app_assoc. Qed.

Lemma step_inv ops d0 s s' : relay_inv ops d0 s → step s s' → relay_inv ops d0 s'.
Proof.
  intros [[It Ia] [Io Ih] Is] Hs.
  destruct Hs as [n hr q u dr rp r ops' res d Hn|n hr q u dr r rp ops' res d
    |n hr q u dr rp ops' res d Hh|n hr u dr cp ops' res d|n hr u dr cp ops' res d
    |n hr q u dr cp r ops' res d|n hr q u dr cp r ops' res d|n hr q u dr cp v ops' res d];
    relay_simpl.
  - (* client_down *)
    split; relay_simpl; [lia|done|]. by rewrite <-pend_shift.
  - (* client_fill *)
    assert (q = false ∧ match rp with RCopied _ => False | _ => True end) as [-> Hrp]
      by (destruct q, rp; split; try done; lia).
    split; relay_simpl.
    + destruct (waits r); lia.
    + rewrite app_nil_r in Io. destruct rp; simpl in *; try done;
        rewrite ?owed_one, ?owed_two in *; destruct (waits r); simpl; lia.
    + by destruct (waits r).
  - (* client_resume *)
    assert (hr = 1 ∧ match rp with RReply _ => False | _ => True end) as [-> Hrp]
      by (destruct rp; split; try done; lia).
    split; relay_simpl; [done|lia|]. revert Is. destruct (seq_exec _ d) as [vs d'].
    rewrite <-!app_assoc. by destruct rp.
  - by split.
  - (* relay_copy *)
    split; relay_simpl; [lia|done|done].
  - (* relay_up *)
    split; relay_simpl; [lia|done|done].
  - (* relay_run *)
    pose proof (relay_exec_waits r d) as Hw.
    destruct (relay_exec r d) as [o d1] eqn:E. simpl in *.
    destruct (seq_exec _ d1) as [vs d2] eqn:E2.
    assert (waits r = true → hr = 0) as Hhr.
    { intros Wr. destruct q; rewrite ?owed_one, ?owed_two, Wr in Io; destruct cp; repeat case_match; lia. }
    destruct o as [v|]; simpl in *.
    + assert (waits r = true) as Wr by (apply Hw; by eexists). rewrite (Hhr Wr) in *. simpl in *.
      split; relay_simpl; [lia| |by rewrite E2].
      destruct q; rewrite ?owed_one, ?owed_two, ?Wr in Io; simpl in *;
        rewrite ?owed_one; destruct cp; lia.
    + assert (waits r = false) as Wr
        by (destruct (waits r) eqn:Wr; [|done]; destruct Hw as [_ Hw]; by destruct (Hw eq_refl)).
      split; relay_simpl; [lia| |by rewrite E2].
      destruct q; rewrite ?owed_one, ?owed_two, ?Wr in Io; simpl in *;
        rewrite ?owed_one; destruct cp; lia.
  - (* relay_reply *)
    assert (hr = 0) as -> by (destruct q; rewrite ?owed_one in Io; destruct cp; repeat case_match; lia).
    split; relay_simpl; [lia|lia|done].
Qed.

Lemma reach_inv ops d s : rtc step (relay_init ops d) s → relay_inv ops d s.
Proof.
  intros Hr. generalize (relay_init_inv ops d). revert Hr. generalize (relay_init ops d).
  intros s0 Hr. induction Hr as [|x y z Hxy _ IH]; [done|].
  intros Hi. eapply IH, step_inv; eauto.
Qed.

(** C5.  The mailbox protocol is linearizable: in every interleaving of the client
    and the relay, the values the client's calls have returned so far are a
    prefix of those of executing its requests one after the other, and when
    everything has drained they are all of them and the hardware is in the
    state of the sequential execution. *)
Theorem relay_linearizable ops d s : rtc step (relay_init ops d) s →
  (∃ vs, (seq_exec ops d).1 = results s ++ vs) ∧
  (pending s ++ todo s = [] → replies s = [] → seq_exec ops d = (results s, rhw s)).
Proof.
  intros Hr. destruct (reach_inv ops d s Hr) as [_ _ Is].
  destruct (seq_exec (pending s ++ todo s) (rhw s)) as [vs d'] eqn:E. rewrite Is. split.
  - by eexists.
  - intros Hp Hre. rewrite Hp in E. simplify_eq/=. rewrite Hre. by rewrite !app_nil_r.
Qed.

(** C35.  The mailbox is never overwritten and the protocol never gets stuck: the
    client fills the mailbox only when it is empty, it waits exactly while an
    answer is owed to it (a request that is answered is in the mailbox or with the relay, or its answer is on
    the way), at most one is owed at a time, and unless all requests are done and answered some
    thread other than an idle poll can move. *)
Theorem relay_safe_and_live ops d s : rtc step (relay_init ops d) s →
  (∀ r, cpc s = CPosting r → have_request s = false) ∧
  (cpc s = CAwait ↔ 0 < owed s) ∧ owed s ≤ 1 ∧
  (pending s ++ todo s = [] ∧ replies s = [] ∧ cpc s = CIdle ∨ ∃ s', step s s' ∧ s' ≠ s).
Proof.
  intros Hr. destruct (reach_inv ops d s Hr) as [[It Ia] [Io Ih] _].
  destruct s as [n hr q u dr cp rp td res hw]. split; [|split; [|split]].
  - relay_simpl. intros r ->. destruct q; [|done]. destruct rp; lia.
  - simpl in Io. rewrite Io. simpl. by destruct cp.
  - simpl in Io. rewrite Io. by destruct cp.
  - relay_simpl. destruct rp as [|r|r|v].
    + destruct q; [right; eexists; split; [apply relay_copy|by intros [=]]|].
      destruct cp as [|r|]; simpl in *.
      * destruct td as [|r td]; [left; by rewrite bool_decide_true by lia|].
        right. eexists. split; [apply client_down; lia|by intros [=]].
      * right. eexists. split; [apply client_fill|by intros [=]].
      * right. eexists. split; [apply client_resume; lia|by intros [=]].
    + right. eexists. split; [apply relay_up|by intros [=]].
    + right. eexists. split; [apply relay_run|].
      destruct (relay_exec r hw).1; by intros [=].
    + right. eexists. split; [apply relay_reply|by intros [=]].
Qed.
End Relay.

(** *** A concrete run: a write and a read of it *)
Definition demo_ops : list memrequest := [mkReq 1 1 8 42; mkReq 1 0 8 0].
Definition demo_fd_write (_ : Z) (d : regfile) : regfile := d.

(** The write is taken over by the relay while the client already posts the read. *)
Definition demo_middle : relay regfile :=
  mkRelay 0 0 true (mkReq 1 0 8 0) (mkResp 0 0) CAwait (RGot (mkReq 1 1 8 42)) [] [] ∅.
Lemma demo_run_middle : rtc (step demo_fd_write) (relay_init demo_ops ∅) demo_middle.
Proof.
  eapply rtc_l; [by apply client_down|]. eapply rtc_l; [apply client_fill|]. eapply rtc_l; [apply relay_copy|].
  eapply rtc_l; [apply relay_up|]. eapply rtc_l; [by apply client_down|]. apply rtc_once, client_fill.
Qed.
Definition demo_end : relay regfile :=
  mkRelay 1 0 false (mkReq 1 0 8 0) (mkResp 1 42) CIdle RPoll [] [42] (seq_exec demo_fd_write demo_ops ∅).2.
Lemma demo_run_end : rtc (step demo_fd_write) (relay_init demo_ops ∅) demo_end.
Proof.
  etransitivity; [apply demo_run_middle|]. unfold demo_middle.
  eapply rtc_l; [apply relay_run|]. eapply rtc_l; [apply relay_copy|]. eapply rtc_l; [apply relay_up|].
  eapply rtc_l; [apply relay_run|]. eapply rtc_l; [apply relay_reply|]. apply rtc_once. by apply client_resume.
Qed.

Lemma relay_linearizable_witness : rtc (step demo_fd_write) (relay_init demo_ops ∅) demo_end ∧
  seq_exec demo_fd_write demo_ops ∅ = (results demo_end, rhw demo_end) ∧ results demo_end = [42].
Proof.
  split; [apply demo_run_end|]. split; [|reflexivity].
  apply (relay_linearizable demo_fd_write demo_ops ∅ demo_end demo_run_end); reflexivity.
Defined.

Lemma relay_safe_and_live_witness : rtc (step demo_fd_write) (relay_init demo_ops ∅) demo_middle ∧
  (∀ r, cpc demo_middle = CPosting r → have_request demo_middle = false) ∧
  (cpc demo_middle = CAwait ↔ 0 < owed demo_middle) ∧ owed demo_middle ≤ 1 ∧
  (pending demo_middle ++ todo demo_middle = [] ∧ replies demo_middle = [] ∧ cpc demo_middle = CIdle ∨
   ∃ s', step demo_fd_write demo_middle s' ∧ s' ≠ demo_middle).
Proof.
  split; [apply demo_run_middle|]. apply (relay_safe_and_live demo_fd_write demo_ops ∅ demo_middle demo_run_middle).
Defined.
