(* ===== verification/BsimDma.v ===== *)
(** * Simulated DMA memory (src/cpp/BsimDma.cxx)

    The Bluesim side of a shared buffer: the segment lengths the software sends
    are accumulated per object, the end marker maps the buffer's descriptor, and
    the simulated DMA engine then reads and writes it word by word.  Mappings are
    shared: two descriptors of the same file lead to the same bytes. *)
From stdpp Require Import base gmap numbers list.
From S2P Require Import Prelude.
Local Open Scope Z_scope.

(** [cpp/BsimDma.cxx:39-43] dma_info: [buffer] is the file mapped, [None] for NULL *)
Record dma_info := mkInfo { buffer : option Z; buffer_len : Z; size_accum : Z }.

(** The table of 32 objects, and the bytes of the shared files by file and offset. *)
Record dma_state := mkDma { infos : list dma_info; bytes : gmap (Z * Z) Z }.
Definition dma_init : dma_state := mkDma (replicate 32 (mkInfo None 0 0)) ∅.

(** A little-endian word of [n] bytes at an address, and storing one. *)
Fixpoint load_le (n : nat) (fd off : Z) (m : gmap (Z * Z) Z) : Z :=
  match n with
  | O => 0
  | S n => default 0 (m !! (fd, off)) + 256 * load_le n fd (off + 1) m
  end.
Fixpoint store_le (n : nat) (fd off v : Z) (m : gmap (Z * Z) Z) : gmap (Z * Z) Z :=
  match n with
  | O => m
  | S n => <[(fd, off) := v mod 256]> (store_le n fd (off + 1) (v / 256) m)
  end.

Section Pareff.
Context (file_of : Z → Z).
Abbreviation B := (M dma_state).

(** &dma_info[pref].buffer[offset] for an access of [n] bytes: the index and the
    offset are not checked by the code, an access outside the mapping is
    undefined. *)
Definition locate (pref offset : Z) (n : Z) : B Z :=
  s ← get;
  match infos s !! Z.to_nat (u32 pref) with
  | Some i =>
      match buffer i with
      | Some fd => if bool_decide (u32 offset + n ≤ buffer_len i) then mret fd else undefined
      | None => undefined
      end
  | None => undefined
  end.

Definition write_pareff (n : nat) (pref offset data : Z) : B () :=
  fd ← locate pref offset n;
  modify (λ s, mkDma (infos s) (store_le n fd (u32 offset) data (bytes s))).
Definition read_pareff (n : nat) (pref offset : Z) : B Z :=
  fd ← locate pref offset n;
  gets (λ s, load_le n fd (u32 offset) (bytes s)).

(** [cpp/BsimDma.cxx:46-48] write_pareff32 *)
Definition write_pareff32 (pref offset data : Z) : B () := write_pareff 4 pref offset (u32 data).

(** [cpp/BsimDma.cxx:50-52] read_pareff32 *)
Definition read_pareff32 : Z → Z → B Z := read_pareff 4.

(** [cpp/BsimDma.cxx:54-56] write_pareff64 *)
Definition write_pareff64 (pref offset data : Z) : B () := write_pareff 8 pref offset (u64 data).

(** [cpp/BsimDma.cxx:58-60] read_pareff64 *)
Definition read_pareff64 : Z → Z → B Z := read_pareff 8.

(** [cpp/BsimDma.cxx:62-78] pareff; [pareff_fd] is the descriptor that arrived
    over the socket, [file_of] the file it is open on and [mmap_ok] whether mapping it
    succeeds *)
Definition pareff (pareff_fd : Z) (mmap_ok : Z → Z → bool) (apref size : Z) : B () :=
  let pref := Z.shiftr (u32 apref) 8 in
  assert (bool_decide (pref < 32));;
  s ← get;
  let i := nth (Z.to_nat pref) (infos s) (mkInfo None 0 0) in
  let acc := s32 (size_accum i + size) in
  modify (λ s, mkDma (<[Z.to_nat pref := mkInfo (buffer i) (buffer_len i) acc]> (infos s)) (bytes s));;
  if bool_decide (size = 0) then
    if mmap_ok pareff_fd acc then
      modify (λ s, mkDma (<[Z.to_nat pref := mkInfo (Some (file_of pareff_fd)) (u32 acc) acc]> (infos s)) (bytes s))
    else exit (-1)
  else mret tt.
End Pareff.

(** ** Properties *)
Lemma load_store_le n fd off v m : 0 ≤ v < 256 ^ Z.of_nat n →
  load_le n fd off (store_le n fd off v m) = v.
Proof.
  revert off v; induction n as [|n IH]; intros off v Hv; [simpl in *; lia|].
  cbn [load_le store_le]. rewrite lookup_insert_eq. simpl default.
  assert (∀ k o x y, o < off + 1 → load_le k fd (off + 1) (<[(fd, o) := x]> y) = load_le k fd (off + 1) y)
    as Hfr.
  { clear. intros k o x y. generalize (off + 1) as b. induction k as [|k IHk]; intros b Hb; [done|].
    cbn [load_le]. rewrite lookup_insert_ne by (intros [=]; lia). by rewrite IHk by lia. }
  rewrite Hfr by lia. rewrite Nat2Z.inj_succ, Z.pow_succ_r in Hv by lia.
  rewrite IH by (split; [apply Z.div_pos; lia|apply Z.div_lt_upper_bound; lia]).
  pose proof (Z.div_mod v 256). lia.
Qed.

Lemma load_store_other (n k : nat) fd fd' off off' v m :
  fd' ≠ fd ∨ off' + k ≤ off ∨ off + n ≤ off' →
  load_le k fd' off' (store_le n fd off v m) = load_le k fd' off' m.
Proof.
  revert off v off'. induction n as [|n IH]; intros off v off' Hd; [done|]. cbn [store_le].
  assert (∀ o b x y, fd' ≠ fd ∨ b + k ≤ o ∨ o < b →
    load_le k fd' b (<[(fd, o) := x]> y) = load_le k fd' b y) as Hfr.
  { clear. induction k as [|k IHk]; intros o b x y Hb; [done|].
    cbn [load_le]. rewrite lookup_insert_ne by (intros [=]; lia). by rewrite IHk by lia. }
  destruct k as [|k]; [done|]. rewrite Hfr, IH by lia. done.
Qed.

(** A word of 8 bytes is the two words of 4 bytes it is made of. *)
Lemma load_split (n k : nat) fd off m :
  load_le (n + k) fd off m = load_le n fd off m + 256 ^ Z.of_nat n * load_le k fd (off + n) m.
Proof.
  revert off; induction n as [|n IH]; intros off.
  - simpl. rewrite Z.add_0_r. destruct (load_le k fd off m); done.
  - cbn [Nat.add load_le]. rewrite IH, Nat2Z.inj_succ, Z.pow_succ_r by lia.
    replace (off + 1 + n) with (off + Z.succ n) by lia. lia.
Qed.

(** An object whose buffer is mapped. *)
Definition mapped (pref fd len : Z) (s : dma_state) : Prop :=
  0 ≤ pref < 32 ∧ ∃ acc, infos s !! Z.to_nat pref = Some (mkInfo (Some fd) len acc).

Lemma wp_locate ub pref off n fd len (Q : Z → dma_state → Prop) s :
  mapped pref fd len s → 0 ≤ off < 2 ^ 32 → off + n ≤ len → Q fd s →
  wp ub (locate pref off n) Q s.
Proof.
  intros [Hp [acc E]] Ho Hn HQ. unfold locate. wp_steps. rewrite (u32_small pref) by lia.
  rewrite E. simpl. rewrite u32_small, bool_decide_true by done. by wp_steps.
Qed.

(** The entries of one object as the software sends them: indices from [i] on. *)
Section Objects.
Context (file_of : Z → Z).
Fixpoint send_lens (fd : Z) (ok : Z → Z → bool) (pref i : Z) (lens : list Z) : M dma_state () :=
  match lens with
  | [] => pareff file_of fd ok (pref * 256 + i) 0
  | l :: lens => pareff file_of fd ok (pref * 256 + i) l;; send_lens fd ok pref (i + 1) lens
  end.

Lemma pref_of pref i : 0 ≤ pref < 32 → 0 ≤ i < 256 → Z.shiftr (u32 (pref * 256 + i)) 8 = pref.
Proof.
  intros. rewrite u32_small, shiftr_div by lia. change (2 ^ 8) with 256.
  rewrite Z.add_comm, Z.div_add by lia. rewrite Z.div_small; lia.
Qed.

(** After the segment lengths of an object have been sent in any number up
    to 255, and its end marker, the simulated DMA engine has mapped the file of the
    object's descriptor with a length that is exactly the sum of the segments; the other
    objects are as they were. *)
Lemma pareff_maps_whole fd ok pref (lens : list Z) s :
  0 ≤ pref < 32 → length (infos s) = 32%nat → (length lens ≤ 255)%nat →
  Forall (λ l, 0 < l) lens → zsum lens < 2 ^ 31 →
  (∃ b l, infos s !! Z.to_nat pref = Some (mkInfo b l 0)) → ok fd (zsum lens) = true →
  wp False (send_lens fd ok pref 0 lens) (λ _ s',
    mapped pref (file_of fd) (zsum lens) s' ∧ bytes s' = bytes s ∧
    ∀ j, j ≠ Z.to_nat pref → infos s' !! j = infos s !! j) s.
Proof.
  intros Hp Hl Hn Hpos Hsum Hi Hok.
  enough (∀ lens i acc s, 0 ≤ i → 0 ≤ acc → i + length lens ≤ 255 → Forall (λ l, 0 < l) lens →
    acc + zsum lens < 2 ^ 31 → length (infos s) = 32%nat →
    (∃ b l, infos s !! Z.to_nat pref = Some (mkInfo b l acc)) → ok fd (acc + zsum lens) = true →
    wp False (send_lens fd ok pref i lens) (λ _ s', mapped pref (file_of fd) (acc + zsum lens) s' ∧
      bytes s' = bytes s ∧ ∀ j, j ≠ Z.to_nat pref → infos s' !! j = infos s !! j) s) as W
    by (apply (W lens 0 0 s); done || lia).
  clear s Hl Hi Hok Hn Hpos Hsum lens.
  induction lens as [|x lens IH]; intros i acc s Hi0 Ha Hn Hpos Hsum Hl (b & l & Hi) Hok;
    unfold zsum in *; cbn [send_lens foldr length] in *; unfold pareff.
  - rewrite pref_of, (bool_decide_true (pref < 32)) by lia. rewrite Z.add_0_r in *. wp_steps.
    unfold wp at 1. simpl. wp_steps. rewrite (nth_lookup_Some _ _ _ _ Hi). simpl.
    rewrite Z.add_0_r, s32_small, Hok by lia. wp_steps. simpl.
    rewrite list_insert_insert_eq. rewrite u32_small by lia. split_and!; [|done|].
    + split; [done|]. exists acc. simpl. apply list_lookup_insert_eq. lia.
    + intros j Hj. by rewrite list_lookup_insert_ne.
  - apply Forall_cons in Hpos as [Hx Hpos].
    assert (0 ≤ zsum lens) by (apply zsum_nonneg; eapply Forall_impl; [done|]; simpl; lia).
    unfold zsum in *. rewrite pref_of, (bool_decide_true (pref < 32)) by lia. wp_steps.
    unfold wp at 1. simpl. wp_steps. rewrite (nth_lookup_Some _ _ _ _ Hi). simpl.
    rewrite s32_small, bool_decide_false by lia. wp_steps.
    set (s1 := mkDma _ _). eapply wp_mono; [apply (IH (i + 1) (acc + x) s1); try done; try lia|].
    + simpl. by rewrite length_insert.
    + exists b, l. simpl. apply list_lookup_insert_eq. lia.
    + by rewrite <-Z.add_assoc.
    + intros [] s2 (Hm & Hb & Hj). rewrite Z.add_assoc. split_and!; [done|done|].
      intros j Hne. rewrite Hj by done. simpl. by rewrite list_lookup_insert_ne.
Qed.

End Objects.

