(* ===== verification/TlpReplay.v ===== *)
(** * Replay of recorded PCIe packets (src/cpp/TlpReplay.cxx)

    A log of hexadecimal packets, 20 bytes each, is loaded once and fed to the
    simulated PCIe endpoint.  Characters and bytes are integers. *)
From stdpp Require Import base numbers list.
From S2P Require Import Prelude.
Local Open Scope Z_scope.

(** [cpp/TlpReplay.cxx:41-48] cvt *)
Definition cvt (c : Z) : Z :=
  if bool_decide (97 ≤ c) then u8 (c - 97 + 0xA)
  else if bool_decide (65 ≤ c) then u8 (c - 65 + 0xA)
  else u8 (c - 48).

(** [cpp/TlpReplay.cxx:66-71] load_tlp: the 20 bytes of a line.  Reading a
    std::string at its length gives NUL, further on it is undefined. *)
Definition line_at (line : list Z) (i : nat) : option Z :=
  if bool_decide (i = length line) then Some 0 else line !! i.
Fixpoint line_bytes (line : list Z) (i : nat) (n : nat) : option (list Z) :=
  match n with
  | O => Some []
  | S n =>
      high ← line_at line (8 + i);
      low ← line_at line (8 + i + 1);
      rest ← line_bytes line (i + 2) n;
      Some (u8 (Z.lor (Z.shiftl (cvt high) 4) (cvt low)) :: rest)
  end.

(** [cpp/TlpReplay.cxx:65-72] load_tlp: all lines *)
Fixpoint file_bytes (lines : list (list Z)) : option (list Z) :=
  match lines with
  | [] => Some []
  | l :: lines => b ← line_bytes l 0 20; rest ← file_bytes lines; Some (b ++ rest)
  end.

(** [cpp/TlpReplay.cxx:38-39] loaded, tlp_packets: the packet bytes from the
    current position on *)
Record tlp_state := mkTlp { loaded : bool; tlp_packets : list Z }.

Section Tlp.
(** The log file: its lines, or [None] when it does not exist. *)
Context (log : option (list (list Z))).
Abbreviation T := (M tlp_state).

(** [cpp/TlpReplay.cxx:50-76] load_tlp.  The array has the size of the file,
    which is larger than 20 bytes per line. *)
Definition load_tlp : T () :=
  s ← get;
  if loaded s then mret tt
  else
    match log with
    | None => λ s, (Aborted, s)
    | Some lines =>
        match file_bytes lines with
        | None => undefined
        | Some b => put (mkTlp true b)
        end
    end.

(** [cpp/TlpReplay.cxx:78-81] portnum *)
Definition portnum : T Z :=
  s ← get; match tlp_packets s with [] => undefined | b :: _ => mret (Z.shiftr b 1) end.

(** [cpp/TlpReplay.cxx:84-88] can_put_tlp *)
Definition can_put_tlp : T bool := load_tlp;; p ← portnum; mret (bool_decide (p = 8)).

(** [cpp/TlpReplay.cxx:90-94] can_get_tlp *)
Definition can_get_tlp : T bool := load_tlp;; p ← portnum; mret (bool_decide (p = 4)).

(** [cpp/TlpReplay.cxx:96-100] put_tlp *)
Definition put_tlp : T () :=
  s ← get; assert (loaded s);; put (mkTlp (loaded s) (drop 20 (tlp_packets s))).

(** [cpp/TlpReplay.cxx:102-115] get_tlp.  The loop starts with "int i = i": the
    index is read before it has a value, so the copy has no defined effect. *)
Definition get_tlp : T (list Z) := s ← get; assert (loaded s);; undefined.
End Tlp.

(** ** Loading is the inverse of printing *)

Definition hex_digit (n : Z) : Z := if bool_decide (n < 10) then 48 + n else 97 + (n - 10).
Definition hex_bytes (p : list Z) : list Z := p ≫= λ b, [hex_digit (b / 16); hex_digit (b mod 16)].

Lemma cvt_hex n : 0 ≤ n < 16 → cvt (hex_digit n) = n.
Proof.
  intros Hn. unfold cvt, hex_digit, u8.
  repeat case_bool_decide; try lia; rewrite Z.mod_small; lia.
Qed.

Lemma byte_of_nibbles b : 0 ≤ b < 256 → u8 (Z.lor (Z.shiftl (b / 16) 4) (b mod 16)) = b.
Proof.
  intros Hb. rewrite lor_shiftl_add by div_lia. unfold u8. rewrite Z.mod_small; div_lia.
Qed.

Lemma line_bytes_hex pre p i : length pre = (8 + i)%nat → Forall (λ b, 0 ≤ b < 256) p →
  line_bytes (pre ++ hex_bytes p) i (length p) = Some p.
Proof.
  revert pre i; induction p as [|b p IH]; intros pre i Hl Hp; [done|].
  apply Forall_cons in Hp as [Hb Hp]. cbn [length line_bytes].
  assert (pre ++ hex_bytes (b :: p) =
    (pre ++ [hex_digit (b / 16); hex_digit (b mod 16)]) ++ hex_bytes p) as E by (by rewrite <-app_assoc).
  assert (∀ k x, (k < 2)%nat → [hex_digit (b / 16); hex_digit (b mod 16)] !! k = Some x →
    line_at (pre ++ hex_bytes (b :: p)) (8 + i + k) = Some x) as Hat.
  { intros k x Hk Hx. unfold line_at. rewrite bool_decide_false.
    - rewrite lookup_app_r by lia. replace (8 + i + k - length pre)%nat with k by lia.
      by apply lookup_app_l_Some.
    - rewrite length_app. simpl. lia. }
  pose proof (Hat 0%nat _ ltac:(lia) eq_refl) as H0. pose proof (Hat 1%nat _ ltac:(lia) eq_refl) as H1.
  rewrite Nat.add_0_r in H0. rewrite H0, H1, E.
  rewrite IH by (done || rewrite length_app; simpl; lia). simpl.
  rewrite !cvt_hex by div_lia. by rewrite byte_of_nibbles.
Qed.

(** Loading a packet log gives back the recorded packets: for any packets of
    20 bytes, each written as an 8-character time stamp followed by its 40
    hexadecimal digits, the array holds exactly the packets' bytes in order, and
    the port number reported is that of the first packet. *)
Lemma load_tlp_roundtrip (packets : list (list Z * list Z)) s :
  loaded s = false → packets ≠ [] →
  Forall (λ tp, length tp.1 = 8%nat ∧ length tp.2 = 20%nat ∧ Forall (λ b, 0 ≤ b < 256) tp.2) packets →
  wp False (load_tlp (Some ((λ tp, tp.1 ++ hex_bytes tp.2) <$> packets));; portnum) (λ p s',
    s' = mkTlp true (mjoin packets.*2) ∧
    ∃ b rest, mjoin packets.*2 = b :: rest ∧ p = b / 2) s.
Proof.
  intros Hl Hne Hp.
  assert (file_bytes ((λ tp, tp.1 ++ hex_bytes tp.2) <$> packets) = Some (mjoin packets.*2)) as E.
  { clear Hne. induction Hp as [|[ts p] ps (Ht & Hn & Hb) Hps IH]; [done|].
    pose proof (line_bytes_hex ts p 0 Ht Hb) as El. simpl in Hn. rewrite Hn in El.
    rewrite fmap_cons. cbn [file_bytes fst snd]. rewrite El, IH. done. }
  destruct packets as [|[ts p] ps]; [done|].
  apply Forall_cons in Hp as [(Ht & Hn & Hb) _]. simpl in Ht, Hn, Hb.
  destruct p as [|b p]; [done|].
  unfold load_tlp. wp_steps. rewrite Hl, E. wp_steps. unfold portnum. wp_steps. simpl. wp_steps.
  split; [done|]. exists b. eexists. split; [done|]. by rewrite shiftr_div.
Qed.

Lemma load_tlp_roundtrip_witness :
  let pk := [(replicate 8 48, 17 :: replicate 19 0xab); (replicate 8 49, replicate 20 7)] in
  wp False (load_tlp (Some ((λ tp, tp.1 ++ hex_bytes tp.2) <$> pk));; portnum) (λ p s',
    s' = mkTlp true (mjoin pk.*2) ∧
    ∃ b rest, mjoin pk.*2 = b :: rest ∧ p = b / 2) (mkTlp false []).
Proof.
  intros pk. apply (load_tlp_roundtrip pk (mkTlp false [])); [reflexivity|discriminate|].
  repeat constructor; simpl; lia.
Defined.

(** get_tlp has no defined behaviour in any state. *)
Example get_tlp_undefined : (get_tlp (mkTlp true (replicate 20 8))).1 = Undefined.
Proof. reflexivity. Qed.
