(* ===== verification/PciePortal.v ===== *)
(** * The PCIe driver (src/drivers/pcieportal/pcieportal.c)

    Board activation and removal with its goto-style clean-up, and the file
    operations of the portal device nodes.  The PCI core, the interrupt layer
    and the device registers are parameters (class [Pci]); the resources the
    driver holds are tracked, so that leaks are visible. *)
From stdpp Require Import base gmap numbers list strings.
From S2P Require Import Prelude Portal SendFd Ioctl.
Local Open Scope Z_scope.

(** [drivers/pcieportal/pcieportal.h:77-78] NUM_BOARDS, NUM_PORTALS *)
Definition NUM_BOARDS : Z := 1.
Definition NUM_PORTALS : Z := 16.

(** [drivers/pcieportal/pcieportal.c:44-59] CSR offsets *)
Definition CSR_ID : Z := Z.shiftl 0 2.
Definition CSR_TLPDATAFIFO_DEQ : Z := Z.shiftl 768 2.
Definition CSR_TLPTRACELENGTHREG : Z := Z.shiftl 774 2.
Definition CSR_TLPTRACINGREG : Z := Z.shiftl 775 2.
Definition CSR_TLPDATABRAMRESPONSESLICE (i : Z) : Z := Z.shiftl (776 + i) 2.
Definition CSR_TLPPCIEWRADDRREG : Z := Z.shiftl 792 2.
Definition CSR_MSIX_ADDR_LO : Z := Z.shiftl 1024 2.
Definition CSR_MSIX_ADDR_HI : Z := Z.shiftl 1025 2.
Definition CSR_MSIX_MSG_DATA : Z := Z.shiftl 1026 2.
Definition CSR_MSIX_MASKED : Z := Z.shiftl 1027 2.

(** [drivers/pcieportal/pcieportal.c:72-75] expected_magic: "Bluespec" *)
Definition expected_magic : Z :=
  foldr (λ c acc, Z.lor c (Z.shiftl acc 8)) 0 [66; 108; 117; 101; 115; 112; 101; 99].

(** [drivers/pcieportal/pcieportal.h:83-89] tPortal; [board] is NULL or the index
    of the board *)
Record tPortal := mkPortal {
  portal_number : Z; board : option nat; virt : Z; regs : Z; extra : bool; dma_handle : Z }.

(** [drivers/pcieportal/pcieportal.h:94-101] tBoard, with the board number of its
    info *)
Record tBoard := mkBoard {
  bar0io : Z; bar1io : Z; bar2io : Z; pci_dev : Z;
  portal : list tPortal; board_number : Z; irq_num : Z; open_count : Z }.

(** A board of the zero-initialised board_map. *)
Definition board0 : tBoard := mkBoard 0 0 0 0 (replicate 16 (mkPortal 0 None 0 0 false 0)) 0 0 0.

(** Resources that have to be given back; [RDma j] is the coherent memory of
    portal [j]. *)
Inductive res :=
  | REnabled | RMsix | RMaster
  | RRegion (bar : Z) | RMap (bar : Z) | RIrq (irq : Z) | RCdev (n : Z) | RNode (n : Z)
  | RDma (j : nat).
#[export] Instance res_eq_dec : EqDecision res.
Proof. solve_decision. Defined.

(** The kernel services, with the C results. *)
Class Pci (K : Type) := {
  pci_enable_device : K → Z * K;
  pci_request_region : Z → K → Z * K;
  pci_iomap : Z → K → Z * K;
  ioread32 : Z → K → Z * K;
  iowrite32 : Z → Z → K → () * K;
  pci_set_dma_mask : K → Z * K;
  pci_enable_msix : K → (Z * Z) * K;    (* result, first vector *)
  request_irq : Z → K → Z * K;
  cdev_add : Z → K → Z * K;
  dma_alloc_coherent : Z → K → (Z * Z) * K;   (* virtual address, dma handle *)
  io_remap_pfn_range : Z → Z → K → Z * K;
}.

(** The driver's static data, the PCI device's driver data and the resources. *)
Record pcie (K : Type) := mkPcie {
  kst : K;
  held : res → bool;
  board_map : list tBoard;
  drvdata : gmap Z nat;
}.
Arguments mkPcie {K} _ _ _ _.
Arguments kst {K} _.
Arguments held {K} _.
Arguments board_map {K} _.
Arguments drvdata {K} _.

Section Driver.
Context {K : Type} `{Pci K}.
Abbreviation P := (M (pcie K)).

Definition pci_call {A} (f : K → A * K) : P A :=
  λ s, let '(a, k) := f (kst s) in (Done a, mkPcie k (held s) (board_map s) (drvdata s)).
Definition acquire (r : res) : P () :=
  modify (λ s, mkPcie (kst s) (λ x, if bool_decide (x = r) then true else held s x)
                 (board_map s) (drvdata s)).
Definition release (P0 : res → bool) : P () :=
  modify (λ s, mkPcie (kst s) (λ x, if P0 x then false else held s x) (board_map s) (drvdata s)).
Definition get_board (b : nat) : P tBoard :=
  s ← get; match board_map s !! b with Some t => mret t | None => undefined end.
Definition set_board (b : nat) (t : tBoard) : P () :=
  modify (λ s, mkPcie (kst s) (held s) (<[b := t]> (board_map s)) (drvdata s)).
Definition set_drvdata (dev : Z) (b : option nat) : P () :=
  modify (λ s, mkPcie (kst s) (held s) (board_map s)
    (match b with Some b => <[dev := b]> (drvdata s) | None => delete dev (drvdata s) end)).

(** A call that acquires [r] when it returns 0. *)
Definition try_acquire (f : K → Z * K) (r : res) : P Z :=
  rc ← pci_call f; (if bool_decide (rc = 0) then acquire r else mret tt);; mret rc.
(** pci_iomap of a BAR: an address, or 0. *)
Definition map_bar (bar : Z) : P Z :=
  a ← pci_call (pci_iomap bar); (if bool_decide (a = 0) then mret tt else acquire (RMap bar));; mret a.

(** [drivers/pcieportal/pcieportal.c:500-503] board_activate, err_exit *)
Definition err_exit (b : nat) (dev err : Z) : P Z :=
  t ← get_board b;
  set_board b (mkBoard (bar0io t) (bar1io t) (bar2io t) 0 (portal t) (board_number t)
                 (irq_num t) (open_count t));;
  set_drvdata dev None;;
  mret err.

(** [drivers/pcieportal/pcieportal.c:498-499] PCI_DEV_ENABLED_label *)
Definition PCI_DEV_ENABLED_label (b : nat) (dev err : Z) : P Z :=
  release (λ r, bool_decide (r = REnabled));; err_exit b dev err.

(** [drivers/pcieportal/pcieportal.c:496-497] BARS_ALLOCATED_label *)
Definition BARS_ALLOCATED_label (b : nat) (dev err : Z) : P Z :=
  release (λ r, match r with RRegion _ => true | _ => false end);;
  PCI_DEV_ENABLED_label b dev err.

(** [drivers/pcieportal/pcieportal.c:488-495] BARS_MAPPED_label *)
Definition BARS_MAPPED_label (b : nat) (dev err : Z) : P Z :=
  t ← get_board b;
  when (negb (bool_decide (bar0io t = 0))) (release (λ r, bool_decide (r = RMap 0)));;
  when (negb (bool_decide (bar1io t = 0))) (release (λ r, bool_decide (r = RMap 1)));;
  when (negb (bool_decide (bar2io t = 0))) (release (λ r, bool_decide (r = RMap 2)));;
  BARS_ALLOCATED_label b dev err.

(** [drivers/pcieportal/pcieportal.c:485-487] MSI_ENABLED_label *)
Definition MSI_ENABLED_label (b : nat) (dev err : Z) : P Z :=
  release (λ r, bool_decide (r = RMsix));; BARS_MAPPED_label b dev err.

(** [drivers/pcieportal/pcieportal.c:468-484] board_activate: the deactivation *)
Definition deactivate (b : nat) (dev err : Z) : P Z :=
  t ← get_board b;
  release (λ r, match r with
                | RNode n | RCdev n => bool_decide (0 ≤ n < NUM_PORTALS) | _ => false end);;
  release (λ r, bool_decide (r = RMaster));;
  pci_call (iowrite32 1 (bar0io t + CSR_MSIX_MASKED));;
  release (λ r, match r with
                | RIrq n => bool_decide (irq_num t ≤ n < irq_num t + 16) | _ => false end);;
  MSI_ENABLED_label b dev err.

(** [drivers/pcieportal/pcieportal.c:419-425] board_activate: the IRQ loop, from
    index [i]; false when a request failed *)
Fixpoint request_irqs (irq i : Z) (n : nat) : P bool :=
  match n with
  | O => mret true
  | S n =>
      rc ← try_acquire (request_irq (irq + i)) (RIrq (irq + i));
      if bool_decide (rc = 0) then request_irqs irq (i + 1) n else mret false
  end.

(** [drivers/pcieportal/pcieportal.c:440-462] board_activate: the device nodes,
    from [dn]; the result is [err].  device_create cannot fail here. *)
Fixpoint add_nodes (b : nat) (reg_offset dn : Z) (n : nat) : P Z :=
  match n with
  | O => mret 0
  | S n =>
      t ← get_board b;
      set_board b (mkBoard (bar0io t) (bar1io t) (bar2io t) (pci_dev t)
        (alter (λ p, mkPortal dn (Some b) (virt p)
            (if bool_decide (bar2io t = 0) then regs p else bar2io t + 0x10000 * dn + reg_offset)
            (extra p) (dma_handle p)) (Z.to_nat dn) (portal t))
        (board_number t) (irq_num t) (open_count t));;
      rc ← try_acquire (cdev_add (board_number t * NUM_PORTALS + dn)) (RCdev dn);
      if bool_decide (rc = 0) then acquire (RNode dn);; add_nodes b reg_offset (dn + 1) n
      else mret (- EFAULT)
  end.

(** [drivers/pcieportal/pcieportal.c:416-466] board_activate from the interrupt
    handlers on *)
Definition activate_portals (b : nat) (dev irq : Z) : P Z :=
  ok ← request_irqs irq 0 16;
  if negb ok then MSI_ENABLED_label b dev (- EBUSY)
  else
    t ← get_board b;
    pci_call (iowrite32 0 (bar0io t + CSR_MSIX_MASKED));;
    acquire RMaster;;
    reg_offset ←
      (if bool_decide (bar2io t = 0) then mret 0xc000
       else
         v ← pci_call (ioread32 (bar2io t + (128 + 0) * 4));
         pci_call (ioread32 (bar2io t + (128 + 2) * 4));;
         pci_call (ioread32 (bar2io t + (128 + 3) * 4));;
         mret (if bool_decide (v = 1) then 0xc000 else 0));
    err ← add_nodes b reg_offset 0 16;
    set_drvdata dev (Some b);;
    if bool_decide (err = 0) then mret 0 else deactivate b dev err.

(** [drivers/pcieportal/pcieportal.c:386-415] board_activate: magic number, DMA
    mask and MSI-X *)
Definition check_board (b : nat) (dev : Z) : P Z :=
  t ← get_board b;
  pci_call (iowrite32 0 (bar0io t + CSR_TLPPCIEWRADDRREG));;
  pci_call (iowrite32 1 (bar0io t + CSR_TLPTRACINGREG));;
  hi ← pci_call (ioread32 (bar0io t + CSR_ID + 4));
  lo ← pci_call (ioread32 (bar0io t + CSR_ID));
  if negb (bool_decide (Z.lor (u64 (Z.shiftl (u32 hi) 32)) (u32 lo) = expected_magic))
  then BARS_MAPPED_label b dev (- EINVAL)
  else
    rc ← pci_call pci_set_dma_mask;
    if negb (bool_decide (rc = 0)) then BARS_MAPPED_label b dev (- EIO)
    else
      '(rc, vector) ← pci_call pci_enable_msix;
      if negb (bool_decide (rc = 0)) then BARS_MAPPED_label b dev (- EFAULT)
      else
        acquire RMsix;;
        t ← get_board b;
        set_board b (mkBoard (bar0io t) (bar1io t) (bar2io t) (pci_dev t) (portal t)
                       (board_number t) vector (open_count t));;
        activate_portals b dev vector.

(** [drivers/pcieportal/pcieportal.c:352-385] board_activate: regions and BARs *)
Definition map_bars (b : nat) (dev : Z) : P Z :=
  rc ← try_acquire (pci_request_region 0) (RRegion 0);
  if negb (bool_decide (rc = 0)) then PCI_DEV_ENABLED_label b dev (- EBUSY)
  else
    try_acquire (pci_request_region 1) (RRegion 1);;
    try_acquire (pci_request_region 2) (RRegion 2);;
    a0 ← map_bar 0;
    a1 ← map_bar 1;
    a2 ← map_bar 2;
    a1 ← (if bool_decide (a1 = 0) then map_bar 1 else mret a1);
    t ← get_board b;
    set_board b (mkBoard a0 a1 a2 (pci_dev t) (portal t) (board_number t) (irq_num t)
                   (open_count t));;
    if bool_decide (a0 = 0) then BARS_ALLOCATED_label b dev (- EFAULT)
    else check_board b dev.

(** [drivers/pcieportal/pcieportal.c:328-504] board_activate *)
Definition board_activate (activate : bool) (b : nat) (dev : Z) : P Z :=
  t ← get_board b;
  if negb (forallb extra (portal t)) then err_exit b dev (- EFAULT)
  else if activate then
    set_board b (mkBoard (bar0io t) (bar1io t) (bar2io t) dev (portal t) (board_number t)
                   (irq_num t) (open_count t));;
    rc ← try_acquire pci_enable_device REnabled;
    if negb (bool_decide (rc = 0)) then err_exit b dev (- EFAULT)
    else map_bars b dev
  else deactivate b dev 0.

(** [drivers/pcieportal/pcieportal.c:521-522] pcieportal_probe: the first free
    board; the condition reads board_map[board_number] before the bound is
    checked, which the extra element of the array allows *)
Fixpoint free_board (bs : list tBoard) (n : Z) : option Z :=
  match bs with
  | [] => None
  | t :: bs =>
      if negb (bool_decide (pci_dev t = 0)) && bool_decide (n < NUM_BOARDS)
      then free_board bs (n + 1) else Some n
  end.

(** [drivers/pcieportal/pcieportal.c:508-534] pcieportal_probe *)
Definition pcieportal_probe (dev vendor device : Z) : P Z :=
  if negb (bool_decide (vendor = 0x1be7)) || negb (bool_decide (device = 0xc100))
  then mret (- EINVAL)
  else
    s ← get;
    match free_board (board_map s) 0 with
    | None => undefined
    | Some n =>
        if bool_decide (NUM_BOARDS ≤ n) then mret (- EBUSY)
        else
          set_board (Z.to_nat n)
            (mkBoard 0 0 0 0 (replicate 16 (mkPortal 0 None 0 0 true 0)) n 0 0);;
          board_activate true (Z.to_nat n) dev
    end.

(** [drivers/pcieportal/pcieportal.c:536-545] pcieportal_remove *)
Definition pcieportal_remove (dev : Z) : P () :=
  s ← get;
  match drvdata s !! dev with
  | None => mret tt
  | Some b => board_activate false b dev;; mret tt
  end.

(** ** File operations *)

Definition set_open_count (b : nat) (t : tBoard) (n : Z) : P () :=
  set_board b (mkBoard (bar0io t) (bar1io t) (bar2io t) (pci_dev t) (portal t) (board_number t)
                 (irq_num t) (u32 n)).

(** [drivers/pcieportal/pcieportal.c:94-117] pcieportal_open: the result and the
    file's private data (board, portal); [minor] is relative to the driver's
    first minor number *)
Definition pcieportal_open (minor : Z) : P (Z * (nat * nat)) :=
  let this_board_number := Z.to_nat (Z.shiftr minor 4) in
  let this_portal_number := Z.to_nat (Z.land minor 0xF) in
  t ← get_board this_board_number;
  set_open_count this_board_number t (open_count t + 1);;
  mret (0, (this_board_number, this_portal_number)).

(** The portal behind an open file, and the board it points to. *)
Definition file_portal (f : nat * nat) : P tPortal :=
  t ← get_board f.1;
  match portal t !! f.2 with Some p => mret p | None => undefined end.
Definition file_board (f : nat * nat) : P (nat * tBoard) :=
  p ← file_portal f;
  match board p with Some b => t ← get_board b; mret (b, t) | None => undefined end.

(** [drivers/pcieportal/pcieportal.c:120-128] pcieportal_release *)
Definition pcieportal_release (f : nat * nat) : P Z :=
  '(b, t) ← file_board f; set_open_count b t (open_count t - 1);; mret 0.

(** [drivers/pcieportal/pcieportal.c:131-148] pcieportal_poll: POLLIN | POLLRDNORM
    while the portal's interrupt status register is set *)
Definition pcieportal_poll (f : nat * nat) : P Z :=
  p ← file_portal f;
  intr_status ← (if bool_decide (regs p = 0) then mret 0 else pci_call (ioread32 (regs p)));
  mret (if bool_decide (u32 intr_status = 0) then 0 else Z.lor 0x001 0x040).

(** [drivers/pcieportal/pcieportal.h:11-11] BNOC_IOC_MAGIC *)
Definition BNOC_IOC_MAGIC : Z := 0xB5.

(** [drivers/pcieportal/pcieportal.h:65-74] BNOC_*, PCIE_SEND_FD, BNOC_IOC_MAXNR;
    the argument types are pointers, of 8 bytes *)
Definition BNOC_IDENTIFY : Z := IOR BNOC_IOC_MAGIC 0 8.
Definition BNOC_IDENTIFY_PORTAL : Z := IOR BNOC_IOC_MAGIC 6 8.
Definition BNOC_GET_TLP : Z := IOR BNOC_IOC_MAGIC 7 8.
Definition BNOC_TRACE : Z := IOWR BNOC_IOC_MAGIC 8 8.
Definition PCIE_SEND_FD : Z := IOR BNOC_IOC_MAGIC 12 8.
Definition BNOC_IOC_MAXNR : Z := 12.

(** The user's argument: whether access_ok accepts it, the words copy_from_user
    finds ([None] for a fault), whether copy_to_user succeeds. *)
Record user_mem := mkUser { acc_ok : bool; words_in : option (list Z); out_ok : bool }.

(** copy_to_user of some words: the error, and what the user then finds *)
Definition copy_out (u : user_mem) (ws : list Z) : bool * option (list Z) :=
  if out_ok u then (false, Some ws) else (true, None).

Definition read_csr (t : tBoard) (off : Z) : P Z := v ← pci_call (ioread32 (bar0io t + off)); mret (u32 v).

(** [drivers/pcieportal/pcieportal.c:175-189] BNOC_IDENTIFY *)
Definition ioctl_identify (t : tBoard) (p : tPortal) (u : user_mem) : P (bool * option (list Z)) :=
  for_each (seqZ 0 16) (λ i,
    read_csr t (CSR_MSIX_ADDR_HI + 16 * i);; read_csr t (CSR_MSIX_ADDR_LO + 16 * i);;
    read_csr t (CSR_MSIX_MSG_DATA + 16 * i);; mret tt);;
  mret (copy_out u [board_number t; portal_number p]).

(** [drivers/pcieportal/pcieportal.c:198-218] BNOC_GET_TLP: the six slices, read
    in the order 5, 0, 4, 1, 3, 2, then the FIFO is advanced *)
Definition ioctl_get_tlp (t : tBoard) (u : user_mem) : P (bool * option (list Z)) :=
  t5 ← read_csr t (CSR_TLPDATABRAMRESPONSESLICE 5);
  t0 ← read_csr t (CSR_TLPDATABRAMRESPONSESLICE 0);
  t4 ← read_csr t (CSR_TLPDATABRAMRESPONSESLICE 4);
  t1 ← read_csr t (CSR_TLPDATABRAMRESPONSESLICE 1);
  t3 ← read_csr t (CSR_TLPDATABRAMRESPONSESLICE 3);
  t2 ← read_csr t (CSR_TLPDATABRAMRESPONSESLICE 2);
  pci_call (iowrite32 0 (bar0io t + CSR_TLPDATAFIFO_DEQ));;
  mret (copy_out u [t0; t1; t2; t3; t4; t5]).

(** [drivers/pcieportal/pcieportal.c:219-236] BNOC_TRACE *)
Definition ioctl_trace (t : tBoard) (u : user_mem) : P (bool * option (list Z)) :=
  match words_in u with
  | Some (trace :: _) =>
      pci_call (iowrite32 0 (bar0io t + CSR_TLPPCIEWRADDRREG));;
      oldTrace ← read_csr t CSR_TLPTRACINGREG;
      len ← read_csr t CSR_TLPTRACELENGTHREG;
      let len := if bool_decide (len = 0xbad0add0) then 2048 else len in
      pci_call (iowrite32 trace (bar0io t + CSR_TLPTRACINGREG));;
      mret (copy_out u [trace; oldTrace; len])
  | _ => mret (true, None)
  end.

(** [drivers/pcieportal/pcieportal.c:260-275] PCIE_SEND_FD; [send] is
    send_fd_to_portal on the device at the given address *)
Definition ioctl_send_fd (send : PortalInternal → Z → Z → P Z) (t : tBoard) (p : tPortal)
    (u : user_mem) : P (bool * option (list Z)) :=
  let devptr := mkPortalInternal 0 0 0 (bar2io t + PORTAL_BASE_OFFSET * portal_number p) 0 None in
  match words_in u with
  | Some (fd :: id :: _) =>
      err ← send devptr (s32 fd) (s32 id);
      mret (bool_decide (err < 0), None)
  | _ => mret (true, None)
  end.

(** [drivers/pcieportal/pcieportal.c:154-282] pcieportal_ioctl: the result and
    what was written to the user's memory *)
Definition pcieportal_ioctl (send : PortalInternal → Z → Z → P Z) (f : nat * nat) (cmd : Z)
    (u : user_mem) : P (Z * option (list Z)) :=
  p ← file_portal f;
  if negb (bool_decide (IOC_TYPE cmd = BNOC_IOC_MAGIC)) then mret (- ENOTTY, None)
  else if bool_decide (BNOC_IOC_MAXNR < IOC_NR cmd) then mret (- ENOTTY, None)
  else
    let err := if bool_decide (Z.land (IOC_DIR cmd) IOC_READ = 0) &&
                  bool_decide (Z.land (IOC_DIR cmd) IOC_WRITE = 0)
               then false else negb (acc_ok u) in
    if err then mret (- EFAULT, None)
    else
      let finish (r : bool * option (list Z)) : P (Z * option (list Z)) :=
        mret (if r.1 then - EFAULT else 0, r.2) in
      let with_board (g : tBoard → P (bool * option (list Z))) : P (Z * option (list Z)) :=
        '(_, t) ← file_board f; g t ≫= finish in
      if bool_decide (cmd = BNOC_IDENTIFY) then with_board (λ t, ioctl_identify t p u)
      else if bool_decide (cmd = BNOC_IDENTIFY_PORTAL) then finish (copy_out u (replicate 11 0))
      else if bool_decide (cmd = BNOC_GET_TLP) then with_board (λ t, ioctl_get_tlp t u)
      else if bool_decide (cmd = BNOC_TRACE) then with_board (λ t, ioctl_trace t u)
      else if bool_decide (cmd = PCIE_SEND_FD) then with_board (λ t, ioctl_send_fd send t p u)
      else mret (- ENOTTY, None).

(** [drivers/pcieportal/pcieportal.c:284-315] portal_mmap; [bar2_start] is
    pci_dev->resource[2].start *)
Definition portal_mmap (bar2_start : Z) (f : nat * nat) (vm_start vm_end vm_pgoff : Z) : P Z :=
  p ← file_portal f;
  '(b, _) ← file_board f;
  if bool_decide (2 ^ 52 - 1 < vm_pgoff) then mret (- EINVAL)
  else
    off ←
      (if bool_decide (vm_pgoff < 16) then mret (bar2_start + PORTAL_BASE_OFFSET * portal_number p)
       else if bool_decide (virt p = 0) then
         '(v, h) ← pci_call (dma_alloc_coherent (vm_end - vm_start));
         (if bool_decide (v = 0) then mret tt else acquire (RDma f.2));;
         t ← get_board f.1;
         set_board f.1 (mkBoard (bar0io t) (bar1io t) (bar2io t) (pci_dev t)
           (<[f.2 := mkPortal (portal_number p) (board p) v (regs p) (extra p) h]> (portal t))
           (board_number t) (irq_num t) (open_count t));;
         mret h
       else mret (dma_handle p));
    rc ← pci_call (io_remap_pfn_range (Z.shiftr off 12) (vm_end - vm_start));
    mret (if bool_decide (rc = 0) then 0 else - EAGAIN).
End Driver.

(** ** Loading and unloading the module *)

(** What the module itself holds. *)
Inductive mres := MClass | MChrdev | MDriver.
#[export] Instance mres_eq_dec : EqDecision mres.
Proof. solve_decision. Defined.
Definition mhold (r : mres) : M (list mres) () := modify (cons r).
Definition mdrop (r : mres) : M (list mres) () := modify (filter (λ x, x ≠ r)).

(** [drivers/pcieportal/pcieportal.c:582-614] pcieportal_init; the arguments are
    the results of class_create (an error or 0), alloc_chrdev_region and
    pci_register_driver *)
Definition pcieportal_init (cls chrdev reg : Z) : M (list mres) Z :=
  if bool_decide (cls < 0) then mret cls
  else
    mhold MClass;;
    if bool_decide (chrdev < 0) then mdrop MClass;; mret (-1)
    else
      mhold MChrdev;;
      if bool_decide (reg < 0) then mdrop MClass;; mret reg
      else mhold MDriver;; mret 0.

(** [drivers/pcieportal/pcieportal.c:617-626] pcieportal_exit *)
Definition pcieportal_exit : M (list mres) () := mdrop MDriver;; mdrop MChrdev;; mdrop MClass.

(** Unloading gives back what loading took, and a failed load leaves at most the
    device numbers behind. *)
Lemma module_load_unload cls chrdev reg :
  match pcieportal_init cls chrdev reg [] with
  | (Done rc, s) => if bool_decide (rc = 0) then pcieportal_exit s = (Done tt, [])
                    else s = [] ∨ s = [MChrdev] ∧ rc = reg
  | _ => False
  end.
Proof.
  unfold pcieportal_init. case_bool_decide; [|case_bool_decide; [|case_bool_decide]]; simpl.
  - rewrite bool_decide_false by lia. by left.
  - by left.
  - rewrite bool_decide_false by lia. by right.
  - done.
Qed.

(** ** Resource accounting *)
Section Facts.
Context {K : Type} `{Pci K}.
Implicit Types s : pcie K.

(** What the driver may hold at a point of the activation of board [t]. *)
Definition allowed (t : tBoard) (msix master : bool) (irqs nodes : Z) (x : res) : Prop :=
  match x with
  | REnabled | RRegion _ => True
  | RMsix => msix = true
  | RMaster => master = true
  | RMap n => (n = 0 ∧ bar0io t ≠ 0) ∨ (n = 1 ∧ bar1io t ≠ 0) ∨ (n = 2 ∧ bar2io t ≠ 0)
  | RIrq n => irq_num t ≤ n < irq_num t + irqs
  | RCdev n | RNode n => 0 ≤ n < nodes
  | RDma _ => False
  end.
Definition holds_only (A : res → Prop) s : Prop := ∀ x, held s x = true → A x.
Definition nothing_held s : Prop := ∀ x, held s x = false.

Lemma holds_only_false s : holds_only (λ _, False) s → nothing_held s.
Proof. intros Hx x. destruct (held s x) eqn:E; [by destruct (Hx x)|done]. Qed.

(** The board is given up: no PCI device, no driver data. *)
Definition gone (b : nat) (dev : Z) s : Prop :=
  (∃ t, board_map s !! b = Some t ∧ pci_dev t = 0) ∧ drvdata s !! dev = None.

Lemma wp_pci_call {A} (f : K → A * K) (Q : A → pcie K → Prop) s :
  (∀ a k, Q a (mkPcie k (held s) (board_map s) (drvdata s))) → wp False (pci_call f) Q s.
Proof. intros HQ. unfold wp, pci_call. by destruct (f (kst s)). Qed.
Lemma wp_get_board b t (Q : tBoard → pcie K → Prop) s :
  board_map s !! b = Some t → Q t s → wp False (get_board b) Q s.
Proof. intros E HQ. unfold get_board. wp_steps. rewrite E. by wp_steps. Qed.
Lemma wp_try_acquire f r (Q : Z → pcie K → Prop) s :
  (∀ k, Q 0 (mkPcie k (λ x, if bool_decide (x = r) then true else held s x)
               (board_map s) (drvdata s))) →
  (∀ rc k, rc ≠ 0 → Q rc (mkPcie k (held s) (board_map s) (drvdata s))) →
  wp False (try_acquire f r) Q s.
Proof.
  intros H0 H1. apply wp_bind, wp_pci_call. intros rc k. case_bool_decide as E; unfold acquire; wp_steps.
  - subst. apply H0.
  - by apply H1.
Qed.

(** The clean-up labels, from the last one up: what is released, and that the
    board is given up. *)
Lemma wp_err_exit b dev err t s (Q : Z → pcie K → Prop) : board_map s !! b = Some t →
  (∀ s', gone b dev s' → held s' = held s → Q err s') → wp False (err_exit b dev err) Q s.
Proof.
  intros E HQ. unfold err_exit. apply wp_bind. eapply wp_get_board; [done|].
  unfold set_board, set_drvdata. wp_steps. apply HQ; [|done]. split; simpl.
  - eexists. split; [apply list_lookup_insert_eq; by eapply lookup_lt_Some|done].
  - by rewrite lookup_delete_eq.
Qed.

Lemma wp_BARS_ALLOCATED b dev err t s (A : res → Prop) : board_map s !! b = Some t →
  holds_only (λ x, x = REnabled ∨ (∃ n, x = RRegion n) ∨ A x) s →
  wp False (BARS_ALLOCATED_label b dev err) (λ r s', r = err ∧ gone b dev s' ∧ holds_only A s') s.
Proof.
  intros E Hh. unfold BARS_ALLOCATED_label, PCI_DEV_ENABLED_label, release. wp_steps.
  eapply wp_err_exit; [done|]. intros s' Hg Eh. split_and!; [done..|].
  intros x. rewrite Eh. simpl. case_bool_decide; [done|]. specialize (Hh x).
  intros Hx. destruct x; try done; destruct (Hh Hx) as [E'|[[? E']|?]]; done.
Qed.

Lemma wp_BARS_MAPPED b dev err t s (A : res → Prop) : board_map s !! b = Some t →
  holds_only (λ x, allowed t false false 0 0 x ∨ A x) s →
  wp False (BARS_MAPPED_label b dev err) (λ r s', r = err ∧ gone b dev s' ∧ holds_only A s') s.
Proof.
  intros E Hh. unfold BARS_MAPPED_label. apply wp_bind. eapply wp_get_board; [done|].
  assert (∀ x, held s x = true → A x ∨ x = REnabled ∨ (∃ n, x = RRegion n) ∨
    (x = RMap 0 ∧ bar0io t ≠ 0) ∨ (x = RMap 1 ∧ bar1io t ≠ 0) ∨ (x = RMap 2 ∧ bar2io t ≠ 0)) as Hc.
  { intros x Hx. destruct (Hh x Hx) as [Ha|Ha]; [|by left]. right.
    destruct x; simpl in Ha; try lia; eauto.
    right; right. destruct Ha as [[-> ?]|[[-> ?]|[-> ?]]]; auto. }
  unfold when, release.
  case_bool_decide; case_bool_decide; case_bool_decide; simpl; wp_steps;
    (eapply wp_BARS_ALLOCATED; [done|]); intros x; simpl; repeat case_bool_decide; try done;
    intros Hx; destruct (Hc x Hx) as [?|[?|[?|[[]|[[]|[]]]]]]; tauto.
Qed.

Lemma wp_MSI_ENABLED b dev err t s (A : res → Prop) : board_map s !! b = Some t →
  holds_only (λ x, allowed t true false 0 0 x ∨ A x) s →
  wp False (MSI_ENABLED_label b dev err) (λ r s', r = err ∧ gone b dev s' ∧ holds_only A s') s.
Proof.
  intros E Hh. unfold MSI_ENABLED_label, release. wp_steps.
  eapply wp_BARS_MAPPED; [done|]. intros x. simpl. case_bool_decide; [done|].
  intros Hx. specialize (Hh x Hx). by destruct x.
Qed.

Lemma wp_deactivate b dev err t s (A : res → Prop) : board_map s !! b = Some t →
  holds_only (λ x, allowed t true true 16 16 x ∨ A x) s →
  wp False (deactivate b dev err) (λ r s', r = err ∧ gone b dev s' ∧ holds_only A s') s.
Proof.
  intros E Hh. unfold deactivate. apply wp_bind. eapply wp_get_board; [done|].
  unfold release. wp_steps. apply wp_pci_call. intros [] k. wp_steps.
  eapply wp_MSI_ENABLED; [done|]. intros x. simpl. intros Hx.
  destruct x as [| | |n|n|n|n|n|j]; simpl in *; try (by auto);
    repeat case_bool_decide; try done;
    destruct (Hh _ Hx) as [Ha|Ha]; simpl in Ha; change NUM_PORTALS with 16 in *;
    (by right) || (left; simpl; done || lia).
Qed.

(** Acquiring one more resource. *)
Lemma holds_only_add (A B : res → Prop) r s k bm dd :
  holds_only A s → (∀ x, A x → B x) → B r →
  holds_only B (mkPcie k (λ x, if bool_decide (x = r) then true else held s x) bm dd).
Proof. intros Hs HAB Hr x. simpl. case_bool_decide; subst; eauto. Qed.
Lemma holds_only_mono (A B : res → Prop) s : holds_only A s → (∀ x, A x → B x) → holds_only B s.
Proof. unfold holds_only; eauto. Qed.

(** The set only depends on the BARs and the first vector, and grows. *)
Lemma allowed_mono t t' m m' ma ma' i i' n n' x :
  bar0io t' = bar0io t → bar1io t' = bar1io t → bar2io t' = bar2io t → irq_num t' = irq_num t →
  (m = true → m' = true) → (ma = true → ma' = true) → i ≤ i' → n ≤ n' →
  allowed t m ma i n x → allowed t' m' ma' i' n' x.
Proof. intros E0 E1 E2 Ei Hm Hma Hi Hn. destruct x; simpl; rewrite ?E0, ?E1, ?E2, ?Ei; auto; lia. Qed.

Definition irqs_held (irq n : Z) s : Prop := ∀ j, 0 ≤ j < n → held s (RIrq (irq + j)) = true.

Lemma wp_request_irqs t i (n : nat) (Q : bool → pcie K → Prop) s :
  0 ≤ i → holds_only (allowed t true false i 0) s → irqs_held (irq_num t) i s →
  (∀ ok s', board_map s' = board_map s → drvdata s' = drvdata s →
     holds_only (allowed t true false (i + n) 0) s' →
     (ok = true → irqs_held (irq_num t) (i + n) s') → Q ok s') →
  wp False (request_irqs (irq_num t) i n) Q s.
Proof.
  revert i s; induction n as [|n IH]; intros i s Hi Hh Hq HQ; cbn [request_irqs].
  - apply wp_ret, HQ; try done; by rewrite Z.add_0_r.
  - apply wp_bind, wp_try_acquire; [intros k|intros rc k Hrc].
    + rewrite bool_decide_true by done. apply IH; [lia| | |].
      * eapply holds_only_add; [exact Hh|intros x; by apply allowed_mono; try done; lia|simpl; lia].
      * intros j Hj. simpl. case_bool_decide; [done|]. apply Hq.
        assert (j ≠ i) by congruence. lia.
      * intros ok s' Eb Ed Ho Hok.
        replace (i + 1 + n) with (i + S n) in * by lia. by apply HQ.
    + rewrite bool_decide_false by done. apply wp_ret, HQ; try done.
      eapply holds_only_mono; [exact Hh|]. intros x. apply allowed_mono; try done; lia.
Qed.

(** The portals of an active board. *)
Definition portals_ok (b : nat) (t : tBoard) (n : Z) : Prop :=
  length (portal t) = 16%nat ∧ forallb extra (portal t) = true ∧
  ∀ (j : nat) p, portal t !! j = Some p → j < n → portal_number p = j ∧ board p = Some b.

Definition nodes_held (n : Z) s : Prop := ∀ j, 0 ≤ j < n → held s (RNode j) = true.

Lemma portals_ok_step b t dn f : 0 ≤ dn < 16 → portals_ok b t dn →
  (∀ p, portal_number (f p) = dn ∧ board (f p) = Some b ∧ extra (f p) = extra p) →
  portals_ok b (mkBoard (bar0io t) (bar1io t) (bar2io t) (pci_dev t)
    (alter f (Z.to_nat dn) (portal t)) (board_number t) (irq_num t) (open_count t)) (dn + 1).
Proof.
  intros Hdn (Hl & He & Hp) Hf. split_and!; simpl.
  - by rewrite length_alter.
  - apply forallb_forall. intros x Hx%list_elem_of_In.
    apply list_elem_of_lookup_1 in Hx as [j Hj]. rewrite forallb_forall in He.
    destruct (decide (j = Z.to_nat dn)) as [->|Hne].
    + rewrite list_lookup_alter_eq in Hj. destruct (portal t !! Z.to_nat dn) as [p|] eqn:Ep; [|done].
      simplify_eq/=. destruct (Hf p) as (_ & _ & ->). apply He, list_elem_of_In.
      by eapply list_elem_of_lookup_2.
    + rewrite list_lookup_alter_ne in Hj by done. apply He, list_elem_of_In.
      by eapply list_elem_of_lookup_2.
  - intros j p Hj Hlt. destruct (decide (j = Z.to_nat dn)) as [->|Hne].
    + rewrite list_lookup_alter_eq in Hj. destruct (portal t !! Z.to_nat dn) as [q|]; [|done].
      simplify_eq/=. destruct (Hf q) as (-> & -> & _). split; [lia|done].
    + rewrite list_lookup_alter_ne in Hj by done. apply Hp; [done|lia].
Qed.

Lemma wp_add_nodes b ro dn (n : nat) t (Q : Z → pcie K → Prop) s :
  0 ≤ dn → dn + n = 16 → board_map s !! b = Some t → portals_ok b t dn →
  holds_only (allowed t true true 16 dn) s → irqs_held (irq_num t) 16 s → nodes_held dn s →
  (∀ err s' t', board_map s' !! b = Some t' → pci_dev t' = pci_dev t →
     holds_only (allowed t' true true 16 16) s' →
     (err = 0 → portals_ok b t' 16 ∧ irqs_held (irq_num t') 16 s' ∧ nodes_held 16 s') →
     (err = 0 ∨ err = - EFAULT) → Q err s') →
  wp False (add_nodes b ro dn n) Q s.
Proof.
  revert dn t s; induction n as [|n IH]; intros dn t s Hdn Hn Eb Hp Hh Hq Hnd HQ; cbn [add_nodes].
  - assert (dn = 16) as -> by lia. apply wp_ret, (HQ 0 s t); auto.
  - apply wp_bind. eapply wp_get_board; [done|]. unfold set_board. apply wp_bind, wp_modify. simpl.
    set (t1 := mkBoard _ _ _ _ _ _ _ _).
    assert (<[b:=t1]> (board_map s) !! b = Some t1) as Eb1
      by (apply list_lookup_insert_eq; by eapply lookup_lt_Some).
    assert (portals_ok b t1 (dn + 1)) as Hp1 by (apply portals_ok_step; [lia|done|done]).
    apply wp_bind, wp_try_acquire; [intros k|intros rc k Hrc]; simpl.
    + unfold acquire. wp_steps. simpl. apply (IH (dn + 1) t1); [lia|lia|done|done| | | |].
      * intros x. simpl. specialize (Hh x).
        destruct (decide (x = RNode dn)) as [->|]; [simpl; lia|].
        destruct (decide (x = RCdev dn)) as [->|]; [simpl; lia|].
        rewrite !bool_decide_false by done. intros Hx. specialize (Hh Hx).
        revert Hh. apply allowed_mono; try done; lia.
      * intros j Hj. simpl. by apply Hq.
      * intros j Hj. simpl. case_bool_decide; [done|]. apply Hnd.
        assert (j ≠ dn) by congruence. lia.
      * done.
    + rewrite bool_decide_false by done. wp_steps. apply (HQ _ _ t1); simpl; try done; [|by right].
      eapply holds_only_mono; [exact Hh|]. intros x. apply allowed_mono; try done; lia.
Qed.

(** A board in service. *)
Definition active (b : nat) (dev : Z) s : Prop :=
  drvdata s !! dev = Some b ∧
  ∃ t, board_map s !! b = Some t ∧ pci_dev t = dev ∧ portals_ok b t 16 ∧
    holds_only (allowed t true true 16 16) s ∧ irqs_held (irq_num t) 16 s ∧ nodes_held 16 s.

(** What a failed activation may leave behind. *)
Definition leaked (x : res) : Prop := (∃ n, x = RIrq n) ∨ x = RMap 1 ∨ x = RMap 2.

Definition activated (b : nat) (dev rc : Z) s : Prop :=
  (rc = 0 ∧ active b dev s) ∨ (rc < 0 ∧ gone b dev s ∧ holds_only leaked s).

Lemma wp_activate_portals b dev t s :
  board_map s !! b = Some t → pci_dev t = dev → portals_ok b t 0 →
  holds_only (allowed t true false 0 0) s →
  wp False (activate_portals b dev (irq_num t)) (activated b dev) s.
Proof.
  intros Eb Ed Hp Hh. unfold activate_portals. apply wp_bind.
  apply (wp_request_irqs t 0 16); [lia|done|intros j Hj; lia|].
  intros ok s1 Eb1 Ed1 Hh1 Hok. destruct ok; simpl.
  2:{ eapply wp_mono; [apply (wp_MSI_ENABLED b dev _ t _ leaked); [by rewrite Eb1|]|].
      - intros x Hx. specialize (Hh1 x Hx). destruct x; simpl in *; auto; try lia.
        right. left. by eexists.
      - intros r s2 (-> & ? & ?). right. split_and!; try done. }
  specialize (Hok eq_refl). apply wp_bind. eapply wp_get_board; [by rewrite Eb1|].
  apply wp_bind, wp_pci_call. intros [] k1. unfold acquire. apply wp_bind, wp_modify. simpl.
  set (s2 := mkPcie _ _ _ _).
  assert (holds_only (allowed t true true 16 0) s2) as Hh2.
  { apply (holds_only_add (allowed t true false 16 0) (allowed t true true 16 0) RMaster s1);
      [exact Hh1|intros x; by apply allowed_mono|done]. }
  assert (∀ k ro, wp False (err ← add_nodes b ro 0 16; set_drvdata dev (Some b);;
     if bool_decide (err = 0) then mret 0 else deactivate b dev err) (activated b dev)
     (mkPcie k (held s2) (board_map s2) (drvdata s2))) as Hadd.
  { intros k ro. apply wp_bind, (wp_add_nodes b ro 0 16 t); [lia|lia|simpl; by rewrite Eb1|done
      |exact Hh2|intros j Hj; simpl; by apply Hok|intros j Hj; lia|].
    intros err s3 t' Eb3 Ed3 Hh3 Hz Herr. unfold set_drvdata. apply wp_bind, wp_modify.
    case_bool_decide as E0.
    - apply wp_ret. left. split; [done|]. split; [simpl; by rewrite lookup_insert_eq|].
      exists t'. destruct (Hz E0) as (? & ? & ?). split_and!; try done. congruence.
    - eapply wp_mono; [apply (wp_deactivate b dev err t' _ leaked); [done|]|].
      { intros x Hx. left. by apply Hh3. }
      intros r s4 (-> & Hg & Hn). right. split_and!; [|done|done].
      by destruct Herr as [->| ->]. }
  apply wp_bind. case_bool_decide.
  - apply wp_ret. apply (Hadd k1).
  - apply wp_bind, wp_pci_call. intros v k2. apply wp_bind, wp_pci_call. intros v2 k3.
    apply wp_bind, wp_pci_call. intros v3 k4. apply wp_ret. apply (Hadd k4).
Qed.

Lemma wp_check_board b dev t s :
  board_map s !! b = Some t → pci_dev t = dev → portals_ok b t 0 →
  holds_only (allowed t false false 0 0) s →
  wp False (check_board b dev) (activated b dev) s.
Proof.
  intros Eb Ed Hp Hh. unfold check_board. apply wp_bind. eapply wp_get_board; [done|].
  assert (∀ k err, err < 0 → wp False (BARS_MAPPED_label b dev err) (activated b dev)
     (mkPcie k (held s) (board_map s) (drvdata s))) as Hfail.
  { intros k err He. eapply wp_mono; [apply (wp_BARS_MAPPED b dev err t _ leaked); [done|]|].
    - intros x Hx. left. by apply Hh.
    - intros r s' (-> & ? & ?). right. by split_and!. }
  do 4 (apply wp_bind, wp_pci_call; intros ? ?).
  case_bool_decide; simpl; [|by apply Hfail].
  apply wp_bind, wp_pci_call. intros rc kk1. case_bool_decide; simpl; [|by apply Hfail].
  apply wp_bind, wp_pci_call. intros [rc2 vector] kk2. case_bool_decide; simpl; [|by apply Hfail].
  unfold acquire. apply wp_bind, wp_modify, wp_bind. eapply wp_get_board; [done|].
  unfold set_board. apply wp_bind, wp_modify. simpl.
  apply (wp_activate_portals b dev (mkBoard (bar0io t) (bar1io t) (bar2io t) (pci_dev t) (portal t)
    (board_number t) vector (open_count t))); simpl; try done.
  - apply list_lookup_insert_eq. by eapply lookup_lt_Some.
  - intros x. simpl. case_bool_decide as Ex; [by subst|]. intros Hx. specialize (Hh x Hx).
    destruct x; simpl in *; try done; lia.
Qed.

Lemma wp_map_bar bar (A : res → Prop) (Q : Z → pcie K → Prop) s : holds_only A s →
  (∀ a s', board_map s' = board_map s →
     holds_only (λ x, A x ∨ (x = RMap bar ∧ a ≠ 0)) s' → Q a s') →
  wp False (map_bar bar) Q s.
Proof.
  intros Hh HQ. apply wp_bind, wp_pci_call. intros a k.
  case_bool_decide as Ea; unfold acquire; wp_steps; apply HQ; try done.
  - intros x Hx. left. by apply Hh.
  - intros x. simpl. case_bool_decide; [by right|]. left. by apply Hh.
Qed.

Lemma wp_region (n : Z) (A : res → Prop) (Q : Z → pcie K → Prop) s : holds_only A s →
  (∀ rc s', board_map s' = board_map s → holds_only (λ x, A x ∨ x = RRegion n) s' →
     (rc ≠ 0 → held s' = held s) → Q rc s') →
  wp False (try_acquire (pci_request_region n) (RRegion n)) Q s.
Proof.
  intros Hh HQ. apply wp_try_acquire; intros; apply HQ; try done.
  - eapply holds_only_add; [exact Hh|auto|by right].
  - intros x Hx. left. by apply Hh.
Qed.

Lemma wp_map_bars b dev t s :
  board_map s !! b = Some t → pci_dev t = dev → portals_ok b t 0 →
  holds_only (λ x, x = REnabled) s →
  wp False (map_bars b dev) (activated b dev) s.
Proof.
  intros Eb Ed Hp Hh. unfold map_bars.
  apply wp_bind, (wp_region 0 _ _ s Hh). intros rc s1 Eb1 Hh1 Hsame. case_bool_decide as E0; simpl.
  2:{ unfold PCI_DEV_ENABLED_label, release. wp_steps. eapply wp_err_exit; [simpl; by rewrite Eb1|].
      intros s2 Hg Eh. right. split_and!; [done|done|]. intros x. rewrite Eh. simpl.
      case_bool_decide; [done|]. rewrite (Hsame E0). intros Hx. by apply Hh in Hx. }
  apply wp_bind, (wp_region 1 _ _ s1 Hh1). intros rc1 s2 Eb2 Hh2 _.
  apply wp_bind, (wp_region 2 _ _ s2 Hh2). intros rc2 s3 Eb3 Hh3 _.
  apply wp_bind, (wp_map_bar 0 _ _ s3 Hh3). intros a0 s4 Eb4 Hh4.
  apply wp_bind, (wp_map_bar 1 _ _ s4 Hh4). intros a1 s5 Eb5 Hh5.
  apply wp_bind, (wp_map_bar 2 _ _ s5 Hh5). intros a2 s6 Eb6 Hh6. apply wp_bind.
  eapply (wp_mono _ _ (λ a s', board_map s' = board_map s ∧ holds_only (λ x,
    x = REnabled ∨ (∃ n, x = RRegion n) ∨ (x = RMap 0 ∧ a0 ≠ 0) ∨ (x = RMap 1 ∧ a ≠ 0) ∨
    (x = RMap 2 ∧ a2 ≠ 0)) s')).
  - case_bool_decide.
    + apply (wp_map_bar 1 _ _ s6 Hh6). intros a s7 Eb7 Hh7. split; [congruence|].
      eapply holds_only_mono; [exact Hh7|]. intros x. simpl. intuition (eauto; congruence).
    + apply wp_ret. split; [congruence|].
      eapply holds_only_mono; [exact Hh6|]. intros x. simpl. intuition (eauto; congruence).
  - intros a s7 [Eb7 Hh7]. apply wp_bind. eapply wp_get_board; [by rewrite Eb7|].
    unfold set_board. apply wp_bind, wp_modify.
    set (t1 := mkBoard a0 a a2 _ _ _ _ _). set (s8 := mkPcie _ _ _ _).
    assert (board_map s8 !! b = Some t1) as Eb8.
    { apply list_lookup_insert_eq. rewrite Eb7. by eapply lookup_lt_Some. }
    case_bool_decide as Ea0.
    + eapply wp_mono; [apply (wp_BARS_ALLOCATED b dev _ t1 _ leaked); [done|]|].
      * intros x Hx. specialize (Hh7 x Hx). unfold leaked.
        destruct Hh7 as [->|[[n ->]|[[-> ?]|[[-> ?]|[-> ?]]]]]; eauto 6; done.
      * intros r s9 (-> & ? & ?). right. by split_and!.
    + apply (wp_check_board b dev t1); try done.
      intros x Hx. specialize (Hh7 x Hx).
      destruct Hh7 as [->|[[n ->]|[[-> ?]|[[-> ?]|[-> ?]]]]]; simpl; tauto.
Qed.

(** C20.  Probing a board, whatever the kernel and the hardware answer: either the
    driver returns 0 and the board is in service (driver data set, all 16 device
    nodes and interrupt lines present, every portal numbered and attached to the
    board, nothing held beyond what removal gives back), or it returns a
    negative error, gives the board up and has released everything except
    possibly interrupt lines and the mappings of BAR 1 and BAR 2. *)
Theorem probe_spec dev s b0 b1 : board_map s = [b0; b1] → pci_dev b0 = 0 → nothing_held s →
  wp False (pcieportal_probe dev 0x1be7 0xc100) (activated 0 dev) s.
Proof.
  intros Eb E0 Hn. unfold pcieportal_probe. simpl. apply wp_bind, wp_get.
  rewrite Eb. simpl. rewrite E0. simpl. unfold set_board. apply wp_bind, wp_modify.
  unfold board_activate. apply wp_bind. eapply wp_get_board; [simpl; by rewrite Eb|]. simpl.
  unfold set_board. apply wp_bind, wp_modify. simpl. rewrite Eb. simpl.
  apply wp_bind, wp_try_acquire; [intros k|intros rc k Hrc]; simpl.
  - eapply wp_map_bars; simpl; [done|done| |].
    + split_and!; [done|done|]. intros j p _ Hj. lia.
    + intros x. simpl. case_bool_decide; [done|]. by rewrite Hn.
  - rewrite bool_decide_false by done. simpl. eapply wp_err_exit; [done|].
    intros s' Hg Eh. right. split_and!; [done|done|]. intros x. rewrite Eh. simpl. by rewrite Hn.
Qed.

(** The state of the board seen through open files: all but the open count. *)
Lemma wp_set_open_count b t n (Q : () → pcie K → Prop) s :
  Q tt (mkPcie (kst s) (held s) (<[b := mkBoard (bar0io t) (bar1io t) (bar2io t) (pci_dev t)
    (portal t) (board_number t) (irq_num t) (u32 n)]> (board_map s)) (drvdata s)) →
  wp False (set_open_count b t n) Q s.
Proof. intros HQ. unfold set_open_count, set_board. by apply wp_modify. Qed.

Lemma wp_file_portal f t p (Q : tPortal → pcie K → Prop) s :
  board_map s !! f.1 = Some t → portal t !! f.2 = Some p → Q p s → wp False (file_portal f) Q s.
Proof.
  intros Eb Ep HQ. unfold file_portal. apply wp_bind. eapply wp_get_board; [done|].
  rewrite Ep. by apply wp_ret.
Qed.
Lemma wp_file_board f t p b t' (Q : nat * tBoard → pcie K → Prop) s :
  board_map s !! f.1 = Some t → portal t !! f.2 = Some p → board p = Some b →
  board_map s !! b = Some t' → Q (b, t') s → wp False (file_board f) Q s.
Proof.
  intros Eb Ep Ebd Eb' HQ. unfold file_board. apply wp_bind. eapply wp_file_portal; [done..|].
  rewrite Ebd. apply wp_bind. eapply wp_get_board; [done|]. by apply wp_ret.
Qed.

(** Reading registers changes the hardware only. *)
Lemma wp_read_csr t off (Q : Z → pcie K → Prop) s :
  (∀ v k, Q v (mkPcie k (held s) (board_map s) (drvdata s))) → wp False (read_csr t off) Q s.
Proof. intros HQ. unfold read_csr. apply wp_bind, wp_pci_call. intros v k. apply wp_ret, HQ. Qed.

Lemma wp_identify send f p t u b t' (Q : Z * option (list Z) → pcie K → Prop) s :
  board_map s !! f.1 = Some t → portal t !! f.2 = Some p → board p = Some b →
  board_map s !! b = Some t' → acc_ok u = true → out_ok u = true →
  (∀ k, Q (0, Some [board_number t'; portal_number p])
          (mkPcie k (held s) (board_map s) (drvdata s))) →
  wp False (pcieportal_ioctl send f BNOC_IDENTIFY u) Q s.
Proof.
  intros Eb Ep Ebd Eb' Ha Ho HQ. unfold pcieportal_ioctl.
  apply wp_bind. eapply wp_file_portal; [done..|]. rewrite Ha. simpl. apply wp_bind.
  eapply wp_file_board; [done..|]. unfold ioctl_identify.
  apply wp_bind, wp_bind. eapply wp_mono;
    [apply (wp_for_each _ _ _ (λ _ s', ∃ k, s' = mkPcie k (held s) (board_map s) (drvdata s)))|].
  - exists (kst s). by destruct s.
  - intros i a s' _ [k ->]. do 3 (apply wp_bind, wp_read_csr; intros ? ?).
    apply wp_ret. simpl. by eexists.
  - intros _ s' [k ->]. apply wp_ret. unfold copy_out. rewrite Ho. apply wp_ret, HQ.
Qed.

(** A device node leads to its own portal: on a board in service, opening
    minor [n] and asking the file to identify itself returns the board's number
    and [n], whatever the hardware answers, and closing the file restores the
    board's open count. *)
Lemma open_identify dev s n t send u : active 0 dev s → board_map s !! 0%nat = Some t →
  0 ≤ n < 16 → 0 ≤ open_count t < 2 ^ 32 → acc_ok u = true → out_ok u = true →
  wp False ('(_, f) ← pcieportal_open n; r ← pcieportal_ioctl send f BNOC_IDENTIFY u;
            rc ← pcieportal_release f; mret (r, rc))
    (λ r s', r = ((0, Some [board_number t; n]), 0) ∧ board_map s' = board_map s) s.
Proof.
  intros (_ & t0 & Eb & _ & (Hl & _ & Hp) & _) Et Hn Hc Ha Ho.
  rewrite Et in Eb. injection Eb as <-. unfold pcieportal_open.
  assert (Z.shiftr n 4 = 0) as Eh by (rewrite Z.shiftr_div_pow2 by lia; apply Z.div_small; lia).
  assert (Z.land n 0xF = n) as El
    by (change 0xF with (2 ^ 4 - 1); rewrite land_low_mod by lia; apply Z.mod_small; lia).
  rewrite Eh, El. change (Z.to_nat 0) with O. apply wp_bind, wp_bind.
  eapply wp_get_board; [done|]. apply wp_bind, wp_set_open_count, wp_ret. apply wp_bind.
  set (t1 := mkBoard _ _ _ _ _ _ _ _).
  assert (O < length (board_map s))%nat as Hlen by (by eapply lookup_lt_Some).
  destruct (lookup_lt_is_Some_2 (portal t) (Z.to_nat n)) as [p Ep]; [lia|].
  destruct (Hp _ _ Ep ltac:(lia)) as [Epn Epb].
  assert (<[O := t1]> (board_map s) !! O = Some t1) as E1 by by apply list_lookup_insert_eq.
  apply (wp_identify send (O, Z.to_nat n) p t1 u O t1); try done. intros k.
  apply wp_bind. unfold pcieportal_release. apply wp_bind.
  apply (wp_file_board (O, Z.to_nat n) t1 p O t1); try done.
  apply wp_bind, wp_set_open_count, wp_ret, wp_ret. simpl. split.
  - rewrite Epn. repeat f_equal. lia.
  - rewrite list_insert_insert_eq. rewrite list_insert_id; [done|]. rewrite Et. destruct t. simpl.
    do 2 f_equal. unfold u32. simpl in Hc. cbn. rewrite Zminus_mod_idemp_l.
    rewrite Z.add_simpl_r. symmetry. by apply Z.mod_small.
Qed.

(** Mapping the low pages of the file maps the portal's own register window;
    mapping any other page maps the portal's coherent buffer, allocated by the
    first such call. *)
Lemma portal_mmap_window start f p b t t' vs ve pg s :
  board_map s !! f.1 = Some t → portal t !! f.2 = Some p → board p = Some b →
  board_map s !! b = Some t' → pg < 16 →
  portal_mmap start f vs ve pg s =
    (rc ← pci_call (io_remap_pfn_range (Z.shiftr (start + 0x10000 * portal_number p) 12) (ve - vs));
     mret (if bool_decide (rc = 0) then 0 else - EAGAIN)) s.
Proof.
  intros Eb Ep Ebd Eb' Hpg. unfold portal_mmap, file_board, file_portal, get_board.
  unfold mbind, M_bind, get. simpl. do 2 (rewrite Eb; simpl; rewrite Ep; simpl).
  rewrite Ebd, Eb'. simpl. rewrite bool_decide_false by lia. rewrite bool_decide_true by lia. done.
Qed.
(** ** Removal *)

(** Steps that do not touch the coherent memory of the portals: every step of the
    deactivation. *)
Definition keeps {A} (m : M (pcie K) A) : Prop :=
  ∀ j s, wp True m (λ _ s', held s' (RDma j) = held s (RDma j)) s.

Lemma keeps_bind {A B} (m : M (pcie K) A) (f : A → M (pcie K) B) :
  keeps m → (∀ a, keeps (f a)) → keeps (m ≫= f).
Proof.
  intros Hm Hf j s. apply wp_bind. eapply wp_mono; [apply (Hm j)|]. cbn. intros a s1 <-. apply Hf.
Qed.
Lemma keeps_release P0 : (∀ j, P0 (RDma j) = false) → keeps (release P0).
Proof. intros HP j s. unfold release. wp_steps. cbn. by rewrite HP. Qed.
Lemma keeps_get_board b : keeps (get_board b).
Proof. intros j s. unfold get_board. wp_steps. destruct (board_map s !! b); [by apply wp_ret|done]. Qed.
Lemma keeps_deactivate b dev err : keeps (deactivate b dev err).
Proof.
  unfold deactivate, MSI_ENABLED_label, BARS_MAPPED_label, BARS_ALLOCATED_label,
    PCI_DEV_ENABLED_label, err_exit, when.
  repeat first [ apply keeps_get_board | apply keeps_release; intros; done
               | apply keeps_bind; intros | case_bool_decide; cbn [negb] | by intros ? ?
               | intros ? ?; unfold wp, pci_call; by destruct (iowrite32 _ _ _) ].
Qed.

(** A call of portal_mmap on an open file of the board: the file's portal, the
    bounds of the mapping and its page offset. *)
Record mmap_call := mkMmap { mm_portal : nat; mm_start : Z; mm_end : Z; mm_pgoff : Z }.
Definition run_mmap (bar2_start : Z) (b : nat) (c : mmap_call) : M (pcie K) () :=
  portal_mmap bar2_start (b, mm_portal c) (mm_start c) (mm_end c) (mm_pgoff c);; mret tt.

(** A page of the coherent memory rather than of the register window. *)
Definition takes_memory (c : mmap_call) : Prop := 16 ≤ mm_pgoff c.

(** A board in service some of whose portals [D] have coherent memory. *)
Definition serving (b : nat) (dev : Z) (D : nat → Prop) s : Prop :=
  drvdata s !! dev = Some b ∧
  ∃ t, board_map s !! b = Some t ∧ portals_ok b t 16 ∧
    holds_only (λ x, allowed t true true 16 16 x ∨ ∃ j, x = RDma j ∧ D j) s.

Lemma portals_ok_set b t j p v h r : portals_ok b t 16 → portal t !! j = Some p →
  portals_ok b (mkBoard (bar0io t) (bar1io t) (bar2io t) (pci_dev t)
    (<[j := mkPortal (portal_number p) (board p) v r (extra p) h]> (portal t))
    (board_number t) (irq_num t) (open_count t)) 16.
Proof.
  intros (Hl & He & Hp) Ej. split_and!; simpl.
  - by rewrite length_insert.
  - apply forallb_forall. intros x Hx%list_elem_of_In. rewrite forallb_forall in He.
    apply list_elem_of_lookup_1 in Hx as [i [(-> & <- & _)|(_ & Hi)]%list_lookup_insert_Some];
      simpl; apply He, list_elem_of_In; by eapply list_elem_of_lookup_2.
  - intros i q [(-> & <- & _)|(_ & Hi)]%list_lookup_insert_Some Hlt; [by apply (Hp _ p)|by apply Hp].
Qed.

Lemma wp_run_mmap start b dev (D : nat → Prop) c s :
  serving b dev D s → (mm_portal c < 16)%nat → (takes_memory c → D (mm_portal c)) →
  wp False (run_mmap start b c) (λ _ s', serving b dev D s') s.
Proof.
  intros (Ed & t & Eb & Hp & Hh) Hj HD. pose proof Hp as (Hl & _ & Hpp).
  destruct (lookup_lt_is_Some_2 (portal t) (mm_portal c)) as [p Ep]; [lia|].
  destruct (Hpp _ _ Ep ltac:(lia)) as [_ Epb]. unfold run_mmap, portal_mmap.
  apply wp_bind, wp_bind. eapply wp_file_portal; [done..|].
  apply wp_bind. eapply wp_file_board; [done..|].
  case_bool_decide; [by apply wp_ret, wp_ret; split; [|exists t]|].
  apply wp_bind, (wp_mono _ _ (λ _ s', serving b dev D s')).
  - case_bool_decide; [by apply wp_ret; split; [|exists t]|].
    case_bool_decide; [|by apply wp_ret; split; [|exists t]].
    apply wp_bind, wp_pci_call. intros [v h] k. cbn.
    assert (D (mm_portal c)) as HDj by (apply HD; unfold takes_memory; lia).
    case_bool_decide; unfold acquire; wp_steps; (eapply wp_get_board; [done|]);
      unfold set_board; wp_steps; (split; [done|]); eexists;
      (split; [apply list_lookup_insert_eq; by eapply lookup_lt_Some|]);
      (split; [by apply portals_ok_set|]); intros x; cbn.
    + exact (Hh x).
    + case_bool_decide as Ex; [intros _; right; by exists (mm_portal c)|exact (Hh x)].
  - intros off s' Hs. apply wp_bind, wp_pci_call. intros rc k. by do 2 apply wp_ret.
Qed.

Lemma wp_remove b dev D s : serving b dev D s →
  wp False (pcieportal_remove dev) (λ _ s', gone b dev s' ∧
    ∀ x, held s' x = true ↔ ∃ j, x = RDma j ∧ held s (RDma j) = true) s.
Proof.
  intros (Ed & t & Eb & (_ & He & _) & Hh). unfold pcieportal_remove.
  apply wp_bind, wp_get. rewrite Ed. apply wp_bind. unfold board_activate.
  apply wp_bind. eapply wp_get_board; [done|]. rewrite He. cbn [negb].
  pose proof (wp_deactivate b dev 0 t s (λ x, ∃ j, x = RDma j ∧ held s (RDma j) = true) Eb) as Hw.
  pose proof (λ j, keeps_deactivate b dev 0 j s) as Hk. unfold wp in *.
  destruct (deactivate b dev 0 s) as [[] s']; try by apply Hw; intros x Hx;
    destruct (Hh x Hx) as [?|(j & -> & _)]; eauto.
  destruct Hw as (_ & Hg & Ho).
  { intros x Hx. destruct (Hh x Hx) as [?|(j & -> & _)]; eauto. }
  split; [done|]. intros x. split; [apply Ho|]. intros (j & -> & Hj). by rewrite Hk.
Qed.

(** C37.  Removing a board that was put in service and whose portals were then
    mapped any number of times: the removal gives the board up and gives back
    the mappings, regions, interrupt lines, MSI-X, bus mastering, device nodes
    and the enabled device.  What stays held is exactly the coherent memory
    that was held before the removal, and only a portal whose file was mapped
    at page 16 or above has any; without such a mapping nothing stays held. *)
Theorem remove_releases start b dev calls s : active b dev s →
  Forall (λ c, (mm_portal c < 16)%nat) calls →
  wp False (for_each calls (run_mmap start b)) (λ _ s1,
    wp False (pcieportal_remove dev) (λ _ s', gone b dev s' ∧
      (∀ x, held s' x = true ↔ ∃ j, x = RDma j ∧ held s1 (RDma j) = true) ∧
      (∀ x, held s' x = true →
         Exists (λ c, x = RDma (mm_portal c) ∧ takes_memory c) calls)) s1) s.
Proof.
  intros (Ed & t & Eb & _ & Hp & Hh & _) Hc.
  set (D j := Exists (λ c, j = mm_portal c ∧ takes_memory c) calls).
  eapply wp_mono; [apply (wp_for_each _ _ _ (λ _ s', serving b dev D s'))|].
  - split; [done|]. exists t. split_and!; try done. intros x Hx. left. by apply Hh.
  - intros i c s' Hi Hs. apply wp_run_mmap; [done|exact (Forall_lookup_1 _ _ _ _ Hc Hi)|].
    intros Ht. apply Exists_exists. exists c. split; [by eapply list_elem_of_lookup_2|done].
  - intros [] s1 Hs. cbv beta in Hs. pose proof Hs as (_ & t1 & _ & _ & Hh1).
    eapply wp_mono; [by eapply wp_remove|]. intros [] s' [Hg Hx]. split_and!; [done|done|].
    intros x [j [-> Hj]]%Hx. destruct (Hh1 _ Hj) as [[]|(j' & [= ->] & HD)].
    eapply Exists_impl; [exact HD|]. intros c [-> ?]. done.
Qed.
End Facts.

(** ** A concrete kernel

    The board is at [hw_bar0] (0 when mapping BAR 0 fails); requesting interrupt
    line [hw_bad_irq] fails. *)
Record hw := mkHw { hw_bar0 : Z; hw_bad_irq : Z }.
#[local] Instance hw_pci : Pci hw := {
  pci_enable_device k := (0, k);
  pci_request_region _ k := (0, k);
  pci_iomap bar k := (if bool_decide (bar = 0) then hw_bar0 k else 0x10000 * (bar + 1), k);
  ioread32 a k := (if bool_decide (a = hw_bar0 k + CSR_ID) then u32 expected_magic
                   else if bool_decide (a = hw_bar0 k + CSR_ID + 4) then Z.shiftr expected_magic 32
                   else 0, k);
  iowrite32 _ _ k := (tt, k);
  pci_set_dma_mask k := (0, k);
  pci_enable_msix k := ((0, 40), k);
  request_irq n k := (if bool_decide (n = hw_bad_irq k) then - EBUSY else 0, k);
  cdev_add _ k := (0, k);
  dma_alloc_coherent _ k := ((0x7000, 0x5000), k);
  io_remap_pfn_range _ _ k := (0, k);
}.

Definition idle (k : hw) : pcie hw := mkPcie k (λ _, false) [board0; board0] ∅.

Lemma probe_spec_witness :
  wp False (pcieportal_probe 5 0x1be7 0xc100) (activated 0 5) (idle (mkHw 0x1000 (-1))).
Proof. by apply (probe_spec 5 _ board0 board0). Defined.

(** The probe succeeds on this board. *)
Example probe_ok : fst (pcieportal_probe 5 0x1be7 0xc100 (idle (mkHw 0x1000 (-1)))) = Done 0.
Proof. vm_compute. reflexivity. Qed.

(** When the third interrupt line cannot be requested, the error path disables
    MSI-X without freeing the first two lines. *)
Example probe_irq_leak : let '(r, s) := pcieportal_probe 5 0x1be7 0xc100 (idle (mkHw 0x1000 42)) in
  r = Done (- EBUSY) ∧ held s (RIrq 40) = true ∧ held s (RIrq 41) = true ∧ held s RMsix = false.
Proof. vm_compute. done. Qed.

(** When BAR 0 cannot be mapped, the mappings of BAR 1 and BAR 2 are leaked. *)
Example probe_map_leak : let '(r, s) := pcieportal_probe 5 0x1be7 0xc100 (idle (mkHw 0 (-1))) in
  r = Done (- EFAULT) ∧ held s (RMap 1) = true ∧ held s (RMap 2) = true.
Proof. vm_compute. done. Qed.

(** A board in service, as the probe of this board leaves it. *)
Definition served_board : tBoard :=
  mkBoard 0x1000 0x20000 0x30000 5
    ((λ i, mkPortal i (Some O) 0 (0x30000 + 0x10000 * i) true 0) <$> seqZ 0 16) 0 40 0.
Definition in_service : pcie hw :=
  mkPcie (mkHw 0x1000 (-1))
    (λ x, match x with
          | REnabled | RMsix | RMaster => true
          | RRegion n | RMap n => bool_decide (0 ≤ n < 3)
          | RIrq n => bool_decide (40 ≤ n < 56)
          | RCdev n | RNode n => bool_decide (0 ≤ n < 16)
          | RDma _ => false
          end)
    [served_board; board0]
    {[5 := O]}.

Example in_service_probed :
  board_map (snd (pcieportal_probe 5 0x1be7 0xc100 (idle (mkHw 0x1000 (-1))))) = board_map in_service.
Proof. vm_compute. reflexivity. Qed.

Lemma in_service_active : active 0 5 in_service.
Proof.
  split; [done|]. eexists. split_and!; [done|done| | | |].
  - split_and!; [done|done|]. intros j p Hj Hlt. do 16 (destruct j as [|j]; [by simplify_eq/=|]). lia.
  - intros x Hx. destruct x; simpl in *; try done; case_bool_decide; try done; lia.
  - intros j Hj. simpl. apply bool_decide_true. simpl. lia.
  - intros j Hj. simpl. by apply bool_decide_true.
Qed.

(** A program maps the registers of portal 3, then its memory. *)
Definition two_maps : list mmap_call :=
  [mkMmap 3 0 0x10000 0; mkMmap 3 0 0x4000 16].

(** The memory of portal 3 is never freed. *)
Example remove_memory_leak :
  let '(_, s1) := for_each two_maps (run_mmap 0xf0000000 0) in_service in
  let '(_, s2) := pcieportal_remove 5 s1 in
  held s2 (RDma 3) = true ∧ held s2 (RDma 4) = false ∧ held s2 RMsix = false.
Proof. vm_compute. done. Qed.

Lemma remove_releases_witness :
  wp False (for_each two_maps (run_mmap 0xf0000000 0)) (λ _ s1,
    wp False (pcieportal_remove 5) (λ _ s', gone 0 5 s' ∧
      (∀ x, held s' x = true ↔ ∃ j, x = RDma j ∧ held s1 (RDma j) = true) ∧
      (∀ x, held s' x = true →
         Exists (λ c, x = RDma (mm_portal c) ∧ takes_memory c) two_maps)) s1) in_service.
Proof.
  apply remove_releases; [apply in_service_active|]. repeat constructor.
Defined.
