(* ===== verification/ZynqPortal.v ===== *)
(** * The Zynq driver (src/drivers/zynqportal/zynqportal.c)

    The platform device, the file operations of its device node and the
    interrupt handler, over the kernel services as a typeclass.  The interrupt
    handshake between this driver, the portal hardware and the event loop of
    poller.cpp is proved on the indication hardware of Poller.v, with words arriving
    between the steps. *)
From stdpp Require Import base gmap numbers pretty strings list.
From S2P Require Import Prelude Ioctl Portal SGListMMU SendFd Directory Poller.
Local Open Scope Z_scope.

(** [drivers/zynqportal/zynqportal.c:48-57] struct portal_data *)
Record portal_data := mkPd {
  dev_base_phys : Z;
  interrupt_virt : Z;
  mask_virt : Z;
  zmap_base : Z;
  portal_irq : Z;
  irq_is_registered : Z;
}.

(** [drivers/zynqportal/zynqportal.h:22-25] PortalEnableInterrupt *)
Record PortalEnableInterrupt := mkEnable { interrupt_offset : Z; mask_offset : Z }.

(** [drivers/zynqportal/zynqportal.h:27-30] PortalSendFd *)
Record PortalSendFd := mkSendFd { sf_fd : Z; sf_id : Z }.

(** [drivers/zynqportal/zynqportal.h:32-35] the ioctl numbers; 32-bit longs *)
Definition PORTAL_SET_FCLK_RATE : Z := IOWR 66 40 12.
Definition PORTAL_ENABLE_INTERRUPT : Z := IOWR 66 41 8.
Definition PORTAL_SEND_FD : Z := IOR 66 42 8.
Definition PORTAL_DCACHE_FLUSH_INVAL : Z := IOR 66 43 4.

(** The kernel services, with the C results; a pointer is 0 when NULL. *)
Class Zynq (K : Type) := {
  ioremap_nocache : Z → Z → K → Z * K;
  readl : Z → K → Z * K;
  writel : Z → Z → K → () * K;
  zrequest_irq : Z → K → Z * K;
  clk_get_sys : string → K → Z * K;
  clk_round_rate : Z → Z → K → Z * K;
  clk_set_rate : Z → Z → K → Z * K;
  zio_remap_pfn_range : Z → Z → K → Z * K;
}.

(** The device's data (freed when [None]), the interrupt handlers installed for
    it, whether its device node is registered, and how often its wait queue was
    woken. *)
Record zy (K : Type) := mkZy {
  zk : K;
  pd : option portal_data;
  handlers : list Z;
  misc : bool;
  wakes : nat;
}.
Arguments mkZy {K} _ _ _ _ _.
Arguments zk {K} _.
Arguments pd {K} _.
Arguments handlers {K} _.
Arguments misc {K} _.
Arguments wakes {K} _.

(** The memory the ioctl argument points to, read as each request type ([None]
    for a fault), whether writing it back succeeds, and the argument itself. *)
Record uarg := mkUarg {
  u_clk : option PortalClockRequest;
  u_int : option PortalEnableInterrupt;
  u_fd : option PortalSendFd;
  u_out_ok : bool;
  u_arg : Z;
}.

(** What an ioctl leaves behind in the user's memory and the caches. *)
Record zres := mkZres { z_rc : Z; z_clk : option PortalClockRequest; z_cache : list cache_op }.
Definition rc_only (rc : Z) : zres := mkZres rc None [].

Section Driver.
Context {K : Type} `{Zynq K}.
Abbreviation Zm := (M (zy K)).

Definition zcall {A} (f : K → A * K) : Zm A :=
  λ s, let '(a, k) := f (zk s) in (Done a, mkZy k (pd s) (handlers s) (misc s) (wakes s)).
Definition data : Zm portal_data :=
  s ← get; match pd s with Some d => mret d | None => undefined end.
Definition set_data (d : portal_data) : Zm () :=
  modify (λ s, mkZy (zk s) (Some d) (handlers s) (misc s) (wakes s)).
Definition free_irq (irq : Z) : Zm () :=
  modify (λ s, mkZy (zk s) (pd s) (filter (λ h, h ≠ irq) (handlers s)) (misc s) (wakes s)).
(** readl/writel through a pointer that may be NULL *)
Definition zreadl (a : Z) : Zm Z :=
  if bool_decide (a = 0) then undefined else v ← zcall (readl a); mret (u32 v).
Definition zwritel (v a : Z) : Zm () :=
  if bool_decide (a = 0) then undefined else zcall (writel v a).

Definition IRQ_NONE : Z := 0.
Definition IRQ_HANDLED : Z := 1.

(** [drivers/zynqportal/zynqportal.c:63-77] portal_isr *)
Definition portal_isr : Zm Z :=
  d ← data;
  status ← zreadl (interrupt_virt d);
  if bool_decide (status = 0) then mret IRQ_NONE
  else
    zwritel 0 (mask_virt d);;
    modify (λ s, mkZy (zk s) (pd s) (handlers s) (misc s) (S (wakes s)));;
    mret IRQ_HANDLED.

(** [drivers/zynqportal/zynqportal.c:82-88] portal_open *)
Definition portal_open : Zm Z := data;; mret 0.

(** [drivers/zynqportal/zynqportal.c:95-119] PORTAL_SET_FCLK_RATE; the clock name
    is cut to the seven characters that fit *)
Definition ioctl_set_rate (u : uarg) : Zm zres :=
  match u_clk u with
  | None => mret (rc_only (- EFAULT))
  | Some request =>
      let clkname := String.substring 0 7 (String.append "FPGA" (pretty (clknum request))) in
      fclk ← zcall (clk_get_sys clkname);
      if bool_decide (fclk = 0) then mret (rc_only (- ENODEV))
      else
        actual ← zcall (clk_round_rate fclk (requested_rate request));
        status ← zcall (clk_set_rate fclk actual);
        if negb (bool_decide (status = 0)) then mret (rc_only status)
        else if u_out_ok u
        then mret (mkZres 0 (Some (mkClockRequest (clknum request) (requested_rate request) actual)) [])
        else mret (rc_only (- EFAULT))
  end.

(** [drivers/zynqportal/zynqportal.c:126-128] PORTAL_ENABLE_INTERRUPT: a register
    is mapped unless it already is *)
Definition remap (virt phys len : Z) : Zm Z :=
  if bool_decide (virt = 0) then zcall (ioremap_nocache phys len) else mret virt.

(** [drivers/zynqportal/zynqportal.c:120-149] PORTAL_ENABLE_INTERRUPT *)
Definition ioctl_enable (u : uarg) : Zm zres :=
  match u_int u with
  | None => mret (rc_only (- EFAULT))
  | Some request =>
      d ← data;
      iv ← remap (interrupt_virt d) (dev_base_phys d + interrupt_offset request) 4;
      mv ← remap (mask_virt d) (dev_base_phys d + mask_offset request) 4;
      mb ← remap (zmap_base d) (dev_base_phys d) PORTAL_BASE_OFFSET;
      set_data (mkPd (dev_base_phys d) iv mv mb (portal_irq d) (irq_is_registered d));;
      if bool_decide (irq_is_registered d = 0) then
        zreadl iv;; zreadl mv;;
        rc ← zcall (zrequest_irq (portal_irq d));
        if bool_decide (rc = 0) then
          modify (λ s, mkZy (zk s) (Some (mkPd (dev_base_phys d) iv mv mb (portal_irq d) 1))
                         (portal_irq d :: handlers s) (misc s) (wakes s));;
          mret (rc_only 0)
        else
          set_data (mkPd (dev_base_phys d) iv mv mb 0 (irq_is_registered d));;
          mret (rc_only (- EFAULT))
      else mret (rc_only 0)
  end.

(** [drivers/zynqportal/zynqportal.c:150-163] PORTAL_SEND_FD; leaving the switch
    with [break] returns -ENODEV *)
Definition ioctl_send (send : PortalInternal → Z → Z → Zm Z) (u : uarg) : Zm zres :=
  d ← data;
  match u_fd u with
  | None => mret (rc_only (- ENODEV))
  | Some f =>
      err ← send (mkPortalInternal 0 0 0 (zmap_base d) 0 None) (sf_fd f) (sf_id f);
      mret (rc_only (if bool_decide (err < 0) then - ENODEV else 0))
  end.

(** [drivers/zynqportal/zynqportal.c:164-179] PORTAL_DCACHE_FLUSH_INVAL *)
Definition ioctl_flush (fget : Z → option (list sg_entry)) (u : uarg) : Zm zres :=
  match fget (s32 (u_arg u)) with
  | None => undefined
  | Some sgl => mret (mkZres 0 None (flush_inval_arm sgl))
  end.

(** [drivers/zynqportal/zynqportal.c:90-185] portal_unlocked_ioctl *)
Definition portal_unlocked_ioctl (send : PortalInternal → Z → Z → Zm Z)
    (fget : Z → option (list sg_entry)) (cmd : Z) (u : uarg) : Zm zres :=
  if bool_decide (cmd = PORTAL_SET_FCLK_RATE) then ioctl_set_rate u
  else if bool_decide (cmd = PORTAL_ENABLE_INTERRUPT) then ioctl_enable u
  else if bool_decide (cmd = PORTAL_SEND_FD) then ioctl_send send u
  else if bool_decide (cmd = PORTAL_DCACHE_FLUSH_INVAL) then ioctl_flush fget u
  else mret (rc_only (- ENOTTY)).

(** [drivers/zynqportal/zynqportal.c:187-203] portal_mmap; 32-bit page offsets *)
Definition zportal_mmap (vm_start vm_end vm_pgoff : Z) : Zm Z :=
  if bool_decide (2 ^ 20 - 1 < vm_pgoff) then mret (- EINVAL)
  else
    d ← data;
    rc ← zcall (zio_remap_pfn_range (Z.shiftr (dev_base_phys d) 12) (vm_end - vm_start));
    mret (if bool_decide (rc = 0) then 0 else - EAGAIN).

(** [drivers/zynqportal/zynqportal.c:206-217] portal_poll *)
Definition portal_poll : Zm Z :=
  d ← data;
  int_status ← (if bool_decide (interrupt_virt d = 0) then mret 0 else zreadl (interrupt_virt d));
  mret (if bool_decide (int_status = 0) then 0 else Z.lor 0x001 0x040).

(** [drivers/zynqportal/zynqportal.c:219-231] portal_release *)
Definition portal_release : Zm Z :=
  d ← data;
  (if bool_decide (irq_is_registered d = 0) then mret tt
   else zwritel 0 (interrupt_virt d);; free_irq (portal_irq d));;
  set_data (mkPd (dev_base_phys d) (interrupt_virt d) (mask_virt d) (zmap_base d) (portal_irq d) 0);;
  mret 0.

(** [drivers/zynqportal/zynqportal.c:244-276] portal_of_probe; the arguments are
    the device tree's answers and whether kzalloc succeeds *)
Definition portal_of_probe (dname : bool) (reg_res irq_res : option Z) (mem : bool) : Zm Z :=
  match dname, reg_res, irq_res with
  | false, _, _ => mret (- EINVAL)
  | true, Some reg, Some irq =>
      if mem then
        modify (λ s, mkZy (zk s) (Some (mkPd reg 0 0 0 irq 0)) (handlers s) true (wakes s));; mret 0
      else modify (λ s, mkZy (zk s) None (handlers s) (misc s) (wakes s));; mret (- ENOMEM)
  | true, _, _ => mret (- ENODEV)
  end.

(** [drivers/zynqportal/zynqportal.c:278-288] portal_of_remove *)
Definition portal_of_remove : Zm Z :=
  d ← data;
  (if bool_decide (irq_is_registered d = 0) then mret tt else free_irq (portal_irq d));;
  modify (λ s, mkZy (zk s) None (handlers s) false (wakes s));;
  mret 0.
End Driver.

(** ** The interrupt handler's life cycle *)
Inductive zop :=
  | ZOpen
  | ZIoctl (cmd : Z) (u : uarg)
  | ZMmap (vm_start vm_end vm_pgoff : Z)
  | ZPoll
  | ZRelease
  | ZIrq.                     (* the interrupt line is raised *)

Section Lifecycle.
Context {K : Type} `{Zynq K}.
Context (send : PortalInternal → Z → Z → M (zy K) Z) (fget : Z → option (list sg_entry)).
Implicit Types s : zy K.

Definition run_zop (o : zop) : M (zy K) () :=
  match o with
  | ZOpen => portal_open;; mret tt
  | ZIoctl cmd u => portal_unlocked_ioctl send fget cmd u;; mret tt
  | ZMmap a b c => zportal_mmap a b c;; mret tt
  | ZPoll => portal_poll;; mret tt
  | ZRelease => portal_release;; mret tt
  | ZIrq => s ← get; if bool_decide (handlers s = []) then mret tt else portal_isr;; mret tt
  end.

(** The flag agrees with the kernel's list of handlers, and an installed handler
    finds its registers mapped. *)
Definition zinv s : Prop := ∃ d, pd s = Some d ∧ misc s = true ∧
  (irq_is_registered d = 0 ∧ handlers s = [] ∨
   irq_is_registered d = 1 ∧ handlers s = [portal_irq d] ∧
     interrupt_virt d ≠ 0 ∧ mask_virt d ≠ 0).

(** A file descriptor passed to the cache flush is open. *)
Definition valid_zop (o : zop) : Prop :=
  match o with
  | ZIoctl cmd u => cmd = PORTAL_DCACHE_FLUSH_INVAL → is_Some (fget (s32 (u_arg u)))
  | _ => True
  end.

(** [ub] tells whether a run into a null pointer is accepted. *)
Context (ub : Prop).
Lemma wp_zcall {A} (f : K → A * K) (Q : A → zy K → Prop) s :
  (∀ k, Q (f (zk s)).1 (mkZy k (pd s) (handlers s) (misc s) (wakes s))) → wp ub (zcall f) Q s.
Proof. intros HQ. unfold wp, zcall. destruct (f (zk s)) as [a k] eqn:E. apply HQ. Qed.
Lemma wp_data d (Q : portal_data → zy K → Prop) s :
  pd s = Some d → Q d s → wp ub data Q s.
Proof. intros E HQ. unfold data. wp_steps. rewrite E. by wp_steps. Qed.
Lemma wp_zreadl a (Q : Z → zy K → Prop) s : a ≠ 0 ∨ ub →
  (∀ v k, a ≠ 0 → Q v (mkZy k (pd s) (handlers s) (misc s) (wakes s))) → wp ub (zreadl a) Q s.
Proof.
  intros Ha HQ. unfold zreadl. case_bool_decide; [by destruct Ha|].
  apply wp_bind, wp_zcall. intros k. by apply wp_ret, HQ.
Qed.
Lemma wp_zwritel v a (Q : () → zy K → Prop) s : a ≠ 0 →
  (∀ k, Q tt (mkZy k (pd s) (handlers s) (misc s) (wakes s))) → wp ub (zwritel v a) Q s.
Proof.
  intros Ha HQ. unfold zwritel. rewrite bool_decide_false by done.
  apply wp_zcall. intros k. by destruct (writel v a (zk s)).1.
Qed.

(** Changes of the kernel state and of the wake-up count are invisible. *)
Lemma zinv_frame s k n : zinv s → zinv (mkZy k (pd s) (handlers s) (misc s) n).
Proof. done. Qed.

(** The kernel maps what it is asked to, unless running into a null pointer is accepted. *)
Context (Hmap : (∀ phys len k, (ioremap_nocache phys len k).1 ≠ 0) ∨ ub).
Context (Hsend : ∀ p fd id s, wp ub (send p fd id) (λ _ s',
  pd s' = pd s ∧ handlers s' = handlers s ∧ misc s' = misc s) s).

Lemma wp_remap virt phys len (Q : Z → zy K → Prop) s :
  (∀ v k, v ≠ 0 ∨ ub → (virt ≠ 0 → v = virt) → Q v (mkZy k (pd s) (handlers s) (misc s) (wakes s))) →
  wp ub (remap virt phys len) Q s.
Proof.
  intros HQ. unfold remap. case_bool_decide.
  - apply wp_zcall. intros k. apply HQ; [|done]. destruct Hmap as [Hm|]; [left; apply Hm|by right].
  - apply wp_ret. specialize (HQ virt (zk s)). destruct s. by apply HQ; [left|].
Qed.

Lemma enable_inv u s : zinv s → wp ub (ioctl_enable u) (λ _ s', zinv s') s.
Proof.
  intros (d & Ed & Em & Hd). unfold ioctl_enable. destruct (u_int u) as [r|].
  2:{ apply wp_ret. by exists d. }
  apply wp_bind. eapply wp_data; [exact Ed|].
  apply wp_bind, wp_remap. intros iv k1 Hiv Eiv. apply wp_bind, wp_remap. intros mv k2 Hmv Emv.
  apply wp_bind, wp_remap. intros mb k3 _ _. unfold set_data. apply wp_bind, wp_modify. simpl.
  case_bool_decide as E0.
  - destruct Hd as [[_ Eh]|[E1 _]]; [|congruence].
    apply wp_bind, wp_zreadl; [done|]. intros _ k4 ?. apply wp_bind, wp_zreadl; [done|]. intros _ k5 ?.
    apply wp_bind, wp_zcall. intros k6. simpl. case_bool_decide; wp_steps; simpl.
    + eexists. split_and!; [done|done|]. right. simpl. rewrite Eh. done.
    + eexists. split_and!; [done|done|]. left. done.
  - apply wp_ret. eexists. split_and!; [done|done|]. simpl. destruct Hd as [[? _]|(? & ? & Hi & Hm)]; [done|].
    right. rewrite (Eiv Hi), (Emv Hm). done.
Qed.

Lemma run_zop_inv o s : valid_zop o → zinv s → wp ub (run_zop o) (λ _ s', zinv s') s.
Proof.
  intros Hv Hinv. pose proof Hinv as (d & Ed & Em & Hd).
  destruct o as [|cmd u|a b c| | |]; cbn [run_zop].
  - apply wp_bind. unfold portal_open. apply wp_bind. eapply wp_data; [done|]. by wp_steps.
  - apply wp_bind. eapply (wp_mono _ _ (λ _ s', zinv s')); [|intros; by wp_steps].
    unfold portal_unlocked_ioctl.
    repeat case_bool_decide; try by wp_steps.
    + unfold ioctl_set_rate. destruct (u_clk u) as [r|]; [|by wp_steps].
      apply wp_bind, wp_zcall. intros k. case_bool_decide; [by wp_steps|].
      apply wp_bind, wp_zcall. intros k'. apply wp_bind, wp_zcall. intros k''.
      case_bool_decide; simpl; [|by wp_steps]. destruct (u_out_ok u); by wp_steps.
    + by apply enable_inv.
    + unfold ioctl_send. apply wp_bind. eapply wp_data; [done|].
      destruct (u_fd u) as [f|]; [|by wp_steps]. apply wp_bind. eapply wp_mono; [apply Hsend|].
      intros r s' (E1 & E2 & E3). apply wp_ret. exists d. rewrite E1, E2, E3. done.
    + unfold ioctl_flush. destruct Hv as [sgl ->]; [done|]. by wp_steps.
  - apply wp_bind. unfold zportal_mmap.
    case_bool_decide; [by wp_steps|]. apply wp_bind. eapply wp_data; [done|]. apply wp_bind, wp_zcall. intros k. by wp_steps.
  - apply wp_bind. unfold portal_poll. apply wp_bind. eapply wp_data; [done|].
    apply wp_bind. case_bool_decide; [by wp_steps|]. apply wp_zreadl; [by left|]. intros v k _. by wp_steps.
  - apply wp_bind. unfold portal_release. apply wp_bind. eapply wp_data; [done|].
    apply wp_bind. case_bool_decide as E0; unfold set_data; wp_steps.
    + eexists. split_and!; [done|done|]. destruct Hd as [[? ?]|[? _]]; [by left|congruence].
    + destruct Hd as [[? _]|(_ & Eh & Hi & _)]; [congruence|].
      apply wp_zwritel; [done|]. intros k. unfold free_irq. wp_steps.
      eexists. split_and!; [done|done|]. left. split; [done|]. simpl. rewrite Eh.
      by rewrite filter_cons_False by tauto.
  - apply wp_bind, wp_get. case_bool_decide as E0; [by wp_steps|].
    destruct Hd as [[_ Eh]|(_ & _ & Hi & Hm)]; [congruence|].
    apply wp_bind. unfold portal_isr. apply wp_bind. eapply wp_data; [done|].
    apply wp_bind, wp_zreadl; [by left|]. intros v k _. case_bool_decide; [by wp_steps|].
    apply wp_bind, wp_zwritel; [done|]. intros k'. by wp_steps.
Qed.

Lemma run_zops_inv ops s : Forall valid_zop ops → zinv s →
  wp ub (for_each ops run_zop) (λ _ s', zinv s') s.
Proof.
  intros Hv. revert s; induction Hv as [|o ops Ho Hv IH]; intros s Hs; [done|].
  apply wp_bind. eapply wp_mono; [by apply run_zop_inv|]. intros [] s' Hs'. by apply IH.
Qed.
Lemma run_remove ops s : Forall valid_zop ops → zinv s →
  wp ub (for_each ops run_zop;; portal_of_remove) (λ rc s',
    rc = 0 ∧ handlers s' = [] ∧ pd s' = None ∧ misc s' = false) s.
Proof.
  intros Hv Hs. apply wp_bind.
  eapply wp_mono; [by apply run_zops_inv|]. intros [] s' (d' & Ed' & _ & Hd').
  unfold portal_of_remove. apply wp_bind. eapply wp_data; [done|].
  destruct Hd' as [[E Eh']|(E & Eh' & _)]; rewrite E; simpl; unfold free_irq; wp_steps; split_and!; try done.
  simpl. rewrite Eh'. by rewrite filter_cons_False by tauto.
Qed.
End Lifecycle.

(** C31.  Interrupt handler life cycle of the Zynq driver.  After any sequence of file
    operations and interrupts on a probed device (whose cache flushes name open files),
    whatever ioremap, request_irq and the clock framework answer: if the driver has not
    run into a null pointer, its flag agrees with the kernel's handler list (never two
    handlers) and an installed handler has its registers mapped; removing the device
    then leaves no handler, no device node and no device data.  The driver does not
    check ioremap ([enable_unchecked]); if ioremap never fails, and handing over a
    buffer does not run into undefined behaviour, then no interrupt and no operation of
    the sequence runs into a null pointer.  Handing over a buffer is known to leave
    this driver's data alone. *)
Theorem irq_lifecycle {K} `{Zynq K} (send : PortalInternal → Z → Z → M (zy K) Z) fget ops s d :
  (∀ p fd id s, wp True (send p fd id) (λ _ s',
     pd s' = pd s ∧ handlers s' = handlers s ∧ misc s' = misc s) s) →
  Forall (valid_zop fget) ops → pd s = Some d → misc s = true →
  irq_is_registered d = 0 → handlers s = [] →
  let run := for_each ops (run_zop send fget) in
  let post := λ (rc : Z) s', rc = 0 ∧ handlers s' = [] ∧ pd s' = None ∧ misc s' = false in
  wp True run (λ _ s', zinv s') s ∧ wp True (run;; portal_of_remove) post s ∧
  ((∀ phys len k, (ioremap_nocache phys len k).1 ≠ 0) →
   (∀ p fd id s, wp False (send p fd id) (λ _ s',
      pd s' = pd s ∧ handlers s' = handlers s ∧ misc s' = misc s) s) →
   wp False run (λ _ s', zinv s') s ∧ wp False (run;; portal_of_remove) post s).
Proof.
  intros Hsend Hv Ed Em E0 Eh run post. assert (zinv s) as Hs by (exists d; auto).
  split; [by apply (run_zops_inv send fget True); [right|..]|].
  split; [by apply (run_remove send fget True); [right|..]|]. intros Hmap Hsend'.
  split; [by apply (run_zops_inv send fget False); [left|..]|].
  by apply (run_remove send fget False); [left|..].
Qed.

(** When a register cannot be mapped, enabling the interrupt reads through the null
    pointer. *)
Lemma enable_unchecked {K} `{Zynq K} u (s : zy K) d r : u_int u = Some r → pd s = Some d →
  interrupt_virt d = 0 → irq_is_registered d = 0 →
  (∀ phys len k, (ioremap_nocache phys len k).1 = 0) → (ioctl_enable u s).1 = Undefined.
Proof.
  intros Eu Ed Ei E0 Hm. unfold ioctl_enable. rewrite Eu.
  rewrite (bind_Done _ _ _ d s) by (unfold data, mbind, M_bind; simpl; by rewrite Ed).
  assert (Hr : ∀ v p l (s : zy K), ∃ x k, remap v p l s =
    (Done x, mkZy k (pd s) (handlers s) (misc s) (wakes s)) ∧ (v = 0 → x = 0)).
  { intros v p l t. unfold remap. case_bool_decide; [|by exists v, (zk t); destruct t].
    unfold zcall. specialize (Hm p l (zk t)). destruct (ioremap_nocache p l (zk t)) as [x k].
    exists x, k. done. }
  destruct (Hr (interrupt_virt d) (dev_base_phys d + interrupt_offset r) 4 s) as (iv & k1 & E1 & Hiv).
  rewrite (bind_Done _ _ _ _ _ E1). rewrite (Hiv Ei).
  edestruct (Hr (mask_virt d)) as (mv & k2 & E2 & _). rewrite (bind_Done _ _ _ _ _ E2).
  edestruct (Hr (zmap_base d)) as (mb & k3 & E3 & _). rewrite (bind_Done _ _ _ _ _ E3).
  unfold set_data. erewrite (bind_Done _ _ _ tt) by reflexivity.
  rewrite bool_decide_true by done. done.
Qed.

(** ** The interrupt handshake on the portal hardware *)
Section Handshake.
Import IndHw.
(** The kernel around one board: registers are mapped at their bus addresses. *)
#[local] Instance ind_zynq : Zynq IndHw.t := {
  ioremap_nocache phys _ d := (phys, d);
  readl a d := read a d;
  writel v a d := (tt, write a (u32 v) d);
  zrequest_irq _ d := (0, d);
  clk_get_sys _ d := (1, d);
  clk_round_rate _ r d := (r, d);
  clk_set_rate _ _ d := (0, d);
  zio_remap_pfn_range _ _ d := (0, d);
}.
Context (call : string → PortalInternal → Z → M IndHw.t Z).

(** The user process, with its poller and Portal objects, on the same board. *)
Definition user {A} (p : PortalPoller) (o : gmap Z PortalInternal) (m : M (pstate IndHw.t) A) :
    M (zy IndHw.t) A :=
  λ s, let '(r, ps) := m (mkP p o (zk s)) in
       (r, mkZy (pdev ps) (pd s) (handlers s) (misc s) (wakes s)).
Lemma wp_user {A} p o (m : M (pstate IndHw.t) A) (Q : A → zy IndHw.t → Prop) s :
  wp False m (λ a ps, Q a (mkZy (pdev ps) (pd s) (handlers s) (misc s) (wakes s))) (mkP p o (zk s)) →
  wp False (user p o m) Q s.
Proof. unfold wp, user. by destruct (m _) as [[?| | | |] ps]. Qed.

(** [cpp/portal.c:80-80] init_portal_internal: where the process says the interrupt
    registers are.  The registers have moved to the beginning of the window since; the
    old places still lead there as long as the select bits that differ are cut off. *)
Definition intsettings : PortalEnableInterrupt := mkEnable (Z.shiftl 3 14) (Z.shiftl 3 14 + 4).

(** The driver has mapped these registers in the window of portal [p]. *)
Definition mapped_for (p : PortalInternal) (d : portal_data) : Prop :=
  0 < map_base p ∧ map_base p mod PORTAL_BASE_OFFSET = 0 ∧
  interrupt_virt d = map_base p + interrupt_offset intsettings ∧
  mask_virt d = map_base p + mask_offset intsettings.

Lemma mapped_pos p d : mapped_for p d → interrupt_virt d ≠ 0 ∧ mask_virt d ≠ 0.
Proof. intros (? & ? & -> & ->). unfold intsettings. change (Z.shiftl 3 14) with 49152. simpl. lia. Qed.

(** With fewer than 64 channels the old places are those of the control registers. *)
Lemma psel_old w o d : length (chans w d) < 64 → 0 ≤ o < 256 →
  psel w (Z.shiftl 3 14 + o) d = 0 ∧ asel (Z.shiftl 3 14 + o) = o.
Proof.
  intros Hl Ho. unfold psel, asel. change (Z.shiftl 3 14) with 49152. split; [|div_lia].
  replace ((49152 + o) / 256) with 192 by div_lia.
  assert (0 ≤ Z.log2_up (1 + length (chans w d)) ≤ 6) as Hk.
  { split; [apply Z.log2_up_nonneg|]. change 6 with (Z.log2_up 64). apply Z.log2_up_le_mono. lia. }
  set (k := Z.log2_up _) in *.
  assert (k = 0 ∨ k = 1 ∨ k = 2 ∨ k = 3 ∨ k = 4 ∨ k = 5 ∨ k = 6) as E by lia.
  destruct E as [->|[->|[->|[->|[->|[->| ->]]]]]]; done.
Qed.
Lemma old_window p o : map_base p mod PORTAL_BASE_OFFSET = 0 → 0 ≤ o < 256 →
  let a := map_base p + (Z.shiftl 3 14 + o) in
  window a = window (map_base p) ∧ a mod PORTAL_BASE_OFFSET = Z.shiftl 3 14 + o.
Proof.
  unfold window. change PORTAL_BASE_OFFSET with 65536. change (Z.shiftl 3 14) with 49152.
  intros Hm Ho. cbv zeta. split; revert Hm; div_lia.
Qed.

Lemma wp_read_status p d (Q : Z → zy IndHw.t → Prop) s : mapped_for p d →
  length (chans (window (map_base p)) (zk s)) < 64 →
  Q (if bool_decide (queue_status (chans (window (map_base p)) (zk s)) = 0) then 0 else 1) s →
  wp False (zreadl (interrupt_virt d)) Q s.
Proof.
  intros Hd Hl HQ. destruct (mapped_pos p d Hd) as [Hi _]. destruct Hd as (Hp & Hm & Ei & _).
  destruct (old_window p 0 Hm ltac:(lia)) as [Ew Eo]. rewrite Z.add_0_r in *.
  destruct (psel_old _ 0 _ Hl ltac:(lia)) as [Es Ea]. rewrite Z.add_0_r in *.
  unfold zreadl. rewrite bool_decide_false by done.
  rewrite Ei. eapply wp_bind, wp_eq.
  - unfold zcall. cbn [readl ind_zynq interrupt_offset intsettings]. unfold read.
    rewrite Ew, Eo, Es, Ea. simpl. reflexivity.
  - apply wp_ret. destruct s. unfold ctrl_read. simpl in *. by case_bool_decide.
Qed.

Lemma wp_read_mask p d (Q : Z → zy IndHw.t → Prop) s : mapped_for p d →
  length (chans (window (map_base p)) (zk s)) < 64 →
  (∀ v, Q v s) → wp False (zreadl (mask_virt d)) Q s.
Proof.
  intros Hd Hl HQ. destruct (mapped_pos p d Hd) as [_ Hi]. destruct Hd as (Hp & Hm & _ & Ei).
  destruct (old_window p 4 Hm ltac:(lia)) as [Ew Eo]. destruct (psel_old _ 4 _ Hl ltac:(lia)) as [Es Ea].
  unfold zreadl. rewrite bool_decide_false by done.
  rewrite Ei. eapply wp_bind, wp_eq.
  - unfold zcall. cbn [readl ind_zynq mask_offset intsettings]. unfold read.
    rewrite Ew, Eo, Es, Ea. simpl. reflexivity.
  - apply wp_ret. destruct s. apply HQ.
Qed.
Lemma wp_isr p d (Q : Z → zy IndHw.t → Prop) s : mapped_for p d → pd s = Some d →
  length (chans (window (map_base p)) (zk s)) < 64 →
  (let w := window (map_base p) in
   if bool_decide (queue_status (chans w (zk s)) = 0) then Q IRQ_NONE s
   else Q IRQ_HANDLED (mkZy (mk (queues (zk s)) (<[w := false]> (enabled (zk s)))) (pd s)
                         (handlers s) (misc s) (S (wakes s)))) →
  wp False portal_isr Q s.
Proof.
  intros Hd Ed Hl HQ. unfold portal_isr. apply wp_bind. eapply wp_data; [done|].
  apply wp_bind. eapply wp_read_status; [done|done|]. simpl in HQ.
  case_bool_decide as E0; simpl; [by wp_steps|]. destruct (mapped_pos p d Hd) as [_ Hmv].
  destruct Hd as (Hp & Hm & _ & Emv). destruct (old_window p 4 Hm ltac:(lia)) as [Ew Eo].
  destruct (psel_old _ 4 _ Hl ltac:(lia)) as [Es Ea].
  unfold zwritel. rewrite bool_decide_false by done.
  rewrite Emv. eapply wp_bind, wp_eq.
  - unfold zcall. cbn [writel ind_zynq mask_offset intsettings]. unfold write.
    rewrite Ew, Eo, Es, Ea. simpl. reflexivity.
  - by wp_steps.
Qed.

Lemma wp_poll p d (Q : Z → zy IndHw.t → Prop) s : mapped_for p d → pd s = Some d →
  length (chans (window (map_base p)) (zk s)) < 64 →
  Q (if bool_decide (queue_status (chans (window (map_base p)) (zk s)) = 0) then 0 else 0x41) s →
  wp False portal_poll Q s.
Proof.
  intros Hd Ed Hl HQ. unfold portal_poll. apply wp_bind. eapply wp_data; [done|].
  destruct (mapped_pos p d Hd) as [Hi _]. rewrite bool_decide_false by done.
  apply wp_bind. eapply wp_read_status; [done|done|]. apply wp_ret. by case_bool_decide.
Qed.

(** The device puts words into the channels of a portal. *)
Definition arrive1 (c : list (list Z)) (x : nat * Z) : list (list Z) :=
  alter (λ q, q ++ [x.2]) x.1 c.
Definition arrive (w : Z) (l : list (nat * Z)) (d : IndHw.t) : IndHw.t :=
  mk (<[w := foldl arrive1 (chans w d) l]> (queues d)) (enabled d).
Definition device (w : Z) (l : list (nat * Z)) : M (zy IndHw.t) () :=
  modify (λ s, mkZy (arrive w l (zk s)) (pd s) (handlers s) (misc s) (wakes s)).
(** The interrupt line of the portal. *)
Definition line (w : Z) (d : IndHw.t) : bool :=
  default false (enabled d !! w) && negb (bool_decide (queue_status (chans w d) = 0)).

Lemma chans_arrive w l d x :
  chans x (arrive w l d) = if bool_decide (x = w) then foldl arrive1 (chans w d) l else chans x d.
Proof.
  unfold chans, arrive. simpl. case_bool_decide as E; [subst; by rewrite lookup_insert_eq|].
  by rewrite lookup_insert_ne by done.
Qed.
Lemma arrive_length l c : length (foldl arrive1 c l) = length c.
Proof. revert c; induction l as [|x l IH]; intros c; [done|]. simpl. rewrite IH. apply length_alter. Qed.
Lemma arrive1_words x c :
  (sum_list_with length (arrive1 c x) ≤ sum_list_with length c + 1)%nat.
Proof.
  destruct x as [i v]. unfold arrive1. simpl. revert i.
  induction c as [|q c IH]; intros [|i]; simpl; [lia|lia|rewrite length_app; simpl; lia|].
  specialize (IH i). unfold alter in IH. lia.
Qed.
Lemma arrive_words l c :
  (sum_list_with length (foldl arrive1 c l) ≤ sum_list_with length c + length l)%nat.
Proof.
  revert c; induction l as [|x l IH]; intros c; [simpl; lia|]. simpl. specialize (IH (arrive1 c x)).
  pose proof (arrive1_words x c). lia.
Qed.
Lemma arrive1_waiting x c : queue_status c ≠ 0 → queue_status (arrive1 c x) ≠ 0.
Proof.
  rewrite !queue_status_zero. intros Hn H. apply Hn. clear Hn. destruct x as [i v].
  unfold arrive1 in H. simpl in H. revert i H.
  induction c as [|q c IH]; intros [|i]; simpl; [done|done| |]; rewrite !Forall_cons.
  - intros [E _]. by destruct q.
  - intros [-> Hc]. split; [done|]. by apply (IH i).
Qed.
Lemma arrive_waiting l c : queue_status c ≠ 0 → queue_status (foldl arrive1 c l) ≠ 0.
Proof. revert c; induction l as [|x l IH]; intros c Hc; [done|]. simpl. by apply IH, arrive1_waiting. Qed.

(** One round: the interrupt, poll, and the dispatch of the events, with words arriving
    in between. *)
Definition round fuel (w : Z) pl o (l1 l2 l3 : list (nat * Z)) :
    M (zy IndHw.t) (Z * option bool * Z * bool * Z * Z) :=
  r1 ← portal_isr; en ← gets (λ s, enabled (zk s) !! w);
  device w l1;; p1 ← portal_poll;
  device w l2;; user pl o (portalExec_event call fuel);;
  device w l3;; p2 ← portal_poll; li ← gets (λ s, line w (zk s));
  r2 ← portal_isr; mret (r1, en, p1, li, p2, r2).

Lemma wp_round fuel a p pl o d s l1 l2 l3 : let w := window (map_base p) in
  handler_takes call → mapped_for p d →
  is_Some (handler p) → portal_wrappers pl = [a] → o !! a = Some p → pd s = Some d →
  (∀ x, (words x (zk s) + length l1 + length l2 ≤ fuel)%nat ∧ length (chans x (zk s)) < 64) →
  queue_status (chans w (zk s)) ≠ 0 →
  wp False (round fuel w pl o l1 l2 l3) (λ r s', ∃ c, queue_status c = 0 ∧
      length c = length (chans w (zk s)) ∧
      let c' := foldl arrive1 c l3 in
      let again := negb (bool_decide (queue_status c' = 0)) in
      r = (IRQ_HANDLED, Some false, 0x41, again, if again then 0x41 else 0,
           if again then IRQ_HANDLED else IRQ_NONE) ∧
      chans w (zk s') = c' ∧ enabled (zk s') !! w = Some (negb again)) s.
Proof.
  intros w Hcall Hmf Hh Epl Eo Ed Hfuel Hq. pose proof Hmf as (_ & Hm & _).
  unfold round. apply wp_bind. eapply wp_isr; [done|done|apply Hfuel|]. cbv zeta.
  rewrite bool_decide_false by done. fold w. set (d1 := mk _ _).
  apply wp_bind, wp_gets. unfold device. apply wp_bind, wp_modify, wp_bind. cbn [zk pd handlers misc wakes].
  set (d2 := arrive w l1 d1).
  assert (C2 : chans w d2 = foldl arrive1 (chans w (zk s)) l1).
  { unfold d2. rewrite chans_arrive, bool_decide_true by done. done. }
  assert (L2 : ∀ x, length (chans x d2) = length (chans x (zk s))).
  { intros x. unfold d2. rewrite chans_arrive. case_bool_decide; [subst; apply arrive_length|done]. }
  eapply wp_poll; [done|done|cbn [zk]; rewrite L2; apply Hfuel|]. cbn [zk]. fold w.
  rewrite C2, bool_decide_false by (by apply arrive_waiting).
  apply wp_bind, wp_modify. cbn [zk pd handlers misc wakes]. set (d3 := arrive w l2 d2).
  assert (F3 : ∀ x, (words x d3 ≤ fuel)%nat ∧ length (chans x d3) < 2 ^ 31).
  { intros x. destruct (Hfuel x) as [Hw Hl]. unfold words, d3 in *. rewrite chans_arrive.
    case_bool_decide as Ex; [|rewrite L2; unfold d2; rewrite chans_arrive, bool_decide_false by done;
      change (chans x d1) with (chans x (zk s)); lia].
    subst x. pose proof (arrive_words l2 (chans w d2)) as W2. rewrite arrive_length, L2. rewrite C2 in *.
    pose proof (arrive_words l1 (chans w (zk s))) as W1. lia. }
  apply wp_bind, wp_user. cbn [zk].
  unfold portalExec_event. apply wp_bind, wp_gets. cbn [pol]. rewrite Epl. cbn [for_each].
  apply wp_bind, wp_bind, wp_bind. unfold deref. apply wp_bind, wp_gets. cbn [objects]. rewrite Eo. apply wp_ret.
  eapply wp_mono; [apply (wp_serve_one call fuel p a [] d3); try done|].
  { split_and!; intros x; [right; split; [apply not_elem_of_nil|done]| |done].
    by rewrite bool_decide_false by apply not_elem_of_nil. }
  intros [] ps (_ & _ & Hs1 & Hs2 & Hs3). apply wp_ret, wp_ret.
  assert (queue_status (chans w (pdev ps)) = 0) as Hz.
  { destruct (Hs1 w) as [[_ ?]|[Hn _]]; [done|]. destruct Hn. by apply list_elem_of_singleton. }
  assert (enabled (pdev ps) !! w = Some true) as Hen.
  { rewrite Hs2, bool_decide_true; [done|]. by apply list_elem_of_singleton. }
  assert (length (chans w (pdev ps)) = length (chans w (zk s))) as Hlen.
  { rewrite Hs3. unfold d3. rewrite chans_arrive, bool_decide_true, arrive_length by done. apply L2. }
  apply wp_bind, wp_modify, wp_bind. cbn [zk pd handlers misc wakes]. set (d4 := arrive w l3 (pdev ps)).
  assert (C4 : chans w d4 = foldl arrive1 (chans w (pdev ps)) l3).
  { unfold d4. by rewrite chans_arrive, bool_decide_true. }
  assert (L4 : length (chans w d4) < 64) by (rewrite C4, arrive_length, Hlen; apply Hfuel).
  eapply wp_poll; [done|done|exact L4|]. apply wp_bind, wp_gets, wp_bind. cbn [zk]. fold w.
  eapply wp_isr; [done|done|exact L4|]. cbv zeta. cbn [zk]. fold w. unfold line.
  change (enabled d4) with (enabled (pdev ps)). rewrite Hen, C4. cbn [default from_option].
  case_bool_decide as E4; apply wp_ret; exists (chans w (pdev ps)); simpl; (split; [done|]; split; [done|]).
  - rewrite E4, lookup_insert_eq. by split_and!.
  - rewrite !(bool_decide_false (queue_status _ = 0)), !lookup_insert_eq by done. by split_and!.
Qed.

(** C24.  The interrupt handshake leaves no message behind.  After the process has told
    the driver where the interrupt registers are (portal.c gives their old places,
    which for a portal with fewer than 64 channels the bus leads to the registers), and
    when words wait: the interrupt is handled, which switches it off; poll reports the
    device readable; one round of event dispatch, with handlers that take what they are
    called for, empties all channels, those filled after the interrupt included, and
    switches the interrupt on again.  If words arrive after the round, the interrupt
    line is up, poll reports the device readable and the interrupt is handled again; if
    none do, the line is down, poll reports nothing and an interrupt is not this
    device's.  Words arrive between the steps of driver and process, not during the
    round itself. *)
Theorem interrupt_handshake fuel a p pl o d u s l1 l2 l3 : let w := window (map_base p) in
  handler_takes call → 0 < map_base p → map_base p mod PORTAL_BASE_OFFSET = 0 →
  is_Some (handler p) → portal_wrappers pl = [a] → o !! a = Some p →
  pd s = Some d → dev_base_phys d = map_base p →
  interrupt_virt d = 0 → mask_virt d = 0 → irq_is_registered d = 0 → u_int u = Some intsettings →
  (∀ x, (words x (zk s) + length l1 + length l2 ≤ fuel)%nat ∧ length (chans x (zk s)) < 64) →
  queue_status (chans w (zk s)) ≠ 0 →
  wp False (ioctl_enable u;; round fuel w pl o l1 l2 l3) (λ r s', ∃ c, queue_status c = 0 ∧
      length c = length (chans w (zk s)) ∧
      let c' := foldl arrive1 c l3 in
      let again := negb (bool_decide (queue_status c' = 0)) in
      r = (IRQ_HANDLED, Some false, 0x41, again, if again then 0x41 else 0,
           if again then IRQ_HANDLED else IRQ_NONE) ∧
      chans w (zk s') = c' ∧ enabled (zk s') !! w = Some (negb again)) s.
Proof.
  intros w Hcall Hp Hm Hh Epl Eo Ed Eb Ei Emv E0 Eu Hfuel Hq. apply wp_bind.
  unfold ioctl_enable. rewrite Eu. apply wp_bind. eapply wp_data; [exact Ed|].
  set (iv := map_base p + interrupt_offset intsettings). set (mv := map_base p + mask_offset intsettings).
  unfold remap. rewrite Ei, Emv, Eb, E0. rewrite !(bool_decide_true (0 = 0)) by done.
  eapply wp_bind, wp_eq; [reflexivity|]. eapply wp_bind, wp_eq; [reflexivity|].
  cbn [zk pd handlers misc wakes]. fold iv mv. apply wp_bind.
  set (mb := if bool_decide (zmap_base d = 0) then map_base p else zmap_base d).
  eapply (wp_eq _ _ _ _ mb s).
  { unfold mb. case_bool_decide; [|by destruct s]. unfold zcall. by destruct s. }
  unfold set_data. apply wp_bind, wp_modify. cbn [zk pd handlers misc wakes].
  set (d1 := mkPd (map_base p) iv mv mb (portal_irq d) 0).
  set (d2 := mkPd (map_base p) iv mv mb (portal_irq d) 1).
  assert (Hmf1 : mapped_for p d1) by (by split_and!).
  assert (Hmf2 : mapped_for p d2) by (by split_and!).
  apply wp_bind. eapply (wp_read_status p d1); [done|apply Hfuel|].
  apply wp_bind. eapply (wp_read_mask p d1); [done|apply Hfuel|]. intros _.
  eapply wp_bind, wp_eq; [reflexivity|]. rewrite (bool_decide_true (_ = 0)) by done.
  apply wp_bind, wp_modify, wp_ret. cbn [zk pd handlers misc wakes].
  set (s' := mkZy (zk s) (Some d2) (portal_irq d :: handlers s) (misc s) (wakes s)).
  exact (wp_round fuel a p pl o d2 s' l1 l2 l3 Hcall Hmf2 Hh Epl Eo eq_refl Hfuel Hq).
Qed.
End Handshake.

(** *** Concrete devices *)
Section Demo.
Import IndHw.
#[local] Existing Instance ind_zynq.

Definition demo_pd (reg : Z) : portal_data :=
  mkPd 0x10000 (if bool_decide (reg = 0) then 0 else 0x1c000) (if bool_decide (reg = 0) then 0 else 0x1c004)
    0 61 reg.
Definition demo_board_zy (reg : Z) : zy IndHw.t :=
  mkZy (mk {[1 := [[10; 11]; []; [12]]]} {[1 := true]}) (Some (demo_pd reg))
    (if bool_decide (reg = 0) then [] else [61]) true 0.

Lemma demo_zy_chans x :
  (words x (zk (demo_board_zy 0)) + 1 + 2 ≤ 10)%nat ∧ length (chans x (zk (demo_board_zy 0))) < 64.
Proof.
  destruct (decide (x = 1)) as [->|]; [by split; [apply Nat.leb_le|]|].
  assert (queues (zk (demo_board_zy 0)) !! x = None) as E by (simpl; by rewrite lookup_singleton_ne by done).
  unfold words, chans. rewrite E. simpl. split; [lia|done].
Qed.

(** Words arrive after the interrupt, after poll and after the round. *)
Lemma interrupt_handshake_witness :
  wp False (ioctl_enable (mkUarg None (Some intsettings) None true 0);;
            round take_one 10 1 (mkPoller [100] [mkPollfd 5 1 0] 1 0 0) {[100 := demo_pint 1 5]}
              [(1%nat, 20)] [(0%nat, 21); (2%nat, 22)] [(1%nat, 23)])
    (λ r s', r = (IRQ_HANDLED, Some false, 0x41, true, 0x41, IRQ_HANDLED) ∧
       enabled (zk s') !! 1 = Some false) (demo_board_zy 0).
Proof.
  eapply wp_mono; [apply (interrupt_handshake take_one 10 100 (demo_pint 1 5) _ _ (demo_pd 0));
    [apply take_one_takes|done|done|by eexists|done|done|done|done|done|done|done|done|apply demo_zy_chans|done]|].
  intros r s' (c & Hc & Hl & Hr). cbv zeta in Hr.
  apply queue_status_zero in Hc. destruct c as [|? [|? [|? []]]]; try done.
  repeat (apply Forall_cons in Hc as [-> Hc]). destruct Hr as (-> & _ & Hen). by split.
Defined.

(** A portal with 64 channels: the register the interrupt handler reads is the data of
    the last channel, and reading it takes a word from there. *)
Example wide_portal_pops :
  let d := mk {[1 := replicate 63 [] ++ [[7]]]} ∅ in
  read (0x10000 + interrupt_offset intsettings) d = (7, mk {[1 := replicate 64 []]} ∅).
Proof. vm_compute. done. Qed.

(** Closing the file is meant to switch the interrupt off, but writes the status
    register instead of the mask: the interrupt stays enabled with no handler. *)
Example release_leaves_enabled :
  let s := snd (portal_release (demo_board_zy 1)) in
  handlers s = [] ∧ enabled (zk s) !! 1 = Some true.
Proof. vm_compute. done. Qed.
End Demo.

(** A kernel without the interrupt line: every request fails. *)
#[local] Instance unit_zynq : Zynq () := {
  ioremap_nocache phys _ k := (Z.abs phys + 1, k);
  readl _ k := (1, k);
  writel _ _ k := (tt, k);
  zrequest_irq irq k := (if bool_decide (irq = 0) then 0 else - EBUSY, k);
  clk_get_sys _ k := (0, k);
  clk_round_rate _ r k := (r, k);
  clk_set_rate _ _ k := (0, k);
  zio_remap_pfn_range _ _ k := (0, k);
}.
Definition demo_zops : list zop :=
  let enable := ZIoctl PORTAL_ENABLE_INTERRUPT (mkUarg None (Some (mkEnable 0 4)) None true 0) in
  [ZOpen; enable; ZPoll; ZIrq; enable; ZIrq; ZRelease; enable].
Definition demo_unit_zy : zy () := mkZy tt (Some (mkPd 0x10000 0 0 0 61 0)) [] true 0.

Lemma irq_lifecycle_witness :
  let run := for_each demo_zops (run_zop (λ _ _ _, mret 0) (λ _, None)) in
  wp False run (λ _ s', zinv s') demo_unit_zy ∧
  wp False (run;; portal_of_remove) (λ rc s',
    rc = 0 ∧ handlers s' = [] ∧ pd s' = None ∧ misc s' = false) demo_unit_zy.
Proof.
  destruct (irq_lifecycle (λ _ _ _, mret 0) (λ _, None) demo_zops demo_unit_zy (mkPd 0x10000 0 0 0 61 0))
    as (_ & _ & Hok); [done|repeat constructor; by intros|done|done|done|done|].
  apply Hok; [intros; simpl; lia|done].
Defined.

(** When request_irq fails the interrupt number is forgotten, and a second attempt
    asks for line 0. *)
Example retry_requests_irq0 :
  handlers (snd (for_each (take 5 demo_zops) (run_zop (λ _ _ _, mret 0) (λ _, None)) demo_unit_zy)) = [0].
Proof. vm_compute. reflexivity. Qed.
