(* ===== verification/MorrisPratt.v ===== *)
(** * Morris-Pratt string matching (src/lib/cpp/mp.h)

    The table constructions [compute_borders] and [compute_MP_next] and the
    matcher [MP], on character arrays and integer arrays with checked bounds:
    reading outside a character array, reading an element of an integer array
    that was never written, and writing outside the array's capacity are
    undefined.  Indices stay between -1 and the needle's length plus one, so C's
    int does not overflow there; the number of matches may, which is undefined.  The
    number of passes is not negative.  The published algorithm quoted in mp.h reports
    overlapping occurrences as well; the code starts afresh behind a match, so the
    reference is the naive left-to-right search for occurrences that do not overlap. *)
From stdpp Require Import base gmap numbers list.
From S2P Require Import Prelude.
Local Open Scope Z_scope.

Section Code.
Abbreviation T := (M (gmap Z Z)).

(** x[i] of a character array, a[i] and a[i] = v of an int array of [cap]
    elements *)
Definition char_at (x : list Z) (i : Z) : T Z :=
  if bool_decide (i < 0) then undefined
  else match x !! Z.to_nat i with Some c => mret c | None => undefined end.
Definition elem (i : Z) : T Z :=
  a ← get; match a !! i with Some v => mret v | None => undefined end.
Definition set_elem (cap i v : Z) : T () :=
  if bool_decide (0 ≤ i < cap) then modify (<[i := v]>) else undefined.

(** [lib/cpp/mp.h:68-69] compute_borders: the inner loop *)
Fixpoint borders_while (fuel : nat) (x : list Z) (i j : Z) : T Z :=
  if bool_decide (0 ≤ j) then
    a ← char_at x i; b ← char_at x (j + 1);
    if bool_decide (a ≠ b) then
      match fuel with
      | O => no_fuel
      | S fuel => j ← elem j; borders_while fuel x i j
      end
    else mret j
  else mret j.

(** [lib/cpp/mp.h:66-71] compute_borders: the outer loop, [n] iterations from
    [i] *)
Fixpoint borders_for (cap : Z) (x : list Z) (i : Z) (n : nat) : T () :=
  match n with
  | O => mret tt
  | S n =>
      j ← elem (i - 1);
      j ← borders_while (Z.to_nat (i + 1)) x i j;
      set_elem cap i (j + 1);;
      borders_for cap x (i + 1) n
  end.

(** [lib/cpp/mp.h:63-72] compute_borders *)
Definition compute_borders (cap : Z) (x : list Z) (m : Z) : T () :=
  set_elem cap 0 (-1);; borders_for cap x 1 (Z.to_nat m).

(** [lib/cpp/mp.h:79-80] compute_MP_next: the inner loop *)
Fixpoint next_while (fuel : nat) (x : list Z) (i j : Z) : T Z :=
  if bool_decide (0 < j) then
    a ← char_at x i; b ← char_at x j;
    if bool_decide (a ≠ b) then
      match fuel with
      | O => no_fuel
      | S fuel => j ← elem j; next_while fuel x i j
      end
    else mret j
  else mret j.

(** [lib/cpp/mp.h:78-83] compute_MP_next: the outer loop *)
Fixpoint next_for (cap : Z) (x : list Z) (i j : Z) (n : nat) : T () :=
  match n with
  | O => mret tt
  | S n =>
      j ← next_while (Z.to_nat i) x i j;
      set_elem cap (i + 1) (j + 1);;
      next_for cap x (i + 1) (j + 1) n
  end.

(** [lib/cpp/mp.h:74-84] compute_MP_next *)
Definition compute_MP_next (cap : Z) (x : list Z) (m : Z) : T () :=
  set_elem cap 1 0;; next_for cap x 1 0 (Z.to_nat m).

(** [lib/cpp/mp.h:93-96] MP: the inner loop *)
Fixpoint mp_while (fuel : nat) (x t : list Z) (m i j : Z) : T Z :=
  go ← (if bool_decide (i = m + 1) then mret true
        else if bool_decide (0 < i) then
          a ← char_at x (i - 1); b ← char_at t (j - 1); mret (bool_decide (a ≠ b))
        else mret false);
  if go : bool then
    match fuel with
    | O => no_fuel
    | S fuel => i ← elem i; mp_while fuel x t m i j
    end
  else mret i.

(** [lib/cpp/mp.h:92-105] MP: one pass from [i] and [j]; the positions printed *)
Fixpoint mp_pass (fuel : nat) (x t : list Z) (m n i j : Z) : T (list Z) :=
  if bool_decide (j ≤ n) then
    match fuel with
    | O => no_fuel
    | S fuel =>
        i ← mp_while (Z.to_nat (m + 2)) x t m i j;
        let i := i + 1 in
        let j := j + 1 in
        if bool_decide (i = m + 1) then
          ps ← mp_pass fuel x t m n 1 j; mret ((j - i) :: ps)
        else mp_pass fuel x t m n i j
    end
  else mret [].

(** [lib/cpp/mp.h:86-108] MP: the positions printed, all passes; *match_cnt grows
    by their number, which is undefined if an int cannot hold it *)
Fixpoint MP (x t : list Z) (m n : Z) (iter_cnt : nat) (match_cnt : Z) : T (list Z * Z) :=
  match iter_cnt with
  | O => mret ([], match_cnt)
  | S iter_cnt =>
      ps ← mp_pass (Z.to_nat n) x t m n 1 1;
      if bool_decide (match_cnt + length ps < 2 ^ 31) then
        '(qs, match_cnt) ← MP x t m n iter_cnt (match_cnt + length ps);
        mret (ps ++ qs, match_cnt)
      else undefined
  end.
End Code.

(** ** Reference *)

(** The occurrences of [x] in [t], left to right without overlap; positions count
    from 0. *)
Definition occurs (x t : list Z) (s : nat) : bool := bool_decide (take (length x) (drop s t) = x).
Fixpoint naive (x t : list Z) (s : nat) (fuel : nat) : list Z :=
  match fuel with
  | O => []
  | S fuel =>
      if bool_decide (s + length x ≤ length t) then
        if occurs x t s then (s : Z) :: naive x t (s + length x) fuel else naive x t (s + 1) fuel
      else []
  end.
Definition occurrences (x t : list Z) : list Z := naive x t 0 (S (length t)).
Lemma length_naive x t s fuel : (length (naive x t s fuel) ≤ fuel)%nat.
Proof.
  revert s; induction fuel as [|fuel IH]; intros s; simpl; [done|].
  repeat case_match; simpl; [apply le_n_S, IH|transitivity fuel; [apply IH|lia]|lia].
Qed.

(** ** Borders

    Strings are seen as functions from positions counted from 1. *)
Section Borders.
Context (Y : Z → Z).

(** [k] is the length of a border of the first [i] characters: a proper prefix
    that is also a suffix; [maxb] is the longest one. *)
Definition brd (i k : Z) : Prop := 0 ≤ k < i ∧ ∀ p, 1 ≤ p ≤ k → Y p = Y (i - k + p).
Definition maxb (i b : Z) : Prop := brd i b ∧ ∀ k, brd i k → k ≤ b.

Lemma brd_inner i k k' : brd i k → brd i k' → k' < k → brd k k'.
Proof.
  intros [Hk H1] [Hk' H2] Hlt. split; [lia|]. intros p Hp.
  rewrite (H1 (k - k' + p)) by lia. rewrite H2 by lia. f_equal. lia.
Qed.
Lemma brd_trans i k k' : brd i k → brd k k' → brd i k'.
Proof.
  intros [Hk H1] [Hk' H2]. split; [lia|]. intros p Hp.
  rewrite H2, H1 by lia. f_equal. lia.
Qed.
Lemma brd_extend i k : 1 ≤ k → brd i k ↔ brd (i - 1) (k - 1) ∧ Y k = Y i.
Proof.
  intros Hk1. split.
  - intros [Hk H1]. split; [split; [lia|]|].
    + intros p Hp. rewrite H1 by lia. f_equal. lia.
    + rewrite H1 by lia. f_equal. lia.
  - intros [[Hk H1] E]. split; [lia|]. intros p Hp. destruct (decide (p = k)) as [->|].
    + rewrite E. f_equal. lia.
    + rewrite H1 by lia. f_equal. lia.
Qed.

(** The state of the search for the longest border of the first [i] characters:
    [j] extends a border of the first [i - 1], or is 0, and no border is longer
    than [j]. *)
Definition cand (i j : Z) : Prop :=
  (j = 0 ∨ 0 < j ∧ brd (i - 1) (j - 1)) ∧ ∀ k, brd i k → k ≤ j.

Lemma cand_first : cand 1 0.
Proof. split; [by left|]. intros k [? _]. lia. Qed.
Lemma cand_init i b : maxb (i - 1) b → cand i (b + 1).
Proof.
  intros [Hb Hmax]. split.
  - right. rewrite Z.add_simpl_r. destruct Hb as [? ?]. split; [lia|done].
  - intros k Hk. destruct (decide (k = 0)) as [->|].
    + destruct Hb as [? _]. lia.
    + pose proof Hk as [? _]. apply brd_extend in Hk as [Hk _]; [|lia]. apply Hmax in Hk. lia.
Qed.
Lemma cand_none i : 1 ≤ i → cand i 0 → maxb i 0.
Proof. intros Hi [_ Hmax]. split; [split; [lia|intros; lia]|done]. Qed.
Lemma cand_hit i j : 0 < j → cand i j → Y i = Y j → maxb i j.
Proof.
  intros Hj [[->|[_ Hb]] Hmax] E; [lia|]. split; [|done]. apply brd_extend; [lia|done].
Qed.
Lemma cand_miss i j j' : 0 < j → cand i j → Y i ≠ Y j →
  (j = 1 → j' = 0) → (2 ≤ j → maxb (j - 1) (j' - 1)) → cand i j' ∧ 0 ≤ j' < j.
Proof.
  intros Hj [[->|[_ Hb]] Hmax] Hne H1 H2; [lia|].
  destruct (decide (j = 1)) as [->|Hj1].
  { rewrite H1 by done. split; [|lia]. split; [by left|]. intros k Hk.
    destruct (decide (k = 0)) as [->|]; [lia|]. pose proof (Hmax k Hk).
    pose proof Hk as [? _]. assert (k = 1) as -> by lia.
    apply brd_extend in Hk as [_ E]; [|lia]. congruence. }
  destruct (H2 ltac:(lia)) as [Hb' Hmax']. pose proof Hb' as [? _]. split; [|lia]. split.
  - right. split; [lia|]. by eapply brd_trans.
  - intros k Hk. pose proof (Hmax k Hk) as Hkj. pose proof Hk as [? _].
    destruct (decide (k = 0)) as [->|]; [lia|].
    apply brd_extend in Hk as [Hk E]; [|lia].
    destruct (decide (k = j)) as [->|]; [congruence|].
    assert (brd (j - 1) (k - 1)) as Hk' by (eapply brd_inner; [exact Hb|done|lia]).
    apply Hmax' in Hk'. lia.
Qed.
End Borders.

(** The tables for a string. *)
Definition border_ok (Y : Z → Z) (n : Z) (a : gmap Z Z) : Prop :=
  a !! 0 = Some (-1) ∧ ∀ i, 1 ≤ i ≤ n → ∃ v, a !! i = Some v ∧ maxb Y i v.
Definition next_ok (Y : Z → Z) (n : Z) (a : gmap Z Z) : Prop :=
  a !! 1 = Some 0 ∧ ∀ i, 2 ≤ i ≤ n → ∃ v, a !! i = Some v ∧ maxb Y (i - 1) (v - 1).

(** A character array as a function of the index. *)
Definition ch (x : list Z) (i : Z) : Z := nth (Z.to_nat i) x 0.

Lemma wp_char_at x i (Q : Z → gmap Z Z → Prop) s :
  0 ≤ i < length x → Q (ch x i) s → wp False (char_at x i) Q s.
Proof.
  intros Hi HQ. unfold char_at. rewrite bool_decide_false by lia.
  destruct (lookup_lt_is_Some_2 x (Z.to_nat i)) as [c E]; [lia|]. rewrite E.
  apply wp_ret. unfold ch in HQ. by rewrite (nth_lookup_Some _ _ _ _ E) in HQ.
Qed.
Lemma wp_elem i v (Q : Z → gmap Z Z → Prop) (s : gmap Z Z) :
  s !! i = Some v → Q v s → wp False (elem i) Q s.
Proof. intros E HQ. unfold elem. wp_steps. rewrite E. by wp_steps. Qed.
Lemma wp_set_elem cap i v (Q : () → gmap Z Z → Prop) s :
  0 ≤ i < cap → Q tt (<[i := v]> s) → wp False (set_elem cap i v) Q s.
Proof. intros Hi HQ. unfold set_elem. rewrite bool_decide_true by done. by apply wp_modify. Qed.

Lemma wp_next_while (fuel : nat) x i j (Q : Z → gmap Z Z → Prop) a :
  0 ≤ j ≤ fuel → j < i → i < length x → next_ok (ch x) i a → cand (ch x) i j →
  (∀ b, maxb (ch x) i b → Q b a) → wp False (next_while fuel x i j) Q a.
Proof.
  revert j; induction fuel as [|fuel IH]; intros j Hj Hji Hi Ha Hc HQ; cbn [next_while].
  - rewrite bool_decide_false by lia. apply wp_ret, HQ. assert (j = 0) as -> by lia.
    apply cand_none; [lia|done].
  - case_bool_decide as Hpos.
    + apply wp_bind, wp_char_at; [lia|]. apply wp_bind, wp_char_at; [lia|].
      case_bool_decide as Hne; [|apply wp_ret, HQ, cand_hit; [lia|done|done]].
      destruct Ha as [H1 H2].
      assert (∃ v, a !! j = Some v ∧ cand (ch x) i v ∧ 0 ≤ v < j) as (v & Ev & Hv & Hlt).
      { destruct (decide (j = 1)) as [->|].
        - exists 0. split; [done|]. apply (cand_miss _ _ 1); try done; lia.
        - destruct (H2 j) as (v & Ev & Hm); [lia|]. exists v. split; [done|].
          apply (cand_miss _ _ j); try done; lia. }
      apply wp_bind. eapply wp_elem; [exact Ev|]. apply IH; try done; lia.
    + apply wp_ret, HQ. assert (j = 0) as -> by lia. apply cand_none; [lia|done].
Qed.

Lemma wp_borders_while (fuel : nat) x i j (Q : Z → gmap Z Z → Prop) a :
  -1 ≤ j → j + 1 ≤ fuel → j + 1 < i → i < length x → border_ok (ch x) (i - 1) a →
  cand (ch x) i (j + 1) →
  (∀ b, maxb (ch x) i (b + 1) → Q b a) → wp False (borders_while fuel x i j) Q a.
Proof.
  revert j; induction fuel as [|fuel IH]; intros j Hj0 Hj Hji Hi Ha Hc HQ; cbn [borders_while].
  - rewrite bool_decide_false by lia. apply wp_ret, HQ. assert (j = -1) as -> by lia.
    apply cand_none; [lia|done].
  - case_bool_decide as Hpos.
    + apply wp_bind, wp_char_at; [lia|]. apply wp_bind, wp_char_at; [lia|].
      case_bool_decide as Hne; [|apply wp_ret, HQ, cand_hit; [lia|done|done]].
      destruct Ha as [H1 H2].
      assert (∃ v, a !! j = Some v ∧ cand (ch x) i (v + 1) ∧ 0 ≤ v + 1 < j + 1) as (v & Ev & Hv & Hlt).
      { destruct (decide (j = 0)) as [->|].
        - exists (-1). split; [done|]. apply (cand_miss _ _ (0 + 1)); try done; lia.
        - destruct (H2 j) as (v & Ev & Hm); [lia|]. exists v. split; [done|].
          apply (cand_miss _ _ (j + 1)); try done; [lia|lia|]. intros _. by rewrite !Z.add_simpl_r. }
      apply wp_bind. eapply wp_elem; [exact Ev|]. apply IH; try done; lia.
    + apply wp_ret, HQ. assert (j = -1) as -> by lia. apply cand_none; [lia|done].
Qed.

Lemma maxb_unique Y i b b' : maxb Y i b → maxb Y i b' → b = b'.
Proof. intros [H1 H2] [H3 H4]. apply H2 in H3. apply H4 in H1. lia. Qed.

Lemma next_ok_insert Y i b a : 1 ≤ i → next_ok Y i a → maxb Y i b →
  next_ok Y (i + 1) (<[i + 1 := b + 1]> a).
Proof.
  intros Hi [H1 H2] Hb. split; [by rewrite lookup_insert_ne by lia|]. intros k Hk.
  destruct (decide (k = i + 1)) as [->|].
  - exists (b + 1). rewrite lookup_insert_eq, !Z.add_simpl_r. done.
  - rewrite lookup_insert_ne by done. apply H2. lia.
Qed.
Lemma border_ok_insert Y i b a : 1 ≤ i → border_ok Y (i - 1) a → maxb Y i b →
  border_ok Y i (<[i := b]> a).
Proof.
  intros Hi [H1 H2] Hb. split; [by rewrite lookup_insert_ne by lia|]. intros k Hk.
  destruct (decide (k = i)) as [->|].
  - exists b. by rewrite lookup_insert_eq.
  - rewrite lookup_insert_ne by done. apply H2. lia.
Qed.

Lemma wp_next_for cap x m (n : nat) i j a :
  1 ≤ i → i + n = m + 1 → m + 1 < cap → m < length x → 0 ≤ j < i →
  next_ok (ch x) i a → cand (ch x) i j →
  wp False (next_for cap x i j n) (λ _ a', next_ok (ch x) (m + 1) a') a.
Proof.
  revert i j a; induction n as [|n IH]; intros i j a Hi Hn Hcap Hx Hj Ha Hc; cbn [next_for].
  - apply wp_ret. by replace (m + 1) with i by lia.
  - apply wp_bind, wp_next_while; [lia|lia|lia|done|done|]. intros b Hb. pose proof Hb as [[? _] _].
    apply wp_bind, wp_set_elem; [lia|].
    apply IH; [lia..|by apply next_ok_insert|]. apply cand_init. by rewrite Z.add_simpl_r.
Qed.

Lemma wp_compute_MP_next cap x m a : 0 ≤ m < length x → m + 1 < cap →
  wp False (compute_MP_next cap x m) (λ _ a', next_ok (ch x) (m + 1) a') a.
Proof.
  intros Hm Hcap. unfold compute_MP_next. apply wp_bind, wp_set_elem; [lia|].
  apply wp_next_for; [lia..| |apply cand_first]. split; [by rewrite lookup_insert_eq|lia].
Qed.

Lemma wp_borders_for cap x m (n : nat) i a :
  1 ≤ i → i + n = m + 1 → m < cap → m < length x → border_ok (ch x) (i - 1) a →
  wp False (borders_for cap x i n) (λ _ a', border_ok (ch x) m a') a.
Proof.
  revert i a; induction n as [|n IH]; intros i a Hi Hn Hcap Hx Ha; cbn [borders_for].
  - apply wp_ret. by replace m with (i - 1) by lia.
  - assert (∃ v, a !! (i - 1) = Some v ∧ cand (ch x) i (v + 1) ∧ -1 ≤ v < i - 1) as (v & Ev & Hv & Hr).
    { destruct Ha as [H1 H2]. destruct (decide (i = 1)) as [->|].
      - exists (-1). split; [done|]. split; [apply cand_first|lia].
      - destruct (H2 (i - 1)) as (v & Ev & Hm); [lia|]. exists v. split; [done|].
        pose proof Hm as [[? _] _]. split; [by apply cand_init|lia]. }
    apply wp_bind. eapply wp_elem; [exact Ev|].
    apply wp_bind, wp_borders_while; [lia|lia|lia|lia|done|done|]. intros b Hb.
    apply wp_bind, wp_set_elem; [lia|].
    apply IH; [lia..|]. rewrite Z.add_simpl_r. by apply border_ok_insert.
Qed.

Lemma wp_compute_borders cap x m a : 0 ≤ m < length x → m < cap →
  wp False (compute_borders cap x m) (λ _ a', border_ok (ch x) m a') a.
Proof.
  intros Hm Hcap. unfold compute_borders. apply wp_bind, wp_set_elem; [lia|].
  apply wp_borders_for; [lia..|]. split; [by rewrite lookup_insert_eq|lia].
Qed.

(** The shift table is the border table moved by one. *)
Lemma tables_agree Y m a b i : next_ok Y (m + 1) a → border_ok Y m b → 2 ≤ i ≤ m + 1 →
  a !! i = Z.succ <$> b !! (i - 1).
Proof.
  intros [_ Ha] [_ Hb] Hi.
  destruct (Ha i Hi) as (v & -> & Hv). destruct (Hb (i - 1) ltac:(lia)) as (w & -> & Hw).
  simpl. f_equal. pose proof (maxb_unique _ _ _ _ Hv Hw). lia.
Qed.

(** Both table constructions return, stay inside their arrays (one element
    more than the needle for the borders, two more for the shift table, and the
    needle with its terminator) and compute, for every prefix of the characters
    from index 1 on, the length of its longest border; the shift table is the
    border table moved by one, as the string-search test asserts. *)
Lemma tables_spec cap capb x m a0 b0 : 0 ≤ m < length x → m + 1 < cap → m < capb →
  ∃ a b, compute_MP_next cap x m a0 = (Done tt, a) ∧ compute_borders capb x m b0 = (Done tt, b) ∧
    next_ok (ch x) (m + 1) a ∧ border_ok (ch x) m b ∧
    ∀ i, 2 ≤ i ≤ m + 1 → a !! i = Z.succ <$> b !! (i - 1).
Proof.
  intros Hm Hcap Hcapb. pose proof (wp_compute_MP_next cap x m a0 Hm Hcap) as Ha.
  pose proof (wp_compute_borders capb x m b0 Hm Hcapb) as Hb. unfold wp in Ha, Hb.
  destruct (compute_MP_next cap x m a0) as [[[]| | | |] a]; try done.
  destruct (compute_borders capb x m b0) as [[[]| | | |] b]; try done.
  exists a, b. split_and!; try done. intros i Hi. by eapply tables_agree.
Qed.

(** ** The matcher *)
Section Matcher.
Context (x t xs ts : list Z).
Let m : Z := length x.
Let n : Z := length t.
(** The arrays hold the needle and the haystack, followed by anything. *)
Let xa : list Z := x ++ xs.
Let ta : list Z := t ++ ts.
(** The characters counted from 1. *)
Let X (p : Z) : Z := ch xa (p - 1).
Let Y (p : Z) : Z := ch ta (p - 1).
Hypothesis needle : (1 ≤ length x)%nat.

(** The needle matches at 0-based position [s]. *)
Lemma occurs_spec s : (s + length x ≤ length t)%nat →
  occurs x t s = true ↔ ∀ p, 1 ≤ p ≤ m → X p = Y (s + p).
Proof.
  intros Hs. unfold occurs. rewrite bool_decide_eq_true. unfold X, Y, m, xa, ta, ch. split.
  - intros E p Hp. rewrite !app_nth1 by lia. rewrite <-E at 1.
    rewrite !nth_lookup, lookup_take_lt, lookup_drop by lia. do 2 f_equal. lia.
  - intros E. apply (nth_ext _ _ 0 0).
    + rewrite length_take, length_drop. lia.
    + intros k Hk. rewrite length_take, length_drop in Hk.
      specialize (E (k + 1)). rewrite !app_nth1 in E by lia.
      rewrite !nth_lookup, lookup_take_lt, lookup_drop by lia. rewrite !nth_lookup in E.
      replace (Z.to_nat (k + 1 - 1)) with k in E by lia.
      replace (Z.to_nat (s + (k + 1) - 1)) with (s + k)%nat in E by lia.
      symmetry. apply E. lia.
Qed.

Lemma naive_fuel s f f' : (length t < s + f)%nat → (length t < s + f')%nat →
  naive x t s f = naive x t s f'.
Proof.
  revert s f'; induction f as [|f IH]; intros s f' Hf Hf'.
  - destruct f'; [done|]. simpl. rewrite bool_decide_false by lia. done.
  - destruct f' as [|f']; simpl.
    + rewrite bool_decide_false by lia. done.
    + case_bool_decide; [|done]. case_match; [f_equal|]; apply IH; lia.
Qed.

(** The occurrences from position [s] on. *)
Definition occ_from (s : nat) : list Z := naive x t s (S (length t)).
Lemma occ_from_none s : (length t < s + length x)%nat → occ_from s = [].
Proof. intros. unfold occ_from. simpl. by rewrite bool_decide_false by lia. Qed.
Lemma occ_from_hit s : (s + length x ≤ length t)%nat → occurs x t s = true →
  occ_from s = (s : Z) :: occ_from (s + length x).
Proof.
  intros Hs E. unfold occ_from at 1. simpl. rewrite bool_decide_true, E by lia.
  f_equal. apply naive_fuel; lia.
Qed.
Lemma occ_from_miss s : occurs x t s = false → occ_from s = occ_from (s + 1).
Proof.
  intros E. unfold occ_from at 1. simpl. case_bool_decide.
  - rewrite E. apply naive_fuel; lia.
  - symmetry. apply occ_from_none. lia.
Qed.
Lemma occ_from_skip s k : (∀ i, (s ≤ i < s + k)%nat → occurs x t i = false) →
  occ_from s = occ_from (s + k).
Proof.
  revert s; induction k as [|k IH]; intros s Hk; [by rewrite Nat.add_0_r|].
  rewrite occ_from_miss by (apply Hk; lia). rewrite (IH (s + 1)%nat) by (intros; apply Hk; lia).
  f_equal. lia.
Qed.
Lemma not_occurs (s : nat) (p : Z) : 1 ≤ p ≤ m → X p ≠ Y (s + p) → occurs x t s = false.
Proof.
  intros Hp Hne. apply not_true_is_false. intros E. pose proof E as E'.
  unfold occurs in E'. apply bool_decide_eq_true in E'. apply (f_equal length) in E'.
  rewrite length_take, length_drop in E'. apply Hne, occurs_spec; [lia|done|done].
Qed.

(** The first [i - 1] characters of the needle stand before position [j]. *)
Definition matched (i j : Z) : Prop := ∀ p, 1 ≤ p < i → X p = Y (j - i + p).

(** Shifting by the longest border keeps the match and skips no occurrence. *)
Lemma shift_skips i v j : 2 ≤ i ≤ m → i ≤ j → matched i j → X i ≠ Y j →
  maxb X (i - 1) (v - 1) →
  matched v j ∧ occ_from (Z.to_nat (j - i)) = occ_from (Z.to_nat (j - v)) ∧ 1 ≤ v < i.
Proof.
  intros Hi Hij Hm Hne [[Hv Hb] Hmax]. split_and!; [|..|lia|lia].
  - intros p Hp. rewrite Hb by lia. rewrite Hm by lia. f_equal. lia.
  - replace (Z.to_nat (j - v)) with (Z.to_nat (j - i) + Z.to_nat (i - v))%nat by lia.
    apply occ_from_skip. intros s Hs. destruct (decide (s = Z.to_nat (j - i))) as [->|].
    { apply (not_occurs _ i); [lia|]. intros E. apply Hne. rewrite E. f_equal. lia. }
    apply not_true_is_false. intros E. pose proof E as E'.
    unfold occurs in E'. apply bool_decide_eq_true, (f_equal length) in E'.
    rewrite length_take, length_drop in E'. rewrite occurs_spec in E by lia.
    assert (brd X (i - 1) (j - s - 1)) as Hbr; [|apply Hmax in Hbr; lia].
    split; [lia|]. intros p Hp. rewrite E, Hm by lia. f_equal. lia.
Qed.

Lemma wp_mp_while (fuel : nat) i j (Q : Z → gmap Z Z → Prop) a :
  0 ≤ i ≤ fuel → i ≤ m → i ≤ j → 1 ≤ j ≤ n → next_ok X m a → matched i j →
  (∀ i', 0 ≤ i' ≤ i → matched i' j → occ_from (Z.to_nat (j - i)) = occ_from (Z.to_nat (j - i')) →
     (0 < i' → X i' = Y j) → Q i' a) →
  wp False (mp_while fuel xa ta m i j) Q a.
Proof.
  revert i; induction fuel as [|fuel IH]; intros i Hi Him Hij Hj Ha Hm HQ; cbn [mp_while];
    rewrite (bool_decide_false (i = m + 1)) by lia.
  { rewrite (bool_decide_false (0 < i)) by lia. wp_steps. apply HQ; try done; lia. }
  case_bool_decide as Hpos.
  2:{ wp_steps. apply HQ; try done; lia. }
  apply wp_bind, wp_bind, wp_char_at; [unfold xa; rewrite length_app; lia|].
  apply wp_bind, wp_char_at; [unfold ta; rewrite length_app; lia|]. apply wp_ret.
  case_bool_decide as Hne; [|apply wp_ret, HQ; try done; lia].
  destruct Ha as [H1 H2]. destruct (decide (i = 1)) as [->|].
  - apply wp_bind. eapply wp_elem; [exact H1|]. apply IH; try done; try lia.
    + intros p Hp. lia.
    + intros i' Hi' Hm' Eo HX. apply HQ; try done; [lia|]. rewrite <-Eo.
      replace (Z.to_nat (j - 0)) with (Z.to_nat (j - 1) + 1)%nat by lia.
      apply occ_from_miss, (not_occurs _ 1); [lia|]. change (X 1 ≠ Y j) in Hne.
      by replace (Z.to_nat (j - 1) + 1) with j by lia.
  - destruct (H2 i ltac:(lia)) as (v & Ev & Hv).
    destruct (shift_skips i v j) as (Hm' & Eo & Hvi); try done; try lia.
    apply wp_bind. eapply wp_elem; [exact Ev|]. apply IH; try done; try lia.
    intros i' Hi' Hm'' Eo' HX. apply HQ; try done; [lia|congruence].
Qed.

Lemma matched_step i j : matched i j → (0 < i → X i = Y j) → matched (i + 1) (j + 1).
Proof.
  intros Hm HX p Hp. destruct (decide (p = i)) as [->|].
  - rewrite HX by lia. f_equal. lia.
  - rewrite Hm by lia. f_equal. lia.
Qed.

Lemma matched_occurs j : m ≤ j ≤ n → matched (m + 1) (j + 1) →
  occurs x t (Z.to_nat (j - m)) = true.
Proof.
  intros Hj Hm. apply occurs_spec; [lia|]. intros p Hp. rewrite Hm by lia. f_equal. lia.
Qed.

Lemma wp_mp_pass (fuel : nat) i j a :
  1 ≤ i ≤ m → i ≤ j → n + 1 ≤ j + fuel → j ≤ n + 1 → next_ok X m a → matched i j →
  wp False (mp_pass fuel xa ta m n i j) (λ ps a', ps = occ_from (Z.to_nat (j - i)) ∧ a' = a) a.
Proof.
  revert i j; induction fuel as [|fuel IH]; intros i j Hi Hij Hf Hj Ha Hm; cbn [mp_pass].
  - rewrite bool_decide_false by lia. apply wp_ret. by rewrite occ_from_none by lia.
  - case_bool_decide as Hjn; [|apply wp_ret; by rewrite occ_from_none by lia].
    apply wp_bind, wp_mp_while; [lia..|done|done|]. intros i' Hi' Hm' Eo HX.
    pose proof (matched_step _ _ Hm' HX) as Hs. case_bool_decide as Ei.
    + apply wp_bind. eapply wp_mono; [apply IH; [lia|lia|lia|lia|done|intros p Hp; lia]|].
      intros ps a' [-> ->]. apply wp_ret. split; [|done]. assert (i' = m) as -> by lia.
      rewrite Eo, (occ_from_hit (Z.to_nat (j - m))); [|lia|by apply matched_occurs; [lia|]].
      f_equal; [lia|]. f_equal. lia.
    + rewrite Eo. replace (j - i') with (j + 1 - (i' + 1)) by lia. apply IH; [lia|lia|lia|lia|done|done].
Qed.

(** All passes, for a property of the list each pass prints. *)
Lemma wp_MP (P : list Z → Prop) (B : Z) (iter : nat) cnt a :
  wp False (mp_pass (Z.to_nat n) xa ta m n 1 1) (λ ps a', P ps ∧ a' = a) a →
  (∀ ps, P ps → length ps ≤ B) → cnt + iter * B < 2 ^ 31 →
  wp False (MP xa ta m n iter cnt) (λ r _, ∃ pss, length pss = iter ∧ Forall P pss ∧
    r = (concat pss, cnt + length (concat pss))) a.
Proof.
  intros Hp HB. revert cnt; induction iter as [|iter IH]; intros cnt Hc; cbn [MP].
  - apply wp_ret. exists []. rewrite Z.add_0_r. by split_and!.
  - apply wp_bind. eapply wp_mono; [exact Hp|]. intros ps a' [HP ->]. specialize (HB ps HP).
    rewrite bool_decide_true by nia.
    apply wp_bind. eapply wp_mono; [apply IH; nia|]. intros r a'' (pss & <- & Hall & ->).
    apply wp_ret. exists (ps :: pss). split_and!; [done|by constructor|].
    simpl. f_equal. rewrite length_app. lia.
Qed.

(** *** The table built from the needle itself

    Its entries are the borders of the needle without its first character, so a
    failed comparison always falls back to the first character. *)
Let X1 (p : Z) : Z := ch xa p.

Lemma wp_mp_fallback (fuel : nat) i j (Q : Z → gmap Z Z → Prop) a :
  1 ≤ i ≤ fuel → i ≤ m → 1 ≤ j ≤ n → next_ok X1 m a → X i ≠ Y j →
  (∀ i', i' = 0 ∧ X 1 ≠ Y j ∨ i' = 1 ∧ X 1 = Y j → Q i' a) →
  wp False (mp_while fuel xa ta m i j) Q a.
Proof.
  revert i; induction fuel as [|fuel IH]; intros i Hi Him Hj Ha Hne HQ; [lia|]. cbn [mp_while].
  rewrite (bool_decide_false (i = m + 1)), (bool_decide_true (0 < i)) by lia.
  apply wp_bind, wp_bind, wp_char_at; [unfold xa; rewrite length_app; lia|].
  apply wp_bind, wp_char_at; [unfold ta; rewrite length_app; lia|]. apply wp_ret.
  rewrite bool_decide_true by done. pose proof Ha as [H1 H2].
  destruct (decide (i = 1)) as [->|].
  { apply wp_bind. eapply wp_elem; [exact H1|]. destruct fuel; cbn [mp_while];
      rewrite (bool_decide_false (0 = m + 1)) by lia; wp_steps; apply HQ; by left. }
  destruct (H2 i ltac:(lia)) as (v & Ev & [[Hv Hb] _]).
  apply wp_bind. eapply wp_elem; [exact Ev|].
  destruct (decide (X v = Y j)) as [E|]; [|apply IH; try done; lia].
  destruct (decide (v = 1)) as [->|].
  - destruct fuel; [lia|]. cbn [mp_while].
    rewrite (bool_decide_false (1 = m + 1)), (bool_decide_true (0 < 1)) by lia.
    apply wp_bind, wp_bind, wp_char_at; [unfold xa; rewrite length_app; lia|].
    apply wp_bind, wp_char_at; [unfold ta; rewrite length_app; lia|]. apply wp_ret.
    rewrite bool_decide_false by tauto. apply wp_ret, HQ. by right.
  - exfalso. apply Hne. rewrite <-E. unfold X. fold (X1 (i - 1)) (X1 (v - 1)).
    rewrite (Hb (v - 1)) by lia. f_equal. lia.
Qed.

(** Equal characters end the inner loop at once. *)
Lemma wp_mp_equal i j (Q : Z → gmap Z Z → Prop) a : 1 ≤ i ≤ m → i ≤ j → j ≤ n → X i = Y j → Q i a →
  wp False (mp_while (Z.to_nat (m + 2)) xa ta m i j) Q a.
Proof.
  intros Hi Hij Hj E HQ. replace (Z.to_nat (m + 2)) with (S (Z.to_nat (m + 1))) by lia. cbn [mp_while].
  rewrite (bool_decide_false (i = m + 1)), (bool_decide_true (0 < i)) by lia.
  apply wp_bind, wp_bind, wp_char_at; [unfold xa; rewrite length_app; lia|].
  apply wp_bind, wp_char_at; [unfold ta; rewrite length_app; lia|]. apply wp_ret.
  rewrite bool_decide_false by tauto. by apply wp_ret.
Qed.

(** Positions that are occurrences, from [lo] on and not overlapping. *)
Fixpoint sound (lo : Z) (ps : list Z) : Prop :=
  match ps with
  | [] => True
  | p :: ps => lo ≤ p ∧ occurs x t (Z.to_nat p) = true ∧ sound (p + length x) ps
  end.

Lemma sound_length lo ps : 0 ≤ lo → sound lo ps → ps = [] ∨ lo + length ps ≤ n.
Proof.
  revert lo; induction ps as [|p ps IH]; intros lo Hlo; [by left|].
  intros (Hp & Ho & Hs). right. destruct (IH (p + length x) ltac:(lia) Hs) as [->|H]; [|simpl; lia].
  assert (p < n); [|simpl; lia]. apply bool_decide_eq_true in Ho.
  apply (f_equal length) in Ho. rewrite length_take, length_drop in Ho. lia.
Qed.
Lemma sound_mono lo lo' ps : lo' ≤ lo → sound lo ps → sound lo' ps.
Proof. destruct ps; simpl; [done|]. intros ? (? & ? & ?). split_and!; try done. lia. Qed.

Lemma wp_mp_pass_sound (fuel : nat) i j a :
  1 ≤ i ≤ m → i ≤ j → n + 1 ≤ j + fuel → next_ok X1 m a → matched i j →
  wp False (mp_pass fuel xa ta m n i j) (λ ps a', sound (j - i) ps ∧ a' = a) a.
Proof.
  revert i j; induction fuel as [|fuel IH]; intros i j Hi Hij Hf Ha Hm; cbn [mp_pass].
  { by rewrite bool_decide_false by lia. }
  case_bool_decide as Hjn; [|done].
  apply wp_bind. eapply (wp_mono _ _ (λ i' a', a' = a ∧ 0 ≤ i' ≤ i ∧ matched i' j ∧ (0 < i' → X i' = Y j))).
  - destruct (decide (X i = Y j)) as [E|Hne].
    + apply wp_mp_equal; [done..|]. split_and!; try done; lia.
    + apply wp_mp_fallback; [lia..|done|done|]. intros i' [[-> _]|[-> E]]; split_and!; try done; try lia;
        intros p Hp; lia.
  - intros i' a' (-> & Hi' & Hm' & HX). pose proof (matched_step _ _ Hm' HX) as Hs.
    case_bool_decide as Ei.
    + apply wp_bind. eapply wp_mono; [apply IH; [lia|lia|lia|done|intros p Hp; lia]|].
      intros ps a'' [Hps ->]. apply wp_ret. assert (i' = m) as -> by lia.
      split; [|done]. simpl. replace (j + 1 - (m + 1)) with (j - m) by lia. split_and!; [lia| |].
      * apply matched_occurs; [lia|done].
      * eapply sound_mono; [|exact Hps]. lia.
    + eapply wp_mono; [apply IH; [lia|lia|lia|done|done]|]. intros ps a'' [Hps ->].
      split; [|done]. eapply sound_mono; [|exact Hps]. lia.
Qed.

(** If the first character of the needle is nowhere else in it, nothing is missed. *)
Lemma fallback_skips i i' j : (∀ p, 2 ≤ p ≤ m → X p ≠ X 1) →
  1 ≤ i ≤ m → i ≤ j → matched i j → X i ≠ Y j → i' = 0 ∧ X 1 ≠ Y j ∨ i' = 1 ∧ X 1 = Y j →
  occ_from (Z.to_nat (j - i)) = occ_from (Z.to_nat (j - i')).
Proof.
  intros Hu Hi Hij Hm Hne Hi'.
  replace (Z.to_nat (j - i')) with (Z.to_nat (j - i) + Z.to_nat (i - i'))%nat by lia.
  apply occ_from_skip. intros s Hs. destruct (decide (s = Z.to_nat (j - i))) as [->|].
  { apply (not_occurs _ i); [lia|]. by replace (Z.to_nat (j - i) + i) with j by lia. }
  apply (not_occurs _ 1); [lia|]. destruct (decide (s + 1 = j)) as [E|].
  - rewrite E. destruct Hi' as [[_ H]|[-> _]]; [done|lia].
  - intros E. apply (Hu (s + 1 - (j - i))); [lia|]. rewrite E, Hm by lia. f_equal. lia.
Qed.
Lemma wp_mp_pass_unique (fuel : nat) i j a : (∀ p, 2 ≤ p ≤ m → X p ≠ X 1) →
  1 ≤ i ≤ m → i ≤ j → n + 1 ≤ j + fuel → j ≤ n + 1 → next_ok X1 m a → matched i j →
  wp False (mp_pass fuel xa ta m n i j) (λ ps a', ps = occ_from (Z.to_nat (j - i)) ∧ a' = a) a.
Proof.
  intros Hu. revert i j; induction fuel as [|fuel IH]; intros i j Hi Hij Hf Hj Ha Hm; cbn [mp_pass].
  { rewrite bool_decide_false by lia. apply wp_ret. by rewrite occ_from_none by lia. }
  case_bool_decide as Hjn; [|apply wp_ret; by rewrite occ_from_none by lia].
  apply wp_bind. eapply (wp_mono _ _ (λ i' a', a' = a ∧ 0 ≤ i' ≤ i ∧ matched i' j ∧
    occ_from (Z.to_nat (j - i)) = occ_from (Z.to_nat (j - i')) ∧ (0 < i' → X i' = Y j))).
  - destruct (decide (X i = Y j)) as [E|Hne]; [apply wp_mp_equal; [done..|]; split_and!; try done; lia|].
    apply wp_mp_fallback; [lia..|done|done|]. intros i' Hi'.
    pose proof (fallback_skips i i' j Hu Hi Hij Hm Hne Hi') as Es.
    destruct Hi' as [[-> _]|[-> E]]; split_and!; try done; try lia; intros p Hp; lia.
  - intros i' a' (-> & Hi' & Hm' & Eo & HX). pose proof (matched_step _ _ Hm' HX) as Hs.
    case_bool_decide as Ei.
    + apply wp_bind. eapply wp_mono; [apply IH; [lia|lia|lia|lia|done|intros p Hp; lia]|].
      intros ps a'' [-> ->]. apply wp_ret. assert (i' = m) as -> by lia. split; [|done].
      rewrite Eo, (occ_from_hit (Z.to_nat (j - m))); [|lia|by apply matched_occurs; [lia|]].
      f_equal; [lia|]. f_equal. lia.
    + rewrite Eo. replace (j - i') with (j + 1 - (i' + 1)) by lia. apply IH; [lia|lia|lia|lia|done|done].
Qed.
End Matcher.


(** Both of two specifications of a run, the second under a condition. *)
Lemma wp_and (P : Prop) (m : M (gmap Z Z) (list Z)) (Q R : list Z → Prop) a :
  wp False m (λ ps a', Q ps ∧ a' = a) a → (P → wp False m (λ ps a', R ps ∧ a' = a) a) →
  wp False m (λ ps a', (Q ps ∧ (P → R ps)) ∧ a' = a) a.
Proof.
  unfold wp. destruct (m a) as [[ps| | | |] a']; try done. intros [HQ ->] HR. split; [|done].
  split; [done|]. intros HP. by apply HR.
Qed.
Lemma brd_ext Y Y' i k : (∀ p, 1 ≤ p → Y p = Y' p) → brd Y i k → brd Y' i k.
Proof. intros E [Hk H]. split; [done|]. intros p Hp. rewrite <-!E by lia. by apply H. Qed.
Lemma next_ok_ext Y Y' n n' a : (∀ p, 1 ≤ p → Y p = Y' p) → n' ≤ n → next_ok Y n a → next_ok Y' n' a.
Proof.
  intros E Hn [H1 H2]. split; [done|]. intros i Hi. destruct (H2 i) as (v & Ev & Hb & Hmax); [lia|].
  exists v. split; [done|]. split; [by eapply brd_ext|]. intros k Hk. apply Hmax.
  eapply brd_ext; [|exact Hk]. intros. symmetry. by apply E.
Qed.

(** The matcher is correct when its shift table is built from the needle stored from
    index 1, the convention of the published algorithm: it returns, never leaves its
    arrays, and reports in every pass exactly the occurrences a naive search without
    overlaps finds, counting them in match_cnt.  No caller builds the table so. *)
Lemma MP_finds c x t xs ts cap (iter : nat) cnt a : (1 ≤ length x)%nat → length x + 1 < cap →
  cnt + iter * S (length t) < 2 ^ 31 →
  wp False (compute_MP_next cap (c :: x ++ xs) (length x);;
            MP (x ++ xs) (t ++ ts) (length x) (length t) iter cnt)
    (λ r _, r = (concat (replicate iter (occurrences x t)),
                 cnt + length (concat (replicate iter (occurrences x t))))) a.
Proof.
  intros Hx Hcap Hc. apply wp_bind. eapply wp_mono;
    [apply wp_compute_MP_next; [simpl; rewrite length_app; lia|done]|].
  intros [] a' Ha.
  eapply wp_mono; [apply (wp_MP x t xs ts Hx (λ ps, ps = occurrences x t) (S (length t)))|]; [| |done|].
  - apply (wp_mp_pass x t xs ts Hx); try lia.
    + eapply next_ok_ext; [|..|exact Ha]; [|lia]. intros p Hp. unfold ch.
      replace (Z.to_nat p) with (S (Z.to_nat (p - 1))) by lia. done.
    + intros p Hp. lia.
  - intros ps ->. pose proof (length_naive x t 0 (S (length t))). unfold occurrences. lia.
  - intros r a'' (pss & Hl & Hall & ->).
    assert (pss = replicate iter (occurrences x t)) as ->; [|done].
    clear -Hl Hall. subst iter. induction Hall; simpl; congruence.
Qed.

(** C30.  The matcher as the program calls it, with the shift table built from the
    needle itself (its first character at index 0), the needle followed by at least its
    terminator and a table of room for its length and two more: it returns without
    leaving its arrays; in every pass the positions it reports are occurrences of the
    needle, in increasing order and without overlap, and match_cnt grows by their
    number, provided that number fits an int.  It may miss occurrences
    ([MP_as_called_misses]); if the needle's first character is nowhere else in it, it
    misses none: every pass reports what the naive search finds. *)
Theorem MP_as_called x t xs ts cap (iter : nat) cnt a :
  (1 ≤ length x)%nat → xs ≠ [] → length x + 1 < cap → cnt + iter * S (length t) < 2 ^ 31 →
  wp False (compute_MP_next cap (x ++ xs) (length x);;
            MP (x ++ xs) (t ++ ts) (length x) (length t) iter cnt)
    (λ r _, ∃ pss, length pss = iter ∧ Forall (sound x t 0) pss ∧
      r = (concat pss, cnt + length (concat pss)) ∧
      ((∀ k, (1 ≤ k < length x)%nat → x !! k ≠ head x) →
       Forall (λ ps, ps = occurrences x t) pss)) a.
Proof.
  intros Hx Hxs Hcap Hc. apply wp_bind. eapply wp_mono; [apply wp_compute_MP_next; [|done]|].
  { rewrite length_app. destruct xs; [done|]. simpl. lia. }
  intros [] a' Ha. eapply (next_ok_ext _ _ _ (length x)) in Ha; [|done|lia].
  eapply wp_mono; [apply (wp_MP x t xs ts Hx (λ ps, sound x t 0 ps ∧
    ((∀ k, (1 ≤ k < length x)%nat → x !! k ≠ head x) → ps = occurrences x t)) (S (length t)))|];
    [| |done|].
  - apply wp_and.
    + apply (wp_mp_pass_sound x t xs ts Hx); try lia; [exact Ha|]. intros p Hp. lia.
    + intros Hu. apply (wp_mp_pass_unique x t xs ts Hx); try lia; [|exact Ha|].
      * intros p Hp E. destruct (head x) as [c|] eqn:Ec; [|destruct x; simpl in *; [lia|done]].
        unfold ch in E. destruct (lookup_lt_is_Some_2 x (Z.to_nat (p - 1))) as [v Hv]; [lia|].
        rewrite (nth_lookup_Some _ _ 0 v), (nth_lookup_Some _ _ 0 c) in E;
          [|by rewrite lookup_app_l; [destruct x|]|by rewrite lookup_app_l by (apply lookup_lt_Some in Hv; lia)].
        apply (Hu (Z.to_nat (p - 1))); [lia|]. by rewrite Hv, E.
      * intros p Hp. lia.
  - intros ps [Hs _]. apply sound_length in Hs as [->|Hs]; simpl; lia.
  - intros r a'' (pss & Hl & Hall & ->). exists pss. split_and!; try done.
    + eapply Forall_impl; [exact Hall|]. by intros ? [? _].
    + intros Hu. eapply Forall_impl; [exact Hall|]. intros ? [_ H]. by apply H.
Qed.

(** *** Concrete strings, with their terminators *)
Lemma MP_as_called_witness :
  wp False (compute_MP_next 6 ([97; 98; 99] ++ [0]) 3;;
            MP ([97; 98; 99] ++ [0]) ([97; 97; 98; 99; 97; 98; 99] ++ [0]) 3 7 2 0)
    (λ r _, r = ([1; 4; 1; 4], 4)) ∅.
Proof.
  eapply wp_mono; [apply (MP_as_called [97; 98; 99] [97; 97; 98; 99; 97; 98; 99] [0] [0] 6 2 0 ∅)|];
    [simpl; lia|done|simpl; lia|simpl; lia|].
  intros r a' (pss & Hl & _ & -> & Hu).
  assert (Hall : Forall (λ ps, ps = occurrences [97; 98; 99] [97; 97; 98; 99; 97; 98; 99]) pss).
  { apply Hu. intros k Hk. destruct k as [|[|[|]]]; simpl in *; (done || lia). }
  destruct pss as [|p [|q []]]; try done. apply Forall_cons in Hall as [-> Hall].
  apply Forall_cons in Hall as [-> _]. vm_compute. done.
Defined.

(** An occurrence that is missed: "aab" in "aaab". *)
Example MP_as_called_misses :
  fst ((compute_MP_next 5 [97; 97; 98; 0] 3;; MP [97; 97; 98; 0] [97; 97; 97; 98; 0] 3 4 1 0) ∅)
    = Done ([], 0) ∧ occurrences [97; 97; 98] [97; 97; 97; 98] = [1].
Proof. vm_compute. done. Qed.
