(* ===== verification/Gralloc.v ===== *)
(** * The graphics memory allocator (src/gralloc)

    Buffer handles, allocation and freeing (gralloc.cpp), mapping into client
    processes (mapper.cpp, gralloc_priv.h, gr.h), the choice of the screen mode,
    and the vertical-sync handshake of [fb_post] with the indication thread as a
    step relation over a mutex and a condition variable.  Sizes are 32-bit, as on
    the target. *)
From stdpp Require Import base gmap numbers list.
From S2P Require Import Prelude.
Local Open Scope Z_scope.

(** [gralloc/gralloc_priv.h:47-69] private_handle_t with the fields of its base
    class native_handle *)
Record private_handle_t := mkHandle {
  h_version : Z; h_numFds : Z; h_numInts : Z;
  h_fd : Z; h_magic : Z; h_flags : Z; h_size : Z; h_offset : Z;
  h_base : Z; h_pid : Z; h_stride : Z; h_segmentNumber : Z;
}.

(** [gralloc/gralloc_priv.h:72-74] sNumInts, sNumFds, sMagic *)
Definition sNumInts : Z := 6.
Definition sNumFds : Z := 1.
Definition sMagic : Z := 0x11052012.

(** version, numFds and numInts *)
Definition sizeof_native_handle : Z := 12.

(** [gralloc/gralloc_priv.h:53-55] PRIV_FLAGS_FRAMEBUFFER *)
Definition PRIV_FLAGS_FRAMEBUFFER : Z := 1.

(** [gralloc/gralloc_priv.h:76-83] private_handle_t::private_handle_t *)
Definition new_handle (fd size flags pid : Z) : private_handle_t :=
  mkHandle sizeof_native_handle sNumFds sNumInts fd sMagic flags size 0 0 pid 0 0.

(** [gralloc/gr.h:39-41] roundUpToPageSize *)
Definition roundUpToPageSize (x : Z) : Z := u32 (Z.ldiff (u32 (x + (4096 - 1))) (4096 - 1)).

(** The system services the allocator uses, with the C results. *)
Class GrOs (D : Type) := {
  portal_alloc : Z → D → Z * D;
  dma_reference : Z → D → Z * D;
  gmmap : Z → Z → D → Z * D;          (* length, descriptor; -1 is MAP_FAILED *)
  gmunmap : Z → Z → D → Z * D;
  gclose : Z → D → Z * D;
  getpid : D → Z * D;
  gerrno : D → Z * D;
}.

(** [gralloc/gralloc.cpp:60-74] gralloc_context_t: the fields the code uses, and
    the process around it: the handles on the heap by address, the next free
    address *)
Record gr (D : Type) := mkGr {
  hdmiDisplay : bool;
  ref_srcAlloc : Z;
  heap : gmap Z private_handle_t;
  next : Z;
  gdev : D;
}.
Arguments mkGr {D} _ _ _ _ _.
Arguments hdmiDisplay {D} _.
Arguments ref_srcAlloc {D} _.
Arguments heap {D} _.
Arguments next {D} _.
Arguments gdev {D} _.

Section Ops.
Context {D : Type} `{GrOs D}.
Abbreviation G := (M (gr D)).

Definition gcall {A} (f : D → A * D) : G A :=
  λ s, let '(a, d) := f (gdev s) in
       (Done a, mkGr (hdmiDisplay s) (ref_srcAlloc s) (heap s) (next s) d).
Definition set_heap (f : gmap Z private_handle_t → gmap Z private_handle_t) : G () :=
  modify (λ s, mkGr (hdmiDisplay s) (ref_srcAlloc s) (f (heap s)) (next s) (gdev s)).
Definition handle_at (a : Z) : G private_handle_t :=
  s ← get; match heap s !! a with Some h => mret h | None => undefined end.
Definition set_base (a b : Z) : G () :=
  set_heap (alter (λ h, mkHandle (h_version h) (h_numFds h) (h_numInts h) (h_fd h) (h_magic h)
    (h_flags h) (h_size h) (h_offset h) b (h_pid h) (h_stride h) (h_segmentNumber h)) a).

(** [gralloc/gralloc_priv.h:88-98] private_handle_t::validate *)
Definition validate (a : Z) : G Z :=
  if bool_decide (a = 0) then mret (- EINVAL)
  else
    h ← handle_at a;
    mret (if bool_decide (h_version h = sizeof_native_handle) && bool_decide (h_numInts h = sNumInts) &&
             bool_decide (h_numFds h = sNumFds) && bool_decide (h_magic h = sMagic)
          then 0 else - EINVAL).

(** [gralloc/mapper.cpp:46-65] gralloc_map: the result and the address; the
    handle's base is an int *)
Definition gralloc_map (a : Z) : G (Z * Z) :=
  h ← handle_at a;
  if bool_decide (Z.land (h_flags h) PRIV_FLAGS_FRAMEBUFFER = 0) then
    m ← gcall (gmmap (u32 (h_size h)) (h_fd h));
    if bool_decide (m = -1) then e ← gcall gerrno; mret (- e, 0)
    else
      set_base a (s32 (m + h_offset h));;
      mret (0, s32 (m + h_offset h))
  else mret (0, h_base h).

(** [gralloc/mapper.cpp:67-81] gralloc_unmap *)
Definition gralloc_unmap (a : Z) : G Z :=
  h ← handle_at a;
  (if bool_decide (Z.land (h_flags h) PRIV_FLAGS_FRAMEBUFFER = 0)
   then gcall (gmunmap (h_base h) (u32 (h_size h)));; mret tt else mret tt);;
  set_base a 0;;
  mret 0.

(** [gralloc/mapper.cpp:89-103] gralloc_register_buffer *)
Definition gralloc_register_buffer (a : Z) : G Z :=
  v ← validate a;
  if bool_decide (v < 0) then mret (- EINVAL)
  else
    h ← handle_at a;
    pid ← gcall getpid;
    if bool_decide (h_pid h = pid) then mret 0
    else r ← gralloc_map a; mret r.1.

(** [gralloc/mapper.cpp:105-119] gralloc_unregister_buffer *)
Definition gralloc_unregister_buffer (a : Z) : G Z :=
  v ← validate a;
  if bool_decide (v < 0) then mret (- EINVAL)
  else
    h ← handle_at a;
    pid ← gcall getpid;
    (if bool_decide (h_pid h = pid) then mret tt
     else if bool_decide (h_base h = 0) then mret tt
     else gralloc_unmap a;; mret tt);;
    mret 0.

(** [gralloc/mapper.cpp:121-126] mapBuffer *)
Definition mapBuffer (a : Z) : G Z := r ← gralloc_map a; mret r.1.

(** [gralloc/mapper.cpp:128-137] terminateBuffer *)
Definition terminateBuffer (a : Z) : G Z :=
  h ← handle_at a;
  (if bool_decide (h_base h = 0) then mret tt else gralloc_unmap a;; mret tt);;
  mret 0.

(** [gralloc/mapper.cpp:139-158] gralloc_lock: the result and the address *)
Definition gralloc_lock (a : Z) : G (Z * option Z) :=
  v ← validate a;
  if bool_decide (v < 0) then mret (- EINVAL, None)
  else h ← handle_at a; mret (0, Some (h_base h)).

(** [gralloc/mapper.cpp:160-169] gralloc_unlock *)
Definition gralloc_unlock (a : Z) : G Z :=
  v ← validate a; mret (if bool_decide (v < 0) then - EINVAL else 0).

(** [gralloc/gralloc.cpp:134-170] gralloc_alloc_buffer: the error and, when it is
    0, the handle *)
Definition gralloc_alloc_buffer (size stride : Z) : G (Z * option Z) :=
  let size := roundUpToPageSize size in
  s ← get;
  fd ← (if hdmiDisplay s then
          fd ← gcall (portal_alloc size);
          r ← gcall (dma_reference fd);
          modify (λ s, mkGr (hdmiDisplay s) (u32 r) (heap s) (next s) (gdev s));;
          mret fd
        else mret (-1));
  err ← (if bool_decide (fd < 0) then e ← gcall gerrno; mret (- e) else mret 0);
  if bool_decide (err = 0) then
    pid ← gcall getpid;
    s ← get;
    let a := next s in
    let h := new_handle fd (s32 size) 0 pid in
    put (mkGr (hdmiDisplay s) (ref_srcAlloc s)
      (<[a := mkHandle (h_version h) (h_numFds h) (h_numInts h) (h_fd h) (h_magic h) (h_flags h)
                (h_size h) (h_offset h) (h_base h) (h_pid h) (s32 stride) 0]> (heap s))
      (a + 1) (gdev s));;
    err ← mapBuffer a;
    mret (err, if bool_decide (err = 0) then Some a else None)
  else mret (err, None).

(** [gralloc/gralloc.cpp:185-200] gralloc_alloc: bytes per pixel of the HAL
    formats RGBA_8888 (1), RGBX_8888 (2), RGB_888 (3), RGB_565 (4), BGRA_8888 (5) *)
Definition format_bpp (format : Z) : option Z :=
  if bool_decide (format = 1) || bool_decide (format = 2) || bool_decide (format = 5) then Some 4
  else if bool_decide (format = 3) then Some 3
  else if bool_decide (format = 4) then Some 2
  else None.

(** [gralloc/gralloc.cpp:201-203] gralloc_alloc: bytes per row, size and stride *)
Definition buffer_geometry (w h bpp : Z) : Z * Z * Z :=
  let bpr := u32 (Z.ldiff (s32 (w * bpp + (32 - 1))) (32 - 1)) in
  (bpr, u32 (bpr * u32 h), bpr / bpp).

(** [gralloc/gralloc.cpp:174-214] gralloc_alloc: the result, the handle and the
    stride; [ptrs] is whether both result pointers are given *)
Definition gralloc_alloc (ptrs : bool) (w h format : Z) : G (Z * option (Z * Z)) :=
  if negb ptrs then mret (- EINVAL, None)
  else match format_bpp format with
  | None => mret (- EINVAL, None)
  | Some bpp =>
      let '(bpr, size, stride) := buffer_geometry w h bpp in
      '(err, a) ← gralloc_alloc_buffer size stride;
      if bool_decide (err < 0) then mret (err, None)
      else mret (0, (λ a, (a, s32 stride)) <$> a)
  end.

(** [gralloc/gralloc.cpp:216-239] gralloc_free; the destructor clears the magic
    number of memory that is then freed *)
Definition gralloc_free (a : Z) : G Z :=
  v ← validate a;
  if bool_decide (v < 0) then mret (- EINVAL)
  else
    h ← handle_at a;
    s ← get;
    (if hdmiDisplay s then gcall (gclose (h_fd h));; mret tt else terminateBuffer a;; mret tt);;
    gcall (gclose (h_fd h));;
    set_heap (delete a);;
    mret 0.

(** [gralloc/gralloc.cpp:256-265] fb_setSwapInterval *)
Definition fb_setSwapInterval (minSwapInterval maxSwapInterval interval : Z) : Z :=
  if bool_decide (interval < minSwapInterval) || bool_decide (maxSwapInterval < interval)
  then - EINVAL else 0.

(** ** Screen modes *)

(** [gralloc/gralloc.cpp:395-401] screen_types: one row *)
Record screen_type := mkScreen { code : Z; hactive : Z; vactive : Z; hblank : Z; vblank : Z }.

(** [gralloc/gralloc.cpp:401-425] screen_types *)
Definition screen_types : list screen_type := [
  mkScreen 1 640 480 160 45; mkScreen 2 720 480 138 45; mkScreen 3 720 480 138 45;
  mkScreen 4 1280 720 370 30; mkScreen 8 1440 240 276 22; mkScreen 9 1440 240 276 22;
  mkScreen 12 2880 240 552 22; mkScreen 13 2880 240 552 22; mkScreen 14 1440 480 276 45;
  mkScreen 15 1440 480 276 45; mkScreen 16 1920 1080 280 45; mkScreen 17 720 576 144 49;
  mkScreen 18 720 576 144 49; mkScreen 19 1280 720 700 30; mkScreen 23 1440 288 288 24;
  mkScreen 24 1440 288 288 24; mkScreen 27 2880 288 576 24; mkScreen 28 2880 288 576 24;
  mkScreen 29 1440 576 288 49; mkScreen 30 1440 576 288 49; mkScreen 31 1920 1080 720 45;
  mkScreen 32 1920 1080 830 45; mkScreen 33 1920 1080 720 45; mkScreen 34 1920 1080 280 45;
  mkScreen 35 2880 480 552 45; mkScreen 36 2880 480 552 45; mkScreen 37 2880 576 576 49;
  mkScreen 38 2880 576 576 49; mkScreen 41 1280 720 700 30; mkScreen 42 720 576 144 49;
  mkScreen 43 720 576 144 49; mkScreen 47 1280 720 370 30; mkScreen 48 720 480 138 45;
  mkScreen 49 720 480 138 45; mkScreen 52 720 576 144 49; mkScreen 53 720 576 144 49;
  mkScreen 56 720 480 138 45; mkScreen 57 720 480 138 45; mkScreen 0 0 0 0 0].

(** [gralloc/gralloc.cpp:437-438] gralloc_device_open: the search in the table *)
Fixpoint find_screen (screen_code : Z) (l : list screen_type) : option screen_type :=
  match l with
  | [] => None
  | t :: l =>
      if negb (bool_decide (code t = 0)) && negb (bool_decide (code t = screen_code))
      then find_screen screen_code l else Some t
  end.

(** The framebuffer device and what is sent to the HDMI hardware. *)
Record fb_device := mkFb {
  width : Z; height : Z; fb_stride : Z;
  deLine : Z * Z * Z; dePixel : Z * Z * Z; clock : Z }.

(** [gralloc/gralloc.cpp:431-462] gralloc_device_open: the mode for a screen code *)
Definition fb_mode (screen_code : Z) : option fb_device :=
  t ← find_screen screen_code screen_types;
  let '(nlines, npixels, lmin, pmin) :=
    if bool_decide (code t = 0) then (480, 720, 45, 138)
    else (vactive t, hactive t, vblank t, hblank t) in
  let vsyncwidth := 0 in
  Some (mkFb npixels nlines (u16 (Z.ldiff (npixels * 4 + 31) 31))
    (lmin - vsyncwidth, lmin + nlines - vsyncwidth, (lmin + lmin + nlines) / 2 - vsyncwidth)
    (pmin, pmin + npixels, pmin + npixels / 2)
    (60 * (pmin + npixels) * (lmin + nlines))).

(** The device names gralloc_device_open distinguishes. *)
Inductive dev_name := Gpu0 | Fb0 | OtherName.

(** [gralloc/gralloc.cpp:325-467] gralloc_device_open: the status and, for the
    framebuffer, its device.  gralloc_open opens "gpu0" through the module. *)
Definition gralloc_device_open (name : dev_name) (screen_code : Z) : G (Z * option fb_device) :=
  let open_gpu : G () :=
    modify (λ s, mkGr true 0 (heap s) (next s) (gdev s)) in
  match name with
  | Gpu0 => open_gpu;; mret (0, None)
  | Fb0 =>
      open_gpu;;
      match fb_mode screen_code with Some fb => mret (0, Some fb) | None => undefined end
  | OtherName => mret (- EINVAL, None)
  end.
End Ops.

(** ** fb_post and the vertical sync *)
Inductive tid := Poster | Handler.
Inductive post_pc := PIdle | PLocked | PCleared | PArmed | PStarted | PCheck | PSleep | PWoken | PUnlock | PDone.
Inductive hand_pc := HIdle | HLock | HLocked | HSet | HSignalled.

(** [gralloc/gralloc.cpp:60-74] the vsync fields of gralloc_context_t, the two
    threads, vertical syncs asked for and indications on their way *)
Record vs := mkVs {
  vsync : bool; vlock : option tid; ppc : post_pc; hpc : hand_pc;
  armed : nat; msgs : nat; frames : nat }.

(** [gralloc/gralloc.cpp:267-305] fb_post and
    GrallocHdmiDisplayIndications::vsync.  [registered] is whether an object of
    that class receives the indications; the flag of a step tells spurious
    wake-ups of pthread_cond_wait from all other steps. *)
Inductive vstep (registered : bool) : bool → vs → vs → Prop :=
  | p_lock v h a m f :    (* pthread_mutex_lock *)
      vstep registered false (mkVs v None PIdle h a m f) (mkVs v (Some Poster) PLocked h a m f)
  | p_clear v l h a m f : (* vsync = 0 *)
      vstep registered false (mkVs v l PLocked h a m f) (mkVs false l PCleared h a m f)
  | p_arm1 v l h a m f :  (* waitForVsync(0) *)
      vstep registered false (mkVs v l PCleared h a m f) (mkVs v l PArmed h (S a) m f)
  | p_start v l h a m f : (* startFrameBuffer *)
      vstep registered false (mkVs v l PArmed h a m f) (mkVs v l PStarted h a m (S f))
  | p_arm2 v l h a m f :  (* waitForVsync(0) *)
      vstep registered false (mkVs v l PStarted h a m f) (mkVs v l PCheck h (S a) m f)
  | p_leave l h a m f :   (* while (!vsync) ends *)
      vstep registered false (mkVs true l PCheck h a m f) (mkVs true l PUnlock h a m f)
  | p_sleep l h a m f :   (* pthread_cond_wait releases the mutex *)
      vstep registered false (mkVs false l PCheck h a m f) (mkVs false None PSleep h a m f)
  | p_spurious v l h a m f :
      vstep registered true (mkVs v l PSleep h a m f) (mkVs v l PWoken h a m f)
  | p_relock v h a m f :  (* pthread_cond_wait returns with the mutex *)
      vstep registered false (mkVs v None PWoken h a m f) (mkVs v (Some Poster) PCheck h a m f)
  | p_unlock v l h a m f :
      vstep registered false (mkVs v l PUnlock h a m f) (mkVs v None PDone h a m f)
  | hw_vsync v l p h a m f : (* the hardware answers a waitForVsync *)
      vstep registered false (mkVs v l p h (S a) m f) (mkVs v l p h a (S m) f)
  | h_take v l p a m f : registered = true →  (* the indication is dispatched *)
      vstep registered false (mkVs v l p HIdle a (S m) f) (mkVs v l p HLock a m f)
  | h_lock v p a m f :
      vstep registered false (mkVs v None p HLock a m f) (mkVs v (Some Handler) p HLocked a m f)
  | h_set v l p a m f :   (* vsync = 1 *)
      vstep registered false (mkVs v l p HLocked a m f) (mkVs true l p HSet a m f)
  | h_signal v l p a m f : (* pthread_cond_signal *)
      vstep registered false (mkVs v l p HSet a m f)
        (mkVs v l (match p with PSleep => PWoken | _ => p end) HSignalled a m f)
  | h_unlock v l p a m f :
      vstep registered false (mkVs v l p HSignalled a m f) (mkVs v None p HIdle a m f).

(** The start of fb_post: syncs that an earlier post has asked for may be outstanding,
    their indications under way, and one of them being handled. *)
Definition post_init (v : bool) (h : hand_pc) (a m f : nat) : vs :=
  mkVs v (match h with HLocked | HSet | HSignalled => Some Handler | _ => None end) PIdle h a m f.
(** A handler that has set the flag has set it; without an object of the indication
    class no handler runs. *)
Definition start_ok (registered v : bool) (h : hand_pc) : Prop :=
  (h = HSet → v = true) ∧ (registered = false → h = HIdle).

Definition vreach (registered : bool) : vs → vs → Prop := rtc (λ s s', ∃ b, vstep registered b s s').

Definition poster_holds (p : post_pc) : bool :=
  match p with PLocked | PCleared | PArmed | PStarted | PCheck | PUnlock => true | _ => false end.
Definition handler_holds (h : hand_pc) : bool :=
  match h with HLocked | HSet | HSignalled => true | _ => false end.
(** Indications that will still set the flag. *)
Definition coming (s : vs) : nat :=
  armed s + msgs s + match hpc s with HLock | HLocked => 1 | _ => 0 end.
(** fb_post has asked for the vertical sync and not yet seen it. *)
Definition asked (p : post_pc) : bool :=
  match p with PArmed | PStarted | PCheck | PSleep | PWoken => true | _ => false end.

(** The mutex belongs to the thread inside its critical section; a flag that is
    still clear will be set; nobody sleeps on a set flag without a signal coming. *)
Record vinv (s : vs) : Prop := {
  v_lock : vlock s = if poster_holds (ppc s) then Some Poster
                     else if handler_holds (hpc s) then Some Handler else None;
  v_excl : ¬ (poster_holds (ppc s) = true ∧ handler_holds (hpc s) = true);
  v_set : hpc s = HSet → vsync s = true;
  v_asked : asked (ppc s) = true → vsync s = true ∨ (0 < coming s)%nat;
  v_sleep : ppc s = PSleep → vsync s = false ∨ hpc s = HSet;
  v_leave : ppc s = PUnlock → vsync s = true;
}.

Lemma vstep_inv b s s' : vstep true b s s' → vinv s → vinv s'.
Proof.
  intros Hs [H1 H2 H3 H4 H5 H6]. unfold coming in *.
  destruct Hs; simpl in *; split; unfold coming; simpl in *;
    repeat match goal with
    | h : hand_pc |- _ => destruct h
    | p : post_pc |- _ => destruct p
    | v : bool |- _ => destruct v
    end; simpl in *; subst; try done; intuition (done || lia || congruence || eauto).
Qed.

Lemma vreach_inv v h a m f s : start_ok true v h → vreach true (post_init v h a m f) s → vinv s.
Proof.
  intros [Hset _] Hr. remember (post_init v h a m f) as s0 eqn:E0.
  assert (vinv s0) as H0.
  { rewrite E0. split; simpl; intros; try done; [by destruct h|by intros [? ?]|by apply Hset]. }
  clear E0.
  induction Hr as [s|s s1 s2 [b Hs] _ IH]; [done|]. by eapply IH, vstep_inv.
Qed.

(** A bound on the steps that are left, spurious wake-ups apart. *)
Definition post_weight (p : post_pc) : nat :=
  match p with
  | PIdle => 28 | PLocked => 27 | PCleared => 26 | PArmed => 15 | PStarted => 14
  | PWoken => 4 | PCheck => 3 | PSleep => 2 | PUnlock => 1 | PDone => 0
  end.
Definition hand_weight (h : hand_pc) : nat :=
  match h with HLock => 8 | HLocked => 7 | HSet => 6 | HSignalled => 1 | HIdle => 0 end.
Definition vmeasure (s : vs) : nat :=
  post_weight (ppc s) + hand_weight (hpc s) + 10 * armed s + 9 * msgs s.

Lemma vstep_decreases r s s' : vstep r false s s' → (vmeasure s' < vmeasure s)%nat.
Proof.
  intros Hs. inversion Hs; unfold vmeasure; simpl; try lia. destruct p; simpl; lia.
Qed.

Lemma vstep_progress s : vinv s → ppc s ≠ PDone → ∃ s', vstep true false s s'.
Proof.
  intros [H1 H2 H3 H4 H5 H6] Hd. destruct s as [v l p h a m f]. unfold coming in *. simpl in *.
  destruct h as [| | | |]; try (eexists; by constructor).
  - destruct m as [|m]; [|eexists; by constructor]. destruct a as [|a]; [|eexists; by constructor].
    destruct p; simpl in *; subst; try (eexists; by constructor); try done.
    + destruct v; eexists; by constructor.
    + destruct (H4 eq_refl) as [->|]; [|lia]. destruct (H5 eq_refl); done.
  - destruct p; simpl in *; subst; try (eexists; by constructor).
    destruct v; eexists; by constructor.
Qed.

(** Without an object of the indication class nothing sets the flag. *)
Definition deaf (s : vs) : Prop := hpc s = HIdle ∧
  vlock s = (if poster_holds (ppc s) then Some Poster else None) ∧
  ppc s ≠ PDone ∧ ppc s ≠ PUnlock ∧ (ppc s ≠ PIdle → ppc s ≠ PLocked → vsync s = false).
Lemma vreach_deaf v a m f s : vreach false (post_init v HIdle a m f) s → deaf s.
Proof.
  intros Hr. remember (post_init v HIdle a m f) as s0 eqn:E0.
  assert (deaf s0) as H0 by (by rewrite E0). clear E0. revert H0.
  induction Hr as [s|s s1 s2 [b Hs] _ IH]; intros (H1 & Hl & H2 & H3 & H4); [done|].
  apply IH. clear IH. destruct Hs; simpl in *; try done; unfold deaf; simpl in *; split_and!; try done;
    intros; try done; try (by apply H4); try (by specialize (H4 ltac:(done) ltac:(done))).
Qed.
Lemma deaf_progress s : deaf s → ppc s ≠ PSleep → ∃ s', vstep false false s s'.
Proof.
  intros (H1 & Hl & H2 & H3 & H4) Hp. destruct s as [v l p h a m f]. simpl in *. subst h l.
  destruct p; try done; try (eexists; by constructor). destruct v; eexists; by constructor.
Qed.

(** C32.  Posting a frame and the vertical sync, in every interleaving of fb_post with the
    hardware, the indication thread and spurious wake-ups, and with syncs of earlier
    posts outstanding or just being handled.  As the code stands no object of the class
    that receives the indications is created ([registered] is false): fb_post never
    returns; it can always go on until it sleeps on the condition, where it stays but
    for spurious wake-ups.  If there were such an object, posting would work: the mutex
    is held by the thread in its critical section only, nobody sleeps on a flag that is
    already set without a signal on its way, fb_post leaves its loop only after a sync,
    and it completes, as until it is done some thread can move.  Either way every move
    other than a spurious wake-up brings the end closer. *)
Theorem fb_post_vsync registered v h a m f s : start_ok registered v h →
  vreach registered (post_init v h a m f) s →
  (registered = false →
     ppc s ≠ PDone ∧ (ppc s ≠ PSleep → ∃ s', vstep registered false s s')) ∧
  (registered = true →
     ¬ (poster_holds (ppc s) = true ∧ handler_holds (hpc s) = true) ∧
     (ppc s = PSleep → vsync s = true → hpc s = HSet) ∧
     (ppc s = PUnlock → vsync s = true) ∧
     (ppc s ≠ PDone → ∃ s', vstep registered false s s')) ∧
  (∀ s', vstep registered false s s' → (vmeasure s' < vmeasure s)%nat).
Proof.
  intros Hok Hr. split_and!.
  - intros ->. rewrite (proj2 Hok) in Hr by done. apply vreach_deaf in Hr.
    split; [apply Hr|by apply deaf_progress].
  - intros ->. pose proof (vreach_inv v h a m f s Hok Hr) as Hi. split_and!.
    + apply Hi.
    + intros Hp Hv. destruct (v_sleep s Hi Hp); [congruence|done].
    + apply Hi.
    + by apply vstep_progress.
  - intros s'. apply vstep_decreases.
Qed.

(** In the second post an indication of the first is under way. *)
Lemma fb_post_vsync_witness :
  let s := mkVs false None PSleep HIdle 1 2 2 in
  (ppc s ≠ PDone) ∧ (∃ s', vstep true false s s').
Proof.
  assert (∀ r, vreach r (post_init true HIdle 0 1 1) (mkVs false None PSleep HIdle 1 2 2)) as Hr.
  { intros r. unfold vreach, post_init.
    eapply rtc_l; [eexists; apply p_lock|]. eapply rtc_l; [eexists; apply p_clear|].
    eapply rtc_l; [eexists; apply p_arm1|]. eapply rtc_l; [eexists; apply p_start|].
    eapply rtc_l; [eexists; apply p_arm2|]. eapply rtc_l; [eexists; apply p_sleep|].
    eapply rtc_l; [eexists; apply hw_vsync|]. apply rtc_refl. }
  split.
  - exact (proj1 (proj1 (fb_post_vsync false true HIdle 0 1 1 _ ltac:(by split) (Hr false)) eq_refl)).
  - destruct (fb_post_vsync true true HIdle 0 1 1 _ ltac:(by split) (Hr true)) as (_ & Hc & _).
    by apply Hc.
Defined.

(** ** Buffers *)
Lemma ldiff_31 x : 0 ≤ x → Z.ldiff x (32 - 1) = x / 32 * 32.
Proof. intros. change (32 - 1) with (2 ^ 5 - 1). rewrite ldiff_ones by lia. change (2 ^ 5) with 32. lia. Qed.
Lemma ldiff_4095 x : 0 ≤ x → Z.ldiff x (4096 - 1) = x / 4096 * 4096.
Proof. intros. change (4096 - 1) with (2 ^ 12 - 1). rewrite ldiff_ones by lia. change (2 ^ 12) with 4096. lia. Qed.

Lemma roundUpToPageSize_spec x : 0 ≤ x → x + 4095 < 2 ^ 32 →
  x ≤ roundUpToPageSize x < x + 4096 ∧ roundUpToPageSize x mod 4096 = 0.
Proof.
  intros H0 H1. unfold roundUpToPageSize. rewrite (u32_small (x + _)) by lia.
  rewrite ldiff_4095 by lia. rewrite u32_small by div_lia. split; [div_lia|]. by rewrite Z.mod_mul.
Qed.

(** Bytes per row, rounded up to 32. *)
Definition row_bytes (w bpp : Z) : Z := (w * bpp + 31) / 32 * 32.

(** No computation of the allocator overflows for a buffer of this shape. *)
Definition shape_ok (w h bpp : Z) : Prop :=
  0 < w ∧ 0 < h ∧ w * bpp + 31 < 2 ^ 31 ∧ row_bytes w bpp * h + 4095 < 2 ^ 31.

Lemma buffer_geometry_spec w h bpp : 0 < bpp → shape_ok w h bpp →
  buffer_geometry w h bpp = (row_bytes w bpp, row_bytes w bpp * h, row_bytes w bpp / bpp).
Proof.
  intros Hb (Hw & Hh & H1 & H2). unfold row_bytes in *. unfold buffer_geometry.
  assert (0 < w * bpp) by nia. rewrite s32_small by lia.
  rewrite !ldiff_31 by lia. change (32 - 1) with 31. assert (0 < (w * bpp + 31) / 32 * 32) by div_lia.
  set (r := (w * bpp + 31) / 32 * 32) in *. clearbody r.
  assert (h ≤ r * h) by nia. rewrite (u32_small h), (u32_small r), u32_small by nia. done.
Qed.

(** Every pixel addressed with the stride lies in the buffer, and rows do not
    overlap. *)
Lemma pixel_in_bounds w h bpp x y : 0 < bpp → shape_ok w h bpp → 0 ≤ x < w → 0 ≤ y < h →
  let stride := row_bytes w bpp / bpp in
  w ≤ stride ∧ 0 ≤ (y * stride + x) * bpp ∧ (y * stride + x) * bpp + bpp ≤ row_bytes w bpp * h.
Proof.
  intros Hb (Hw & Hh & _) Hx Hy stride.
  assert (w * bpp ≤ row_bytes w bpp) by (unfold row_bytes; div_lia).
  assert (w ≤ stride) by (apply Z.div_le_lower_bound; lia).
  assert (stride * bpp ≤ row_bytes w bpp) by (unfold stride; rewrite Z.mul_comm; by apply Z.mul_div_le).
  clearbody stride. assert (0 ≤ y * stride) by nia.
  split_and!; [done|nia|].
  assert (x * bpp + bpp ≤ stride * bpp) by nia.
  transitivity ((y + 1) * (stride * bpp)); [nia|].
  transitivity ((y + 1) * row_bytes w bpp); [nia|]. nia.
Qed.

Section Alloc.
Context {D : Type} `{GrOs D}.
Implicit Types s : gr D.

(** What validate accepts. *)
Definition handle_valid (h : private_handle_t) : Prop :=
  h_version h = sizeof_native_handle ∧ h_numInts h = sNumInts ∧ h_numFds h = sNumFds ∧
  h_magic h = sMagic.

Lemma wp_gcall {A} (f : D → A * D) (Q : A → gr D → Prop) s :
  Q (f (gdev s)).1 (mkGr (hdmiDisplay s) (ref_srcAlloc s) (heap s) (next s) (f (gdev s)).2) →
  wp False (gcall f) Q s.
Proof. intros HQ. unfold wp, gcall. by destruct (f (gdev s)). Qed.
Lemma wp_handle_at a h (Q : private_handle_t → gr D → Prop) s :
  heap s !! a = Some h → Q h s → wp False (handle_at a) Q s.
Proof. intros E HQ. unfold handle_at. wp_steps. rewrite E. by wp_steps. Qed.
Lemma wp_validate a h (Q : Z → gr D → Prop) s : a ≠ 0 → heap s !! a = Some h → handle_valid h →
  Q 0 s → wp False (validate a) Q s.
Proof.
  intros Ha E (E1 & E2 & E3 & E4) HQ. unfold validate. rewrite bool_decide_false by done.
  apply wp_bind. eapply wp_handle_at; [done|]. apply wp_ret.
  by rewrite !bool_decide_true by done.
Qed.

(** The handle with another base address. *)
Definition with_base (b : Z) (h : private_handle_t) : private_handle_t :=
  mkHandle (h_version h) (h_numFds h) (h_numInts h) (h_fd h) (h_magic h)
    (h_flags h) (h_size h) (h_offset h) b (h_pid h) (h_stride h) (h_segmentNumber h).

Lemma wp_gralloc_map a h (Q : Z * Z → gr D → Prop) s : heap s !! a = Some h → h_flags h = 0 →
  (let r := gmmap (u32 (h_size h)) (h_fd h) (gdev s) in
   (r.1 = -1 → Q (- (gerrno r.2).1, 0)
      (mkGr (hdmiDisplay s) (ref_srcAlloc s) (heap s) (next s) (gerrno r.2).2)) ∧
   (r.1 ≠ -1 → let b := s32 (r.1 + h_offset h) in Q (0, b)
      (mkGr (hdmiDisplay s) (ref_srcAlloc s) (<[a := with_base b h]> (heap s)) (next s) r.2))) →
  wp False (gralloc_map a) Q s.
Proof.
  intros E Ef [HF HS]. unfold gralloc_map. apply wp_bind. eapply wp_handle_at; [done|].
  rewrite Ef. simpl. apply wp_bind, wp_gcall. simpl. case_bool_decide as Em.
  - apply wp_bind, wp_gcall. simpl. apply wp_ret. by apply HF.
  - unfold set_base, set_heap. wp_steps. simpl.
    assert (alter (with_base (s32 ((gmmap (u32 (h_size h)) (h_fd h) (gdev s)).1 + h_offset h))) a (heap s)
      = <[a := with_base (s32 ((gmmap (u32 (h_size h)) (h_fd h) (gdev s)).1 + h_offset h)) h]> (heap s))
      as Ea; [|unfold with_base at 1 in Ea; rewrite Ea; by apply HS].
    apply map_eq. intros k. destruct (decide (k = a)) as [->|].
    + by rewrite lookup_alter_eq, lookup_insert_eq, E.
    + by rewrite lookup_alter_ne, lookup_insert_ne.
Qed.

Lemma format_bpp_pos format bpp : format_bpp format = Some bpp → 0 < bpp ≤ 4.
Proof. unfold format_bpp. repeat case_match; intros; simplify_eq; lia. Qed.

(** C38.  Allocating a graphics buffer of a supported format, for any shape whose
    size fits an int: either an error is returned, or a valid handle at a new
    address (no other handle changes) and a stride such that every pixel of the
    picture, addressed as row * stride + column, lies inside the handle's size,
    rows do not overlap, and the size is a whole number of pages. *)
Theorem gralloc_alloc_in_bounds w h format bpp s :
  format_bpp format = Some bpp → shape_ok w h bpp → heap s !! next s = None →
  (∀ d, 0 < (gerrno d).1) →
  wp False (gralloc_alloc true w h format) (λ r s',
    (r.1 < 0 ∧ r.2 = None) ∨
    ∃ a stride hd, r = (0, Some (a, stride)) ∧ heap s !! a = None ∧ heap s' = <[a := hd]> (heap s) ∧
      handle_valid hd ∧ h_stride hd = stride ∧ h_size hd mod 4096 = 0 ∧ w ≤ stride ∧
      ∀ x y, 0 ≤ x < w → 0 ≤ y < h →
        0 ≤ (y * stride + x) * bpp ∧ (y * stride + x) * bpp + bpp ≤ h_size hd) s.
Proof.
  intros Ef Hs Hn Herr. pose proof (format_bpp_pos _ _ Ef) as Hb. unfold gralloc_alloc. cbn [negb].
  rewrite Ef, buffer_geometry_spec by (done || lia).
  pose proof Hs as (Hw & Hh & H1 & H2).
  set (st := row_bytes w bpp / bpp). set (sz := row_bytes w bpp * h) in *.
  assert (0 ≤ row_bytes w bpp < 2 ^ 31) as Hr by (unfold row_bytes; div_lia).
  assert (0 ≤ st < 2 ^ 31) as Hst.
  { split; [apply Z.div_pos; lia|]. apply Z.div_lt_upper_bound; nia. }
  assert (0 ≤ sz) by (unfold sz; nia).
  destruct (roundUpToPageSize_spec sz) as [Hsz Hpg]; [lia|lia|].
  apply wp_bind. unfold gralloc_alloc_buffer. apply wp_bind, wp_get.
  apply wp_bind. eapply (wp_mono _ _ (λ _ s', heap s' = heap s ∧ next s' = next s)).
  { destruct (hdmiDisplay s); [|by wp_steps]. apply wp_bind, wp_gcall, wp_bind, wp_gcall. by wp_steps. }
  intros fd s1 [Eh En]. apply wp_bind. case_bool_decide.
  { apply wp_bind, wp_gcall, wp_ret. pose proof (Herr (gdev s1)).
    rewrite bool_decide_false by lia. apply wp_ret. rewrite bool_decide_true by lia.
    apply wp_ret. left. simpl. split; [lia|done]. }
  apply wp_ret. simpl. apply wp_bind, wp_gcall, wp_bind, wp_get. simpl. apply wp_bind, wp_put.
  apply wp_bind. unfold mapBuffer. apply wp_bind.
  eapply wp_gralloc_map; [simpl; by rewrite lookup_insert_eq|done|]. cbv zeta. split; simpl; intros Em.
  - apply wp_ret. pose proof (Herr (gmmap (u32 (s32 (roundUpToPageSize sz))) fd
      (getpid (gdev s1)).2).2) as He. simpl in He. rewrite bool_decide_false by lia. apply wp_ret.
    rewrite bool_decide_true by lia. apply wp_ret. left. simpl. split; [lia|done].
  - apply wp_ret, wp_ret, wp_ret. right. exists (next s), (s32 st). eexists.
    rewrite insert_insert_eq, Eh, En. rewrite (s32_small st) by lia.
    rewrite (s32_small (roundUpToPageSize sz)) by lia. split_and!; try done; simpl.
    + apply (pixel_in_bounds w h bpp 0 0); lia || done.
    + intros x y Hx Hy. destruct (pixel_in_bounds w h bpp x y) as (_ & ? & Hle); [lia|done..|].
      fold st sz in Hle. lia.
Qed.

(** A client process that receives a buffer handle from another process
    registers, locks and unregisters it: registration maps the whole buffer once,
    lock returns the address of that mapping, and unregistering unmaps exactly
    what was mapped and leaves every handle as it was. *)
Lemma register_roundtrip a h pid s :
  a ≠ 0 → heap s !! a = Some h → handle_valid h → h_flags h = 0 → h_base h = 0 →
  (∀ d : D, getpid d = (pid, d)) → h_pid h ≠ pid →
  let r := gmmap (u32 (h_size h)) (h_fd h) (gdev s) in
  let b := s32 (r.1 + h_offset h) in
  r.1 ≠ -1 → b ≠ 0 →
  wp False (rc ← gralloc_register_buffer a; l ← gralloc_lock a; u ← gralloc_unregister_buffer a;
            mret (rc, l, u)) (λ res s',
    res = (0, (0, Some b), 0) ∧
    s' = mkGr (hdmiDisplay s) (ref_srcAlloc s) (heap s) (next s)
           (gmunmap b (u32 (h_size h)) r.2).2) s.
Proof.
  intros Ha E Hv Ef E0 Hpid Hne r b Hr Hb. apply wp_bind. unfold gralloc_register_buffer.
  apply wp_bind. eapply wp_validate; [done..|]. simpl. apply wp_bind. eapply wp_handle_at; [done|].
  apply wp_bind, wp_gcall. rewrite Hpid. simpl. rewrite bool_decide_false by done.
  apply wp_bind. eapply wp_gralloc_map; [done|done|]. cbv zeta. split; [done|]. intros _.
  cbn [gdev hdmiDisplay ref_srcAlloc heap next]. fold r. fold b. apply wp_ret.
  set (s1 := mkGr _ _ (<[a:=with_base b h]> (heap s)) _ _). assert (heap s1 !! a = Some (with_base b h)) as E1
    by (simpl; by rewrite lookup_insert_eq).
  apply wp_bind. unfold gralloc_lock. apply wp_bind. eapply wp_validate; [done|exact E1|done|].
  simpl. apply wp_bind. eapply wp_handle_at; [exact E1|]. apply wp_ret. simpl.
  apply wp_bind. unfold gralloc_unregister_buffer. apply wp_bind.
  eapply wp_validate; [done|exact E1|done|]. simpl. apply wp_bind. eapply wp_handle_at; [exact E1|].
  apply wp_bind, wp_gcall. rewrite Hpid. simpl. rewrite bool_decide_false by done.
  rewrite bool_decide_false by done. apply wp_bind, wp_bind. unfold gralloc_unmap.
  apply wp_bind. eapply wp_handle_at; [exact E1|]. simpl. rewrite Ef. simpl.
  apply wp_bind, wp_bind, wp_gcall. apply wp_ret. unfold set_base, set_heap. wp_steps. simpl.
  split; [done|]. f_equal. apply map_eq. intros k. destruct (decide (k = a)) as [->|].
  - rewrite lookup_alter_eq, lookup_insert_eq. simpl. rewrite E. f_equal. destruct h. by simpl in *; subst.
  - by rewrite lookup_alter_ne, lookup_insert_ne.
Qed.
End Alloc.

(** *** A concrete process *)

(** Descriptors opened and closed, and mappings, in order. *)
Record gproc := mkProc { g_next_fd : Z; g_closed : list Z; g_mapped : list (Z * Z) }.
#[local] Instance gproc_os : GrOs gproc := {
  portal_alloc _ d := (g_next_fd d, mkProc (g_next_fd d + 1) (g_closed d) (g_mapped d));
  dma_reference _ d := (1, d);
  gmmap len _ d := (0x40000000, mkProc (g_next_fd d) (g_closed d) ((0x40000000, len) :: g_mapped d));
  gmunmap a len d := (0, mkProc (g_next_fd d) (g_closed d) (filter (λ m, m ≠ (a, len)) (g_mapped d)));
  gclose fd d := (0, mkProc (g_next_fd d) (fd :: g_closed d) (g_mapped d));
  getpid d := (77, d);
  gerrno d := (12, d);
}.
Definition demo_gr : gr gproc := mkGr true 0 ∅ 1000 (mkProc 8 [] []).

Lemma gralloc_alloc_in_bounds_witness :
  wp False (gralloc_alloc true 100 50 3) (λ r s',
    (r.1 < 0 ∧ r.2 = None) ∨
    ∃ a stride hd, r = (0, Some (a, stride)) ∧ heap demo_gr !! a = None ∧
      heap s' = <[a := hd]> (heap demo_gr) ∧
      handle_valid hd ∧ h_stride hd = stride ∧ h_size hd mod 4096 = 0 ∧ 100 ≤ stride ∧
      ∀ x y, 0 ≤ x < 100 → 0 ≤ y < 50 →
        0 ≤ (y * stride + x) * 3 ∧ (y * stride + x) * 3 + 3 ≤ h_size hd) demo_gr.
Proof.
  apply (gralloc_alloc_in_bounds 100 50 3 3 demo_gr);
    [reflexivity|split_and!; vm_compute; done|reflexivity|intros d; simpl; lia].
Defined.

Definition demo_client : gr gproc := mkGr true 0 {[1000 := new_handle 8 16384 0 66]} 1001 (mkProc 9 [] []).
(** For RGB_888 rows the stride in pixels is rounded down, so that a row does not
    start at a multiple of 32 bytes although its length is rounded up to one. *)
Example rgb888_rows_misaligned :
  fst (gralloc_alloc true 100 50 3 demo_gr) = Done (0, Some (1000, 106)) ∧ 106 * 3 mod 32 ≠ 0.
Proof. vm_compute. done. Qed.

(** Freeing a portal buffer closes its descriptor twice and leaves it mapped. *)
Example free_closes_twice :
  let '(r, s) := (gralloc_alloc true 100 50 1;; gralloc_free 1000) demo_gr in
  r = Done 0 ∧ g_closed (gdev s) = [8; 8] ∧ length (g_mapped (gdev s)) = 1%nat.
Proof. vm_compute. done. Qed.

(** Every screen code gives a mode with a stride that fits its 16 bits: the rows
    of the picture are contiguous 32-byte lines. *)
Example fb_mode_table : forallb (λ t, match fb_mode (code t) with
    | Some fb => (fb_stride fb =? 4 * width fb) && (fb_stride fb mod 32 =? 0) &&
                 (0 <? width fb) && (0 <? height fb) && (clock fb <? 2 ^ 31)
    | None => false end) screen_types = true.
Proof. vm_compute. reflexivity. Qed.
