(* ===== verification/XbsvUtil.v ===== *)
(** * The trace utility (src/pcie/xbsvutil/xbsvutil.c)

    The command-line tool that queries boards through the driver's ioctls and
    dumps the packets the hardware has traced, in the format TlpReplay.cxx loads.
    Characters are integers; the driver is PciePortal.v. *)
From stdpp Require Import base gmap numbers strings list.
From S2P Require Import Prelude Portal Ioctl PciePortal TlpReplay.
Local Open Scope Z_scope.

(** [pcie/xbsvutil/xbsvutil.c:59-59] tMode *)
Inductive tMode := HELP | INFO | PORTAL | TLP | TRACE | NOTRACE | MMAP.
#[export] Instance tMode_eq_dec : EqDecision tMode.
Proof. solve_decision. Defined.

(** [pcie/xbsvutil/xbsvutil.c:61-67] is_bluenoc_file *)
Definition is_bluenoc_file (name : string) : bool := bool_decide (String.substring 0 4 name = "fpga").

(** printf of an unsigned int with "%08x": its four bytes, the highest first *)
Definition be_bytes (v : Z) : list Z :=
  [u8 (Z.shiftr v 24); u8 (Z.shiftr v 16); u8 (Z.shiftr v 8); u8 v].
Definition hex8 (v : Z) : list Z := hex_bytes (be_bytes v).

(** [pcie/xbsvutil/xbsvutil.c:146-147] process: the line of one packet *)
Definition tlp_line (tlp : list Z) : list Z := reverse tlp ≫= hex8.

(** What a run prints: text with numbers, or one packet line per packet. *)
Inductive output :=
  | OText (what : string) (values : list Z)
  | OLine (l : list Z).

(** The packet lines of a run. *)
Definition lines_of (o : list output) : list (list Z) :=
  omap (λ x, match x with OLine l => Some l | _ => None end) o.

Lemma lines_of_packets ts : lines_of (OLine ∘ tlp_line <$> ts) = tlp_line <$> ts.
Proof. unfold lines_of. induction ts as [|t ts IH]; [done|]. rewrite fmap_cons. simpl. by f_equal. Qed.

Section Process.
Context {K : Type} `{Pci K}.
Abbreviation P := (M (pcie K)).
(** send_fd_to_portal, which the utility never calls, and the bus address of
    BAR 2 *)
Context (send : PortalInternal → Z → Z → P Z) (bar2_start : Z).

(** ioctl(2) on a user structure holding [ws]: -1 on error, else what the driver
    has written there (or the old contents) *)
Definition user_ioctl (f : nat * nat) (cmd : Z) (ws : list Z) : P (option (list Z)) :=
  '(rc, out) ← pcieportal_ioctl send f cmd (mkUser true (Some ws) true);
  mret (if bool_decide (rc < 0) then None else Some (default ws out)).

(** [pcie/xbsvutil/xbsvutil.c:134-149] process: the packets; the error and what
    was printed *)
Fixpoint dump (f : nat * nat) (strict : bool) (n : nat) : P (Z * list output) :=
  match n with
  | O => mret (0, [])
  | S n =>
      tlp ← user_ioctl f BNOC_GET_TLP (replicate 6 0x5a5a5a5a);
      match tlp with
      | None => mret (if strict then -1 else 0, [])
      | Some tlp =>
          '(ret, o) ← dump f strict n; mret (ret, OLine (tlp_line tlp) :: o)
      end
  end.

(** [pcie/xbsvutil/xbsvutil.c:151-160] process, TRACE and NOTRACE; the structure
    keeps its zeros when the ioctl fails *)
Definition set_tracing (f : nat * nat) (trace : Z) : P (Z * list output) :=
  t ← user_ioctl f BNOC_TRACE [trace; 0; 0];
  match t with
  | Some [_; old; len] => mret (0, [OText "old trace, traceLength" [old; len]])
  | _ => mret (0, [OText "old trace, traceLength" [0; 0]])
  end.

(** [pcie/xbsvutil/xbsvutil.c:161-182] process, MMAP: accesses to the portal's
    window through the mapping; a failed mapping is dereferenced all the same *)
Definition poke (f : nat * nat) : P (Z * list output) :=
  rc ← portal_mmap bar2_start f 0 (Z.shiftl 1 16) 0;
  if negb (bool_decide (rc = 0)) then undefined
  else
    p ← file_portal f;
    '(_, t) ← file_board f;
    let portal := bar2io t + PORTAL_BASE_OFFSET * portal_number p in
    let rd (o : Z) : P Z := v ← pci_call (ioread32 (portal + o)); mret (u32 v) in
    p0 ← rd 0; p1 ← rd 4;
    pci_call (iowrite32 0x0000f00d portal);;
    p16 ← rd (4 * 16);
    pci_call (iowrite32 0xdeadbeef (portal + 4 * 128));;
    p256 ← rd (4 * 256);
    a ← rd (Z.shiftl 1 15 + Z.shiftl 1 14 + 0x10); b ← rd (Z.shiftl 1 15);
    c ← rd (Z.shiftl 1 14); d ← rd 0; e ← rd (Z.shiftl 1 14);
    mret (0, [OText "portal" [p0; p1; p16; p256]; OText "should be" [a; b; c; d; e]]).

(** [pcie/xbsvutil/xbsvutil.c:93-183] process: the switch on the mode.  The result
    of the ioctl that stops tracing is not checked: traceLength then has no value. *)
Definition run_mode (f : nat * nat) (mode : tMode) (strict : bool) (info : list Z) :
    P (Z * list output) :=
  match mode with
  | INFO => mret (1, [OText "Board number, Portal number" info])
  | PORTAL =>
      p ← user_ioctl f BNOC_IDENTIFY_PORTAL (replicate 11 0);
      match p with
      | None => mret (if strict then -1 else 0, [])
      | Some p => mret (0, [OText "Portal" (take 9 p ++ drop 10 p)])
      end
  | TLP =>
      t ← user_ioctl f BNOC_TRACE [0; 0; 0];
      match t with
      | Some [_; _; len] => dump f strict (Z.to_nat len)
      | _ => undefined
      end
  | TRACE => set_tracing f 1
  | NOTRACE => set_tracing f 0
  | MMAP => poke f
  | HELP => mret (0, [])
  end.

(** [pcie/xbsvutil/xbsvutil.c:69-188] process; [minor] is the device the file
    name leads to, if it can be opened *)
Definition process (minor : option Z) (mode : tMode) (strict : bool) : P (Z * list output) :=
  match minor with
  | None => mret (if strict then -1 else 0, [])
  | Some minor =>
      '(_, f) ← pcieportal_open minor;
      info ← user_ioctl f BNOC_IDENTIFY [0; 0];
      r ← (match info with
           | None => mret (if strict then -1 else 0, [])
           | Some info => run_mode f mode strict info
           end);
      pcieportal_release f;;
      mret r
  end.

(** [pcie/xbsvutil/xbsvutil.c:207-229] main: the mode and the file arguments *)
Definition parse_mode (args : list string) : tMode * list string :=
  match args with
  | [] => (INFO, [])
  | a :: rest =>
      if bool_decide (a = "help"%string) then (HELP, args)
      else if bool_decide (a = "info"%string) then (INFO, rest)
      else if bool_decide (a = "portal"%string) then (PORTAL, rest)
      else if bool_decide (a = "tlp"%string) then (TLP, rest)
      else if bool_decide (a = "trace"%string) then (TRACE, rest)
      else if bool_decide (a = "notrace"%string) then (NOTRACE, rest)
      else if bool_decide (a = "mmap"%string) then (MMAP, rest)
      else (INFO, args)
  end.

(** [pcie/xbsvutil/xbsvutil.c:255-278] main: the loop over the files *)
Fixpoint process_all (minor_of : string → option Z) (mode : tMode) (strict : bool)
    (files : list string) (failed : bool) : P (bool * list output) :=
  match files with
  | [] => mret (failed, [])
  | a :: files =>
      '(r, o) ← process (minor_of a) mode strict;
      '(failed, o') ← process_all minor_of mode strict files (failed || bool_decide (r = -1));
      mret (failed, o ++ o')
  end.

(** [pcie/xbsvutil/xbsvutil.c:190-281] main after option parsing: the exit code;
    [dev] is the sorted list of names in /dev, [None] when it cannot be read *)
Definition xbsvutil_main (minor_of : string → option Z) (dev : option (list string))
    (args : list string) : P (Z * list output) :=
  let '(mode, files) := parse_mode args in
  if bool_decide (mode = HELP) then mret (0, [OText "usage" []])
  else
    match files, dev with
    | [], None => mret (1, [])
    | [], Some names =>
        match filter (λ n, is_bluenoc_file n = true) names with
        | [] => mret (0, [OText "No BlueNoC targets found." []])
        | names =>
            '(failed, o) ← process_all (λ n, minor_of (String.append "/dev/" n)) mode false names false;
            mret (if failed : bool then 1 else 0, o)
        end
    | files, _ =>
        '(failed, o) ← process_all minor_of mode true files false;
        mret (if failed : bool then 1 else 0, o)
    end.
End Process.

(** ** From the trace memory to the replayed packets *)

(** The bytes of a packet the replay uses: words 4 to 0, highest byte first; word
    5 is the time stamp. *)
Definition payload (t : list Z) : list Z := reverse (take 5 t) ≫= be_bytes.
Definition packet_ok (t : list Z) : Prop := length t = 6%nat ∧ Forall (λ w, 0 ≤ w < 2 ^ 32) t.

Lemma be_bytes_range v : Forall (λ b, 0 ≤ b < 256) (be_bytes v).
Proof. repeat constructor; apply u8_range || apply Z.mod_pos_bound; done. Qed.
Lemma hex_bytes_app a b : hex_bytes (a ++ b) = hex_bytes a ++ hex_bytes b.
Proof. unfold hex_bytes. by rewrite bind_app. Qed.

(** One printed line is what the loader expects. *)
Lemma tlp_line_bytes t : packet_ok t → line_bytes (tlp_line t) 0 20 = Some (payload t).
Proof.
  intros [Hl _]. do 6 (destruct t as [|? t]; [done|]). destruct t; [|done].
  unfold tlp_line, payload. cbn [reverse rev_append take mbind list_bind app].
  match goal with |- line_bytes (hex8 ?a ++ ?b) _ _ = _ =>
    assert (b = hex_bytes (payload [z; z0; z1; z2; z3; z4])) as -> by done end.
  apply (line_bytes_hex (hex8 z4) (payload [z; z0; z1; z2; z3; z4]) 0); [done|].
  unfold payload. cbn [reverse rev_append take mbind list_bind app]. repeat constructor;
    apply Z.mod_pos_bound; done.
Qed.

Lemma tlp_lines_bytes ts : Forall packet_ok ts →
  file_bytes (tlp_line <$> ts) = Some (ts ≫= payload).
Proof.
  induction 1 as [|t ts Ht Hts IH]; [done|]. rewrite fmap_cons. cbn [file_bytes].
  rewrite tlp_line_bytes, IH by done. done.
Qed.

(** ** The trace registers of a board *)
Module Csr.

(** [bsv/PcieCsr.bsv:86-90] mkPcieControlAndStatusRegs and [mkPcieTracer]: the trace
    memory (two block RAMs of 2^11 entries behind one address of 12 bits, an entry of
    192 bits holding a packet and its time stamp), the answer to the last read of it,
    the address of the next, whether packets are traced, the addresses that wait to be
    the next write address and that address, the limit, and the interrupt table *)
Record t := mk { bram : Z → Z; response : Z; rdaddr : Z; tracing : bool;
  wraddrs : list Z; wraddr : Z; limit : Z; msix : Z → Z }.

(** [bsv/PcieCsr.bsv:93-99] tlpTraceBramResponseSlice *)
Definition slice (v i : Z) : Z := u32 (Z.shiftr v (32 * i)).

(** [bsv/PcieCsr.bsv:128-176] readDataRule2, by word address *)
Definition read (a : Z) (c : t) : Z :=
  if bool_decide (1024 ≤ a ≤ 1087) then msix c (a - 1024)
  else if bool_decide (a = 0) then 0x65756c42
  else if bool_decide (a = 1) then 0x63657073
  else if bool_decide (a = 768) then rdaddr c
  else if bool_decide (a = 774) then 2 ^ 12
  else if bool_decide (a = 775) then (if tracing c then 1 else 0)
  else if bool_decide (776 ≤ a ≤ 781) then slice (response c) (a - 776)
  else if bool_decide (a = 792) then wraddr c
  else if bool_decide (a = 794) then limit c
  else if bool_decide (a = 992 ∨ a = 993) then 0
  else 0xbad0add0.

(** [bsv/PcieCsr.bsv:181-217] writeDataRule.  A write to 768 asks the trace memory for
    the next entry; brmMuxResponse takes the answer, here before the next access of
    software *)
Definition write (a v : Z) (c : t) : t :=
  let '(mk m r rd tr ws w l x) := c in
  if bool_decide (1024 ≤ a ≤ 1087) then
    let i := a - 1024 in
    let v := if bool_decide (i mod 4 = 0) then Z.land v 0xfffffffc
             else if bool_decide (i mod 4 = 3) then v mod 2 else v in
    mk m r rd tr ws w l (λ j, if bool_decide (j = i) then v else x j)
  else if bool_decide (a = 775) then mk m r rd (negb (bool_decide (v = 0))) ws w l x
  else if bool_decide (a = 768) then mk m (m rd) ((rd + 1) mod 2 ^ 12) tr ws w l x
  else if bool_decide (a = 792) then mk m r rd tr (ws ++ [v mod 2 ^ 11]) w l x
  else if bool_decide (a = 794) then mk m r rd tr ws w (v mod 2 ^ 11) x
  else c.
(** The queue of write addresses has two places, which tracing empties: otherwise a
    third write waits for ever. *)
Definition ready (c : t) : Prop := tracing c = true ∨ (length (wraddrs c) < 2)%nat.

(** [bsv/PcieTracer.bsv:103-119] doTracing: while packets are traced, the trace memory and
    its write address may change at any time; nothing else changes by itself *)
Definition drifts (c c' : t) : Prop :=
  response c' = response c ∧ rdaddr c' = rdaddr c ∧ tracing c' = tracing c ∧
  limit c' = limit c ∧ msix c' = msix c ∧
  (tracing c = false → bram c' = bram c ∧ wraddrs c' = wraddrs c ∧ wraddr c' = wraddr c).
Lemma drifts_refl c : drifts c c.
Proof. by repeat split. Qed.
Lemma drifts_trans c1 c2 c3 : drifts c1 c2 → drifts c2 c3 → drifts c1 c3.
Proof.
  intros (?&?&T&?&?&F1) (?&?&?&?&?&F2). split_and!; try congruence.
  intros Hf. destruct (F1 Hf) as (?&?&?). destruct F2 as (?&?&?); [congruence|].
  split_and!; congruence.
Qed.
Lemma drifts_off c c' : tracing c = false → drifts c c' → c' = c.
Proof.
  intros Hf (?&?&?&?&?&F). destruct (F Hf) as (?&?&?). destruct c, c'. simpl in *. by subst.
Qed.
(** The packet in an entry. *)
Definition packet (v : Z) : list Z := slice v <$> seqZ 0 6.
Lemma packet_packet_ok v : packet_ok (packet v).
Proof. split; [done|]. repeat constructor; apply u32_range. Qed.
End Csr.

Section Trace.
Context {K : Type} `{Pci K}.
Context (send : PortalInternal → Z → Z → M (pcie K) Z) (bar2_start : Z).
Implicit Types s : pcie K.

(** The kernel's accesses to BAR 0 of a board at [bar] reach these registers. *)
Record csr_board (bar : Z) (csr : K → Csr.t) : Prop := {
  cb_value : ∀ a k, 0 ≤ a < 2 ^ 13 → (ioread32 (bar + 4 * a) k).1 = Csr.read a (csr k);
  cb_read : ∀ x k, Csr.drifts (csr k) (csr (ioread32 x k).2);
  cb_write : ∀ a v k, 0 ≤ a < 2 ^ 13 → (a = 792 → Csr.ready (csr k)) →
    Csr.drifts (Csr.write a v (csr k)) (csr (iowrite32 v (bar + 4 * a) k).2);
}.

Lemma wp_pci_exact {A} (f : K → A * K) (Q : A → pcie K → Prop) s :
  Q (f (kst s)).1 (mkPcie (f (kst s)).2 (held s) (board_map s) (drvdata s)) → wp False (pci_call f) Q s.
Proof. intros HQ. unfold wp, pci_call. by destruct (f (kst s)). Qed.

Lemma wp_csr bar csr t off a (Q : Z → pcie K → Prop) s : csr_board bar csr → bar0io t = bar →
  off = 4 * a → 0 ≤ a < 2 ^ 13 →
  (∀ k, Csr.drifts (csr (kst s)) (csr k) →
     Q (u32 (Csr.read a (csr (kst s)))) (mkPcie k (held s) (board_map s) (drvdata s))) →
  wp False (read_csr t off) Q s.
Proof.
  intros Hu <- -> Ha HQ. unfold read_csr. apply wp_bind, wp_pci_exact, wp_ret.
  rewrite (cb_value _ _ Hu) by done. apply HQ. apply (cb_read _ _ Hu).
Qed.
Lemma wp_csr_write bar csr t off a v (Q : () → pcie K → Prop) s : csr_board bar csr → bar0io t = bar →
  off = 4 * a → 0 ≤ a < 2 ^ 13 → (a = 792 → Csr.ready (csr (kst s))) →
  (∀ k, Csr.drifts (Csr.write a v (csr (kst s))) (csr k) →
     Q tt (mkPcie k (held s) (board_map s) (drvdata s))) →
  wp False (pci_call (iowrite32 v (bar0io t + off))) Q s.
Proof.
  intros Hu <- -> Ha Hr HQ. apply wp_pci_exact. destruct (iowrite32 _ _ _).1. apply HQ.
  by apply (cb_write _ _ Hu).
Qed.

(** An open file of the board [t]. *)
Definition file_of (f : nat * nat) (t : tBoard) s : Prop :=
  board_map s !! f.1 = Some t ∧ ∃ p, portal t !! f.2 = Some p ∧ board p = Some f.1.

(** A command that reads the board, on a file of it. *)
Lemma wp_ioctl_file f t cmd u (g : tPortal → tBoard → M (pcie K) (bool * option (list Z)))
    (Q : Z * option (list Z) → pcie K → Prop) s : file_of f t s →
  (file_portal f ≫= λ p0, file_board f ≫= λ '(_, t0), g p0 t0 ≫= λ r,
     mret (if r.1 : bool then - EFAULT else 0, r.2)) s = pcieportal_ioctl send f cmd u s →
  (∀ p, wp False (g p t) (λ r, Q (if r.1 then - EFAULT else 0, r.2)) s) →
  wp False (pcieportal_ioctl send f cmd u) Q s.
Proof.
  intros (Eb & p & Ep & Ebd) HE HQ. unfold wp at 1. rewrite <-HE. apply wp_bind.
  eapply wp_file_portal; [done..|]. apply wp_bind. eapply wp_file_board; [done..|].
  apply wp_bind. eapply wp_mono; [apply HQ|]. intros r s' Hr. by apply wp_ret.
Qed.

(** One packet: the answer of the last read; the next is asked for. *)
Lemma wp_get_tlp bar csr f t ws c (Q : option (list Z) → pcie K → Prop) s :
  csr_board bar csr → bar0io t = bar → file_of f t s → csr (kst s) = c → Csr.tracing c = false →
  (∀ k, csr k = Csr.write 768 0 c →
     Q (Some (Csr.packet (Csr.response c))) (mkPcie k (held s) (board_map s) (drvdata s))) →
  wp False (user_ioctl send f BNOC_GET_TLP ws) Q s.
Proof.
  intros Hu Eb Hf Ec Ht HQ. unfold user_ioctl. apply wp_bind.
  eapply (wp_ioctl_file f t _ _ (λ _ t, ioctl_get_tlp t _)); [done|done|]. intros p. unfold ioctl_get_tlp.
  assert (Hs : ∀ i s' (R : Z → pcie K → Prop), 0 ≤ i < 6 → csr (kst s') = c →
    (∀ k, csr k = c → R (Csr.slice (Csr.response c) i) (mkPcie k (held s') (board_map s') (drvdata s'))) →
    wp False (read_csr t (CSR_TLPDATABRAMRESPONSESLICE i)) R s').
  { intros i s' R Hi E HR. apply (wp_csr bar csr t _ (776 + i)); try done; [|lia|].
    { unfold CSR_TLPDATABRAMRESPONSESLICE. rewrite shiftl_mul by lia. lia. }
    intros k Dk. rewrite E in *. apply Csr.drifts_off in Dk; [|done].
    assert (u32 (Csr.read (776 + i) c) = Csr.slice (Csr.response c) i) as ->; [|by apply HR].
    unfold Csr.read. rewrite !bool_decide_false, bool_decide_true by lia.
    replace (776 + i - 776) with i by lia. apply u32_small, u32_range. }
  apply wp_bind, Hs; [lia|done|]. intros k5 E5. apply wp_bind, Hs; [lia|done|]. intros k0 E0.
  apply wp_bind, Hs; [lia|done|]. intros k4 E4. apply wp_bind, Hs; [lia|done|]. intros k1 E1.
  apply wp_bind, Hs; [lia|done|]. intros k3 E3. apply wp_bind, Hs; [lia|done|]. intros k2 E2.
  apply wp_bind, (wp_csr_write bar csr t _ 768); try done.
  intros k Dk. cbn [kst held board_map drvdata] in *. rewrite E2 in Dk.
  apply Csr.drifts_off in Dk; [|by destruct c]. apply wp_ret. simpl. apply wp_ret. simpl. by apply HQ.
Qed.

(** Tracing is stopped; until then the trace memory may change. *)
Lemma wp_stop_trace bar csr f t c (Q : option (list Z) → pcie K → Prop) s :
  csr_board bar csr → bar0io t = bar → file_of f t s → csr (kst s) = c → Csr.ready c →
  (∀ k old c', csr k = c' → Csr.response c' = Csr.response c → Csr.rdaddr c' = Csr.rdaddr c →
     Csr.tracing c' = false → (Csr.tracing c = false → Csr.bram c' = Csr.bram c) →
     Q (Some [0; old; 2 ^ 12]) (mkPcie k (held s) (board_map s) (drvdata s))) →
  wp False (user_ioctl send f BNOC_TRACE [0; 0; 0]) Q s.
Proof.
  intros Hu Eb Hf Ec Hr HQ. unfold user_ioctl. apply wp_bind.
  eapply (wp_ioctl_file f t _ _ (λ _ t, ioctl_trace t _)); [done|done|]. intros p. unfold ioctl_trace. simpl.
  apply wp_bind, (wp_csr_write bar csr t _ 792); try done; [by rewrite Ec|]. rewrite Ec. intros k1 D1.
  apply wp_bind, (wp_csr bar csr t _ 775); try done. cbn [kst held board_map drvdata]. intros k2 D2.
  apply wp_bind, (wp_csr bar csr t _ 774); try done. cbn [kst held board_map drvdata]. intros k3 D3.
  pose proof (Csr.drifts_trans _ _ _ (Csr.drifts_trans _ _ _ D1 D2) D3) as D.
  assert (Csr.read 774 (csr k2) = 2 ^ 12) as -> by done. change (u32 (2 ^ 12)) with (2 ^ 12).
  rewrite bool_decide_false by done.
  apply wp_bind, (wp_csr_write bar csr t _ 775); try done. cbn [kst held board_map drvdata]. intros k4 D4.
  apply wp_ret. simpl. apply wp_ret. simpl.
  destruct c as [m r rd tr ws w l x]. destruct D as (R1 & R2 & R3 & _ & _ & R4). simpl in *.
  destruct (csr k3) as [m3 r3 rd3 tr3 ws3 w3 l3 x3]. simpl in *. destruct D4 as (S1 & S2 & S3 & _ & _ & S4). simpl in *.
  eapply (HQ k4 _ (csr k4)); try done; [congruence|congruence|].
  intros Hoff. destruct (S4 eq_refl) as (-> & _). by apply R4.
Qed.

Lemma wp_identify_keep bar csr f t ws (Q : option (list Z) → pcie K → Prop) s :
  csr_board bar csr → file_of f t s →
  (∀ k info, Csr.drifts (csr (kst s)) (csr k) →
     Q (Some info) (mkPcie k (held s) (board_map s) (drvdata s))) →
  wp False (user_ioctl send f BNOC_IDENTIFY ws) Q s.
Proof.
  intros Hu Hf HQ. unfold user_ioctl. apply wp_bind.
  eapply (wp_ioctl_file f t _ _ (λ p t, ioctl_identify t p _)); [done|done|]. intros p.
  unfold ioctl_identify. apply wp_bind. eapply wp_mono;
    [apply (wp_for_each _ _ _ (λ _ s', ∃ k, Csr.drifts (csr (kst s)) (csr k) ∧
       s' = mkPcie k (held s) (board_map s) (drvdata s)))|].
  - exists (kst s). split; [apply Csr.drifts_refl|by destruct s].
  - intros i a s' _ (k & Ek & ->).
    assert (Hr : ∀ off k (R : Z → pcie K → Prop), Csr.drifts (csr (kst s)) (csr k) →
      (∀ v k', Csr.drifts (csr (kst s)) (csr k') → R v (mkPcie k' (held s) (board_map s) (drvdata s))) →
      wp False (read_csr t off) R (mkPcie k (held s) (board_map s) (drvdata s))).
    { intros off k' R Hk HR. unfold read_csr. apply wp_bind, wp_pci_exact, wp_ret. apply HR.
      eapply Csr.drifts_trans; [exact Hk|]. apply (cb_read _ _ Hu). }
    apply wp_bind, Hr; [done|]. intros ? k1 E1. apply wp_bind, Hr; [done|]. intros ? k2 E2.
    apply wp_bind, Hr; [done|]. intros ? k3 E3. apply wp_ret. by exists k3.
  - intros _ s' (k & Ek & ->). apply wp_ret. simpl. apply wp_ret. simpl. by apply HQ.
Qed.

(** The packets of a dump of [n] lines: the last answer, then the entries read. *)
Definition dumped (c : Csr.t) (n : nat) : list (list Z) :=
  take n (Csr.packet (Csr.response c) ::
    ((λ i, Csr.packet (Csr.bram c ((Csr.rdaddr c + i) mod 2 ^ 12))) <$> seqZ 0 (n - 1))).
Definition advance (c : Csr.t) : Csr.t := Csr.write 768 0 c.

Lemma dumped_S c n : 0 ≤ Csr.rdaddr c < 2 ^ 12 →
  dumped c (S n) = Csr.packet (Csr.response c) :: dumped (advance c) n.
Proof.
  intros Hr. destruct c as [m r rd tr ws w l x]. unfold dumped, advance. simpl in *. f_equal.
  destruct n as [|n]; [done|]. replace (S (S n) - 1) with (Z.succ n) by lia.
  replace (S n - 1) with (Z.of_nat n) by lia.
  rewrite seqZ_cons by lia. rewrite Z.pred_succ. cbn [fmap list_fmap take].
  rewrite Z.add_0_r, (Z.mod_small rd) by lia. f_equal. f_equal.
  change (Z.succ 0) with (1 + 0). rewrite <-fmap_add_seqZ, <-list_fmap_compose.
  apply list_fmap_ext. intros j i _. simpl. do 2 f_equal.
  rewrite Zplus_mod_idemp_l. f_equal. lia.
Qed.
Lemma dumped_full c n : dumped c (S n) = Csr.packet (Csr.response c) ::
  ((λ i, Csr.packet (Csr.bram c ((Csr.rdaddr c + i) mod 2 ^ 12))) <$> seqZ 0 n).
Proof.
  unfold dumped. rewrite firstn_cons. f_equal. replace (S n - 1) with (Z.of_nat n) by lia.
  apply take_ge. rewrite length_fmap, length_seqZ. lia.
Qed.
Lemma advance_range c : 0 ≤ Csr.rdaddr (advance c) < 2 ^ 12.
Proof. destruct c. simpl. apply Z.mod_pos_bound. done. Qed.

Lemma wp_dump bar csr f t strict c n s :
  csr_board bar csr → bar0io t = bar → file_of f t s → csr (kst s) = c → Csr.tracing c = false →
  0 ≤ Csr.rdaddr c < 2 ^ 12 →
  wp False (dump send f strict n) (λ r s', r = (0, OLine ∘ tlp_line <$> dumped c n) ∧
    board_map s' = board_map s ∧ csr (kst s') = Nat.iter n advance c) s.
Proof.
  intros Hu Eb. revert s c; induction n as [|n IH]; intros s c Hf Ec Ht Hr; [by split_and!|].
  cbn [dump]. apply wp_bind. eapply wp_get_tlp; [done..|]. intros k Ek.
  apply wp_bind. eapply wp_mono; [apply (IH _ (advance c)); try done; [by destruct c|apply advance_range]|].
  intros r s' (-> & Es' & Ec'). apply wp_ret. rewrite dumped_S by done. split_and!; try done.
  rewrite Ec'. by rewrite Nat.iter_succ_r.
Qed.

Lemma iter_advance c n : 0 ≤ Csr.rdaddr c < 2 ^ 12 →
  let c' := Nat.iter (S n) advance c in
  Csr.bram c' = Csr.bram c ∧ Csr.tracing c' = Csr.tracing c ∧
  Csr.response c' = Csr.bram c ((Csr.rdaddr c + n) mod 2 ^ 12) ∧
  Csr.rdaddr c' = (Csr.rdaddr c + S n) mod 2 ^ 12.
Proof.
  intros Hr. induction n as [|n IH].
  - destruct c as [m r rd tr ws w l x]. simpl in *. rewrite Z.add_0_r, Z.mod_small by done. done.
  - cbv zeta in *. rewrite Nat.iter_succ. destruct IH as (I1 & I2 & I3 & I4).
    destruct (Nat.iter (S n) advance c) as [m r rd tr ws w l x]. simpl in *. subst m tr rd.
    split_and!; try done. rewrite Zplus_mod_idemp_l. f_equal. lia.
Qed.

(** C26.  From the trace memory of a board to the simulator.  On a board in service whose
    driver accesses reach the trace registers, and whose queue of write addresses is not
    full, xbsvutil in tlp mode stops tracing, succeeds and prints 4096 lines through the
    driver's ioctls, whatever has been traced: first the entry that was read last before
    (a stale one, or zeros after reset), then 4095 of the 4096 entries of the trace
    memory in circular order from the read address on; loading these lines with
    TlpReplay gives the bytes of exactly these packets (without their time stamps), in
    order.  The read address comes back to where it was and the entry left out is the one
    the next dump begins with.  The trace memory is the one there was, unless packets
    were traced until the tool stopped that. *)
Theorem tlp_dump_replay csr n t strict dev s :
  active 0 dev s → board_map s !! 0%nat = Some t → 0 ≤ n < 16 →
  csr_board (bar0io t) csr → Csr.ready (csr (kst s)) → 0 ≤ Csr.rdaddr (csr (kst s)) < 2 ^ 12 →
  wp False (process send bar2_start (Some n) TLP strict) (λ r s', ∃ mem,
    let c := csr (kst s) in let c' := csr (kst s') in
    let entry i := Csr.packet (mem ((Csr.rdaddr c + i) mod 2 ^ 12)) in
    let ts := Csr.packet (Csr.response c) :: (entry <$> seqZ 0 4095) in
    r.1 = 0 ∧ lines_of r.2 = tlp_line <$> ts ∧
    (∀ st, loaded st = false →
      load_tlp (Some (lines_of r.2)) st = (Done tt, mkTlp true (ts ≫= payload))) ∧
    (Csr.tracing c = false → mem = Csr.bram c) ∧
    Csr.bram c' = mem ∧ Csr.tracing c' = false ∧ Csr.rdaddr c' = Csr.rdaddr c ∧
    Csr.packet (Csr.response c') = entry 4095) s.
Proof.
  intros (_ & t0 & E0 & _ & (Hl & _ & Hp) & _) Et Hn Hu Hrdy Hrd.
  rewrite Et in E0. injection E0 as <-. unfold process, pcieportal_open.
  assert (Z.shiftr n 4 = 0) as Eh by (rewrite Z.shiftr_div_pow2 by lia; apply Z.div_small; lia).
  assert (Z.land n 0xF = n) as El
    by (change 0xF with (2 ^ 4 - 1); rewrite land_low_mod by lia; apply Z.mod_small; lia).
  rewrite Eh, El. change (Z.to_nat 0) with O. apply wp_bind, wp_bind.
  eapply wp_get_board; [done|]. apply wp_bind, wp_set_open_count, wp_ret.
  set (t1 := mkBoard _ _ _ _ _ _ _ _). set (f := (O, Z.to_nat n)).
  destruct (lookup_lt_is_Some_2 (portal t) (Z.to_nat n)) as [p Ep]; [lia|].
  destruct (Hp _ _ Ep ltac:(lia)) as [Epn Epb].
  assert (<[O := t1]> (board_map s) !! O = Some t1) as E1
    by (apply list_lookup_insert_eq; by eapply lookup_lt_Some).
  apply wp_bind. eapply (wp_identify_keep (bar0io t) csr f t1); [done|by split; [|exists p]|].
  intros k info Dk. cbn [kst] in Dk. apply wp_bind. unfold run_mode. pose proof Dk as (K1 & K2 & K3 & _ & _ & K4).
  apply wp_bind. eapply (wp_stop_trace (bar0io t) csr f t1); [done|done|by split; [|exists p]|done| |].
  { cbn [kst]. destruct Hrdy as [Hr|Hr]; [left; congruence|].
    destruct (Csr.tracing (csr (kst s))) eqn:Etr; [by left|].
    right. destruct K4 as (_ & -> & _); done. }
  intros k2 old c' Ek2 R1 R2 R3 R4. cbn [kst held board_map drvdata] in *. rewrite K1 in R1. rewrite K2 in R2.
  set (N := Z.to_nat (2 ^ 12)). assert (N = S (Z.to_nat 4095)) as HN by (unfold N; lia).
  eapply wp_mono; [apply (wp_dump (bar0io t) csr f t1 strict c' N);
    [done|done|by split; [|exists p]|done|done|by rewrite R2]|].
  intros r s' (-> & Es' & Ec'). cbn [board_map] in Es'. apply wp_bind. unfold pcieportal_release. apply wp_bind.
  apply (wp_file_board f t1 p O t1); rewrite ?Es'; try done.
  apply wp_bind, wp_set_open_count, wp_ret, wp_ret. exists (Csr.bram c'). cbn [kst fst snd] in *. cbv zeta.
  rewrite lines_of_packets, HN, dumped_full, R1, R2.
  destruct (iter_advance c' (Z.to_nat 4095)) as (I1 & I2 & I3 & I4); [by rewrite R2|].
  rewrite <-HN, <-Ec' in I1, I2, I3, I4. rewrite I1, I2, I3, I4, R2, R3, Z2Nat.id by lia.
  split_and!; try done.
  - intros st Hst. unfold load_tlp, mbind, M_bind, get. rewrite Hst, tlp_lines_bytes; [done|].
    constructor; [apply Csr.packet_packet_ok|]. apply Forall_fmap, Forall_forall.
    intros i _. apply Csr.packet_packet_ok.
  - intros Hoff. rewrite R4 by congruence. by apply K4.
  - replace (Z.of_nat N) with (1 * 2 ^ 12) by (unfold N; lia). rewrite Z.mod_add by done.
    by apply Z.mod_small.
Qed.
End Trace.

(** *** A concrete board: the kernel state is that of the registers *)
#[local] Instance trace_pci : Pci Csr.t := {
  pci_enable_device k := (0, k);
  pci_request_region _ k := (0, k);
  pci_iomap bar k := (0x1000 * (bar + 1), k);
  ioread32 a k := (Csr.read ((a - 0x1000) / 4) k, k);
  iowrite32 v a k := (tt, Csr.write ((a - 0x1000) / 4) v k);
  pci_set_dma_mask k := (0, k);
  pci_enable_msix k := ((0, 40), k);
  request_irq _ k := (0, k);
  cdev_add _ k := (0, k);
  dma_alloc_coherent _ k := ((0, 0), k);
  io_remap_pfn_range _ _ k := (0, k);
}.
(** Every entry of the trace memory holds its address; number 12 has been read last. *)
Definition demo_csr : Csr.t := Csr.mk id 12 13 false [] 7 0 (λ _, 0).
Definition traced : pcie Csr.t :=
  mkPcie demo_csr (held in_service) (board_map in_service) (drvdata in_service).

Lemma demo_csr_board : csr_board 0x1000 id.
Proof.
  assert (∀ a, (0x1000 + 4 * a - 0x1000) / 4 = a) as E by (intros; div_lia).
  split.
  - intros a k _. cbn [ioread32 trace_pci fst]. by rewrite E.
  - intros x k. apply Csr.drifts_refl.
  - intros a v k _ _. cbn [iowrite32 trace_pci snd]. rewrite E. apply Csr.drifts_refl.
Qed.

Lemma tlp_dump_replay_witness :
  wp False (process (λ _ _ _, mret 0) 0 (Some 3) TLP true) (λ r _,
    r.1 = 0 ∧ lines_of r.2 = tlp_line ∘ Csr.packet <$>
      (12 :: ((λ i, (13 + i) mod 4096) <$> seqZ 0 4095))) traced.
Proof.
  eapply wp_mono; [apply (tlp_dump_replay (λ _ _ _, mret 0) 0 id 3 served_board true 5 traced);
    [exact in_service_active|done|lia|exact demo_csr_board|right; simpl; lia|done]|].
  intros r s' (mem & Hr & Hl & _ & Hm & _). split; [exact Hr|].
  rewrite Hl, (Hm eq_refl). change (Csr.rdaddr (id (kst traced))) with 13.
  change (Csr.response (id (kst traced))) with 12. rewrite fmap_cons, fmap_cons. f_equal.
Defined.
