(* ===== verification/Hdmi.v ===== *)
(** * HDMI support (src/lib/cpp/edid.h, src/lib/cpp/i2chdmi.h)

    Decoding of the display's identification data, and the programming of the
    HDMI transmitter over I2C. *)
From stdpp Require Import base numbers list.
From S2P Require Import Prelude.
Local Open Scope Z_scope.

(** ** EDID *)

(** [lib/cpp/edid.h:6-21] edid_detailed_timing *)
Record edid_detailed_timing := mkTiming {
  pixclk : Z; npixels : Z; bpixels : Z; nlines : Z; blines : Z;
  hsyncoff : Z; hsyncwidth : Z; vsyncoff : Z; vsyncwidth : Z;
  widthmm : Z; heightmm : Z; hborderpxls : Z; vborderpxls : Z; features : Z }.

(** [lib/cpp/edid.h:28-28] memset of a timing *)
Definition zero_timing : edid_detailed_timing := mkTiming 0 0 0 0 0 0 0 0 0 0 0 0 0 0.

(** A byte of a record; the records lie inside the 256 bytes. *)
Definition byte_at (rec : list Z) (i : nat) : Z := nth i rec 0.

(** [lib/cpp/edid.h:26-63] parseEdid: the timing of one record; the 16-bit load is
    little endian *)
Definition parse_record (rec : list Z) : edid_detailed_timing :=
  let r := byte_at rec in
  if bool_decide (r 0%nat + 256 * r 1%nat = 0) then zero_timing
  else mkTiming
    (r 0%nat + 256 * r 1%nat)
    (Z.lor (r 2%nat) (Z.shiftl (Z.shiftr (r 4%nat) 4) 8))
    (Z.lor (r 3%nat) (Z.shiftl (Z.land (r 4%nat) 0xF) 8))
    (Z.lor (r 5%nat) (Z.shiftl (Z.shiftr (r 7%nat) 4) 8))
    (Z.lor (r 6%nat) (Z.shiftl (Z.land (r 7%nat) 0xF) 8))
    (Z.lor (r 8%nat) (Z.shiftl (Z.shiftr (r 11%nat) 6) 8))
    (Z.lor (r 9%nat) (Z.shiftl (Z.shiftr (Z.land (r 11%nat) 0x30) 4) 8))
    (Z.lor (Z.shiftr (r 10%nat) 4) (Z.shiftl (Z.shiftr (Z.land (r 11%nat) 0x0c) 2) 4))
    (Z.lor (Z.land (r 10%nat) 0xf) (Z.shiftl (Z.shiftr (Z.land (r 11%nat) 0x03) 0) 4))
    (Z.lor (r 12%nat) (Z.shiftl (Z.shiftr (r 14%nat) 4) 8))
    (Z.lor (r 13%nat) (Z.shiftl (Z.land (r 14%nat) 0xf) 8))
    (r 15%nat) (r 16%nat) (r 17%nat).

(** [lib/cpp/edid.h:24-76] parseEdid: the four timings *)
Definition parseEdid (raw : list Z) : list edid_detailed_timing :=
  (λ i : nat, parse_record (take 18 (drop (54 + 18 * i) raw))) <$> seq 0 4.

(** The record of a detailed timing as the EDID standard lays it out. *)
Definition encode_timing (t : edid_detailed_timing) : list Z :=
  [ pixclk t mod 256; pixclk t / 256;
    npixels t mod 256; bpixels t mod 256; npixels t / 256 * 16 + bpixels t / 256;
    nlines t mod 256; blines t mod 256; nlines t / 256 * 16 + blines t / 256;
    hsyncoff t mod 256; hsyncwidth t mod 256;
    vsyncoff t mod 16 * 16 + vsyncwidth t mod 16;
    hsyncoff t / 256 * 64 + hsyncwidth t / 256 * 16 + vsyncoff t / 16 * 4 + vsyncwidth t / 16;
    widthmm t mod 256; heightmm t mod 256; widthmm t / 256 * 16 + heightmm t / 256;
    hborderpxls t; vborderpxls t; features t ].

(** The ranges the format has room for. *)
Record timing_ok (t : edid_detailed_timing) : Prop := {
  ok_pixclk : 0 < pixclk t < 2 ^ 16;
  ok_npixels : 0 ≤ npixels t < 2 ^ 12;
  ok_bpixels : 0 ≤ bpixels t < 2 ^ 12;
  ok_nlines : 0 ≤ nlines t < 2 ^ 12;
  ok_blines : 0 ≤ blines t < 2 ^ 12;
  ok_hsyncoff : 0 ≤ hsyncoff t < 2 ^ 10;
  ok_hsyncwidth : 0 ≤ hsyncwidth t < 2 ^ 10;
  ok_vsyncoff : 0 ≤ vsyncoff t < 2 ^ 6;
  ok_vsyncwidth : 0 ≤ vsyncwidth t < 2 ^ 6;
  ok_widthmm : 0 ≤ widthmm t < 2 ^ 12;
  ok_heightmm : 0 ≤ heightmm t < 2 ^ 12;
}.

(** What a record of the block holds: a timing or a monitor descriptor. *)
Inductive record := RTiming (t : edid_detailed_timing) | RMonitor (text : list Z).
Definition record_bytes (r : record) : list Z :=
  match r with RTiming t => encode_timing t | RMonitor text => 0 :: 0 :: text end.
Definition record_ok (r : record) : Prop :=
  match r with RTiming t => timing_ok t | RMonitor text => length text = 16%nat end.
Definition record_timing (r : record) : edid_detailed_timing :=
  match r with RTiming t => t | RMonitor _ => zero_timing end.

(** A field split into its low bits and the bits above them. *)
Lemma join_field n a x : 0 ≤ n → 0 ≤ x → x / 2 ^ n = a → Z.lor (x mod 2 ^ n) (Z.shiftl a n) = x.
Proof.
  intros Hn Hx <-. rewrite Z.lor_comm.
  rewrite lor_shiftl_add by (done || apply Z.mod_pos_bound; lia).
  rewrite (Z.div_mod x (2 ^ n)) at 3 by lia. lia.
Qed.
Lemma mask_shift x n k : 0 ≤ n → 0 ≤ k →
  Z.shiftr (Z.land x (Z.shiftl (2 ^ k - 1) n)) n = (x / 2 ^ n) mod 2 ^ k.
Proof.
  intros Hn Hk. rewrite Z.shiftr_land, Z.shiftr_shiftl_l, Z.sub_diag, Z.shiftl_0_r by lia.
  by rewrite land_low_mod, shiftr_div by lia.
Qed.

Lemma parse_encode t : timing_ok t → parse_record (encode_timing t) = t.
Proof.
  intros [H1 H2 H3 H4 H5 H6 H7 H8 H9 H10 H11]. unfold parse_record, byte_at, encode_timing. cbn [nth].
  assert (pixclk t mod 256 + 256 * (pixclk t / 256) = pixclk t) as Ep by div_lia.
  rewrite Ep. rewrite bool_decide_false by lia.
  change 0x30 with (Z.shiftl (2 ^ 2 - 1) 4). change 0x0c with (Z.shiftl (2 ^ 2 - 1) 2).
  change 0x03 with (Z.shiftl (2 ^ 2 - 1) 0). rewrite !mask_shift by lia.
  change 0xf with (2 ^ 4 - 1). rewrite !land_low_mod, !shiftr_div by lia.
  change 256 with (2 ^ 8).
  rewrite !(join_field 8) by (lia || (change (2 ^ 8) with 256; change (2 ^ 4) with 16;
    change (2 ^ 6) with 64; change (2 ^ 2) with 4; div_lia)).
  assert (∀ x y, 0 ≤ y < 16 → (x * 16 + y) / 2 ^ 4 = x ∧ (x * 16 + y) mod 2 ^ 4 = y) as E16
    by (intros; split; div_lia).
  destruct (E16 (vsyncoff t mod 16) (vsyncwidth t mod 16)) as [-> ->]; [div_lia|].
  change 16 with (2 ^ 4). rewrite !(join_field 4) by (lia || (change (2 ^ 8) with 256;
    change (2 ^ 4) with 16; change (2 ^ 6) with 64; change (2 ^ 2) with 4; change (2 ^ 0) with 1; div_lia)).
  by destruct t.
Qed.

Lemma record_length r : record_ok r → length (record_bytes r) = 18%nat.
Proof. destruct r; [done|]. intros E. simpl in *. by rewrite E. Qed.
Lemma parse_record_bytes r : record_ok r → parse_record (record_bytes r) = record_timing r.
Proof. destruct r; [apply parse_encode|done]. Qed.

(** C39.  Decoding the display's identification data inverts its encoding: in a
    block whose four 18-byte records, from byte 54 on, are detailed timings with
    field values the format has room for or monitor descriptors, parseEdid returns
    every timing with all its fields, and zeros for the descriptors. *)
Theorem edid_roundtrip pre rs post : length pre = 54%nat → length rs = 4%nat →
  Forall record_ok rs →
  parseEdid (pre ++ (rs ≫= record_bytes) ++ post) = record_timing <$> rs.
Proof.
  intros Hp Hr Hok. do 4 (destruct rs as [|? rs]; [done|]). destruct rs; [|done]. clear Hr.
  repeat match goal with H : Forall _ (_ :: _) |- _ => apply Forall_cons in H as [? H] end.
  unfold parseEdid. cbn [seq fmap list_fmap mbind list_bind]. rewrite !app_nil_r, <-!app_assoc.
  assert (∀ (k : nat) (l : list Z), drop (54 + k) (pre ++ l) = drop k l) as Hd.
  { intros k l. rewrite drop_app_ge by lia. f_equal. lia. }
  rewrite !Hd.
  assert (∀ (k : nat) x (l : list Z), record_ok x → drop (18 + k) (record_bytes x ++ l) = drop k l) as Hs.
  { intros k x l Hx. rewrite drop_app_ge by (rewrite record_length by done; lia).
    rewrite record_length by done. f_equal. lia. }
  assert (∀ x (l : list Z), record_ok x →
    parse_record (take 18 (record_bytes x ++ l)) = record_timing x) as Ht.
  { intros x l Hx. rewrite take_app_length' by (by rewrite record_length). by apply parse_record_bytes. }
  change (18 * 0)%nat with 0%nat. change (18 * 1)%nat with (18 + 0)%nat.
  change (18 * 2)%nat with (18 + (18 + 0))%nat. change (18 * 3)%nat with (18 + (18 + (18 + 0)))%nat.
  rewrite !Hs, !drop_0, !Ht by done. done.
Qed.

(** ** The HDMI transmitter *)

(** The I2C bus device: selecting a slave, writing and reading a register; the
    status is 0 on success. *)
Class I2c (K : Type) := {
  i2c_slave : Z → K → Z * K;
  smbus_write : Z → Z → K → Z * K;
  smbus_read : Z → K → (Z * Z) * K;
}.

Section Bus.
Context {K : Type} `{I2c K}.
Definition bus {A} (f : K → A * K) : M K A := λ k, let '(a, k) := f k in (Done a, k).

(** [lib/cpp/i2chdmi.h:21-30] i2c_write_array: the loop over register/value pairs;
    an odd byte at the end is read beyond the array *)
Fixpoint write_pairs (data : list Z) : M K Z :=
  match data with
  | [] => mret 0
  | reg :: v :: data =>
      status ← bus (smbus_write reg v);
      if bool_decide (status = 0) then write_pairs data else mret (-1)
  | [_] => undefined
  end.

(** [lib/cpp/i2chdmi.h:8-32] i2c_write_array *)
Definition i2c_write_array (device : Z) (data : list Z) : M K Z :=
  status ← bus (i2c_slave device);
  if bool_decide (status = 0) then write_pairs data else mret (-1).

(** [lib/cpp/i2chdmi.h:33-51] i2c_read_reg; errors are only printed *)
Definition i2c_read_reg (device reg : Z) : M K Z :=
  bus (i2c_slave device);;
  '(_, v) ← bus (smbus_read reg);
  mret v.

(** [lib/cpp/i2chdmi.h:54-71] muxdata and hdmidata of init_i2c_hdmi *)
Definition muxdata : list Z := [2; 2].
Definition hdmidata : list Z := [
  0x41; 0x10; 0xD6; 0xC0; 0x15; 0x01; 0x16; 0x38; 0x18; 0xAB; 0x19; 0x37;
  0x1A; 0x08; 0x1B; 0x00; 0x1C; 0x00; 0x1D; 0x00; 0x1E; 0x1A; 0x1F; 0x86;
  0x20; 0x1A; 0x21; 0x49; 0x22; 0x08; 0x23; 0x00; 0x24; 0x1D; 0x25; 0x3F;
  0x26; 0x04; 0x27; 0x22; 0x28; 0x00; 0x29; 0x00; 0x2A; 0x08; 0x2B; 0x00;
  0x2C; 0x0E; 0x2D; 0x2D; 0x2E; 0x19; 0x2F; 0x14; 0x48; 0x08; 0x55; 0x00;
  0x56; 0x28; 0x98; 0x03; 0x9A; 0xE0; 0x9C; 0x30; 0x9D; 0x61; 0xA2; 0xA4;
  0xA3; 0xA4; 0xAF; 0x04; 0xE0; 0xD0; 0xF9; 0x00].

(** [lib/cpp/i2chdmi.h:88-98] hdmidata of init_i2c_hdmi_rgb24 *)
Definition hdmidata_rgb24 : list Z := [
  0x41; 0x10; 0xD6; 0xC0; 0x15; 0x00; 0x16; 0x38; 0x18; 0xAB; 0x19; 0x37;
  0x1A; 0x08; 0x1B; 0x00; 0x1C; 0x00; 0x1D; 0x00; 0x1E; 0x1A; 0x1F; 0x86;
  0x20; 0x1A; 0x21; 0x49; 0x22; 0x08; 0x23; 0x00; 0x24; 0x1D; 0x25; 0x3F;
  0x26; 0x04; 0x27; 0x22; 0x28; 0x00; 0x29; 0x00; 0x2A; 0x08; 0x2B; 0x00;
  0x2C; 0x0E; 0x2D; 0x2D; 0x2E; 0x19; 0x2F; 0x14; 0x48; 0x08; 0x55; 0x00;
  0x56; 0x28; 0x98; 0x03; 0x9A; 0xE0; 0x9C; 0x30; 0x9D; 0x61; 0xA2; 0xA4;
  0xA3; 0xA4; 0xAF; 0x04; 0xE0; 0xD0; 0xF9; 0x00].

(** [lib/cpp/i2chdmi.h:52-84] init_i2c_hdmi; a failed step is printed and the next
    one runs all the same.  [zedboard] is BOARD_zedboard. *)
Definition init_i2c_hdmi (zedboard : bool) : M K () :=
  (if zedboard then mret tt else i2c_write_array 0x74 muxdata;; mret tt);;
  i2c_write_array 0x39 hdmidata;; mret tt.

(** [lib/cpp/i2chdmi.h:85-109] init_i2c_hdmi_rgb24 *)
Definition init_i2c_hdmi_rgb24 : M K () :=
  i2c_write_array 0x74 muxdata;; i2c_write_array 0x39 hdmidata_rgb24;; mret tt.
End Bus.

(** *** A working bus: the registers of every slave, the selected slave *)
Record i2c_regs := mkRegs { selected : Z; writes : list (Z * Z * Z) }.
#[local] Instance regs_bus : I2c i2c_regs := {
  i2c_slave d k := (0, mkRegs d (writes k));
  smbus_write reg v k := (0, mkRegs (selected k) (writes k ++ [(selected k, reg, v)]));
  smbus_read reg k := ((0, 0), k);
}.

(** The register writes of a list of pairs. *)
Fixpoint pair_writes (device : Z) (data : list Z) : list (Z * Z * Z) :=
  match data with
  | reg :: v :: data => (device, reg, v) :: pair_writes device data
  | _ => []
  end.

(** On a working bus an array of pairs is written completely and in order. *)
Lemma i2c_write_array_all device data k : Nat.even (length data) = true →
  i2c_write_array device data k = (Done 0, mkRegs device (writes k ++ pair_writes device data)).
Proof.
  intros He. unfold i2c_write_array. rewrite (bind_Done _ _ _ 0 (mkRegs device (writes k))) by done.
  simpl. generalize (writes k). apply Nat.even_spec in He as [n En].
  revert data En; induction n as [|n IH]; intros data En l.
  - destruct data; [by rewrite app_nil_r|done].
  - destruct data as [|a [|b data]]; [done|simpl in En; lia|]. cbn [write_pairs pair_writes].
    rewrite (bind_Done _ _ _ 0 (mkRegs device (l ++ [(device, a, b)]))) by done. simpl.
    rewrite IH by (simpl in En; lia). by rewrite <-app_assoc.
Qed.

(** The two set-ups differ in the video input format only. *)
Example rgb24_differs : filter (λ p, p.1 ≠ p.2) (zip (pair_writes 0x39 hdmidata) (pair_writes 0x39 hdmidata_rgb24))
  = [((0x39, 0x15, 0x01), (0x39, 0x15, 0x00))].
Proof. vm_compute. reflexivity. Qed.

Lemma edid_roundtrip_witness :
  let t := mkTiming 14850 1920 280 1080 45 88 44 4 5 531 299 0 0 30 in
  let rs := [RTiming t; RMonitor (replicate 16 0xFC); RMonitor (replicate 16 1); RTiming t] in
  parseEdid (replicate 54 0 ++ (rs ≫= record_bytes) ++ replicate 130 0) = record_timing <$> rs.
Proof.
  intros t rs. apply (edid_roundtrip (replicate 54 0) rs (replicate 130 0)); [done|done|].
  repeat constructor; simpl; lia.
Defined.
