(* ===== verification/Ring.v ===== *)
(** * Command and status rings (src/examples/ring)

    testring.cpp drives an engine through two rings of 64-byte slots in shared
    memory: software appends commands to one, hardware appends a status message
    per completed command to the other.  This file has the program and the
    hardware it talks to (examples/ring/*.bsv and lib/bsv/RingBuffer.bsv) as one
    executable model; RingInv.v proves the protocol and RingClient.v the programs
    on top of it.

    Hardware and software run side by side.  The hardware's rules are the steps
    [hwstep]; which of them fire between two accesses of software to shared
    memory is given by a schedule [sched], an arbitrary function of the number of
    accesses so far.  A rule that is not ready does nothing. *)
From stdpp Require Import base gmap numbers list.
From S2P Require Import Prelude.
Local Open Scope Z_scope.

(** [examples/ring/testring.cpp:60-63] CMD_NOP, CMD_COPY, CMD_ECHO, CMD_FILL *)
Definition CMD_NOP : Z := 0.
Definition CMD_COPY : Z := 1.
Definition CMD_ECHO : Z := 2.
Definition CMD_FILL : Z := 3.

(** [examples/ring/testring.cpp:97-104] the registers of [get] and [set] *)
Definition REG_BASE : Z := 0.
Definition REG_END : Z := 1.
Definition REG_FIRST : Z := 2.
Definition REG_LASTFETCH : Z := 3.
Definition REG_MASK : Z := 4.
Definition REG_HANDLE : Z := 5.
Definition REG_LASTACK : Z := 6.

(** ** Words in shared memory

    A ring's buffer is the list of its 64-bit words; offsets are in bytes. *)
Definition word (off : Z) : nat := Z.to_nat (off / 8).
Definition slot (buf : list Z) (k : Z) : list Z := take 8 (drop (word (64 * k)) buf).

(** ** The hardware's ring registers *)
Module Hw.

(** [lib/bsv/RingBuffer.bsv:61-68] mkRingBuffer: its registers *)
Record RingBuffer := mkRingBuffer {
  rbufferbase : Z; rbufferend : Z; rbufferfirst : Z; rbufferlastfetch : Z;
  rbufferlastack : Z; rbuffermask : Z; rmempointer : Z; renable : bool }.

Definition ring_reset : RingBuffer := mkRingBuffer 0 0 0 0 0 0 0 false.

(** Truncation to ObjectOffsetSize bits. *)
Definition offset (x : Z) : Z := x mod 2 ^ 40.

(** [lib/bsv/RingBuffer.bsv:71-80] set *)
Definition set (regist addr : Z) (b : RingBuffer) : RingBuffer :=
  let '(mkRingBuffer b0 b1 b2 b3 b6 b4 b5 en) := b in
  let v := offset addr in
  if bool_decide (regist = 0) then mkRingBuffer v b1 b2 b3 b6 b4 b5 en
  else if bool_decide (regist = 1) then mkRingBuffer b0 v b2 b3 b6 b4 b5 en
  else if bool_decide (regist = 2) then mkRingBuffer b0 b1 v b3 b6 b4 b5 en
  else if bool_decide (regist = 3) then mkRingBuffer b0 b1 b2 v b6 b4 b5 en
  else if bool_decide (regist = 4) then mkRingBuffer b0 b1 b2 b3 b6 v b5 en
  else if bool_decide (regist = 5) then mkRingBuffer b0 b1 b2 b3 b6 b4 (u32 addr) en
  else if bool_decide (regist = 6) then mkRingBuffer b0 b1 b2 b3 v b4 b5 en
  else mkRingBuffer b0 b1 b2 b3 b6 b4 b5 (Z.odd addr).

(** [lib/bsv/RingBuffer.bsv:82-89] setFirst, setLast *)
Definition setFirst (addr : Z) (b : RingBuffer) : RingBuffer :=
  let '(mkRingBuffer b0 b1 _ b3 b6 b4 b5 en) := b in
  mkRingBuffer b0 b1 (offset addr) b3 b6 b4 b5 en.
Definition setLast (addr : Z) (b : RingBuffer) : RingBuffer :=
  let '(mkRingBuffer b0 b1 b2 _ _ b4 b5 en) := b in
  mkRingBuffer b0 b1 b2 (offset addr) (offset addr) b4 b5 en.

(** [lib/bsv/RingBuffer.bsv:91-100] get *)
Definition get (regist : Z) (b : RingBuffer) : Z :=
  if bool_decide (regist = 0) then rbufferbase b
  else if bool_decide (regist = 1) then rbufferend b
  else if bool_decide (regist = 2) then rbufferfirst b
  else if bool_decide (regist = 3) then rbufferlastfetch b
  else if bool_decide (regist = 4) then rbuffermask b
  else if bool_decide (regist = 5) then rmempointer b
  else if bool_decide (regist = 6) then rbufferlastack b
  else Z.b2z (renable b).

(** The next slot, as an offset. *)
Definition advance (x mask : Z) : Z := Z.land (offset (x + 64)) mask.

(** [lib/bsv/RingBuffer.bsv:107-116] notEmpty, notFull *)
Definition notEmpty (b : RingBuffer) : bool :=
  bool_decide (rbufferfirst b ≠ rbufferlastfetch b).
Definition notFull (b : RingBuffer) : bool :=
  bool_decide (advance (rbufferfirst b) (rbuffermask b) ≠ rbufferlastack b).

(** [lib/bsv/RingBuffer.bsv:118-128] push, popfetch, popack *)
Definition push (b : RingBuffer) : RingBuffer :=
  let '(mkRingBuffer b0 b1 b2 b3 b6 b4 b5 en) := b in
  mkRingBuffer b0 b1 (advance b2 b4) b3 b6 b4 b5 en.
Definition popfetch (b : RingBuffer) : RingBuffer :=
  let '(mkRingBuffer b0 b1 b2 b3 b6 b4 b5 en) := b in
  mkRingBuffer b0 b1 b2 (advance b3 b4) b6 b4 b5 en.
Definition popack (b : RingBuffer) : RingBuffer :=
  let '(mkRingBuffer b0 b1 b2 b3 b6 b4 b5 en) := b in
  mkRingBuffer b0 b1 b2 b3 (advance b6 b4) b4 b5 en.

End Hw.

(** ** State *)

(** What a [base] pointer points to. *)
Inductive buffer := CmdBuffer | StatusBuffer.

(** [examples/ring/testring.cpp:86-95] struct SWRing *)
Record SWRing := mkSWRing {
  ref : Z; base : buffer; first : Z; last : Z; size : Z; slots : Z;
  cached_space : Z; ringid : Z }.

(** The functions used as completion callbacks. *)
Inductive finish_fn := FlagFinish | EchoFinish.
#[export] Instance finish_fn_eq_dec : EqDecision finish_fn.
Proof. solve_decision. Defined.

(** [examples/ring/testring.cpp:69-75] struct Ring_Completion: [arg] points to a
    flag or to a completion event, by its number; [None] is NULL. *)
Record Ring_Completion := mkCompletion {
  tag : nat; in_use : Z; finish : option finish_fn; arg : option nat }.

(** [examples/ring/testring.cpp:366-370] struct CompletionEvent *)
Record CompletionEvent := mkEvent {
  exp_a : Z; exp_b : Z; got_a : Z; got_b : Z; flag : Z }.

(** [examples/ring/testring.cpp:40-107] the globals of the program.  [flags] and
    [events] are the objects completions point to, [printed] the failures
    reported.  [completionfreelist] holds tags, head first. *)
Record Sw := mkSw {
  cmd_ring : SWRing; status_ring : SWRing;
  completion : list Ring_Completion; completionfreelist : list nat;
  setresult_flag : Z; getresult_flag : Z; ring_init_done : Z;
  flags : list Z; events : list CompletionEvent; totalCompletions : Z;
  printed : list Z }.

(** [examples/ring/Ring.bsv:64-77] mkRingRequest: the registers.  [reads] are the
    offsets of the command reads in flight, [acks] the finished reads that have
    not been acknowledged in the ring, [copyq] and [echoq] the commands inside
    the engines and [copyout] the copy engine's responses.  Requests from
    software wait in one FIFO per method, indications to software in [inds]. *)
Record HwState := mkHw {
  cmdRing : Hw.RingBuffer; statusRing : Hw.RingBuffer; hwenabled : bool;
  reads : list Z; acks : nat;
  copyq : list (list Z); copyout : list (list Z); echoq : list (list Z);
  set_f : list (Z * Z * Z); cmdFirst_f : list Z; cmdLast_f : list Z;
  statusFirst_f : list Z; statusLast_f : list Z; get_f : list (Z * Z);
  inds : list (bool * Z * Z * Z) }.

(** Shared memory: the rings as 64-bit words, the scratch memory as bytes. *)
Record Mem := mkMem {
  cmdBuffer : list Z; statusBuffer : list Z; scratchBuffer : list Z }.

Record World := mkWorld { sw : Sw; hw : HwState; mem : Mem; now : nat }.

(** Field updates. *)
Definition upd_sw (f : Sw → Sw) (w : World) : World :=
  mkWorld (f (sw w)) (hw w) (mem w) (now w).
Definition upd_hw (f : HwState → HwState) (w : World) : World :=
  mkWorld (sw w) (f (hw w)) (mem w) (now w).
Definition upd_mem (f : Mem → Mem) (w : World) : World :=
  mkWorld (sw w) (hw w) (f (mem w)) (now w).
Definition set_first x (r : SWRing) : SWRing :=
  mkSWRing (ref r) (base r) x (last r) (size r) (slots r) (cached_space r)
    (ringid r).
Definition set_last x (r : SWRing) : SWRing :=
  mkSWRing (ref r) (base r) (first r) x (size r) (slots r) (cached_space r)
    (ringid r).
Definition set_cached_space x (r : SWRing) : SWRing :=
  mkSWRing (ref r) (base r) (first r) (last r) (size r) (slots r) x (ringid
    r).
Definition set_cmd_ring x (s : Sw) : Sw :=
  mkSw x (status_ring s) (completion s) (completionfreelist s) (setresult_flag
    s) (getresult_flag s) (ring_init_done s) (flags s) (events s)
    (totalCompletions s) (printed s).
Definition set_status_ring x (s : Sw) : Sw :=
  mkSw (cmd_ring s) x (completion s) (completionfreelist s) (setresult_flag s)
    (getresult_flag s) (ring_init_done s) (flags s) (events s)
    (totalCompletions s) (printed s).
Definition set_completion x (s : Sw) : Sw :=
  mkSw (cmd_ring s) (status_ring s) x (completionfreelist s) (setresult_flag
    s) (getresult_flag s) (ring_init_done s) (flags s) (events s)
    (totalCompletions s) (printed s).
Definition set_completionfreelist x (s : Sw) : Sw :=
  mkSw (cmd_ring s) (status_ring s) (completion s) x (setresult_flag s)
    (getresult_flag s) (ring_init_done s) (flags s) (events s)
    (totalCompletions s) (printed s).
Definition set_setresult_flag x (s : Sw) : Sw :=
  mkSw (cmd_ring s) (status_ring s) (completion s) (completionfreelist s) x
    (getresult_flag s) (ring_init_done s) (flags s) (events s)
    (totalCompletions s) (printed s).
Definition set_getresult_flag x (s : Sw) : Sw :=
  mkSw (cmd_ring s) (status_ring s) (completion s) (completionfreelist s)
    (setresult_flag s) x (ring_init_done s) (flags s) (events s)
    (totalCompletions s) (printed s).
Definition set_ring_init_done x (s : Sw) : Sw :=
  mkSw (cmd_ring s) (status_ring s) (completion s) (completionfreelist s)
    (setresult_flag s) (getresult_flag s) x (flags s) (events s)
    (totalCompletions s) (printed s).
Definition set_flags x (s : Sw) : Sw :=
  mkSw (cmd_ring s) (status_ring s) (completion s) (completionfreelist s)
    (setresult_flag s) (getresult_flag s) (ring_init_done s) x (events s)
    (totalCompletions s) (printed s).
Definition set_events x (s : Sw) : Sw :=
  mkSw (cmd_ring s) (status_ring s) (completion s) (completionfreelist s)
    (setresult_flag s) (getresult_flag s) (ring_init_done s) (flags s) x
    (totalCompletions s) (printed s).
Definition set_totalCompletions x (s : Sw) : Sw :=
  mkSw (cmd_ring s) (status_ring s) (completion s) (completionfreelist s)
    (setresult_flag s) (getresult_flag s) (ring_init_done s) (flags s) (events
    s) x (printed s).
Definition set_printed x (s : Sw) : Sw :=
  mkSw (cmd_ring s) (status_ring s) (completion s) (completionfreelist s)
    (setresult_flag s) (getresult_flag s) (ring_init_done s) (flags s) (events
    s) (totalCompletions s) x.
Definition set_cmdRing x (h : HwState) : HwState :=
  mkHw x (statusRing h) (hwenabled h) (reads h) (acks h) (copyq h) (copyout h)
    (echoq h) (set_f h) (cmdFirst_f h) (cmdLast_f h) (statusFirst_f h)
    (statusLast_f h) (get_f h) (inds h).
Definition set_statusRing x (h : HwState) : HwState :=
  mkHw (cmdRing h) x (hwenabled h) (reads h) (acks h) (copyq h) (copyout h)
    (echoq h) (set_f h) (cmdFirst_f h) (cmdLast_f h) (statusFirst_f h)
    (statusLast_f h) (get_f h) (inds h).
Definition set_hwenabled x (h : HwState) : HwState :=
  mkHw (cmdRing h) (statusRing h) x (reads h) (acks h) (copyq h) (copyout h)
    (echoq h) (set_f h) (cmdFirst_f h) (cmdLast_f h) (statusFirst_f h)
    (statusLast_f h) (get_f h) (inds h).
Definition set_reads x (h : HwState) : HwState :=
  mkHw (cmdRing h) (statusRing h) (hwenabled h) x (acks h) (copyq h) (copyout
    h) (echoq h) (set_f h) (cmdFirst_f h) (cmdLast_f h) (statusFirst_f h)
    (statusLast_f h) (get_f h) (inds h).
Definition set_acks x (h : HwState) : HwState :=
  mkHw (cmdRing h) (statusRing h) (hwenabled h) (reads h) x (copyq h) (copyout
    h) (echoq h) (set_f h) (cmdFirst_f h) (cmdLast_f h) (statusFirst_f h)
    (statusLast_f h) (get_f h) (inds h).
Definition set_copyq x (h : HwState) : HwState :=
  mkHw (cmdRing h) (statusRing h) (hwenabled h) (reads h) (acks h) x (copyout
    h) (echoq h) (set_f h) (cmdFirst_f h) (cmdLast_f h) (statusFirst_f h)
    (statusLast_f h) (get_f h) (inds h).
Definition set_copyout x (h : HwState) : HwState :=
  mkHw (cmdRing h) (statusRing h) (hwenabled h) (reads h) (acks h) (copyq h) x
    (echoq h) (set_f h) (cmdFirst_f h) (cmdLast_f h) (statusFirst_f h)
    (statusLast_f h) (get_f h) (inds h).
Definition set_echoq x (h : HwState) : HwState :=
  mkHw (cmdRing h) (statusRing h) (hwenabled h) (reads h) (acks h) (copyq h)
    (copyout h) x (set_f h) (cmdFirst_f h) (cmdLast_f h) (statusFirst_f h)
    (statusLast_f h) (get_f h) (inds h).
Definition set_set_f x (h : HwState) : HwState :=
  mkHw (cmdRing h) (statusRing h) (hwenabled h) (reads h) (acks h) (copyq h)
    (copyout h) (echoq h) x (cmdFirst_f h) (cmdLast_f h) (statusFirst_f h)
    (statusLast_f h) (get_f h) (inds h).
Definition set_cmdFirst_f x (h : HwState) : HwState :=
  mkHw (cmdRing h) (statusRing h) (hwenabled h) (reads h) (acks h) (copyq h)
    (copyout h) (echoq h) (set_f h) x (cmdLast_f h) (statusFirst_f h)
    (statusLast_f h) (get_f h) (inds h).
Definition set_cmdLast_f x (h : HwState) : HwState :=
  mkHw (cmdRing h) (statusRing h) (hwenabled h) (reads h) (acks h) (copyq h)
    (copyout h) (echoq h) (set_f h) (cmdFirst_f h) x (statusFirst_f h)
    (statusLast_f h) (get_f h) (inds h).
Definition set_statusFirst_f x (h : HwState) : HwState :=
  mkHw (cmdRing h) (statusRing h) (hwenabled h) (reads h) (acks h) (copyq h)
    (copyout h) (echoq h) (set_f h) (cmdFirst_f h) (cmdLast_f h) x
    (statusLast_f h) (get_f h) (inds h).
Definition set_statusLast_f x (h : HwState) : HwState :=
  mkHw (cmdRing h) (statusRing h) (hwenabled h) (reads h) (acks h) (copyq h)
    (copyout h) (echoq h) (set_f h) (cmdFirst_f h) (cmdLast_f h)
    (statusFirst_f h) x (get_f h) (inds h).
Definition set_get_f x (h : HwState) : HwState :=
  mkHw (cmdRing h) (statusRing h) (hwenabled h) (reads h) (acks h) (copyq h)
    (copyout h) (echoq h) (set_f h) (cmdFirst_f h) (cmdLast_f h)
    (statusFirst_f h) (statusLast_f h) x (inds h).
Definition set_inds x (h : HwState) : HwState :=
  mkHw (cmdRing h) (statusRing h) (hwenabled h) (reads h) (acks h) (copyq h)
    (copyout h) (echoq h) (set_f h) (cmdFirst_f h) (cmdLast_f h)
    (statusFirst_f h) (statusLast_f h) (get_f h) x.
Definition set_cmdBuffer x (m : Mem) : Mem :=
  mkMem x (statusBuffer m) (scratchBuffer m).
Definition set_statusBuffer x (m : Mem) : Mem :=
  mkMem (cmdBuffer m) x (scratchBuffer m).
Definition set_scratchBuffer x (m : Mem) : Mem :=
  mkMem (cmdBuffer m) (statusBuffer m) x.

(** ** The hardware's rules *)
Inductive hwstep :=
  | HwSet | HwSetCmdFirst | HwSetCmdLast | HwSetStatusFirst | HwSetStatusLast
  | HwGet | HwFetch | HwDispatch | HwAck | HwCopy | HwRespondCopy
  | HwRespondEcho.
#[export] Instance hwstep_eq_dec : EqDecision hwstep.
Proof. solve_decision. Defined.

Section Hardware.
(** The object the scratch memory is known by. *)
Context (scratchPointer : Z).

(** [examples/ring/Ring.bsv:204-235] set, setCmdFirst, setStatusFirst, setCmdLast,
    setStatusLast, get: one request at a time from the method's FIFO *)
Definition hw_set (w : World) : option World :=
  '(c, r, v) ← head (set_f (hw w));
  Some (upd_hw (λ h,
    set_set_f (tail (set_f h)) (set_inds (inds h ++ [(true, c, r, v)])
      (if bool_decide (c = 0) then set_cmdRing (Hw.set r v (cmdRing h)) h
       else set_statusRing (Hw.set r v (statusRing h)) h))) w).
Definition hw_setCmdFirst (w : World) : option World :=
  v ← head (cmdFirst_f (hw w));
  Some (upd_hw (λ h, set_cmdFirst_f (tail (cmdFirst_f h))
                       (set_cmdRing (Hw.setFirst v (cmdRing h)) h)) w).
Definition hw_setCmdLast (w : World) : option World :=
  v ← head (cmdLast_f (hw w));
  Some (upd_hw (λ h, set_cmdLast_f (tail (cmdLast_f h))
                       (set_cmdRing (Hw.setLast v (cmdRing h)) h)) w).
Definition hw_setStatusFirst (w : World) : option World :=
  v ← head (statusFirst_f (hw w));
  Some (upd_hw (λ h, set_statusFirst_f (tail (statusFirst_f h))
                       (set_statusRing (Hw.setFirst v (statusRing h)) h)) w).
Definition hw_setStatusLast (w : World) : option World :=
  v ← head (statusLast_f (hw w));
  Some (upd_hw (λ h, set_statusLast_f (tail (statusLast_f h))
                       (set_statusRing (Hw.setLast v (statusRing h)) h)) w).
Definition hw_get (w : World) : option World :=
  '(c, r) ← head (get_f (hw w));
  Some (upd_hw (λ h,
    set_get_f (tail (get_f h)) (set_inds (inds h ++
      [(false, c, r, Hw.get r (if bool_decide (c = 0) then cmdRing h
                               else statusRing h))]) h)) w).

(** [examples/ring/Ring.bsv:91-110] cmdFetch: start reading the next command, at
    most four at a time (the completion buffer's entries) *)
Definition hw_fetch (w : World) : option World :=
  if hwenabled (hw w) && Hw.notEmpty (cmdRing (hw w))
     && bool_decide (length (reads (hw w)) + acks (hw w) < 4)%nat
  then Some (upd_hw (λ h,
    set_reads (reads h ++ [Hw.rbufferlastfetch (cmdRing h)])
      (set_cmdRing (Hw.popfetch (cmdRing h)) h)) w)
  else None.

(** [examples/ring/Ring.bsv:79-89] engineselect, cmdifc *)
Definition engineselect (c : list Z) : Z := Z.land (Z.shiftr (nth 0 c 0) 56) 255.

(** [examples/ring/Ring.bsv:112-133] cmdDispatch: the data of the oldest read
    arrives and goes to its engine; the engines' FIFOs hold two commands, the
    copy engine works on one more, the nop engine drops what it gets *)
Definition hw_dispatch (w : World) : option World :=
  off ← head (reads (hw w));
  let c := slot (cmdBuffer (mem w)) (off / 64) in
  let h := set_reads (tail (reads (hw w))) (set_acks (S (acks (hw w))) (hw w)) in
  if bool_decide (engineselect c = CMD_COPY) then
    if bool_decide (length (copyq h) < 3)%nat
    then Some (upd_hw (λ _, set_copyq (copyq h ++ [c]) h) w) else None
  else if bool_decide (engineselect c = CMD_ECHO) then
    if bool_decide (length (echoq h) < 2)%nat
    then Some (upd_hw (λ _, set_echoq (echoq h ++ [c]) h) w) else None
  else Some (upd_hw (λ _, h) w).

(** [examples/ring/Ring.bsv:135-139] finishCmdReads *)
Definition hw_ack (w : World) : option World :=
  match acks (hw w) with
  | O => None
  | S n => Some (upd_hw (λ h, set_acks n
                          (set_cmdRing (Hw.popack (cmdRing h)) h)) w)
  end.

(** [examples/ring/CopyEngine.bsv:58-95] the arguments of a copy command *)
Definition copy_src (c : list Z) : Z := Hw.offset (nth 2 c 0).
Definition copy_dst (c : list Z) : Z := Hw.offset (nth 4 c 0).
Definition copy_count (c : list Z) : Z := u16 (nth 5 c 0).

(** Both ranges are whole words inside the scratch memory (a list of bytes) and do not
    overlap. *)
Definition copy_ok (c : list Z) (scratch : list Z) : bool :=
  bool_decide (u32 (nth 1 c 0) = scratchPointer) &&
  bool_decide (u32 (nth 3 c 0) = scratchPointer) &&
  bool_decide (copy_src c mod 8 = 0) && bool_decide (copy_dst c mod 8 = 0) &&
  bool_decide (copy_count c mod 8 = 0) &&
  bool_decide (copy_src c + copy_count c ≤ length scratch) &&
  bool_decide (copy_dst c + copy_count c ≤ length scratch) &&
  bool_decide (copy_src c + copy_count c ≤ copy_dst c ∨
               copy_dst c + copy_count c ≤ copy_src c).

(** [examples/ring/CopyEngine.bsv:97-110] copyReadRule, copyReadWriteRule: the words
    of the source are written to the destination.  (Reads run ahead of writes by
    an unknown number of words, so overlapping ranges have no defined result.) *)
Definition copy_words (c : list Z) (scratch : list Z) : list Z :=
  list_inserts (Z.to_nat (copy_dst c))
    (take (Z.to_nat (copy_count c)) (drop (Z.to_nat (copy_src c)) scratch)) scratch.

(** [examples/ring/CopyEngine.bsv:112-135] copyFinish: seven zero words and the tag *)
Definition copy_response (c : list Z) : list Z :=
  [0; 0; 0; 0; 0; 0; 0; u32 (nth 7 c 0)].
Definition hw_copy_engine (w : World) : option World :=
  c ← head (copyq (hw w));
  if copy_ok c (scratchBuffer (mem w))
     && bool_decide (length (copyout (hw w)) < 2)%nat
  then Some (upd_mem (λ m, set_scratchBuffer (copy_words c (scratchBuffer m)) m)
    (upd_hw (λ h, set_copyq (tail (copyq h))
                    (set_copyout (copyout h ++ [copy_response c]) h)) w))
  else None.

(** [examples/ring/Ring.bsv:141-179] responseArbiter: the next message is written to
    the status ring, when that is not full *)
Definition hw_status (r : list Z) (h : HwState → HwState) (w : World)
    : option World :=
  if Hw.notFull (statusRing (hw w)) then
    Some (upd_mem (λ m, set_statusBuffer
        (list_inserts (word (Hw.rbufferfirst (statusRing (hw w)))) r
           (statusBuffer m)) m)
      (upd_hw (λ s, h (set_statusRing (Hw.push (statusRing s)) s)) w))
  else None.
Definition hw_respond_copy (w : World) : option World :=
  r ← head (copyout (hw w));
  hw_status r (λ h, set_copyout (tail (copyout h)) h) w.

(** [examples/ring/EchoEngine.bsv:29-38] mkEchoEngine: a response is the command *)
Definition hw_respond_echo (w : World) : option World :=
  c ← head (echoq (hw w));
  hw_status c (λ h, set_echoq (tail (echoq h)) h) w.

Definition hw_exec (k : hwstep) : World → option World :=
  match k with
  | HwSet => hw_set | HwSetCmdFirst => hw_setCmdFirst
  | HwSetCmdLast => hw_setCmdLast | HwSetStatusFirst => hw_setStatusFirst
  | HwSetStatusLast => hw_setStatusLast | HwGet => hw_get
  | HwFetch => hw_fetch | HwDispatch => hw_dispatch | HwAck => hw_ack
  | HwCopy => hw_copy_engine | HwRespondCopy => hw_respond_copy
  | HwRespondEcho => hw_respond_echo
  end.
Definition hw_try (w : World) (k : hwstep) : World := default w (hw_exec k w).
End Hardware.

(** ** The program *)
Section Program.
Context (scratchPointer : Z).
(** Which rules fire at each access of software to the hardware. *)
Context (sched : nat → list hwstep).
(** What portalExec_poll returns. *)
Context (poll_rc : nat → Z).
(** The words of a command that the program leaves uninitialised. *)
Context (junk : nat → Z).

(** The hardware's rules that fire at this point. *)
Definition hw_run : M World () :=
  modify (λ w, foldl (hw_try scratchPointer)
                 (mkWorld (sw w) (hw w) (mem w) (S (now w))) (sched (now w))).

Definition sw_gets {A} (f : Sw → A) : M World A := gets (λ w, f (sw w)).
Definition sw_modify (f : Sw → Sw) : M World () := modify (upd_sw f).
Definition hw_modify (f : HwState → HwState) : M World () := modify (upd_hw f).

(** An access to an array element: outside the array it is undefined. *)
Definition elem {A} (l : list A) (i : nat) : M World A :=
  match l !! i with Some x => mret x | None => undefined end.
Definition load (b : buffer) (off : Z) : M World Z :=
  w ← get;
  elem (match b with CmdBuffer => cmdBuffer (mem w)
        | StatusBuffer => statusBuffer (mem w) end) (word off).
Definition store (b : buffer) (off v : Z) : M World () :=
  _ ← load b off;
  modify (upd_mem (λ m, match b with
    | CmdBuffer => set_cmdBuffer (<[word off := v]> (cmdBuffer m)) m
    | StatusBuffer => set_statusBuffer (<[word off := v]> (statusBuffer m)) m
    end)).

Definition memcpy (b : buffer) (off : Z) (ws : list Z) : M World () :=
  w ← get;
  let buf := match b with CmdBuffer => cmdBuffer (mem w)
             | StatusBuffer => statusBuffer (mem w) end in
  if bool_decide (word off + length ws ≤ length buf)%nat then
    modify (upd_mem (λ m, match b with
      | CmdBuffer => set_cmdBuffer (list_inserts (word off) ws (cmdBuffer m)) m
      | StatusBuffer => set_statusBuffer (list_inserts (word off) ws (statusBuffer m)) m
      end))
  else undefined.

(** The two rings, by their addresses. *)
Inductive ringptr := CmdRing | StatusRing.
Definition get_ring (p : ringptr) : M World SWRing :=
  sw_gets (match p with CmdRing => cmd_ring | StatusRing => status_ring end).
Definition set_ring (p : ringptr) (r : SWRing) : M World () :=
  sw_modify (match p with CmdRing => set_cmd_ring r
             | StatusRing => set_status_ring r end).

(** Requests to the hardware. *)
Definition ring_set (c regist v : Z) : M World () :=
  hw_modify (λ h, set_set_f (set_f h ++ [(c, regist, v)]) h).
Definition ring_get (c regist : Z) : M World () :=
  hw_modify (λ h, set_get_f (get_f h ++ [(c, regist)]) h).
Definition ring_setCmdFirst (v : Z) : M World () :=
  hw_modify (λ h, set_cmdFirst_f (cmdFirst_f h ++ [v]) h).
Definition ring_setCmdLast (v : Z) : M World () :=
  hw_modify (λ h, set_cmdLast_f (cmdLast_f h ++ [v]) h).
Definition ring_setStatusFirst (v : Z) : M World () :=
  hw_modify (λ h, set_statusFirst_f (statusFirst_f h ++ [v]) h).
Definition ring_setStatusLast (v : Z) : M World () :=
  hw_modify (λ h, set_statusLast_f (statusLast_f h ++ [v]) h).

(** [examples/ring/testring.cpp:109-121] completion_list_init *)
Definition completion_list_init : M World () :=
  sw_modify (set_completionfreelist []);;
  for_each (seq 1 1023) (λ i, sw_modify (λ s,
    set_completion (<[i := mkCompletion i 0 None None]> (completion s))
      (set_completionfreelist (completionfreelist s ++ [i]) s))).

(** [examples/ring/testring.cpp:123-132] get_free_completion *)
Definition get_free_completion : M World (option nat) :=
  l ← sw_gets completionfreelist;
  match l with
  | [] => mret None
  | p :: rest =>
      sw_modify (set_completionfreelist rest);;
      cs ← sw_gets completion; c ← elem cs p;
      assert (bool_decide (in_use c = 0));;
      sw_modify (λ s, set_completion
        (<[p := mkCompletion (tag c) 1 (finish c) (arg c)]> (completion s)) s);;
      mret (Some p)
  end.

(** [examples/ring/testring.cpp:329-333] flag_finish *)
Definition flag_finish (a : option nat) (event : Z) : M World () :=
  match a with
  | None => undefined
  | Some i =>
      fl ← sw_gets flags; _ ← elem fl i;
      sw_modify (λ s, set_flags (<[i := 1]> (flags s)) s)
  end.

(** [examples/ring/testring.cpp:374-382] echo_finish *)
Definition echo_finish (a : option nat) (event : Z) : M World () :=
  match a with
  | None => assert false
  | Some i =>
      es ← sw_gets events; p ← elem es i;
      ga ← load StatusBuffer (event + 8); gb ← load StatusBuffer (event + 16);
      sw_modify (λ s, set_totalCompletions (s32 (totalCompletions s + 1))
        (set_events (<[i := mkEvent (exp_a p) (exp_b p) ga gb 1]> (events s)) s))
  end.
Definition call_finish (f : finish_fn) : option nat → Z → M World () :=
  match f with FlagFinish => flag_finish | EchoFinish => echo_finish end.

(** [examples/ring/testring.cpp:134-146] Ring_Handle_Completion: [event] is a
    message in the status buffer *)
Definition Ring_Handle_Completion (event : Z) : M World () :=
  e7 ← load StatusBuffer (event + 56);
  let t := Z.land e7 0xffff in
  assert (bool_decide (t < 1024));;
  let t := Z.to_nat t in
  cs ← sw_gets completion; p ← elem cs t;
  assert (bool_decide (in_use p = 1));;
  sw_modify (λ s, set_completion
    (<[t := mkCompletion (tag p) 0 (finish p) (arg p)]> (completion s)) s);;
  match finish p with
  | Some f => call_finish f (arg p) event
  | None => mret tt
  end;;
  store StatusBuffer (event + 56) 0;;
  sw_modify (λ s, set_completionfreelist (completionfreelist s ++ [t]) s).

(** [examples/ring/testring.cpp:148-167] class RingIndication: setResult, getResult *)
Definition setResult (cmd regist addr : Z) : M World () :=
  sw_modify (set_setresult_flag 1).
Definition getResult (cmd regist addr : Z) : M World () :=
  r ← get_ring CmdRing;
  when (bool_decide (cmd = ringid r) && bool_decide (regist = REG_LASTACK))
    (set_ring CmdRing (set_last (u32 addr) r));;
  sw_modify (set_getresult_flag 1).

(** The portal library's event dispatch: every indication that has arrived is
    delivered to its method (Poller.v).  It returns NULL. *)
Definition portalExec_event : M World Z :=
  w ← get;
  for_each (inds (hw w)) (λ '(isset, c, r, v),
    if (isset : bool) then setResult c r v else getResult c r v);;
  hw_modify (set_inds []);;
  mret 0.

(** [examples/ring/testring.cpp:211-216] ring_next *)
Definition ring_next (p : ringptr) : M World (option Z) :=
  r ← get_ring p;
  v ← load (base r) (last r + 56);
  mret (if bool_decide (v = 0) then None else Some (last r)).

(** [examples/ring/testring.cpp:218-236] ring_pop *)
Definition ring_pop (p : ringptr) : M World () :=
  r ← get_ring p;
  store (base r) (last r + 56) 0;;
  let l := u32 (last r + 64) in
  let l := if bool_decide (size r ≤ l) then 0 else l in
  set_ring p (set_last l r);;
  when (bool_decide (l mod (Z.shiftr (size r) 2) = 0))
    (if bool_decide (ringid r = 0) then ring_setCmdLast l
     else ring_setStatusLast l).

(** [examples/ring/testring.cpp:238-248] StatusPollRingOnly *)
Fixpoint StatusPollRingOnly (fuel : nat) : M World () :=
  match fuel with
  | O => no_fuel
  | S fuel =>
      hw_run;;
      msg ← ring_next StatusRing;
      match msg with
      | None => mret tt
      | Some m =>
          Ring_Handle_Completion m;;
          ring_pop StatusRing;;
          StatusPollRingOnly fuel
      end
  end.

(** [examples/ring/testring.cpp:250-266] StatusPoll *)
Definition StatusPoll : M World () :=
  hw_run;;
  rc ← gets (λ w, poll_rc (now w));
  rc ← (if bool_decide (0 ≤ rc) then portalExec_event else mret rc);
  assert (bool_decide (rc = 0));;
  done ← sw_gets ring_init_done;
  if bool_decide (done = 0) then mret tt
  else
    hw_run;;
    msg ← ring_next StatusRing;
    match msg with
    | None => mret tt
    | Some m => Ring_Handle_Completion m;; ring_pop StatusRing
    end.

(** [examples/ring/testring.cpp:175-178] waitforflag, and the other loops that poll
    until a condition holds *)
Fixpoint poll_until (fuel : nat) (body : M World ()) (f : World → bool) : M World () :=
  match fuel with
  | O => no_fuel
  | S fuel => b ← gets f; if (b : bool) then mret tt else body;; poll_until fuel body f
  end.
Definition waitforflag (fuel : nat) (f : Sw → Z) : M World () :=
  poll_until fuel StatusPoll (λ w, bool_decide (f (sw w) ≠ 0)).

(** [examples/ring/testring.cpp:286-293] myPortalThreadProc: main starts this thread to
    poll while the objects are referenced and tells it to stop, but does not wait for
    it, so that it may still poll while main sets the rings up.  [thread] chooses
    before which of main's polls it does. *)
Context (thread : nat → bool).
Definition thread_poll : M World () :=
  b ← gets (λ w, thread (now w)); if (b : bool) then StatusPoll else mret tt.
Definition setup_wait (fuel : nat) : M World () :=
  poll_until fuel (thread_poll;; StatusPoll) (λ w, bool_decide (setresult_flag (sw w) ≠ 0)).

(** [examples/ring/testring.cpp:180-209] ring_init *)
Definition ring_init (fuel : nat) (p : ringptr) (id rf : Z) (b : buffer) (sz : Z)
    : M World () :=
  set_ring p (mkSWRing rf b 0 0 sz (sz / 64) (u32 (sz - 64)) id);;
  sw_modify (set_setresult_flag 0);;
  ring_set id REG_BASE 0;;
  setup_wait fuel;;
  sw_modify (set_setresult_flag 0);;
  ring_set id REG_END sz;;
  setup_wait fuel;;
  (if bool_decide (id = 0) then ring_setCmdFirst 0;; ring_setCmdLast 0
   else ring_setStatusFirst 0;; ring_setStatusLast 0);;
  sw_modify (set_setresult_flag 0);;
  ring_set id REG_MASK (sz - 1);;
  setup_wait fuel;;
  sw_modify (set_setresult_flag 0);;
  ring_set id REG_HANDLE rf;;
  setup_wait fuel.

(** [examples/ring/testring.cpp:305-312] ring_send: the loop that asks for space *)
Fixpoint ring_space (fuel : nat) (p : ringptr) : M World () :=
  match fuel with
  | O => no_fuel
  | S n =>
      r ← get_ring p;
      if bool_decide (cached_space r mod Z.shiftr (size r) 2 ≠ 0) then mret tt
      else
        sw_modify (set_getresult_flag 0);;
        ring_get (ringid r) REG_LASTACK;;
        waitforflag fuel getresult_flag;;
        r ← get_ring p;
        let c := u32 (u64 (size r + last r - first r - 64) mod size r) in
        set_ring p (set_cached_space c r);;
        if bool_decide (c ≠ 0) then mret tt else ring_space n p
  end.

(** [examples/ring/testring.cpp:300-325] ring_send *)
Definition ring_send (fuel : nat) (p : ringptr) (cmd : list Z)
    (fp : option finish_fn) (a : option nat) : M World () :=
  r ← get_ring p;
  assert (bool_decide (first r < size r));;
  ring_space fuel p;;
  c ← get_free_completion;
  match c with
  | None => assert false
  | Some t =>
      cs ← sw_gets completion; pc ← elem cs t;
      sw_modify (λ s, set_completion
        (<[t := mkCompletion (tag pc) (in_use pc) fp a]> (completion s)) s);;
      r ← get_ring p;
      let cmd := <[7%nat := Z.of_nat (tag pc)]> cmd in
      memcpy (base r) (first r) cmd;;
      let next := u32 (first r + 64) in
      let next := if bool_decide (next = size r) then 0 else next in
      set_ring p (set_first next
        (set_cached_space (u32 (cached_space r - 64)) r))
  end.

(** [examples/ring/testring.cpp:327-327] STARTRING *)
Definition STARTRING : M World () :=
  r ← get_ring CmdRing; ring_setCmdFirst (first r).

(** ** Commands

    [tcmd] is an array of eight words on the stack, of which each function sets
    some; [ring_send] sets the last. *)

(** [examples/ring/testring.cpp:340-345] the command of hw_copy and hw_copy_nb *)
Definition copy_cmd (from to count : Z) : list Z :=
  [Z.shiftl CMD_COPY 56; scratchPointer; u64 from; scratchPointer; u64 to; u32 count;
   junk 6; junk 7].
Definition echo_cmd (a b : Z) : list Z :=
  [Z.shiftl CMD_ECHO 56; u64 a; u64 b; junk 3; junk 4; junk 5; junk 6; junk 7].

(** [examples/ring/testring.cpp:336-349] hw_copy: its local [flag] is a new object *)
Definition hw_copy (fuel : nat) (from to count : Z) : M World () :=
  i ← sw_gets (λ s, length (flags s));
  sw_modify (λ s, set_flags (flags s ++ [0]) s);;
  ring_send fuel CmdRing (copy_cmd from to count) (Some FlagFinish) (Some i);;
  STARTRING;;
  poll_until fuel StatusPoll (λ w, bool_decide (nth i (flags (sw w)) 0 ≠ 0)).

(** [examples/ring/testring.cpp:351-362] hw_copy_nb *)
Definition hw_copy_nb (fuel : nat) (from to count : Z) (flag : nat) : M World () :=
  ring_send fuel CmdRing (copy_cmd from to count) (Some FlagFinish) (Some flag);;
  STARTRING.

(** [examples/ring/testring.cpp:385-390] deltatime *)
Definition deltatime (start stop : Z * Z) : Z :=
  let diff := s64 (s64 (stop.1 - start.1) * 1000000) in
  s64 (diff + s64 (stop.2 - start.2)).

(** [examples/ring/testring.cpp:440-458] hw_echo: its local [myevent] is a new
    object, the two values it gets are not initialised *)
Definition hw_echo (fuel : nat) (a b : Z) : M World () :=
  i ← sw_gets (λ s, length (events s));
  sw_modify (λ s, set_events (events s ++ [mkEvent (u64 a) (u64 b) (junk 8) (junk 9) 0]) s);;
  ring_send fuel CmdRing (echo_cmd a b) (Some EchoFinish) (Some i);;
  STARTRING;;
  poll_until fuel StatusPoll
    (λ w, bool_decide (from_option flag 1 (events (sw w) !! i) ≠ 0));;
  es ← sw_gets events; e ← elem es i;
  when (bool_decide (got_a e ≠ u64 a) || bool_decide (got_b e ≠ u64 b))
    (sw_modify (λ s, set_printed (printed s ++ [a]) s)).

(** [examples/ring/testring.cpp:460-468] hw_nop *)
Definition hw_nop (fuel : nat) : M World () :=
  ring_send fuel CmdRing
    [Z.shiftl CMD_NOP 56; 17; 34; junk 3; junk 4; junk 5; junk 6; junk 7] None None;;
  STARTRING.

(** The clock, at each access of software to the hardware. *)
Context (clock : nat → Z * Z).

(** [examples/ring/testring.cpp:403-409] fast_echo_test: expected values *)
Definition echo_setup (i : nat) : M World () :=
  es ← sw_gets events; e ← elem es i;
  sw_modify (λ s, set_events
    (<[i := mkEvent (0xaaa000 + i) (0xbbb000 + i) (got_a e) (got_b e) 0]> (events s)) s).

(** [examples/ring/testring.cpp:412-420] fast_echo_test: one command *)
Definition echo_send (fuel : nat) (i : nat) : M World () :=
  es ← sw_gets events; e ← elem es i;
  ring_send fuel CmdRing (echo_cmd (exp_a e) (exp_b e)) (Some EchoFinish) (Some i);;
  when (bool_decide (Z.land i 15 = 0)) STARTRING;;
  StatusPollRingOnly fuel.

(** [examples/ring/testring.cpp:424-431] fast_echo_test: comparison *)
Definition echo_check (i : nat) : M World () :=
  es ← sw_gets events; e ← elem es i;
  when (bool_decide (exp_a e ≠ got_a e) || bool_decide (exp_b e ≠ got_b e))
    (sw_modify (λ s, set_printed (printed s ++ [Z.of_nat i]) s)).

(** [examples/ring/testring.cpp:403-432] fast_echo_test: one round *)
Definition echo_round (fuel loops : nat) : M World Z :=
  for_each (seq 0 loops) echo_setup;;
  sw_modify (set_totalCompletions 0);;
  start ← gets (λ w, clock (now w));
  for_each (seq 0 loops) (echo_send fuel);;
  STARTRING;;
  poll_until fuel (StatusPollRingOnly fuel)
    (λ w, bool_decide (u32 (totalCompletions (sw w)) = loops));;
  stop ← gets (λ w, clock (now w));
  for_each (seq 0 loops) echo_check;;
  mret (deltatime start stop).

(** [examples/ring/testring.cpp:392-437] fast_echo_test: rounds of doubling size *)
Fixpoint fast_echo_loop (rounds fuel loops : nat) : M World Z :=
  match rounds with
  | O => no_fuel
  | S n =>
      interval ← echo_round fuel loops;
      if bool_decide (500000 ≤ interval) || bool_decide (16384 ≤ loops)
      then mret interval
      else fast_echo_loop n fuel (2 * loops)
  end.
Definition fast_echo_test (fuel : nat) : M World Z := fast_echo_loop 15 fuel 1.

(** ** main *)

(** [examples/ring/testring.cpp:523-534] main: the rings are set up and the engines
    turned on ([hwenable] of Ring.bsv takes effect at once here) *)
Definition setup (fuel : nat) (cmdPointer statusPointer : Z) : M World () :=
  ring_init fuel CmdRing 0 cmdPointer CmdBuffer 8192;;
  ring_init fuel StatusRing 1 statusPointer StatusBuffer 8192;;
  sw_modify (set_ring_init_done 1);;
  hw_modify (set_hwenabled true).

(** Stores to the scratch memory. *)
Definition store_scratch (i : nat) (v : Z) : M World () :=
  w ← get; _ ← elem (scratchBuffer (mem w)) i;
  modify (upd_mem (λ m, set_scratchBuffer (<[i := u8 v]> (scratchBuffer m)) m)).

(** [examples/ring/testring.cpp:541-561] main: pass 1, blocking copies and echoes *)
Definition pass1_step (fuel : nat) (i : nat) : M World () :=
  hw_copy fuel (256 * i) (256 * (i + 1)) 0x100;;
  hw_echo fuel (Z.shiftl 0x111 32 + i) (Z.shiftl 0x222 32 + i).
Definition pass1_check (i : nat) : M World () :=
  w ← get; b ← elem (scratchBuffer (mem w)) (i + 2560)%nat;
  when (bool_decide (b ≠ Z.of_nat i))
    (sw_modify (λ s, set_printed (printed s ++ [i + 2560]) s)).
Definition pass1 (fuel : nat) : M World () :=
  for_each (seq 0 256) (λ i, store_scratch i i);;
  for_each (seq 0 10) (pass1_step fuel);;
  for_each (seq 0 10) pass1_check.

(** [examples/ring/testring.cpp:562-585] main: pass 2, non-blocking copies: [flag] is
    the number of the first element of the local array [flag] *)
Definition pass2 (fuel : nat) (flag : nat) : M World () :=
  modify (upd_mem (λ m, set_scratchBuffer
    (replicate (length (scratchBuffer m)) 0) m));;
  for_each (seq 0 256) (λ i, store_scratch i i);;
  for_each (seq flag 10) (λ i, sw_modify (λ s, set_flags (<[i := 0]> (flags s)) s));;
  for_each (seq 0 10) (λ i, hw_copy_nb fuel (256 * i) (256 * (i + 1)) 0x100 (flag + i)%nat);;
  for_each (seq flag 10) (λ i,
    poll_until fuel StatusPoll (λ w, bool_decide (nth i (flags (sw w)) 0 ≠ 0))).

(** [examples/ring/testring.cpp:586-597] main: pass 3, and the fast echo test *)
Definition pass3 (fuel : nat) : M World () :=
  for_each (seq 0 512) (λ i,
    hw_echo fuel (Z.shiftl 0x333 32 + i) (Z.shiftl 0x444 32 + i)).
Definition tests (fuel : nat) : M World Z :=
  i ← sw_gets (λ s, length (flags s));
  sw_modify (λ s, set_flags (flags s ++ (junk <$> seq 0 10)) s);;
  pass1 fuel;; pass2 fuel i;; pass3 fuel;; fast_echo_test fuel.
End Program.
