(* ===== verification/RingInv.v ===== *)
(** * The ring protocol (src/examples/ring)

    The rings of Ring.v implement a simple service, [Spec]: a set of outstanding
    commands, each with its callback, that are performed and completed one at a
    time.  [Inv] ties the state of software, hardware and shared memory to a state
    of the service by ghost counters of the slots written and read so far; every
    rule of the hardware and every operation of the program preserves it. *)
From stdpp Require Import base gmap numbers relations list.
From S2P Require Import Prelude Ring.
Local Open Scope Z_scope.

(** ** The service *)

(** An outstanding command, with its callback; [e_done] says whether its effect on
    memory has taken place. *)
Record Entry := mkEntry {
  e_cmd : list Z; e_fin : option finish_fn; e_arg : option nat; e_done : bool }.
Record Spec := mkSpec {
  outst : gmap nat Entry; s_flags : list Z; s_events : list CompletionEvent;
  s_total : Z; s_scratch : list Z }.

Definition is_copy (c : list Z) : Prop := engineselect c = CMD_COPY.
Definition is_echo (c : list Z) : Prop := engineselect c = CMD_ECHO.
Definition response (c : list Z) : list Z :=
  if bool_decide (engineselect c = CMD_COPY) then copy_response c else c.

(** What a callback does with the response. *)
Definition callback (fin : option finish_fn) (ar : option nat) (r : list Z)
    (a : Spec) : Spec :=
  match fin, ar with
  | Some FlagFinish, Some i =>
      mkSpec (outst a) (<[i := 1]> (s_flags a)) (s_events a) (s_total a) (s_scratch a)
  | Some EchoFinish, Some i =>
      mkSpec (outst a) (s_flags a)
        (alter (λ e, mkEvent (exp_a e) (exp_b e) (nth 1 r 0) (nth 2 r 0) 1) i
           (s_events a)) (s32 (s_total a + 1)) (s_scratch a)
  | _, _ => a
  end.

Definition set_outst (o : gmap nat Entry) (a : Spec) : Spec :=
  mkSpec o (s_flags a) (s_events a) (s_total a) (s_scratch a).

(** One step of the service: a copy takes place, or a command completes. *)
Inductive spec_step (a : Spec) : Spec → Prop :=
  | SpecCopy t e :
      outst a !! t = Some e → is_copy (e_cmd e) → e_done e = false →
      spec_step a (mkSpec
        (<[t := mkEntry (e_cmd e) (e_fin e) (e_arg e) true]> (outst a))
        (s_flags a) (s_events a) (s_total a) (copy_words (e_cmd e) (s_scratch a)))
  | SpecComplete t e :
      outst a !! t = Some e →
      is_copy (e_cmd e) ∧ e_done e = true ∨ is_echo (e_cmd e) →
      spec_step a (callback (e_fin e) (e_arg e) (response (e_cmd e))
        (set_outst (delete t (outst a)) a)).

(** The client's part of the service: callbacks point to objects that exist, an
    echo's event expects what the command carries, and an event that has been
    completed got what it expected. *)
Definition entry_ok (sp : Z) (a : Spec) (t : nat) (e : Entry) : Prop :=
  length (e_cmd e) = 8%nat ∧ nth 7 (e_cmd e) 0 = t ∧
  (is_copy (e_cmd e) → copy_ok sp (e_cmd e) (s_scratch a) = true) ∧
  match e_fin e with
  | None => True
  | Some FlagFinish => ∃ i, e_arg e = Some i ∧ (i < length (s_flags a))%nat
  | Some EchoFinish => is_echo (e_cmd e) ∧ ∃ i ev,
      e_arg e = Some i ∧ s_events a !! i = Some ev ∧
      nth 1 (e_cmd e) 0 = exp_a ev ∧ nth 2 (e_cmd e) 0 = exp_b ev
  end.
Definition event_ok (ev : CompletionEvent) : Prop :=
  flag ev ≠ 0 → got_a ev = exp_a ev ∧ got_b ev = exp_b ev.
Definition spec_ok (sp : Z) (a : Spec) : Prop :=
  map_Forall (entry_ok sp a) (outst a) ∧ Forall event_ok (s_events a).

#[local] Arguments engineselect : simpl never.
#[local] Arguments slot : simpl never.
#[local] Arguments copy_ok : simpl never.
#[local] Arguments copy_words : simpl never.
#[local] Arguments copy_response : simpl never.
#[local] Arguments response : simpl never.

(** ** Slots *)

Definition off (k : Z) : Z := 64 * (k mod 128).

Lemma off_range k : 0 ≤ off k ≤ 8128.
Proof. unfold off. div_lia. Qed.
Lemma off_inj j k : off j = off k → -128 < j - k < 128 → j = k.
Proof. unfold off. intros. Z.div_mod_to_equations. lia. Qed.
Lemma off_div k : off k / 64 = k mod 128.
Proof. unfold off. rewrite Z.mul_comm, Z.div_mul; lia. Qed.
Lemma off_word k : word (off k) = (8 * Z.to_nat (k mod 128))%nat.
Proof.
  unfold off, word. replace (64 * (k mod 128) / 8) with (8 * (k mod 128)).
  - pose proof (Z.mod_pos_bound k 128). lia.
  - replace (64 * (k mod 128)) with (8 * (k mod 128) * 8) by lia.
    by rewrite Z.div_mul.
Qed.
Lemma word_off k i : 0 ≤ i < 8 →
  word (off k + 8 * i) = (8 * Z.to_nat (k mod 128) + Z.to_nat i)%nat.
Proof.
  intros. unfold off, word. pose proof (Z.mod_pos_bound k 128).
  replace (64 * (k mod 128) + 8 * i) with ((8 * (k mod 128) + i) * 8) by lia.
  rewrite Z.div_mul by lia. lia.
Qed.
Lemma advance_off k : Hw.advance (off k) 8191 = off (k + 1).
Proof.
  unfold Hw.advance, Hw.offset. rewrite Z.mod_small by (pose proof (off_range k); lia).
  change 8191 with (2 ^ 13 - 1). rewrite land_low_mod by lia. unfold off. div_lia.
Qed.
Lemma offset_off k : Hw.offset (off k) = off k.
Proof. apply Z.mod_small. pose proof (off_range k). lia. Qed.
Lemma u32_off k : u32 (off k) = off k.
Proof. apply u32_small. pose proof (off_range k). lia. Qed.

(** The [k]-th slot of a buffer. *)
Definition slot' (buf : list Z) (k : Z) : list Z := slot buf (k mod 128).

Lemma slot_word k : word (64 * (k mod 128)) = (8 * Z.to_nat (k mod 128))%nat.
Proof. apply off_word. Qed.
Lemma slot'_lookup buf k i : (i < 8)%nat →
  slot' buf k !! i = buf !! (8 * Z.to_nat (k mod 128) + i)%nat.
Proof.
  intros. unfold slot', slot. rewrite slot_word, lookup_take_lt by done.
  by rewrite lookup_drop.
Qed.
Lemma slot'_length buf k : length buf = 1024%nat → length (slot' buf k) = 8%nat.
Proof.
  intros H. unfold slot', slot. rewrite slot_word, length_take, length_drop, H.
  pose proof (Z.mod_pos_bound k 128). lia.
Qed.
Lemma slot'_nth buf k i : length buf = 1024%nat → (i < 8)%nat →
  buf !! (8 * Z.to_nat (k mod 128) + i)%nat = Some (nth i (slot' buf k) 0).
Proof.
  intros Hl Hi. rewrite <-slot'_lookup by done.
  destruct (slot' buf k !! i) eqn:E.
  - by rewrite (nth_lookup_Some _ _ _ _ E).
  - apply lookup_ge_None in E. rewrite slot'_length in E by done. lia.
Qed.

Lemma list_lookup_inserts_full {A} i (l k : list A) j :
  (i + length l ≤ length k)%nat →
  list_inserts i l k !! j =
    if decide (i ≤ j < i + length l)%nat then l !! (j - i)%nat else k !! j.
Proof.
  revert i; induction l as [|x l IH]; intros i; simpl; [intros|].
  { destruct decide; [lia|done]. }
  intros Hlen. destruct (decide (j = i)) as [->|].
  - rewrite list_lookup_insert_eq by (rewrite length_inserts; lia).
    rewrite decide_True by lia. by rewrite Nat.sub_diag.
  - rewrite list_lookup_insert_ne by done. rewrite IH by lia.
    destruct (decide (i ≤ j < i + S (length l))%nat).
    + rewrite decide_True by lia.
      replace (j - i)%nat with (S (j - S i))%nat by lia. done.
    + by rewrite decide_False by lia.
Qed.

(** Writing a slot replaces it and leaves the others. *)
Lemma slot'_write buf k l j : length buf = 1024%nat → length l = 8%nat →
  slot' (list_inserts (word (off k)) l buf) j =
    if decide (j mod 128 = k mod 128) then l else slot' buf j.
Proof.
  intros Hb Hl. pose proof (Z.mod_pos_bound k 128). pose proof (Z.mod_pos_bound j 128).
  apply (list_eq_same_length _ _ 8).
  - destruct decide; [done|]. by apply slot'_length.
  - rewrite slot'_length; [done|]. by rewrite length_inserts.
  - intros i x y Hi Hx Hy. revert Hx.
    rewrite slot'_lookup, off_word, list_lookup_inserts_full by lia.
    destruct (decide (j mod 128 = k mod 128)) as [E|E].
    + rewrite E, decide_True by lia.
      replace (_ + i - _)%nat with i by lia. congruence.
    + rewrite decide_False by lia. rewrite slot'_lookup in Hy by done. congruence.
Qed.

(** Clearing the last word of a slot. *)
Lemma slot'_clear buf k j :
  slot' (<[word (off k + 56) := 0]> buf) j =
    if decide (j mod 128 = k mod 128) then <[7%nat := 0]> (slot' buf j)
    else slot' buf j.
Proof.
  change 56 with (8 * 7). rewrite word_off by lia. change (Z.to_nat 7) with 7%nat.
  pose proof (Z.mod_pos_bound k 128). pose proof (Z.mod_pos_bound j 128).
  unfold slot', slot. rewrite !slot_word.
  destruct (decide (j mod 128 = k mod 128)) as [E|E].
  - rewrite E, drop_insert_ge by lia. rewrite take_insert_lt by lia.
    do 2 f_equal. lia.
  - destruct (decide (j mod 128 < k mod 128)).
    + rewrite drop_insert_ge by lia. by rewrite take_insert_ge by lia.
    + by rewrite drop_insert_lt by lia.
Qed.

(** ** The invariant *)

(** Values [off k1], [off k2], ... on their way to a register that holds [off lo],
    increasing up to [top]. *)
Fixpoint pend (lo : Z) (l : list Z) (top : Z) : Prop :=
  match l with
  | [] => lo = top
  | v :: l => ∃ k, v = off k ∧ lo ≤ k ∧ pend k l top
  end.

Lemma pend_le lo l top : pend lo l top → lo ≤ top.
Proof.
  revert lo; induction l as [|v l IH]; intros lo; simpl; [lia|].
  intros (k & _ & ? & ?%IH). lia.
Qed.
Lemma pend_app lo l top k : pend lo l top → top ≤ k → pend lo (l ++ [off k]) k.
Proof.
  revert lo; induction l as [|v l IH]; intros lo; simpl.
  - intros ->. intros. by exists k.
  - intros (j & -> & ? & ?) ?. exists j. auto.
Qed.

(** Ghost counters of the command ring: commands written ([sent]), announced to
    the hardware ([publ]), known to it ([seen]), with reads started ([fetched]),
    dispatched ([disp]), acknowledged ([acked]), and acknowledged as far as
    software knows ([known]); of the status ring: messages popped ([popped]) and
    popped as far as hardware knows ([freed]).  [cmds] are the commands not yet
    dispatched, [msgs] the messages not yet popped, [lost] the tags of commands
    that hardware has dropped without an answer, [asked] what had been acknowledged when
    software last asked, [query] whether it waits for the answer. *)
Record Ghost := mkGhost {
  sent : Z; publ : Z; seen : Z; fetched : Z; disp : Z; acked : Z; known : Z;
  popped : Z; freed : Z; cmds : list (list Z); msgs : list (list Z);
  lost : list nat; asked : Z; query : bool }.

Record cmd_inv (g : Ghost) (r : SWRing) (h : Hw.RingBuffer) (buf : list Z)
    (rds : list Z) (ak : nat) (pf : list Z) : Prop := {
  ci_order : 0 ≤ known g ≤ acked g ∧ acked g ≤ disp g ≤ fetched g ∧
             fetched g ≤ seen g ∧ seen g ≤ publ g ≤ sent g;
  ci_space : ∃ c, cached_space r = 64 * c ∧ 0 ≤ c ∧ sent g + c ≤ known g + 127;
  ci_size : size r = 8192; ci_base : base r = CmdBuffer; ci_id : ringid r = 0;
  ci_first : first r = off (sent g); ci_last : last r = off (known g);
  ci_hfirst : Hw.rbufferfirst h = off (seen g);
  ci_hfetch : Hw.rbufferlastfetch h = off (fetched g);
  ci_hack : Hw.rbufferlastack h = off (acked g);
  ci_mask : Hw.rbuffermask h = 8191;
  ci_pend : pend (seen g) pf (publ g);
  ci_buf : length buf = 1024%nat;
  ci_len : length (cmds g) = Z.to_nat (sent g - disp g);
  ci_cmds : ∀ (i : nat) c, cmds g !! i = Some c → slot' buf (disp g + i) = c;
  ci_reads : rds = off <$> seqZ (disp g) (fetched g - disp g);
  ci_acks : Z.of_nat ak = disp g - acked g;
  ci_four : (length rds + ak ≤ 4)%nat }.

Record status_inv (g : Ghost) (r : SWRing) (h : Hw.RingBuffer) (buf : list Z)
    (pf : list Z) : Prop := {
  si_order : 0 ≤ freed g ≤ popped g ∧ popped g + length (msgs g) ≤ freed g + 127;
  si_size : size r = 8192; si_base : base r = StatusBuffer; si_id : ringid r = 1;
  si_last : last r = off (popped g);
  si_hfirst : Hw.rbufferfirst h = off (popped g + length (msgs g));
  si_hack : Hw.rbufferlastack h = off (freed g);
  si_mask : Hw.rbuffermask h = 8191;
  si_pend : pend (freed g) pf (32 * (popped g / 32));
  si_buf : length buf = 1024%nat;
  si_msgs : ∀ (i : nat) c, msgs g !! i = Some c → slot' buf (popped g + i) = c;
  si_clear : ∀ k, popped g + length (msgs g) ≤ k < popped g + 128 →
    nth 7 (slot' buf k) 0 = 0 }.

(** At most one query is under way. *)
Definition get_inv (g : Ghost) (fl : Z) (gf : list (Z * Z))
    (ins : list (bool * Z * Z * Z)) : Prop :=
  if query g then
    fl = 0 ∧
    (gf = [(0, REG_LASTACK)] ∧ ins = [] ∧ asked g ≤ acked g ∨
     gf = [] ∧ ∃ k, ins = [(false, 0, REG_LASTACK, off k)] ∧ asked g ≤ k ∧
                    known g ≤ k ≤ acked g)
  else gf = [] ∧ ins = [] ∧ asked g ≤ known g.

(** The commands and responses in flight, and the entries they belong to. *)
Definition tg (c : list Z) : nat := Z.to_nat (nth 7 c 0).
Definition flight (g : Ghost) (h : HwState) : list (list Z) :=
  cmds g ++ copyq h ++ copyout h ++ echoq h ++ msgs g.
Definition items (a : Spec) (P : Entry → list Z → Prop) (l : list (list Z)) : Prop :=
  Forall (λ c, ∃ e, outst a !! tg c = Some e ∧ P e c) l.

Definition at_cmd (e : Entry) (c : list Z) : Prop := e_cmd e = c ∧ e_done e = false.
Definition at_copyq (e : Entry) (c : list Z) : Prop := at_cmd e c ∧ is_copy c.
Definition at_echoq (e : Entry) (c : list Z) : Prop := e_cmd e = c ∧ is_echo c.
Definition at_copyout (e : Entry) (r : list Z) : Prop :=
  r = copy_response (e_cmd e) ∧ is_copy (e_cmd e) ∧ e_done e = true.
Definition at_msgs (e : Entry) (r : list Z) : Prop :=
  r = response (e_cmd e) ∧ (is_copy (e_cmd e) ∧ e_done e = true ∨ is_echo (e_cmd e)).
Definition at_lost (e : Entry) : Prop := ¬ is_copy (e_cmd e) ∧ ¬ is_echo (e_cmd e).

#[export] Instance is_copy_dec c : Decision (is_copy c).
Proof. unfold is_copy. apply _. Defined.
#[export] Instance is_echo_dec c : Decision (is_echo c).
Proof. unfold is_echo. apply _. Defined.
#[export] Instance at_lost_dec e : Decision (at_lost e).
Proof. unfold at_lost. apply _. Defined.

Record tag_inv (a : Spec) (g : Ghost) (h : HwState) (s : Sw) : Prop := {
  ti_perm : completionfreelist s ++ (tg <$> flight g h) ++ lost g ≡ₚ seq 1 1023;
  ti_len : length (completion s) = 1024%nat;
  ti_dom : ∀ t, is_Some (outst a !! t) → t ∈ (tg <$> flight g h) ++ lost g;
  ti_free : ∀ t, t ∈ completionfreelist s →
    ∃ fp ar, completion s !! t = Some (mkCompletion t 0 fp ar);
  ti_used : ∀ t e, outst a !! t = Some e →
    completion s !! t = Some (mkCompletion t 1 (e_fin e) (e_arg e));
  ti_cmds : items a at_cmd (cmds g);
  ti_copyq : items a at_copyq (copyq h);
  ti_echoq : items a at_echoq (echoq h);
  ti_copyout : items a at_copyout (copyout h);
  ti_msgs : items a at_msgs (msgs g);
  ti_lost : Forall (λ t, ∃ e, outst a !! t = Some e ∧ at_lost e) (lost g);
  ti_caps : (length (copyq h) ≤ 3)%nat ∧ (length (copyout h) ≤ 2)%nat ∧
            (length (echoq h) ≤ 2)%nat }.

Record Inv (sp : Z) (a : Spec) (g : Ghost) (w : World) : Prop := {
  inv_cmd : cmd_inv g (cmd_ring (sw w)) (cmdRing (hw w)) (cmdBuffer (mem w))
              (reads (hw w)) (acks (hw w)) (cmdFirst_f (hw w));
  inv_status : status_inv g (status_ring (sw w)) (statusRing (hw w))
              (statusBuffer (mem w)) (statusLast_f (hw w));
  inv_get : get_inv g (getresult_flag (sw w)) (get_f (hw w)) (inds (hw w));
  inv_tags : tag_inv a g (hw w) (sw w);
  inv_spec : spec_ok sp a;
  inv_flags : s_flags a = flags (sw w);
  inv_events : s_events a = events (sw w);
  inv_total : s_total a = totalCompletions (sw w);
  inv_scratch : s_scratch a = scratchBuffer (mem w);
  inv_idle : set_f (hw w) = [] ∧ cmdLast_f (hw w) = [] ∧ statusFirst_f (hw w) = [];
  inv_on : hwenabled (hw w) = true ∧ ring_init_done (sw w) ≠ 0 }.

(** Work left: every rule of the hardware other than answering a query, and every
    message handled, reduces it. *)
Definition work (g : Ghost) (h : HwState) : Z :=
  9 * (sent g - fetched g) + 8 * (fetched g - disp g) + (disp g - acked g) +
  6 * length (copyq h) + 5 * length (copyout h) + 5 * length (echoq h) +
  4 * length (msgs g) + length (cmdFirst_f h) + length (statusLast_f h).

(** Ghost updates. *)
Definition g_sent x (g : Ghost) : Ghost :=
  mkGhost x (publ g) (seen g) (fetched g) (disp g) (acked g) (known g) (popped
    g) (freed g) (cmds g) (msgs g) (lost g) (asked g) (query g).
Definition g_publ x (g : Ghost) : Ghost :=
  mkGhost (sent g) x (seen g) (fetched g) (disp g) (acked g) (known g) (popped
    g) (freed g) (cmds g) (msgs g) (lost g) (asked g) (query g).
Definition g_seen x (g : Ghost) : Ghost :=
  mkGhost (sent g) (publ g) x (fetched g) (disp g) (acked g) (known g) (popped
    g) (freed g) (cmds g) (msgs g) (lost g) (asked g) (query g).
Definition g_fetched x (g : Ghost) : Ghost :=
  mkGhost (sent g) (publ g) (seen g) x (disp g) (acked g) (known g) (popped g)
    (freed g) (cmds g) (msgs g) (lost g) (asked g) (query g).
Definition g_disp x (g : Ghost) : Ghost :=
  mkGhost (sent g) (publ g) (seen g) (fetched g) x (acked g) (known g) (popped
    g) (freed g) (cmds g) (msgs g) (lost g) (asked g) (query g).
Definition g_acked x (g : Ghost) : Ghost :=
  mkGhost (sent g) (publ g) (seen g) (fetched g) (disp g) x (known g) (popped
    g) (freed g) (cmds g) (msgs g) (lost g) (asked g) (query g).
Definition g_known x (g : Ghost) : Ghost :=
  mkGhost (sent g) (publ g) (seen g) (fetched g) (disp g) (acked g) x (popped
    g) (freed g) (cmds g) (msgs g) (lost g) (asked g) (query g).
Definition g_popped x (g : Ghost) : Ghost :=
  mkGhost (sent g) (publ g) (seen g) (fetched g) (disp g) (acked g) (known g)
    x (freed g) (cmds g) (msgs g) (lost g) (asked g) (query g).
Definition g_freed x (g : Ghost) : Ghost :=
  mkGhost (sent g) (publ g) (seen g) (fetched g) (disp g) (acked g) (known g)
    (popped g) x (cmds g) (msgs g) (lost g) (asked g) (query g).
Definition g_cmds x (g : Ghost) : Ghost :=
  mkGhost (sent g) (publ g) (seen g) (fetched g) (disp g) (acked g) (known g)
    (popped g) (freed g) x (msgs g) (lost g) (asked g) (query g).
Definition g_msgs x (g : Ghost) : Ghost :=
  mkGhost (sent g) (publ g) (seen g) (fetched g) (disp g) (acked g) (known g)
    (popped g) (freed g) (cmds g) x (lost g) (asked g) (query g).
Definition g_lost x (g : Ghost) : Ghost :=
  mkGhost (sent g) (publ g) (seen g) (fetched g) (disp g) (acked g) (known g)
    (popped g) (freed g) (cmds g) (msgs g) x (asked g) (query g).
Definition g_asked x (g : Ghost) : Ghost :=
  mkGhost (sent g) (publ g) (seen g) (fetched g) (disp g) (acked g) (known g)
    (popped g) (freed g) (cmds g) (msgs g) (lost g) x (query g).
Definition g_query x (g : Ghost) : Ghost :=
  mkGhost (sent g) (publ g) (seen g) (fetched g) (disp g) (acked g) (known g)
    (popped g) (freed g) (cmds g) (msgs g) (lost g) (asked g) x.

(** *** The command ring *)
Section CmdRing.
Context (g : Ghost) (r : SWRing) (h : Hw.RingBuffer) (buf rds : list Z) (ak : nat).

Lemma cmd_see pf v : cmd_inv g r h buf rds ak (v :: pf) →
  ∃ k, cmd_inv (g_seen k g) r (Hw.setFirst v h) buf rds ak pf.
Proof.
  intros [? ? ? ? ? ? ? ? ? ? ? (k & -> & ? & Hp) ? ? ? ? ? ?]. exists k.
  pose proof (pend_le _ _ _ Hp). destruct h.
  split; simpl in *; rewrite ?offset_off; try done; lia.
Qed.

Lemma cmd_fetch pf : cmd_inv g r h buf rds ak pf →
  Hw.notEmpty h = true → (length rds + ak < 4)%nat →
  fetched g < seen g ∧
  cmd_inv (g_fetched (fetched g + 1) g) r (Hw.popfetch h) buf
    (rds ++ [Hw.rbufferlastfetch h]) ak pf.
Proof.
  intros [? (c & ? & ? & ?) ? ? ? ? ? Hf Hl ? Hm ? ? ? ? Hr ? ?] Hne ?.
  unfold Hw.notEmpty in Hne. apply bool_decide_eq_true in Hne. rewrite Hf, Hl in Hne.
  assert (fetched g < seen g) by (destruct (decide (fetched g = seen g)); [congruence|lia]).
  split; [done|]. destruct h; split; simpl in *; try done; try lia.
  - by exists c.
  - rewrite Hl, Hm. apply advance_off.
  - rewrite Hr, Hl. replace (fetched g + 1 - disp g) with ((fetched g - disp g) + 1) by lia.
    rewrite seqZ_app, fmap_app by lia. simpl. do 3 f_equal. lia.
  - rewrite length_app. simpl. lia.
Qed.

Lemma cmd_dispatch pf v rds' : rds = v :: rds' → cmd_inv g r h buf rds ak pf →
  ∃ c cs, cmds g = c :: cs ∧ slot buf (v / 64) = c ∧ disp g < fetched g ∧
  cmd_inv (g_disp (disp g + 1) (g_cmds cs g)) r h buf rds' (S ak) pf.
Proof.
  intros -> [? (c & ? & ? & ?) ? ? ? ? ? ? ? ? ? ? ? Hlen Hc Hr ? Hfour].
  assert (Hlt : disp g < fetched g).
  { destruct (decide (disp g < fetched g)); [done|].
    rewrite seqZ_nil in Hr by lia. done. }
  rewrite seqZ_cons in Hr by lia. simplify_list_eq.
  destruct (cmds g) as [|c0 cs] eqn:Ec; [simpl in Hlen; lia|].
  exists c0, cs. split; [done|]. split.
  { rewrite off_div. specialize (Hc O c0 eq_refl).
    rewrite Nat2Z.inj_0, Z.add_0_r in Hc. done. }
  split; [done|]. split; simpl in *; try done; try lia.
  - by exists c.
  - intros i c1 Hi. specialize (Hc (S i) c1 Hi). rewrite <-Hc. f_equal. lia.
  - do 2 f_equal; lia.
Qed.

Lemma cmd_ack pf n : ak = S n → cmd_inv g r h buf rds ak pf →
  acked g < disp g ∧ cmd_inv (g_acked (acked g + 1) g) r (Hw.popack h) buf rds n pf.
Proof.
  intros -> [? ? ? ? ? ? ? ? ? Ha Hm ? ? ? ? ? ? ?]. split; [lia|].
  destruct h; split; simpl in *; try done; try lia.
  rewrite Ha, Hm. apply advance_off.
Qed.

Lemma cmd_known pf k : cmd_inv g r h buf rds ak pf → known g ≤ k ≤ acked g →
  cmd_inv (g_known k g) (set_last (off k) r) h buf rds ak pf.
Proof.
  intros [? (c & ? & ? & ?)] ?. split; simpl; try done; try lia.
  exists c. repeat split; try done. lia.
Qed.

(** After a query software knows how much space there is. *)
Lemma cmd_requery pf : cmd_inv g r h buf rds ak pf →
  let c := u32 (u64 (size r + last r - first r - 64) mod size r) in
  c = 64 * (known g + 127 - sent g) ∧
  cmd_inv g (set_cached_space c r) h buf rds ak pf.
Proof.
  intros [? (c & ? & ? & ?) Hs ? ? Hf Hl ? ? ? ? ? ? ? ? ? ? ?]. cbv zeta.
  rewrite Hs, Hf, Hl.
  replace (u32 _) with (64 * (known g + 127 - sent g)).
  { split; [done|]. split; simpl; try done. exists (known g + 127 - sent g). lia. }
  pose proof (off_range (sent g)). pose proof (off_range (known g)).
  rewrite u64_small by lia. rewrite u32_small by div_lia. unfold off. div_lia.
Qed.

(** Writing a command. *)
Lemma cmd_send pf cmd : cmd_inv g r h buf rds ak pf → length cmd = 8%nat →
  cached_space r ≠ 0 →
  let n := u32 (first r + 64) in
  let n := if bool_decide (n = size r) then 0 else n in
  cmd_inv (g_sent (sent g + 1) (g_cmds (cmds g ++ [cmd]) g))
    (set_first n (set_cached_space (u32 (cached_space r - 64)) r)) h
    (list_inserts (word (first r)) cmd buf) rds ak pf.
Proof.
  intros [Ho (c & Hcs & ? & ?) Hs ? ? Hf ? ? ? ? ? ? Hb Hlen Hc ? ? ?] Hcmd Hne. cbv zeta.
  pose proof (off_range (sent g)) as Hr. rewrite Hf, Hs, Hcs.
  split; simpl; try done; try lia.
  - exists (c - 1). rewrite u32_small by lia. lia.
  - rewrite u32_small by lia. unfold off in *.
    case_bool_decide; Z.div_mod_to_equations; lia.
  - by rewrite length_inserts.
  - rewrite length_app, Hlen. simpl. lia.
  - intros i c1 Hi. rewrite slot'_write by done.
    apply lookup_app_Some in Hi as [Hi|[Hge Hi]].
    + pose proof (lookup_lt_Some _ _ _ Hi). rewrite decide_False; [by apply Hc|].
      Z.div_mod_to_equations. lia.
    + apply list_lookup_singleton_Some in Hi as [? ->]. rewrite decide_True; [done|].
      f_equal. lia.
Qed.
End CmdRing.

(** *** The status ring *)
Section StatusRing.
Context (g : Ghost) (r : SWRing) (h : Hw.RingBuffer) (buf : list Z).

Lemma status_free pf v : status_inv g r h buf (v :: pf) →
  ∃ k, status_inv (g_freed k g) r (Hw.setLast v h) buf pf.
Proof.
  intros [? ? ? ? ? ? ? ? (k & -> & ? & Hp) ? ? ?]. exists k.
  pose proof (pend_le _ _ _ Hp). destruct h.
  split; simpl in *; rewrite ?offset_off; try done. div_lia.
Qed.

Lemma status_push pf m : status_inv g r h buf pf → Hw.notFull h = true →
  length m = 8%nat →
  status_inv (g_msgs (msgs g ++ [m]) g) r (Hw.push h)
    (list_inserts (word (Hw.rbufferfirst h)) m buf) pf.
Proof.
  intros [Ho ? ? ? ? Hf Ha Hm ? Hb Hmsg Hcl] Hnf Hlm.
  unfold Hw.notFull in Hnf. apply bool_decide_eq_true in Hnf.
  rewrite Hf, Ha, Hm, advance_off in Hnf.
  assert (popped g + length (msgs g) ≠ freed g + 127).
  { intros E. apply Hnf. rewrite E. unfold off. div_lia. }
  destruct h; split; simpl in *; rewrite ?length_app; simpl; try done; try lia.
  - rewrite Hf, Hm, advance_off. f_equal. lia.
  - by rewrite length_inserts.
  - intros i c Hi. rewrite Hf, slot'_write by done.
    apply lookup_app_Some in Hi as [Hi|[Hge Hi]].
    + pose proof (lookup_lt_Some _ _ _ Hi). rewrite decide_False; [by apply Hmsg|].
      Z.div_mod_to_equations. lia.
    + apply list_lookup_singleton_Some in Hi as [? ->]. rewrite decide_True; [done|].
      f_equal. lia.
  - intros k Hk. rewrite Hf, slot'_write by done. rewrite decide_False.
    + apply Hcl. lia.
    + Z.div_mod_to_equations. lia.
Qed.

(** With nothing to read and no update on its way, there is room. *)
Lemma status_room : status_inv g r h buf [] → msgs g = [] → Hw.notFull h = true.
Proof.
  intros [Ho ? ? ? ? Hf Ha Hm Hp ? ? ?] E. unfold Hw.notFull.
  apply bool_decide_eq_true. rewrite Hf, Ha, Hm, advance_off, E. simpl in *.
  intros Heq%off_inj; [|div_lia]. div_lia.
Qed.

(** The word software polls. *)
Lemma status_word pf i : status_inv g r h buf pf → (i < 8)%nat →
  buf !! word (last r + 8 * i) = Some (nth i (slot' buf (popped g)) 0).
Proof.
  intros [? ? ? ? Hl ? ? ? ? Hb ? ?] Hi. rewrite Hl, word_off by lia.
  rewrite <-slot'_nth by done. f_equal. lia.
Qed.
Lemma status_empty pf : status_inv g r h buf pf → msgs g = [] →
  nth 7 (slot' buf (popped g)) 0 = 0.
Proof. intros [] E. apply si_clear0. rewrite E. simpl. lia. Qed.
Lemma status_head pf m l : status_inv g r h buf pf → msgs g = m :: l →
  slot' buf (popped g) = m.
Proof.
  intros [] E. specialize (si_msgs0 O m). rewrite E in si_msgs0.
  rewrite Nat2Z.inj_0, Z.add_0_r in si_msgs0. auto.
Qed.

Lemma status_pop pf m ms : status_inv g r h buf pf → msgs g = m :: ms →
  let l := u32 (last r + 64) in
  let l := if bool_decide (size r ≤ l) then 0 else l in
  status_inv (g_popped (popped g + 1) (g_msgs ms g)) (set_last l r) h
    (<[word (last r + 56) := 0]> buf)
    (if bool_decide (l mod Z.shiftr (size r) 2 = 0) then pf ++ [l] else pf).
Proof.
  intros [Ho Hs ? ? Hl Hf ? ? Hp Hb Hmsg Hcl] E. cbv zeta.
  replace (if bool_decide (size r ≤ u32 (last r + 64)) then 0 else u32 (last r + 64))
    with (off (popped g + 1)).
  2:{ rewrite Hl, Hs. pose proof (off_range (popped g)). rewrite u32_small by lia.
      unfold off in *. case_bool_decide; Z.div_mod_to_equations; lia. }
  rewrite Hs, Hl. change (Z.shiftr 8192 2) with 2048. rewrite E in *. simpl in *.
  split; simpl; try done; try lia.
  - rewrite Hf. f_equal. lia.
  - case_bool_decide as H0.
    + assert (E' : 32 * ((popped g + 1) / 32) = popped g + 1) by (unfold off in H0; div_lia).
      rewrite E'. eapply pend_app; [done|]. div_lia.
    + replace ((popped g + 1) / 32) with (popped g / 32); [done|].
      unfold off in H0. div_lia.
  - by rewrite length_insert.
  - intros i c Hi. rewrite slot'_clear.
    pose proof (lookup_lt_Some _ _ _ Hi). rewrite decide_False.
    + rewrite <-(Hmsg (S i) c Hi). f_equal. lia.
    + Z.div_mod_to_equations. lia.
  - intros k Hk. rewrite slot'_clear. case_decide.
    + erewrite nth_lookup_Some; [done|].
      apply list_lookup_insert_eq. rewrite slot'_length; [lia|done].
    + apply Hcl. split; [lia|].
      assert (k ≠ popped g + 128) by (intros ->; Z.div_mod_to_equations; lia). lia.
Qed.
End StatusRing.

(** *** Tags *)
Lemma items_frame a a' P l t :
  (∀ u, u ≠ t → outst a' !! u = outst a !! u) → t ∉ tg <$> l →
  items a P l → items a' P l.
Proof.
  intros H Hn. unfold items. rewrite !Forall_forall. intros Hl c Hc.
  rewrite H; [auto|]. intros <-. apply Hn, list_elem_of_fmap. eauto.
Qed.
Lemma items_cons a P c l :
  items a P (c :: l) ↔ (∃ e, outst a !! tg c = Some e ∧ P e c) ∧ items a P l.
Proof. unfold items. by rewrite Forall_cons. Qed.
Lemma items_snoc a P c l :
  items a P (l ++ [c]) ↔ items a P l ∧ ∃ e, outst a !! tg c = Some e ∧ P e c.
Proof. unfold items. by rewrite Forall_app, Forall_singleton. Qed.

(** All tags in use, wherever their commands are. *)
Definition used (g : Ghost) (h : HwState) : list nat := (tg <$> flight g h) ++ lost g.

Lemma tag_nodup a g h s : tag_inv a g h s → NoDup (completionfreelist s ++ used g h).
Proof. intros []. unfold used. rewrite ti_perm0. apply NoDup_seq. Qed.
Lemma tag_bound a g h s t : tag_inv a g h s → t ∈ used g h → (1 ≤ t < 1024)%nat.
Proof.
  intros [] Ht. assert (t ∈ seq 1 1023) as ?%elem_of_seq; [|lia].
  rewrite <-ti_perm0. apply elem_of_app. by right.
Qed.

Lemma tag_unique a g h s t l : tag_inv a g h s → used g h ≡ₚ (t :: l) →
  (t ∉ completionfreelist s) ∧ (t ∉ l).
Proof.
  intros Ht%tag_nodup Hp. rewrite Hp in Ht. apply NoDup_app in Ht as (_ & Hd & Hn).
  apply NoDup_cons in Hn as [? _]. split; [|done]. intros Hin. apply (Hd t Hin). left.
Qed.

(** A command moves from one place to another. *)
Lemma tag_move a g h s g' h' :
  tag_inv a g h s → used g' h' ≡ₚ used g h →
  items a at_cmd (cmds g') → items a at_copyq (copyq h') →
  items a at_echoq (echoq h') → items a at_copyout (copyout h') →
  items a at_msgs (msgs g') →
  Forall (λ t, ∃ e, outst a !! t = Some e ∧ at_lost e) (lost g') →
  (length (copyq h') ≤ 3)%nat ∧ (length (copyout h') ≤ 2)%nat ∧
  (length (echoq h') ≤ 2)%nat →
  tag_inv a g' h' s.
Proof.
  unfold used. intros [] Hp **. split; try done.
  - by rewrite Hp.
  - intros t Ht. rewrite Hp. auto.
Qed.

(** Permutations of the places a command can be in. *)
Ltac flight_perm :=
  unfold used, flight; cbn [cmds msgs lost g_cmds g_msgs g_lost g_disp];
  repeat first [rewrite fmap_app | rewrite fmap_cons | rewrite fmap_nil];
  solve_Permutation.

Section Tags.
Context (a : Spec) (g : Ghost) (h : HwState) (s : Sw).

Lemma tag_dispatch_copy c cs h' : tag_inv a g h s → cmds g = c :: cs → is_copy c →
  (length (copyq h) < 3)%nat → copyq h' = copyq h ++ [c] →
  copyout h' = copyout h → echoq h' = echoq h → ∀ d, tag_inv a (g_disp d (g_cmds cs g)) h' s.
Proof.
  intros Ht E Hc Hl Eq Eo Ee d. pose proof Ht as [].
  rewrite E, items_cons in ti_cmds0. destruct ti_cmds0 as [(e & He & Hat) ?].
  eapply tag_move; try done; rewrite ?Eq, ?Eo, ?Ee; simpl; try done.
  - unfold used, flight. rewrite Eq, Eo, Ee, E. flight_perm.
  - apply items_snoc. split; [done|]. by exists e.
  - rewrite length_app. simpl. lia.
Qed.

Lemma tag_dispatch_echo c cs h' : tag_inv a g h s → cmds g = c :: cs → is_echo c →
  (length (echoq h) < 2)%nat → echoq h' = echoq h ++ [c] →
  copyout h' = copyout h → copyq h' = copyq h → ∀ d, tag_inv a (g_disp d (g_cmds cs g)) h' s.
Proof.
  intros Ht E Hc Hl Ee Eo Eq d. pose proof Ht as [].
  rewrite E, items_cons in ti_cmds0. destruct ti_cmds0 as [(e & He & Hat & ?) ?].
  eapply tag_move; try done; rewrite ?Eq, ?Eo, ?Ee; simpl; try done.
  - unfold used, flight. rewrite Eq, Eo, Ee, E. flight_perm.
  - apply items_snoc. split; [done|]. by exists e.
  - rewrite length_app. simpl. lia.
Qed.

Lemma tag_dispatch_lost c cs h' : tag_inv a g h s → cmds g = c :: cs →
  ¬ is_copy c → ¬ is_echo c → echoq h' = echoq h →
  copyout h' = copyout h → copyq h' = copyq h →
  ∀ d, tag_inv a (g_disp d (g_cmds cs (g_lost (tg c :: lost g) g))) h' s.
Proof.
  intros Ht E Hc Hl Ee Eo Eq d. pose proof Ht as [].
  rewrite E, items_cons in ti_cmds0. destruct ti_cmds0 as [(e & He & Hat & ?) ?].
  eapply tag_move; try done; rewrite ?Eq, ?Eo, ?Ee; simpl; try done.
  - unfold used, flight. simpl. rewrite Eq, Eo, Ee, E. flight_perm.
  - constructor; [|done]. exists e. split; [done|]. unfold at_lost. by rewrite Hat.
Qed.

Lemma tag_respond_copy r q h' : tag_inv a g h s → copyout h = r :: q →
  copyout h' = q → copyq h' = copyq h → echoq h' = echoq h →
  tag_inv a (g_msgs (msgs g ++ [r]) g) h' s.
Proof.
  intros Ht E Eo Eq Ee. pose proof Ht as [].
  rewrite E, items_cons in ti_copyout0. destruct ti_copyout0 as [(e & He & Hr & ? & ?) ?].
  eapply tag_move; try done; rewrite ?Eq, ?Eo, ?Ee; simpl; try done.
  - unfold used, flight. simpl. rewrite Eq, Eo, Ee, E. flight_perm.
  - apply items_snoc. split; [done|]. exists e. split; [done|].
    unfold at_msgs, response. rewrite bool_decide_true by done. auto.
  - rewrite E in ti_caps0. simpl in *. lia.
Qed.

Lemma tag_respond_echo c q h' : tag_inv a g h s → echoq h = c :: q →
  echoq h' = q → copyq h' = copyq h → copyout h' = copyout h →
  tag_inv a (g_msgs (msgs g ++ [c]) g) h' s.
Proof.
  intros Ht E Ee Eq Eo. pose proof Ht as [].
  rewrite E, items_cons in ti_echoq0. destruct ti_echoq0 as [(e & He & Hc & Hec) ?].
  eapply tag_move; try done; rewrite ?Eq, ?Eo, ?Ee; simpl; try done.
  - unfold used, flight. simpl. rewrite Eq, Eo, Ee, E. flight_perm.
  - apply items_snoc. split; [done|]. exists e. split; [done|].
    unfold at_msgs, response. rewrite Hc. rewrite bool_decide_false; [auto|].
    rewrite Hec. done.
  - rewrite E in ti_caps0. simpl in *. lia.
Qed.
End Tags.

(** *** Steps of the service *)
Lemma copy_ok_length sp c l l' : length l = length l' → copy_ok sp c l = copy_ok sp c l'.
Proof. intros E. unfold copy_ok. by rewrite E. Qed.
Lemma copy_words_length c l : length (copy_words c l) = length l.
Proof. apply length_inserts. Qed.
Lemma callback_outst fin ar r a : outst (callback fin ar r a) = outst a.
Proof. by destruct fin as [[]|], ar. Qed.
Lemma callback_scratch fin ar r a : s_scratch (callback fin ar r a) = s_scratch a.
Proof. by destruct fin as [[]|], ar. Qed.
Lemma response_echo c : is_echo c → response c = c.
Proof.
  intros E. unfold response. rewrite bool_decide_false; [done|]. by rewrite E.
Qed.

(** A callback keeps what entries rely on. *)
Lemma entry_ok_callback sp a fin ar r t e :
  entry_ok sp a t e → entry_ok sp (callback fin ar r a) t e.
Proof.
  intros (? & ? & Hc & Hf). unfold entry_ok. rewrite callback_scratch.
  repeat split; try done. destruct (e_fin e) as [[]|]; [| |done].
  - destruct Hf as (i & ? & ?). exists i. split; [done|].
    destruct fin as [[]|], ar; simpl; rewrite ?length_insert; done.
  - destruct Hf as (? & i & ev & ? & Hev & ? & ?). split; [done|].
    destruct fin as [[]|], ar as [j|]; simpl; try by (exists i, ev).
    destruct (decide (i = j)) as [->|].
    + eexists j, _. split; [done|]. split; [by rewrite list_lookup_alter_eq, Hev|done].
    + exists i, ev. by rewrite list_lookup_alter_ne.
Qed.

Lemma spec_step_ok sp a a' : spec_ok sp a → spec_step a a' → spec_ok sp a'.
Proof.
  intros [He Hv] [t e Ht Hc Hd|t e Ht Hce]; split.
  - assert (entry_ok sp a t e) as Hok by eauto. simpl.
    apply map_Forall_insert_2; [|eapply map_Forall_impl; [done|]; intros u f Hf];
      unfold entry_ok in *; simpl;
      rewrite (copy_ok_length _ _ _ (s_scratch a)) by apply copy_words_length; done.
  - done.
  - rewrite callback_outst. simpl. apply map_Forall_delete.
    eapply map_Forall_impl; [done|]. intros u f Hf. by apply entry_ok_callback.
  - assert (entry_ok sp a t e) as (_ & _ & _ & Hok) by eauto.
    destruct (e_fin e) as [[]|], (e_arg e) as [j|]; cbn [callback s_events set_outst];
      try exact Hv.
    destruct Hok as (Hec & i & ev & [= ->] & Hev & Ha & Hb).
    rewrite (response_echo _ Hec), Ha, Hb.
    apply Forall_forall. intros x (k & Hk)%list_elem_of_lookup.
    destruct (decide (k = i)) as [->|].
    + rewrite list_lookup_alter_eq, Hev in Hk. by simplify_eq/=.
    + rewrite list_lookup_alter_ne in Hk by done. eapply Forall_lookup_1; eauto.
Qed.

(** The tag of a copy's response is the command's. *)
Lemma tg_copy_response c : 0 ≤ nth 7 c 0 < 1024 → tg (copy_response c) = tg c.
Proof. intros. unfold tg, copy_response. simpl nth. by rewrite u32_small by lia. Qed.

Section SpecTags.
Context (a : Spec) (g : Ghost) (h : HwState) (s : Sw).

Lemma used_ok sp t e : tag_inv a g h s → spec_ok sp a → outst a !! t = Some e →
  (1 ≤ t < 1024)%nat ∧ entry_ok sp a t e.
Proof.
  intros Ht [Ho _] He. split; [|by apply Ho].
  eapply tag_bound; [done|]. apply (ti_dom _ _ _ _ Ht). eauto.
Qed.

(** The copy engine performs a command. *)
Lemma tag_copy sp c q h' : tag_inv a g h s → spec_ok sp a → copyq h = c :: q →
  (length (copyout h) < 2)%nat → copyq h' = q →
  copyout h' = copyout h ++ [copy_response c] → echoq h' = echoq h →
  ∃ e, outst a !! tg c = Some e ∧ e_cmd e = c ∧ is_copy c ∧ e_done e = false ∧
    ∀ sc, tag_inv (mkSpec (<[tg c := mkEntry c (e_fin e) (e_arg e) true]> (outst a))
      (s_flags a) (s_events a) (s_total a) sc) g h' s.
Proof.
  intros Ht Hs E Hl Eq Eo Ee. pose proof Ht as [].
  rewrite E, items_cons in ti_copyq0.
  destruct ti_copyq0 as [(e & He & (Hc & Hd) & Hco) Hq].
  exists e. do 4 (split; [done|]). intros sc.
  destruct (used_ok sp _ _ Ht Hs He) as [Hb (_ & H7 & _)]. rewrite Hc in H7.
  assert (Htg : tg (copy_response c) = tg c) by (apply tg_copy_response; lia).
  assert (Hp : used g h' ≡ₚ used g h).
  { unfold used, flight. rewrite Eq, Eo, Ee, E.
    repeat first [rewrite fmap_app | rewrite fmap_cons | rewrite fmap_nil].
    rewrite Htg. solve_Permutation. }
  destruct (tag_unique a g h s (tg c) ((tg <$> cmds g) ++ (tg <$> q) ++
    (tg <$> copyout h) ++ (tg <$> echoq h) ++ (tg <$> msgs g) ++ lost g) Ht) as [_ Hn].
  { unfold used, flight. rewrite E. flight_perm. }
  rewrite !not_elem_of_app in Hn. destruct Hn as (? & ? & ? & ? & ? & ?).
  assert (Hfr : ∀ u, u ≠ tg c →
    <[tg c := mkEntry c (e_fin e) (e_arg e) true]> (outst a) !! u = outst a !! u).
  { intros u Hu. by apply lookup_insert_ne. }
  clear ti_perm0. split; rewrite ?Eq, ?Eo, ?Ee; simpl; try done.
  - unfold used in Hp. rewrite Hp. apply Ht.
  - intros t Ht'. unfold used in Hp. rewrite Hp. apply (ti_dom _ _ _ _ Ht).
    destruct (decide (t = tg c)) as [->|]; [by eexists|].
    by rewrite lookup_insert_ne in Ht'.
  - intros t f. destruct (decide (t = tg c)) as [->|].
    + rewrite lookup_insert_eq. intros [= <-]. simpl. by apply ti_used0.
    + rewrite lookup_insert_ne by done. apply ti_used0.
  - by eapply items_frame.
  - by eapply items_frame.
  - by eapply items_frame.
  - apply items_snoc. split; [by eapply items_frame|].
    eexists. rewrite Htg. simpl. by rewrite lookup_insert_eq.
  - by eapply items_frame.
  - eapply Forall_impl; [done|]. intros t (f & Hf & ? & ?). simpl.
    destruct (decide (t = tg c)) as [->|]; [simplify_eq/=|].
    + done.
    + exists f. by rewrite lookup_insert_ne.
  - rewrite length_app, E in *. simpl in *. lia.
Qed.

(** A message is handled: its tag is free again. *)
Lemma tag_complete m ms h' s' a' : tag_inv a g h s → msgs g = m :: ms →
  copyq h' = copyq h → copyout h' = copyout h → echoq h' = echoq h →
  outst a' = delete (tg m) (outst a) →
  (∃ fp ar, completion s' = <[tg m := mkCompletion (tg m) 0 fp ar]> (completion s)) →
  completionfreelist s' = completionfreelist s ++ [tg m] →
  ∀ q, tag_inv a' (g_popped q (g_msgs ms g)) h' s'.
Proof.
  intros Ht E Eq Eo Ee Eout (fp & ar & Ec) Ef q. pose proof Ht as [].
  rewrite E, items_cons in ti_msgs0. destruct ti_msgs0 as [(e & He & Hat) Hms].
  assert (Hp : used g h ≡ₚ tg m :: (tg <$> cmds g) ++ (tg <$> copyq h) ++
    (tg <$> copyout h) ++ (tg <$> echoq h) ++ (tg <$> ms) ++ lost g).
  { unfold used, flight. rewrite E. flight_perm. }
  destruct (tag_unique _ _ _ _ _ _ Ht Hp) as [Hnf Hn].
  assert (Hb : (1 ≤ tg m < 1024)%nat).
  { eapply tag_bound; [done|]. rewrite Hp. left. }
  rewrite !not_elem_of_app in Hn. destruct Hn as (? & ? & ? & ? & ? & ?).
  assert (Hfr : ∀ u, u ≠ tg m → outst a' !! u = outst a !! u).
  { intros u Hu. rewrite Eout. by apply lookup_delete_ne. }
  split; rewrite ?Eq, ?Eo, ?Ee; simpl; try done; try by eapply items_frame.
  - rewrite <-ti_perm0, Ef. unfold flight. simpl. rewrite Eq, Eo, Ee, E. flight_perm.
  - by rewrite Ec, length_insert.
  - intros t Ht'. destruct (decide (t = tg m)) as [->|].
    { rewrite Eout, lookup_delete_eq in Ht'. by destruct Ht'. }
    rewrite Hfr in Ht' by done. apply ti_dom0 in Ht'. fold (used g h) in Ht'.
    rewrite Hp in Ht'. apply elem_of_cons in Ht' as [|Ht']; [done|].
    revert Ht'. unfold flight. simpl. rewrite Eq, Eo, Ee, !fmap_app. by rewrite <-!(assoc_L (++)).
  - intros t. rewrite Ef, elem_of_app, list_elem_of_singleton. intros [Hin| ->].
    + rewrite Ec, list_lookup_insert_ne by (intros <-; done). by apply ti_free0.
    + exists fp, ar. rewrite Ec. apply list_lookup_insert_eq. lia.
  - intros t f Hf. destruct (decide (t = tg m)) as [->|].
    { by rewrite Eout, lookup_delete_eq in Hf. }
    rewrite Ec, list_lookup_insert_ne by done. apply ti_used0. by rewrite <-Hfr.
  - rewrite Forall_forall in *. intros t Hin. destruct (ti_lost0 t Hin) as (f & Hf & ?). exists f.
    rewrite Hfr by (intros ->; done). done.
Qed.

(** A command is sent under the first free tag. *)
Lemma tag_send t rest c fp ar s' : tag_inv a g h s →
  completionfreelist s = t :: rest → tg c = t →
  completion s' = <[t := mkCompletion t 1 fp ar]> (completion s) →
  completionfreelist s' = rest →
  outst a !! t = None ∧
  ∀ n, tag_inv (set_outst (<[t := mkEntry c fp ar false]> (outst a)) a)
    (g_sent n (g_cmds (cmds g ++ [c]) g)) h s'.
Proof.
  intros Ht E Etg Ec Ef. pose proof Ht as [].
  pose proof (tag_nodup _ _ _ _ Ht) as Hn. rewrite E in Hn. simpl in Hn.
  apply NoDup_cons in Hn as [Hn _]. rewrite not_elem_of_app in Hn.
  destruct Hn as [Hnr Hnu].
  assert (Hnone : outst a !! t = None).
  { destruct (outst a !! t) eqn:Eo; [|done]. exfalso. apply Hnu, ti_dom0. eauto. }
  split; [done|]. intros n. unfold used, flight in Hnu.
  rewrite !fmap_app, !not_elem_of_app in Hnu.
  destruct Hnu as ((? & ? & ? & ? & ?) & ?).
  assert (Hfr : ∀ u, u ≠ t →
    outst (set_outst (<[t := mkEntry c fp ar false]> (outst a)) a) !! u = outst a !! u).
  { intros u Hu. by apply lookup_insert_ne. }
  assert (Hb : (1 ≤ t < 1024)%nat).
  { assert (t ∈ seq 1 1023) as ?%elem_of_seq; [|lia]. rewrite <-ti_perm0, E. left. }
  split; simpl; try done; try by eapply items_frame.
  - rewrite <-ti_perm0, E, Ef. unfold flight. simpl. subst t. flight_perm.
  - by rewrite Ec, length_insert.
  - intros u Hu. unfold flight in *. simpl. rewrite !fmap_app in *.
    destruct (decide (u = t)) as [->|].
    + subst t. rewrite !elem_of_app. left. left. right.
      apply list_elem_of_fmap. exists c. split; [done|]. left.
    + rewrite lookup_insert_ne in Hu by done. apply ti_dom0 in Hu.
      rewrite !elem_of_app in *. tauto.
  - intros u Hu. rewrite Ef in Hu. rewrite Ec, list_lookup_insert_ne by (intros <-; done).
    apply ti_free0. rewrite E. by right.
  - intros u f. destruct (decide (u = t)) as [->|].
    + rewrite lookup_insert_eq. intros [= <-]. rewrite Ec. apply list_lookup_insert_eq. lia.
    + rewrite lookup_insert_ne by done. rewrite Ec, list_lookup_insert_ne by done.
      apply ti_used0.
  - apply items_snoc. split; [by eapply items_frame|]. rewrite Etg. simpl.
    rewrite lookup_insert_eq. by eexists.
  - rewrite Forall_forall in *. intros u Hin. destruct (ti_lost0 u Hin) as (f & Hf & ?). exists f.
    rewrite lookup_insert_ne; [done|]. intros <-. done.
Qed.
End SpecTags.

(** *** The rules of the hardware *)

(** What a rule leaves alone. *)
Definition hw_frame (g g' : Ghost) (w w' : World) : Prop :=
  sw w' = sw w ∧ sent g' = sent g ∧ publ g' = publ g ∧ known g' = known g ∧
  popped g' = popped g ∧ asked g' = asked g ∧ query g' = query g.

Definition hw_post (sp : Z) (a : Spec) (g : Ghost) (w w' : World) : Prop :=
  ∃ a' g', Inv sp a' g' w' ∧ (a' = a ∨ spec_step a a') ∧ hw_frame g g' w w' ∧
    work g' (hw w') < work g (hw w).

(** Each part of the invariant depends on some of the counters only. *)
Lemma status_frame g g' r h buf pf : popped g' = popped g → freed g' = freed g →
  msgs g' = msgs g → status_inv g r h buf pf → status_inv g' r h buf pf.
Proof. destruct g, g'; simpl. intros -> -> -> []. by split. Qed.
Lemma cmd_frame g g' r h buf rds ak pf :
  sent g' = sent g → publ g' = publ g → seen g' = seen g → fetched g' = fetched g →
  disp g' = disp g → acked g' = acked g → known g' = known g → cmds g' = cmds g →
  cmd_inv g r h buf rds ak pf → cmd_inv g' r h buf rds ak pf.
Proof. destruct g, g'; simpl. intros -> -> -> -> -> -> -> -> []. by split. Qed.
Lemma tag_frame a a' g g' h h' s s' : outst a' = outst a →
  cmds g' = cmds g → msgs g' = msgs g → lost g' = lost g →
  copyq h' = copyq h → copyout h' = copyout h → echoq h' = echoq h →
  completion s' = completion s → completionfreelist s' = completionfreelist s →
  tag_inv a g h s → tag_inv a' g' h' s'.
Proof.
  intros Ha Hc Hm Hl Hq Ho He Hcp Hf []. unfold flight, items in *.
  split; unfold flight, items; rewrite ?Ha, ?Hc, ?Hm, ?Hl, ?Hq, ?Ho, ?He, ?Hcp, ?Hf; done.
Qed.

Section HwSteps.
Context (sp : Z) (a : Spec) (g : Ghost) (w : World) (HI : Inv sp a g w).

Ltac hw_step_start :=
  intros Hx; destruct HI as [Hcmd Hst Hget Htag Hspec ? ? ? ? ? ?];
  destruct w as [s h m n]; cbn [sw hw mem now] in *.
Ltac hw_finish :=
  lazymatch goal with
  | |- status_inv _ _ _ _ _ => first [assumption | by apply (status_frame g)]
  | |- cmd_inv _ _ _ _ _ _ _ => first [assumption | by apply (cmd_frame g)]
  | H : tag_inv _ g ?h ?s |- tag_inv _ _ _ _ =>
      first [assumption | by apply (tag_frame a _ g _ h _ s)]
  | |- _ => done
  end.

Lemma step_setCmdFirst w' : hw_setCmdFirst w = Some w' → hw_post sp a g w w'.
Proof.
  unfold hw_setCmdFirst. hw_step_start.
  destruct (cmdFirst_f h) as [|v pf] eqn:E; simplify_eq/=.
  destruct (cmd_see _ _ _ _ _ _ _ _ Hcmd) as [k Hk].
  exists a, (g_seen k g). split; [split; simpl; rewrite ?E; hw_finish|].
  split; [by left|]. split; [done|]. unfold work. simpl. rewrite E. simpl. lia.
Qed.

Lemma step_setStatusLast w' : hw_setStatusLast w = Some w' → hw_post sp a g w w'.
Proof.
  unfold hw_setStatusLast. hw_step_start.
  destruct (statusLast_f h) as [|v pf] eqn:E; simplify_eq/=.
  destruct (status_free _ _ _ _ _ _ Hst) as [k Hk].
  exists a, (g_freed k g). split; [split; simpl; rewrite ?E; hw_finish|].
  split; [by left|]. split; [done|]. unfold work. simpl. rewrite E. simpl. lia.
Qed.

Lemma step_fetch w' : hw_fetch w = Some w' → hw_post sp a g w w'.
Proof.
  unfold hw_fetch. hw_step_start.
  destruct (hwenabled h && _ && _) eqn:E; simplify_eq/=.
  rewrite !andb_true_iff, bool_decide_eq_true in E. destruct E as [[_ Hne] Hfour].
  destruct (cmd_fetch _ _ _ _ _ _ _ Hcmd Hne Hfour) as [? Hk].
  eexists a, _. split; [split; simpl; first [exact Hk|hw_finish]|].
  split; [by left|]. split; [done|]. unfold work. simpl. lia.
Qed.

Lemma step_ack w' : hw_ack w = Some w' → hw_post sp a g w w'.
Proof.
  unfold hw_ack. hw_step_start. destruct (acks h) as [|n'] eqn:E; simplify_eq/=.
  destruct (cmd_ack _ _ _ _ _ _ _ _ eq_refl Hcmd) as [? Hk].
  eexists a, _. split; [split; simpl; try first [exact Hk|hw_finish]|].
  - unfold get_inv in *. simpl. destruct (query g); [|done].
    destruct Hget as [? [(? & ? & ?)|(? & k & ? & ? & ?)]]; (split; [done|]); [left|right].
    + repeat split; try done. lia.
    + split; [done|]. exists k. repeat split; try done; lia.
  - split; [by left|]. split; [done|]. unfold work. simpl. lia.
Qed.

Lemma step_dispatch w' : hw_dispatch w = Some w' → hw_post sp a g w w'.
Proof.
  unfold hw_dispatch. hw_step_start.
  destruct (reads h) as [|v rds] eqn:E; [done|]. cbn [head mbind option_bind] in Hx.
  destruct (cmd_dispatch _ _ _ _ _ _ _ _ _ eq_refl Hcmd) as (c & cs & Ec & Es & ? & Hk).
  rewrite Es in Hx. assert (Hd : ∀ l, cmd_inv (g_disp (disp g + 1) (g_cmds cs (g_lost l g)))
    (cmd_ring s) (cmdRing h) (cmdBuffer m) rds (S (acks h)) (cmdFirst_f h)).
  { intros l. by apply (cmd_frame (g_disp (disp g + 1) (g_cmds cs g))). }
  case_bool_decide as Hcp; [|case_bool_decide as Hec]; try case_bool_decide; try done; injection Hx as <-.
  - eexists a, _. split; [split; simpl; try first [exact Hk|hw_finish]|].
    + by eapply tag_dispatch_copy.
    + split; [by left|]. split; [done|]. unfold work. simpl. rewrite length_app. simpl. lia.
  - eexists a, _. split; [split; simpl; try first [exact Hk|hw_finish]|].
    + by eapply tag_dispatch_echo.
    + split; [by left|]. split; [done|]. unfold work. simpl. rewrite length_app. simpl. lia.
  - eexists a, (g_disp (disp g + 1) (g_cmds cs (g_lost (tg c :: lost g) g))).
    split; [split; simpl; try first [exact (Hd _)|hw_finish]|].
    + by eapply tag_dispatch_lost.
    + split; [by left|]. split; [done|]. unfold work. simpl. lia.
Qed.

Lemma step_copy w' : hw_copy_engine sp w = Some w' → hw_post sp a g w w'.
Proof.
  unfold hw_copy_engine. hw_step_start.
  destruct (copyq h) as [|c q] eqn:E; [done|]. cbn [head mbind option_bind] in Hx.
  destruct (copy_ok _ _ _ && _) eqn:Ec; [|done]. injection Hx as <-.
  rewrite andb_true_iff, bool_decide_eq_true in Ec. destruct Ec as [_ Hl].
  edestruct (tag_copy a g h s sp c q (set_copyq q (set_copyout
    (copyout h ++ [copy_response c]) h))) as (e & He & Hec & Hcp & Hd & Ht); try done.
  assert (Hs : spec_step a (mkSpec (<[tg c := mkEntry c (e_fin e) (e_arg e) true]> (outst a))
    (s_flags a) (s_events a) (s_total a) (copy_words c (s_scratch a)))).
  { rewrite <-Hec. rewrite <-Hec in He, Hcp. by apply (SpecCopy a (tg (e_cmd e))). }
  match type of Hs with spec_step _ ?a' => exists a', g end.
  split; [split; simpl; rewrite ?E; simpl; try hw_finish|].
  - apply (Ht (copy_words c (s_scratch a))).
  - by eapply spec_step_ok.
  - by f_equal.
  - split; [by right|]. split; [done|]. unfold work. simpl.
    rewrite E, length_app. simpl. lia.
Qed.

Lemma step_respond_copy w' : hw_respond_copy w = Some w' → hw_post sp a g w w'.
Proof.
  unfold hw_respond_copy, hw_status. hw_step_start.
  destruct (copyout h) as [|r q] eqn:E; [done|]. cbn [head mbind option_bind hw] in Hx.
  destruct (Hw.notFull _) eqn:Hnf; [|done]. injection Hx as <-.
  assert (Hlen : length r = 8%nat).
  { pose proof (ti_copyout _ _ _ _ Htag) as Hi. rewrite E, items_cons in Hi.
    by destruct Hi as [(e & _ & -> & _) _]. }
  exists a, (g_msgs (msgs g ++ [r]) g).
  split; [split; simpl; rewrite ?E; simpl; try hw_finish|].
  - by apply status_push.
  - apply (tag_respond_copy a g h s r q); done.
  - split; [by left|]. split; [done|]. unfold work. simpl.
    rewrite E, length_app. simpl. lia.
Qed.

Lemma step_respond_echo w' : hw_respond_echo w = Some w' → hw_post sp a g w w'.
Proof.
  unfold hw_respond_echo, hw_status. hw_step_start.
  destruct (echoq h) as [|r q] eqn:E; [done|]. cbn [head mbind option_bind hw] in Hx.
  destruct (Hw.notFull _) eqn:Hnf; [|done]. injection Hx as <-.
  assert (Hlen : length r = 8%nat).
  { pose proof (ti_echoq _ _ _ _ Htag) as Hi. rewrite E, items_cons in Hi.
    destruct Hi as [(e & He & <- & _) _]. by apply (used_ok a g h s sp _ _ Htag Hspec He). }
  exists a, (g_msgs (msgs g ++ [r]) g).
  split; [split; simpl; rewrite ?E; simpl; try hw_finish|].
  - by apply status_push.
  - apply (tag_respond_echo a g h s r q); done.
  - split; [by left|]. split; [done|]. unfold work. simpl.
    rewrite E, length_app. simpl. lia.
Qed.

(** Every rule but the answer to a query reduces the work left. *)
Lemma hw_exec_post k w' : k ≠ HwGet → hw_exec sp k w = Some w' → hw_post sp a g w w'.
Proof.
  intros Hk. destruct (inv_idle _ _ _ _ HI) as (E1 & E2 & E3).
  destruct k; simpl; try done; try (unfold hw_set, hw_setCmdLast, hw_setStatusFirst;
    rewrite ?E1, ?E2, ?E3; done).
  - apply step_setCmdFirst.
  - apply step_setStatusLast.
  - apply step_fetch.
  - apply step_dispatch.
  - apply step_ack.
  - apply step_copy.
  - apply step_respond_copy.
  - apply step_respond_echo.
Qed.

(** Answering a query changes the queues of queries and answers only. *)
Definition but_gets (w w' : World) : Prop :=
  sw w' = sw w ∧ mem w' = mem w ∧
  hw w' = set_get_f (get_f (hw w')) (set_inds (inds (hw w')) (hw w)).

Lemma hw_get_post w' : hw_get w = Some w' →
  Inv sp a g w' ∧ but_gets w w' ∧ get_f (hw w') = [].
Proof.
  unfold hw_get. hw_step_start. destruct (get_f h) as [|[c r] q] eqn:E; [done|].
  cbn [head mbind option_bind] in Hx. injection Hx as <-.
  unfold get_inv in Hget. destruct (query g) eqn:Eqy; [|by destruct Hget].
  destruct Hget as [? [([= -> -> ->] & Hi & ?)|(? & _)]]; [|done].
  assert (Hg : inds h ++ [(false, 0, REG_LASTACK, Hw.get REG_LASTACK (cmdRing h))] =
    [(false, 0, REG_LASTACK, off (acked g))]).
  { rewrite Hi. simpl. by rewrite <-(ci_hack _ _ _ _ _ _ _ Hcmd). }
  split; [|split; [|simpl; by rewrite E]].
  - split; simpl; rewrite ?E; try hw_finish. unfold get_inv.
    rewrite Eqy, Hg. split; [done|]. right. split; [done|]. exists (acked g). split; [done|]. split; [done|]. destruct Hcmd. lia.
  - by destruct h.
Qed.
End HwSteps.

Section Bursts.
Context (sp : Z).

Lemma but_gets_refl w : but_gets w w.
Proof. by destruct w as [? [] ? ?]. Qed.
Lemma but_gets_trans w1 w2 w3 : but_gets w1 w2 → but_gets w2 w3 → but_gets w1 w3.
Proof.
  intros (? & ? & H2) (? & ? & H3). repeat split; try congruence.
  rewrite H3, H2. done.
Qed.
Lemma but_gets_disabled k w w' : but_gets w w' → k ≠ HwGet →
  hw_exec sp k w' = None → hw_exec sp k w = None.
Proof.
  intros (_ & Hm & Hh) Hk. destruct w as [s1 h m1 n1], w' as [s2 h' m2 n2].
  cbn [hw mem] in *. subst.
  destruct k; cbn [hw_exec]; try done;
    unfold hw_set, hw_setCmdFirst, hw_setCmdLast, hw_setStatusFirst, hw_setStatusLast,
      hw_fetch, hw_dispatch, hw_ack, hw_copy_engine, hw_respond_copy, hw_respond_echo,
      hw_status; cbn [hw mem]; rewrite Hh;
    cbn [set_get_f set_inds set_f cmdFirst_f cmdLast_f statusFirst_f statusLast_f
         hwenabled reads acks copyq copyout echoq cmdRing statusRing].
  - destruct (set_f h) as [|[[? ?] ?] ?]; done.
  - destruct (cmdFirst_f h); done.
  - destruct (cmdLast_f h); done.
  - destruct (statusFirst_f h); done.
  - destruct (statusLast_f h); done.
  - destruct (_ && _); done.
  - destruct (reads h); [done|]. cbn [head mbind option_bind].
    repeat case_bool_decide; done.
  - destruct (acks h); done.
  - destruct (copyq h); [done|]. cbn [head mbind option_bind]. destruct (_ && _); done.
  - destruct (copyout h); [done|]. cbn [head mbind option_bind hw].
    rewrite Hh. cbn [set_get_f set_inds statusRing]. destruct (Hw.notFull _); done.
  - destruct (echoq h); [done|]. cbn [head mbind option_bind hw].
    rewrite Hh. cbn [set_get_f set_inds statusRing]. destruct (Hw.notFull _); done.
Qed.

Lemma exec_get_f k w w' : k ≠ HwGet → hw_exec sp k w = Some w' →
  get_f (hw w') = get_f (hw w).
Proof.
  intros Hk. destruct w as [s h m n]. destruct k; cbn [hw_exec]; try done;
    unfold hw_set, hw_setCmdFirst, hw_setCmdLast, hw_setStatusFirst, hw_setStatusLast,
      hw_fetch, hw_dispatch, hw_ack, hw_copy_engine, hw_respond_copy, hw_respond_echo,
      hw_status; cbn [hw mem].
  - destruct (set_f h) as [|[[? ?] ?] ?]; [done|]. cbn [head mbind option_bind].
    case_bool_decide; by intros [= <-].
  - destruct (cmdFirst_f h); [done|]. by intros [= <-].
  - destruct (cmdLast_f h); [done|]. by intros [= <-].
  - destruct (statusFirst_f h); [done|]. by intros [= <-].
  - destruct (statusLast_f h); [done|]. by intros [= <-].
  - destruct (_ && _); [|done]. by intros [= <-].
  - destruct (reads h); [done|]. cbn [head mbind option_bind].
    repeat case_bool_decide; try done; by intros [= <-].
  - destruct (acks h); [done|]. by intros [= <-].
  - destruct (copyq h); [done|]. cbn [head mbind option_bind].
    destruct (_ && _); [|done]. by intros [= <-].
  - destruct (copyout h); [done|]. cbn [head mbind option_bind hw].
    destruct (Hw.notFull _); [|done]. by intros [= <-].
  - destruct (echoq h); [done|]. cbn [head mbind option_bind hw].
    destruct (Hw.notFull _); [|done]. by intros [= <-].
Qed.

Lemma hw_frame_refl g w : hw_frame g g w w.
Proof. done. Qed.
Lemma hw_frame_trans g1 g2 g3 w1 w2 w3 :
  hw_frame g1 g2 w1 w2 → hw_frame g2 g3 w2 w3 → hw_frame g1 g3 w1 w3.
Proof. unfold hw_frame. intuition congruence. Qed.

(** Nothing happened in a burst but answers to queries. *)
Definition calm (a a' : Spec) (g g' : Ghost) (w w' : World) (l : list hwstep) : Prop :=
  a' = a ∧ g' = g ∧ but_gets w w' ∧
  ∀ k, k ∈ l → k ≠ HwGet → hw_exec sp k w = None.

Lemma burst l a g w : Inv sp a g w →
  ∃ a' g', let w' := foldl (hw_try sp) w l in
    Inv sp a' g' w' ∧ rtc spec_step a a' ∧ hw_frame g g' w w' ∧
    (HwGet ∈ l ∨ get_f (hw w) = [] → get_f (hw w') = []) ∧
    (work g' (hw w') < work g (hw w) ∨ calm a a' g g' w w' l).
Proof.
  revert a g w; induction l as [|k l IH]; intros a g w HI.
  { exists a, g. cbn [foldl]. split; [done|]. split; [done|]. split; [done|].
    split; [intros [H|]; [by apply elem_of_nil in H|done]|].
    right. split; [done|]. split; [done|]. split; [apply but_gets_refl|].
    intros ? H; by apply elem_of_nil in H. }
  cbn [foldl]. assert (Et : hw_try sp w k = default w (hw_exec sp k w)) by done.
  rewrite Et. destruct (hw_exec sp k w) as [w1|] eqn:E; cbn [default from_option id]; clear Et.
  - destruct (decide (k = HwGet)) as [->|Hk].
    + destruct (hw_get_post sp a g w HI w1 E) as (HI1 & Hb & Hg).
      destruct (IH a g w1 HI1) as (a' & g' & HI' & Hr & Hf & Hget & Hw).
      exists a', g'. split; [done|]. split; [done|].
      assert (hw_frame g g w w1) by (destruct Hb as (? & ? & ?); done).
      split; [by eapply hw_frame_trans|]. split; [auto|].
      assert (work g (hw w1) = work g (hw w)) as Ew.
      { destruct Hb as (_ & _ & ->). done. }
      rewrite <-Ew. destruct Hw as [?|(-> & -> & Hb' & Hd)]; [by left|right].
      split; [done|]. split; [done|]. split; [by eapply but_gets_trans|].
      intros k' [->|Hin]%elem_of_cons Hne; [done|]. eapply but_gets_disabled; eauto.
    + destruct (hw_exec_post sp a g w HI k w1 Hk E) as (a1 & g1 & HI1 & Hs & Hf1 & Hw1).
      destruct (IH a1 g1 w1 HI1) as (a' & g' & HI' & Hr & Hf & Hget & Hw).
      exists a', g'. split; [done|]. split.
      { destruct Hs as [->|Hs]; [done|]. by eapply rtc_l. }
      split; [by eapply hw_frame_trans|]. split.
      { rewrite (exec_get_f _ _ _ Hk E) in Hget. intros [[Hq|]%elem_of_cons|]; auto. by destruct Hk. }
      left. destruct Hw as [?|(-> & -> & Hb & _)]; [lia|].
      destruct Hb as (_ & _ & ->). done.
  - destruct (IH a g w HI) as (a' & g' & HI' & Hr & Hf & Hget & Hw).
    exists a', g'. do 3 (split; [done|]). split.
    { intros [[<-|]%elem_of_cons|]; auto. apply Hget. right.
      cbn [hw_exec] in E. unfold hw_get in E. by destruct (get_f (hw w)) as [|[] ?]. }
    destruct Hw as [?|(-> & -> & Hb & Hd)]; [by left|right].
    split; [done|]. split; [done|]. split; [done|]. intros k' [->|Hin]%elem_of_cons Hne; [done|]. auto.
Qed.

(** With no rule ready and no message to read, every announced command has been
    performed and acknowledged. *)
Definition idle (g : Ghost) (h : HwState) : Prop :=
  acked g = publ g ∧ copyq h = [] ∧ copyout h = [] ∧ echoq h = [] ∧ msgs g = [].

Lemma quiet_idle a g w : Inv sp a g w →
  (∀ k, k ≠ HwGet → hw_exec sp k w = None) → msgs g = [] → idle g (hw w).
Proof.
  intros [Hcmd Hst _ Htag Hspec _ _ _ Hsc _ [Hon _]] Hq Hm.
  destruct w as [s h m n]; cbn [sw hw mem now] in *.
  pose proof (Hq HwSetCmdFirst) as H1. pose proof (Hq HwSetStatusLast) as H2.
  pose proof (Hq HwFetch) as H3. pose proof (Hq HwDispatch) as H4.
  pose proof (Hq HwAck) as H5. pose proof (Hq HwCopy) as H6.
  pose proof (Hq HwRespondCopy) as H7. pose proof (Hq HwRespondEcho) as H8.
  cbn [hw_exec] in *.
  unfold hw_setCmdFirst, hw_setStatusLast, hw_fetch, hw_dispatch, hw_ack,
    hw_copy_engine, hw_respond_copy, hw_respond_echo, hw_status in *. cbn [hw mem] in *.
  destruct (cmdFirst_f h) eqn:E1; [|by discriminate H1].
  destruct (statusLast_f h) eqn:E2; [|by discriminate H2].
  rewrite (status_room _ _ _ _ Hst Hm) in *.
  destruct (copyout h) eqn:E7; [|by discriminate H7].
  destruct (echoq h) eqn:E8; [|by discriminate H8].
  destruct (acks h) eqn:E5; [|by discriminate H5].
  assert (copyq h = []) as E6.
  { pose proof (ti_copyq _ _ _ _ Htag) as Hi. destruct (copyq h) as [|c q]; [done|].
    rewrite items_cons in Hi. destruct Hi as [(e & He & (<- & _) & Hc) _].
    destruct (used_ok _ _ _ _ sp _ _ Htag Hspec He) as (_ & _ & _ & Hok & _).
    rewrite <-Hsc in H6. cbn [head mbind option_bind] in H6.
    rewrite (Hok Hc) in H6. by discriminate H6. }
  assert (reads h = []) as E4.
  { destruct (reads h) as [|v q]; [done|]. cbn [head mbind option_bind] in H4.
    cbn [set_reads set_acks copyq echoq] in H4. rewrite E6, E8 in H4.
    repeat case_bool_decide; try (simpl in *; lia); by specialize (H4 ltac:(done)). }
  rewrite Hon, E4 in H3. cbn [andb] in H3.
  destruct Hcmd. rewrite E4 in ci_reads0. simpl in ci_pend0. unfold Hw.notEmpty in H3.
  rewrite ci_hfirst0, ci_hfetch0 in H3.
  assert (fetched g = disp g).
  { destruct (decide (fetched g = disp g)); [done|].
    rewrite seqZ_cons in ci_reads0 by lia. done. }
  repeat split; try done. destruct (decide (seen g = fetched g)); [lia|].
  rewrite bool_decide_true in H3; [by specialize (H3 ltac:(done))|].
  intros Heq%off_inj; [lia|]. destruct ci_space0 as (? & _ & ? & ?). lia.
Qed.
End Bursts.
