(* ===== verification/RingOps.v ===== *)
(** * The operations on the rings (src/examples/ring)

    What the functions of testring.cpp do, in terms of the service of RingInv.v,
    for every schedule of the hardware: they fail no assertion and access no memory
    outside the buffers, whatever the hardware does; and if every rule gets a turn
    between two polls they return. *)
From stdpp Require Import base gmap numbers relations list.
From S2P Require Import Prelude Ring RingInv.
Local Open Scope Z_scope.

#[local] Arguments engineselect : simpl never.
#[local] Arguments slot : simpl never.
#[local] Arguments copy_ok : simpl never.
#[local] Arguments copy_words : simpl never.
#[local] Arguments copy_response : simpl never.
#[local] Arguments response : simpl never.

Section Access.
Context (nf : Prop).

Lemma wpf_elem {A} (l : list A) i x (Q : A → World → Prop) w :
  l !! i = Some x → Q x w → wpf nf (elem l i) Q w.
Proof. unfold elem. by intros ->. Qed.
Lemma wpf_load_status o v (Q : Z → World → Prop) w :
  statusBuffer (mem w) !! word o = Some v → Q v w → wpf nf (load StatusBuffer o) Q w.
Proof. intros. unfold load. wpf_steps. by eapply wpf_elem. Qed.
Lemma wpf_store_status o x (Q : () → World → Prop) w :
  is_Some (statusBuffer (mem w) !! word o) →
  Q tt (upd_mem (λ m, set_statusBuffer (<[word o := x]> (statusBuffer m)) m) w) →
  wpf nf (store StatusBuffer o x) Q w.
Proof. intros [v ?] ?. unfold store. wpf_steps. by eapply wpf_load_status. Qed.
End Access.

Section Ops.
Context (sp : Z) (sched : nat → list hwstep) (poll_rc : nat → Z) (nf : Prop).

(** Every rule gets a turn whenever software looks. *)
Definition fair : Prop := ∀ n k, k ∈ sched n.

(** What the operations leave alone. *)
Record frame (g g' : Ghost) (w w' : World) : Prop := {
  fr_sent : sent g' = sent g; fr_publ : publ g' = publ g;
  fr_asked : asked g' = asked g; fr_known : known g ≤ known g';
  fr_space : cached_space (cmd_ring (sw w')) = cached_space (cmd_ring (sw w));
  fr_printed : printed (sw w') = printed (sw w) }.

Lemma frame_refl g w : frame g g w w.
Proof. by split. Qed.
Lemma frame_trans g1 g2 g3 w1 w2 w3 :
  frame g1 g2 w1 w2 → frame g2 g3 w2 w3 → frame g1 g3 w1 w3.
Proof. intros [] []. split; try congruence. lia. Qed.
Lemma hw_frame_frame g g' w w' : hw_frame g g' w w' → frame g g' w w'.
Proof. intros (E & ? & ? & ? & ? & ? & ?). split; rewrite ?E; done || lia. Qed.

(** The outcome of a piece of polling that started in [a], [g], [w]: the service
    has made some steps; if every rule gets a turn there is less work left or there
    was nothing to do. *)
Definition polled (a : Spec) (g : Ghost) (w w' : World) (a' : Spec) (g' : Ghost) : Prop :=
  Inv sp a' g' w' ∧ rtc spec_step a a' ∧ frame g g' w w' ∧
  work g' (hw w') ≤ work g (hw w) ∧
  (fair → work g' (hw w') < work g (hw w) ∨ a' = a ∧ idle g (hw w)).

(** A query that has been answered has set the flag. *)
Definition flag_inv (g : Ghost) (w : World) : Prop :=
  query g = false → getresult_flag (sw w) ≠ 0.

(** *** The hardware runs *)
Lemma hw_run_wp a g w : Inv sp a g w →
  wpf nf (hw_run sp sched) (λ _ w', ∃ a' g', Inv sp a' g' w' ∧ rtc spec_step a a' ∧
    hw_frame g g' w w' ∧ (fair ∨ get_f (hw w) = [] → get_f (hw w') = []) ∧
    work g' (hw w') ≤ work g (hw w) ∧
    (fair → work g' (hw w') < work g (hw w) ∨
      a' = a ∧ g' = g ∧ ∀ k, k ≠ HwGet → hw_exec sp k w = None)) w.
Proof.
  intros HI. unfold hw_run. apply wpf_modify.
  set (w0 := mkWorld _ _ _ _).
  assert (HI0 : Inv sp a g w0) by (destruct HI; by split).
  destruct (burst sp (sched (now w)) a g w0 HI0) as (a' & g' & HI' & Hr & Hf & Hg & Hw).
  exists a', g'. split; [done|]. split; [done|]. split; [done|]. split.
  { intros [Hfair|]; apply Hg; [left; apply Hfair|by right]. }
  split; [destruct Hw as [?|(-> & -> & (_ & _ & ->) & _)]; [by apply Z.lt_le_incl|done]|].
  intros Hfair. destruct Hw as [?|(-> & -> & _ & Hd)]; [by left|right].
  split; [done|]. split; [done|]. intros k Hk.
  apply (but_gets_disabled sp k w w0); [by destruct w as [? [] ? ?]|done|].
  apply Hd; [apply Hfair|done].
Qed.

(** *** Messages *)

(** A message's tag is that of an outstanding command, which is ready. *)
Lemma msg_entry a g w m ms : Inv sp a g w → msgs g = m :: ms →
  ∃ e, outst a !! tg m = Some e ∧ at_msgs e m ∧ (1 ≤ tg m < 1024)%nat ∧
    entry_ok sp a (tg m) e ∧ nth 7 m 0 = tg m ∧ length m = 8%nat.
Proof.
  intros HI E. destruct HI as [_ _ _ Htag Hspec _ _ _ _ _ _].
  pose proof (ti_msgs _ _ _ _ Htag) as Hi. rewrite E in Hi.
  apply items_cons in Hi as [(e & He & Hat) _]. exists e.
  destruct (used_ok _ _ _ _ sp _ _ Htag Hspec He) as [Hb Hok].
  repeat split; try done; try apply Hat; try apply Hok; try apply Hb.
  - destruct Hat as [-> _]. destruct Hok as (Hl & H7 & _). revert H7. unfold response, tg.
    case_bool_decide; unfold copy_response; cbn [nth]; [|done]. intros _.
    pose proof (u32_range (nth 7 (e_cmd e) 0)). lia.
  - destruct Hat as [-> _]. unfold response. case_bool_decide; [done|]. apply Hok.
Qed.

Lemma ring_next_wp a g w : Inv sp a g w →
  wpf nf (ring_next StatusRing) (λ r w', w' = w ∧
    r = match msgs g with [] => None | _ => Some (last (status_ring (sw w))) end) w.
Proof.
  intros HI. pose proof HI as [_ Hst _ _ _ _ _ _ _ _ _].
  unfold ring_next, get_ring, sw_gets. wpf_steps. cbn [sw].
  rewrite (si_base _ _ _ _ _ Hst). eapply wpf_load_status.
  { apply (status_word _ _ _ _ _ 7 Hst). lia. }
  wpf_steps. split; [done|]. destruct (msgs g) as [|m ms] eqn:E.
  - by rewrite (status_empty _ _ _ _ _ Hst E).
  - destruct (msg_entry _ _ _ _ _ HI E) as (e & _ & _ & Hb & _ & H7 & _).
    rewrite (status_head _ _ _ _ _ _ _ Hst E), H7. rewrite bool_decide_false by lia. done.
Qed.

Lemma alter_insert {A} (f : A → A) i (l : list A) x :
  l !! i = Some x → alter f i l = <[i := f x]> l.
Proof.
  intros H. apply list_eq. intros j. destruct (decide (i = j)) as [->|].
  - rewrite list_lookup_alter_eq, H. symmetry. apply list_lookup_insert_eq.
    by eapply lookup_lt_Some.
  - by rewrite list_lookup_alter_ne, list_lookup_insert_ne.
Qed.

(** The callback of an outstanding command has the effect of the service's. *)
Definition sw_objects (a : Spec) (s : Sw) : Sw :=
  set_totalCompletions (s_total a) (set_events (s_events a) (set_flags (s_flags a) s)).

Lemma callback_wp a e r event w :
  s_flags a = flags (sw w) → s_events a = events (sw w) →
  s_total a = totalCompletions (sw w) →
  (∃ t, entry_ok sp a t e) →
  statusBuffer (mem w) !! word (event + 8) = Some (nth 1 r 0) →
  statusBuffer (mem w) !! word (event + 16) = Some (nth 2 r 0) →
  wpf nf (match e_fin e with
          | Some f => call_finish f (e_arg e) event | None => mret tt end)
    (λ _ w', w' = upd_sw (sw_objects (callback (e_fin e) (e_arg e) r a)) w) w.
Proof.
  intros Hf He Ht (t & _ & _ & _ & Hok) H1 H2.
  destruct (e_fin e) as [[]|]; cbn [call_finish].
  - destruct Hok as (i & -> & Hi). unfold flag_finish, sw_gets, sw_modify. wpf_steps.
    rewrite Hf in Hi. destruct (lookup_lt_is_Some_2 _ _ Hi) as [x Hx].
    eapply wpf_elem; [done|]. wpf_steps. destruct w as [[] h m n].
    unfold sw_objects, callback, upd_sw. simpl in *. by subst.
  - destruct Hok as (_ & i & ev & -> & Hev & _). unfold echo_finish, sw_gets, sw_modify.
    wpf_steps. rewrite He in Hev. eapply wpf_elem; [done|].
    wpf_steps. eapply wpf_load_status; [done|]. wpf_steps.
    eapply wpf_load_status; [done|]. wpf_steps. destruct w as [[] h m n].
    unfold sw_objects, callback, upd_sw. simpl in *. subst. do 2 f_equal.
    f_equal. symmetry. by apply (alter_insert (λ e, mkEvent (exp_a e) (exp_b e) _ _ _)).
  - wpf_steps. destruct w as [[] h m n].
    unfold sw_objects, callback, upd_sw. simpl in *. by subst.
Qed.

(** The state after a message has been handled and popped. *)
Definition popped_world (a' : Spec) (m : list Z) (w : World) : World :=
  let r := status_ring (sw w) in
  let l := u32 (last r + 64) in
  let l := if bool_decide (size r ≤ l) then 0 else l in
  mkWorld
    (set_status_ring (set_last l r) (set_completionfreelist
      (completionfreelist (sw w) ++ [tg m]) (sw_objects a' (set_completion
        (alter (λ p, mkCompletion (tag p) 0 (finish p) (arg p)) (tg m)
           (completion (sw w))) (sw w)))))
    (if bool_decide (l mod Z.shiftr (size r) 2 = 0)
     then set_statusLast_f (statusLast_f (hw w) ++ [l]) (hw w) else hw w)
    (set_statusBuffer (<[word (last r + 56) := 0]> (statusBuffer (mem w))) (mem w))
    (now w).

Lemma handle_pop_eq a g w m ms e : Inv sp a g w → msgs g = m :: ms →
  outst a !! tg m = Some e →
  wpf nf (Ring_Handle_Completion (last (status_ring (sw w)));; ring_pop StatusRing)
    (λ _ w', w' = popped_world (callback (e_fin e) (e_arg e) m a) m w) w.
Proof.
  intros HI E He. pose proof HI as [_ Hst _ Htag _ Hfl Hev Hto _ _ _].
  destruct (msg_entry _ _ _ _ _ HI E) as (e' & He' & _ & Hb & Hok & H7 & _).
  rewrite He in He'. injection He' as <-.
  pose proof (status_head _ _ _ _ _ _ _ Hst E) as Hm.
  assert (Hw : ∀ i : nat, (i < 8)%nat →
    statusBuffer (mem w) !! word (last (status_ring (sw w)) + 8 * i) = Some (nth i m 0)).
  { intros i Hi. rewrite <-Hm. by apply (status_word _ _ _ _ _ _ Hst). }
  pose proof (ti_used _ _ _ _ Htag _ _ He) as Hc.
  wpf_steps. unfold Ring_Handle_Completion, sw_gets, sw_modify. wpf_steps.
  eapply wpf_load_status; [apply (Hw 7%nat); lia|]. wpf_steps.
  change 65535 with (2 ^ 16 - 1). rewrite land_low_mod, H7, Z.mod_small by lia.
  apply wpf_assert; [apply bool_decide_true; lia|]. rewrite Nat2Z.id. wpf_steps.
  eapply wpf_elem; [done|]. wpf_steps.
  apply wpf_assert; [done|]. wpf_steps. cbn [finish arg tag].
  eapply wpf_mono.
  { apply (callback_wp a e m); [done|done|done|eauto| |].
    - apply (Hw 1%nat). lia.
    - apply (Hw 2%nat). lia. }
  intros [] w1 ->. wpf_steps. apply wpf_store_status; [eexists; apply (Hw 7%nat); lia|].
  wpf_steps. unfold ring_pop, get_ring, sw_gets, set_ring, sw_modify. wpf_steps.
  cbn [sw upd_sw upd_mem mem status_ring set_completionfreelist sw_objects
       set_totalCompletions set_events set_flags set_completion].
  rewrite (si_base _ _ _ _ _ Hst). apply wpf_store_status.
  { cbn [upd_sw upd_mem mem statusBuffer set_statusBuffer].
    apply lookup_lt_is_Some_2. rewrite length_insert.
    by eapply lookup_lt_Some, (Hw 7%nat); lia. }
  wpf_steps. unfold when. rewrite (si_id _ _ _ _ _ Hst).
  rewrite (bool_decide_false (1 = 0)) by done. unfold popped_world.
  erewrite alter_insert by done. cbn [tag finish arg].
  case_bool_decide; unfold ring_setStatusLast, hw_modify; wpf_steps;
    unfold upd_sw, upd_mem, upd_hw, set_statusBuffer; simpl; by rewrite list_insert_insert_eq.
Qed.

Lemma callback_set_outst fin ar r o a :
  callback fin ar r (set_outst o a) = set_outst o (callback fin ar r a).
Proof. by destruct fin as [[]|], ar. Qed.

(** Handling a message completes its command. *)
Lemma handle_inv a g w m ms : Inv sp a g w → msgs g = m :: ms →
  ∃ a' e, outst a !! tg m = Some e ∧ spec_step a a' ∧
    let g' := g_popped (popped g + 1) (g_msgs ms g) in
    let w' := popped_world (callback (e_fin e) (e_arg e) m a) m w in
    Inv sp a' g' w' ∧ work g' (hw w') < work g (hw w).
Proof.
  intros HI E. destruct (msg_entry _ _ _ _ _ HI E) as (e & He & [Hm Hrdy] & Hb & Hok & _).
  destruct HI as [Hcmd Hst Hget Htag Hspec Hfl Hev Hto Hsc Hidle Hon].
  eexists _, e. split; [done|].
  assert (Hs := SpecComplete a (tg m) e He Hrdy). split; [exact Hs|].
  rewrite <-Hm in *. rewrite callback_set_outst in *. cbv zeta.
  set (w' := popped_world _ _ _). set (h' := hw w').
  assert (Hh : h' = set_statusLast_f (statusLast_f h') (hw w)).
  { unfold h', w', popped_world. cbn [hw].
    destruct (bool_decide (_ mod _ = 0)); [done|by destruct (hw w)]. }
  split; [split|].
  - fold h'. rewrite Hh. by apply (cmd_frame g).
  - pose proof (status_pop _ _ _ _ _ _ _ Hst E) as Hp. unfold h', w', popped_world.
    cbn [hw sw mem statusBuffer set_statusBuffer status_ring set_status_ring].
    cbv zeta in *. revert Hp. generalize (if bool_decide (size (status_ring (sw w)) ≤ u32
      (last (status_ring (sw w)) + 64)) then 0 else u32 (last (status_ring (sw w)) + 64)).
    intros l Hp. case_bool_decide; exact Hp.
  - fold h'. rewrite Hh. exact Hget.
  - apply (tag_complete a g (hw w) (sw w) m ms); fold h'; try (rewrite Hh; done); try done.
    + eexists _, _. cbn [completion sw w' popped_world set_status_ring
        set_completionfreelist sw_objects set_totalCompletions set_events set_flags
        set_completion]. erewrite alter_insert by (by apply (ti_used _ _ _ _ Htag)).
      done.
  - by eapply spec_step_ok.
  - done.
  - done.
  - done.
  - cbn [s_scratch set_outst]. rewrite callback_scratch. done.
  - fold h'. rewrite Hh. exact Hidle.
  - fold h'. rewrite Hh. exact Hon.
  - fold h'. unfold work. rewrite Hh.
    cbn [copyq copyout echoq cmdFirst_f statusLast_f set_statusLast_f
      sent publ seen fetched disp acked known popped freed cmds msgs g_popped g_msgs].
    rewrite E. cbn [length].
    assert (length (statusLast_f h') ≤ S (length (statusLast_f (hw w))))%nat; [|lia].
    unfold h', w', popped_world. cbn [hw].
    destruct (bool_decide (_ mod _ = 0)); cbn [statusLast_f set_statusLast_f];
      rewrite ?length_app; simpl; lia.
Qed.

Lemma handle_wp a g w m ms : Inv sp a g w → msgs g = m :: ms →
  wpf nf (Ring_Handle_Completion (last (status_ring (sw w)));; ring_pop StatusRing)
    (λ _ w', ∃ a' g', Inv sp a' g' w' ∧ spec_step a a' ∧ frame g g' w w' ∧
      work g' (hw w') < work g (hw w) ∧ query g' = query g ∧
      getresult_flag (sw w') = getresult_flag (sw w)) w.
Proof.
  intros HI E. destruct (handle_inv _ _ _ _ _ HI E) as (a' & e & He & Hs & HI' & Hw).
  eapply wpf_mono; [by eapply handle_pop_eq|]. intros [] w' ->.
  exists a', (g_popped (popped g + 1) (g_msgs ms g)). split; [done|]. split; [done|].
  split; [by split|]. done.
Qed.

(** *** Indications *)
Lemma event_wp a g w : Inv sp a g w →
  wpf nf portalExec_event (λ rc w', rc = 0 ∧ ∃ g', Inv sp a g' w' ∧ frame g g' w w' ∧
    hw w' = set_inds [] (hw w) ∧ mem w' = mem w ∧ msgs g' = msgs g ∧
    acked g' = acked g ∧ publ g' = publ g ∧ work g' (hw w') = work g (hw w) ∧
    (query g = false ∨ get_f (hw w) = [] → query g' = false) ∧
    (flag_inv g w → flag_inv g' w')) w.
Proof.
  intros HI. pose proof HI as [Hcmd Hst Hget Htag Hspec ? ? ? ? ? ?].
  unfold portalExec_event. wpf_steps. unfold get_inv in Hget.
  destruct (query g) eqn:Eq.
  - destruct Hget as (Hfl & [(Hg & -> & ?)|(Hg & k & -> & ? & ?)]); cbn [for_each].
    + wpf_steps. split; [done|]. exists g. split; [split; simpl; try done|].
      { unfold get_inv. rewrite Eq. split; [done|]. by left. }
      { by apply (tag_frame a _ g _ (hw w) _ (sw w)). }
      split; [by split|]. repeat (split; [done|]). split; [|done].
      intros [?|E]; [done|]. by rewrite E in Hg.
    + unfold getResult, get_ring, sw_gets, set_ring, sw_modify, when, hw_modify. wpf_steps.
      rewrite (ci_id _ _ _ _ _ _ _ Hcmd), !bool_decide_true by done. cbn [andb].
      wpf_steps. split; [done|]. rewrite u32_off.
      exists (g_query false (g_known k g)). split; [split; simpl; try done|].
      * by apply (cmd_frame (g_known k g)), cmd_known.
      * by apply (status_frame g).
      * by apply (tag_frame a _ g _ (hw w) _ (sw w)).
      * split; [split; simpl; try done; lia|]. by repeat (split; [done|]).
  - destruct Hget as (Hg & -> & ?). cbn [for_each]. unfold hw_modify. wpf_steps.
    split; [done|]. exists g. split; [split; simpl; try done|].
    { unfold get_inv. by rewrite Eq. }
    { by apply (tag_frame a _ g _ (hw w) _ (sw w)). }
    split; [by split|]. repeat (split; [done|]). done.
Qed.

(** *** Polling *)

(** The end of a poll: hardware runs, then a message, if there is one, is handled. *)
Definition poll_ring (body : Z → M World ()) : M World () :=
  hw_run sp sched;;
  msg ← ring_next StatusRing;
  match msg with None => mret tt | Some m => body m end.

Lemma poll_ring_wp body a g w Q : Inv sp a g w →
  (∀ a' g' w', polled a g w w' a' g' → query g' = query g →
    getresult_flag (sw w') = getresult_flag (sw w) → msgs g' = [] → Q tt w') →
  (∀ a' g' w' m ms, Inv sp a' g' w' → rtc spec_step a a' → frame g g' w w' →
    work g' (hw w') ≤ work g (hw w) → msgs g' = m :: ms →
    query g' = query g → getresult_flag (sw w') = getresult_flag (sw w) →
    wpf nf (body (last (status_ring (sw w')))) Q w') →
  wpf nf (poll_ring body) Q w.
Proof.
  intros HI HQ Hbody. unfold poll_ring. apply wpf_bind.
  eapply wpf_mono; [by apply hw_run_wp|].
  intros [] w1 (a1 & g1 & HI1 & Hr1 & Hf1 & _ & Hle & Hprog).
  pose proof (hw_frame_frame _ _ _ _ Hf1) as Hfr.
  destruct Hf1 as (Esw & _ & _ & _ & _ & _ & Eq).
  apply wpf_bind. eapply wpf_mono; [by apply (ring_next_wp a1 g1)|]. intros r w1' [-> ->].
  destruct (msgs g1) as [|m ms] eqn:E.
  - wpf_steps. apply (HQ a1 g1); try done; [|by rewrite Esw].
    repeat (split; [done|]).
    intros Hfair. destruct (Hprog Hfair) as [?|(-> & -> & Hq)]; [by left|right].
    split; [done|]. by apply (quiet_idle sp a).
  - apply (Hbody a1 g1 w1 m ms); try done. by rewrite Esw.
Qed.

Context (Hpoll : ∀ n, 0 ≤ poll_rc n).

Lemma StatusPoll_wp a g w : Inv sp a g w →
  wpf nf (StatusPoll sp sched poll_rc) (λ _ w', ∃ a' g', polled a g w w' a' g' ∧
    (query g = false ∨ fair → query g' = false) ∧
    (flag_inv g w → flag_inv g' w')) w.
Proof.
  intros HI. unfold StatusPoll. apply wpf_bind. eapply wpf_mono; [by apply hw_run_wp|].
  intros [] w1 (a1 & g1 & HI1 & Hr1 & Hf1 & Hget & Hle & Hprog).
  pose proof (hw_frame_frame _ _ _ _ Hf1) as Hfr1.
  destruct Hf1 as (Esw & _ & _ & _ & _ & _ & Eq).
  wpf_steps. rewrite bool_decide_true by apply Hpoll.
  eapply wpf_mono; [by apply event_wp|].
  intros rc w2 (-> & g2 & HI2 & Hf2 & Ehw & Emem & Emsgs & Eack & Epub & Ework & Hq & Hflag).
  wpf_steps. apply wpf_assert; [done|]. unfold sw_gets. wpf_steps.
  rewrite bool_decide_false by apply HI2.
  assert (Hq2 : query g = false ∨ fair → query g2 = false).
  { intros [?|Hfair]; apply Hq; [left; congruence|right; auto]. }
  assert (Hfl2 : flag_inv g w → flag_inv g2 w2).
  { intros H. apply Hflag. unfold flag_inv in *. by rewrite Esw, Eq. }
  eapply (poll_ring_wp _ a1 g2 w2); [done|..].
  - intros a' g' w' (HI' & Hr' & Hf' & Hle' & Hprog') Eq' Efl' Em'. exists a', g'.
    split; [|split; [rewrite Eq'; done|unfold flag_inv in *; rewrite Eq', Efl'; done]].
    split; [done|]. split; [by eapply rtc_trans|].
    split; [by do 2 (eapply frame_trans; [done|])|]. split; [lia|].
    intros Hfair. destruct (Hprog Hfair) as [?|(-> & -> & Hd)]; [left; lia|].
    destruct (Hprog' Hfair) as [?|[-> Hi]]; [left; lia|right]. split; [done|].
    apply (quiet_idle sp a); [done|done|]. destruct Hi as (_ & _ & _ & _ & ?). congruence.
  - intros a' g' w' m ms HI' Hr' Hf' Hle' Em Eq' Efl'.
    eapply wpf_mono; [by eapply handle_wp|].
    intros [] w3 (a3 & g3 & HI3 & Hs3 & Hf3 & Hw3 & Eq3 & Efl3). exists a3, g3.
    split; [|split; [rewrite Eq3, Eq'; done
      |unfold flag_inv in *; rewrite Eq3, Eq', Efl3, Efl'; done]].
    split; [done|]. split; [eapply rtc_trans; [done|]; by eapply rtc_r|].
    split; [by do 3 (eapply frame_trans; [done|])|]. split; [lia|]. left. lia.
Qed.

(** Polling the ring only, until it is empty. *)
Lemma StatusPollRingOnly_wp (fuel : nat) a g w : Inv sp a g w →
  (nf ∨ work g (hw w) < fuel) →
  wpf nf (StatusPollRingOnly sp sched fuel) (λ _ w', ∃ a' g',
    polled a g w w' a' g' ∧ query g' = query g) w.
Proof.
  revert a g w; induction fuel as [|fuel IH]; intros a g w HI Hn.
  { destruct Hn as [?|Hn]; [done|]. exfalso. revert Hn.
    assert (0 ≤ work g (hw w)); [|lia]. destruct HI as [[] _ _ _ _ _ _ _ _ _ _].
    unfold work. lia. }
  cbn [StatusPollRingOnly]. eapply (poll_ring_wp _ a g w); [done|..].
  - intros a' g' w' Hp Eq' _ _. by exists a', g'.
  - intros a' g' w' m ms HI' Hr' Hf' Hle' Em Eq' Efl'.
    apply (wpf_assoc nf _ (λ _, ring_pop StatusRing)), wpf_bind.
    eapply wpf_mono; [by eapply handle_wp|].
    intros [] w3 (a3 & g3 & HI3 & Hs3 & Hf3 & Hw3 & Eq3 & Efl3).
    eapply wpf_mono; [apply (IH a3 g3 w3 HI3)|].
    { destruct Hn; [by left|right; lia]. }
    intros [] w4 (a4 & g4 & (HI4 & Hr4 & Hf4 & Hle4 & _) & Eq4). exists a4, g4.
    split; [|congruence]. split; [done|].
    split; [eapply rtc_trans; [done|]; by eapply rtc_l|].
    split; [by do 2 (eapply frame_trans; [done|])|]. split; [lia|]. left. lia.
Qed.

Lemma work_nonneg a g w : Inv sp a g w → 0 ≤ work g (hw w).
Proof. intros [[] _ _ _ _ _ _ _ _ _ _]. unfold work. lia. Qed.

(** A loop that polls until [f]: [J] relates what has been reached to the start. *)
Lemma poll_until_wp (J : Spec → Ghost → World → Prop) f body (fuel : nat) a g w :
  (∀ a g w, Inv sp a g w → J a g w → f w = false →
    wpf nf body (λ _ w', ∃ a' g', Inv sp a' g' w' ∧ J a' g' w' ∧
      (nf ∨ work g' (hw w') < work g (hw w) ∨ f w' = true ∧ work g' (hw w') ≤ work g (hw w))) w) →
  Inv sp a g w → J a g w → (nf ∨ work g (hw w) + 1 < fuel) →
  wpf nf (poll_until fuel body f) (λ _ w', ∃ a' g', Inv sp a' g' w' ∧ J a' g' w' ∧
    f w' = true) w.
Proof.
  intros Hbody. revert a g w.
  assert (Hgen : ∀ a g w, Inv sp a g w → J a g w →
    (nf ∨ work g (hw w) + 1 < fuel ∨ (f w = true ∧ 0 < fuel)) →
    wpf nf (poll_until fuel body f) (λ _ w', ∃ a' g', Inv sp a' g' w' ∧ J a' g' w' ∧
      f w' = true) w).
  { induction fuel as [|fuel IH]; intros a g w HI HJ Hn.
    - destruct Hn as [?|[?|?]]; [done| |lia]. pose proof (work_nonneg _ _ _ HI). lia.
    - cbn [poll_until]. wpf_steps. destruct (f w) eqn:Ef; [wpf_steps; eauto|].
      wpf_steps. eapply wpf_mono; [by eapply Hbody|].
      intros [] w' (a' & g' & HI' & HJ' & Hp). apply (IH a' g'); [done|done|].
      destruct Hn as [?|[?|[? ?]]]; [by left| |done].
      destruct Hp as [?|[?|[? ?]]]; [by left|right; left; lia|right; right].
      pose proof (work_nonneg _ _ _ HI). split; [done|lia]. }
  intros a g w HI HJ [?|?]; apply (Hgen a g); auto.
Qed.

(** Waiting for the answer to a query. *)
Lemma wait_query_wp (fuel : nat) a g w : Inv sp a g w → query g = true →
  (nf ∨ fair ∧ work g (hw w) + 1 < fuel) →
  wpf nf (waitforflag sp sched poll_rc fuel getresult_flag) (λ _ w', ∃ a' g',
    polled a g w w' a' g' ∧ query g' = false) w.
Proof.
  intros HI Hq Hn. unfold waitforflag.
  eapply wpf_mono; [apply (poll_until_wp (λ a' g' w',
    (polled a g w w' a' g' ∨ a' = a ∧ g' = g ∧ w' = w) ∧ flag_inv g' w') _ _ _ a g w)|].
  - intros a1 g1 w1 HI1 [Hp1 Hfl1] Hf1. eapply wpf_mono; [by apply StatusPoll_wp|].
    intros [] w2 (a2 & g2 & (HI2 & Hr2 & Hf2 & Hle2 & Hpr2) & Hq2 & Hfl2). exists a2, g2.
    split; [done|]. split.
    + split; [left|by apply Hfl2].
      destruct Hp1 as [(_ & Hr1 & Hfr1 & Hle1 & Hpr1)|(-> & -> & ->)]; [|done].
      split; [done|]. split; [by eapply rtc_trans|]. split; [by eapply frame_trans|].
      split; [lia|]. intros Hfair.
      destruct (Hpr1 Hfair) as [?|[-> ?]]; [left; lia|].
      destruct (Hpr2 Hfair) as [?|[-> ?]]; [left; lia|by right].
    + destruct Hn as [?|[Hfair _]]; [by left|]. right. right. split; [|done].
      apply bool_decide_true, Hfl2; auto.
  - done.
  - split; [by right|]. intros ?. congruence.
  - destruct Hn as [?|[? ?]]; auto.
  - intros [] w' (a' & g' & HI' & [Hp Hfl] & Hf). exists a', g'.
    apply bool_decide_eq_true in Hf.
    assert (query g' = false).
    { destruct (query g') eqn:E; [|done]. exfalso. apply Hf.
      pose proof (inv_get _ _ _ _ HI') as Hg. unfold get_inv in Hg. rewrite E in Hg. apply Hg. }
    split; [|done]. destruct Hp as [?|(-> & -> & ->)]; [done|]. congruence.
Qed.

(** Asking for space. *)
Lemma ask_inv a g w : Inv sp a g w → query g = false →
  let w' := upd_hw (λ h, set_get_f (get_f h ++ [(0, REG_LASTACK)]) h)
              (upd_sw (set_getresult_flag 0) w) in
  Inv sp a (g_query true (g_asked (acked g) g)) w'.
Proof.
  intros [Hcmd Hst Hget Htag Hspec ? ? ? ? ? ?] Hq. unfold get_inv in Hget.
  rewrite Hq in Hget. destruct Hget as (Hg & Hi & _).
  split; simpl; try done.
  - by apply (cmd_frame g).
  - by apply (status_frame g).
  - split; [done|]. left. simpl. rewrite Hg. repeat split; try done; lia.
  - by apply (tag_frame a _ g _ (hw w) _ (sw w)).
Qed.

Lemma set_space_inv a g w c :
  cmd_inv g (set_cached_space c (cmd_ring (sw w))) (cmdRing (hw w)) (cmdBuffer (mem w))
    (reads (hw w)) (acks (hw w)) (cmdFirst_f (hw w)) →
  Inv sp a g w →
  Inv sp a g (upd_sw (set_cmd_ring (set_cached_space c (cmd_ring (sw w)))) w).
Proof.
  intros Hc [Hcmd Hst Hget Htag Hspec ? ? ? ? ? ?]. split; simpl; try done.
  by apply (tag_frame a _ g _ (hw w) _ (sw w)).
Qed.

(** What is left alone while software waits for space. *)
Definition spaced (a : Spec) (g : Ghost) (w w' : World) (a' : Spec) (g' : Ghost) : Prop :=
  Inv sp a' g' w' ∧ rtc spec_step a a' ∧ sent g' = sent g ∧ publ g' = publ g ∧
  query g' = false ∧ printed (sw w') = printed (sw w) ∧ work g' (hw w') ≤ work g (hw w).

Lemma ring_space_wp (fuel : nat) a g w : Inv sp a g w → query g = false →
  (nf ∨ fair ∧ work g (hw w) + 1 < fuel ∧ sent g - publ g ≤ 126) →
  wpf nf (ring_space sp sched poll_rc fuel CmdRing) (λ _ w', ∃ a' g',
    spaced a g w w' a' g' ∧ cached_space (cmd_ring (sw w')) ≠ 0) w.
Proof.
  revert a g w; induction fuel as [|fuel IH]; intros a g w HI Hq Hn.
  { destruct Hn as [?|(_ & ? & _)]; [done|]. pose proof (work_nonneg _ _ _ HI). lia. }
  cbn [ring_space]. unfold get_ring, sw_gets. wpf_steps.
  pose proof (inv_cmd _ _ _ _ HI) as Hcmd.
  rewrite (ci_size _ _ _ _ _ _ _ Hcmd), (ci_id _ _ _ _ _ _ _ Hcmd).
  change (Z.shiftr 8192 2) with 2048.
  case_bool_decide as Hc.
  { wpf_steps. exists a, g. split; [by repeat (split; [done|])|]. intros E. by rewrite E in Hc. }
  unfold sw_modify, ring_get, hw_modify. wpf_steps.
  pose proof (ask_inv _ _ _ HI Hq) as HIa. cbv zeta in HIa.
  set (w1 := upd_hw _ _) in *. set (g1 := g_query true (g_asked (acked g) g)) in *.
  eapply wpf_mono; [apply (wait_query_wp (S fuel) a g1 w1 HIa); [done|]|].
  { destruct Hn as [?|(? & ? & _)]; [by left|right]. by split. }
  intros [] w2 (a2 & g2 & (HI2 & Hr2 & Hf2 & Hle2 & Hpr2) & Hq2).
  wpf_steps. unfold set_ring, sw_modify. wpf_steps.
  pose proof (inv_cmd _ _ _ _ HI2) as Hcmd2.
  destruct (cmd_requery _ _ _ _ _ _ _ Hcmd2) as [Hsp Hcmd3].
  rewrite Hsp in *. pose proof (set_space_inv _ _ _ _ Hcmd3 HI2) as HI3.
  set (w3 := upd_sw _ w2) in *.
  destruct Hf2 as [Hs Hp Ha Hk _ Hpr]. simpl in Hs, Hp, Ha, Hk.
  assert (Hsp3 : ∀ a' g' w', spaced a2 g2 w3 w' a' g' → spaced a g w w' a' g').
  { intros a' g' w' (? & ? & ? & ? & ? & Hpr3 & ?). unfold spaced.
    split; [done|]. split; [by eapply rtc_trans|]. split; [congruence|].
    split; [congruence|]. split; [done|]. split; [rewrite Hpr3; exact Hpr|].
    change (work g1 (hw w1)) with (work g (hw w)) in Hle2.
    change (hw w3) with (hw w2) in *. lia. }
  case_bool_decide as Hne.
  - wpf_steps. exists a2, g2. split; [|done]. apply Hsp3. by repeat (split; [done|]).
  - eapply wpf_mono; [apply (IH a2 g2 w3 HI3 Hq2)|].
    + destruct Hn as [?|(Hfair & ? & ?)]; [by left|right]. split; [done|].
      change (hw w3) with (hw w2). rewrite Hs, Hp.
      change (work g1 (hw w1)) with (work g (hw w)) in *.
      destruct (Hpr2 Hfair) as [?|[-> (Hi & _)]]; [lia|]. exfalso.
      pose proof (inv_get _ _ _ _ HI2) as Hg. unfold get_inv in Hg. rewrite Hq2 in Hg.
      destruct Hg as (_ & _ & Hak). simpl in Hi. rewrite Ha in Hak. lia.
    + intros [] w' (a' & g' & Hsp' & ?). exists a', g'. auto.
Qed.

(** *** Sending *)

(** Commands the hardware drops are never completed. *)
Definition nops (a : Spec) : nat := base.size (filter (λ te, at_lost te.2) (outst a)).

Lemma nops_step a a' : spec_step a a' → (nops a' ≤ nops a)%nat.
Proof.
  intros Hs. unfold nops. apply map_subseteq_size, map_subseteq_spec. intros u f.
  rewrite !map_lookup_filter_Some. intros [Hf Hl]. split; [|done].
  destruct Hs as [t e Ht Hc Hd|t e Ht Hr].
  - simpl in Hf. destruct (decide (u = t)) as [->|].
    + rewrite lookup_insert_eq in Hf. injection Hf as <-. by destruct Hl.
    + by rewrite lookup_insert_ne in Hf.
  - rewrite callback_outst in Hf. simpl in Hf.
    apply lookup_delete_Some in Hf. by destruct Hf.
Qed.
Lemma nops_steps a a' : rtc spec_step a a' → (nops a' ≤ nops a)%nat.
Proof. induction 1 as [|? ? ? H%nops_step]; lia. Qed.

Lemma lost_nops a g h s : tag_inv a g h s → (length (lost g) ≤ nops a)%nat.
Proof.
  intros Ht. pose proof (tag_nodup _ _ _ _ Ht) as Hn.
  apply NoDup_app in Hn as (_ & _ & Hn). apply NoDup_app in Hn as (_ & _ & Hn).
  unfold nops. rewrite <-size_dom, <-(size_list_to_set (C:=gset nat)) by done.
  apply subseteq_size. intros t Hin%elem_of_list_to_set.
  pose proof (ti_lost _ _ _ _ Ht) as Hl. rewrite Forall_forall in Hl.
  destruct (Hl t Hin) as (e & He & Hal). apply elem_of_dom. exists e.
  by apply map_lookup_filter_Some.
Qed.

(** There is a free tag. *)
Lemma free_tag a g w : Inv sp a g w → (nops a < 762)%nat →
  ∃ t rest, completionfreelist (sw w) = t :: rest.
Proof.
  intros [Hcmd Hst _ Htag _ _ _ _ _ _ _] Hn.
  destruct (completionfreelist (sw w)) as [|t rest] eqn:E; [|eauto]. exfalso.
  pose proof (lost_nops _ _ _ _ Htag). destruct Htag.
  apply Permutation_length in ti_perm. rewrite E, length_seq in ti_perm. cbn [app] in ti_perm.
  rewrite length_app, length_fmap in ti_perm. unfold flight in ti_perm.
  rewrite !length_app in ti_perm. destruct Hcmd, Hst, ci_space as (? & _ & ? & ?). lia.
Qed.

Lemma entry_ok_step a a' t e : entry_ok sp a t e → spec_step a a' → entry_ok sp a' t e.
Proof.
  intros He [u f Hu Hc Hd|u f Hu Hr].
  - unfold entry_ok in *. simpl.
    by rewrite (copy_ok_length _ _ _ (s_scratch a)) by apply copy_words_length.
  - apply entry_ok_callback. exact He.
Qed.
Lemma entry_ok_steps a a' t e :
  entry_ok sp a t e → rtc spec_step a a' → entry_ok sp a' t e.
Proof. intros He Hr. revert He. induction Hr; eauto using entry_ok_step. Qed.

(** A new command of the service. *)
Definition spec_send (t : nat) (cmd : list Z) fp ar (a : Spec) : Spec :=
  set_outst (<[t := mkEntry (<[7%nat := Z.of_nat t]> cmd) fp ar false]> (outst a)) a.

Lemma spec_send_ok t cmd fp ar a : spec_ok sp a →
  entry_ok sp a t (mkEntry (<[7%nat := Z.of_nat t]> cmd) fp ar false) →
  spec_ok sp (spec_send t cmd fp ar a).
Proof. intros [Ho ?] He. split; [|done]. by apply map_Forall_insert_2. Qed.

(** The state after a command has been written under tag [t]. *)
Definition sent_world (t : nat) (rest : list nat) (cmd : list Z) fp ar (w : World) : World :=
  let r := cmd_ring (sw w) in
  let n := u32 (first r + 64) in
  let n := if bool_decide (n = size r) then 0 else n in
  upd_sw (λ s, set_cmd_ring
      (set_first n (set_cached_space (u32 (cached_space r - 64)) r))
      (set_completion (<[t := mkCompletion t 1 fp ar]> (completion s))
        (set_completionfreelist rest s)))
    (upd_mem (λ m, set_cmdBuffer (list_inserts (word (first r))
       (<[7%nat := Z.of_nat t]> cmd) (cmdBuffer m)) m) w).

Lemma send_inv a g w t rest cmd fp ar : Inv sp a g w →
  completionfreelist (sw w) = t :: rest → length cmd = 8%nat →
  cached_space (cmd_ring (sw w)) ≠ 0 →
  entry_ok sp a t (mkEntry (<[7%nat := Z.of_nat t]> cmd) fp ar false) →
  outst a !! t = None ∧
  Inv sp (spec_send t cmd fp ar a)
    (g_sent (sent g + 1) (g_cmds (cmds g ++ [<[7%nat := Z.of_nat t]> cmd]) g))
    (sent_world t rest cmd fp ar w).
Proof.
  intros [Hcmd Hst Hget Htag Hspec ? ? ? ? ? ?] E Hl Hc Hok.
  destruct (tag_send a g (hw w) (sw w) t rest (<[7%nat := Z.of_nat t]> cmd) fp ar
    (sw (sent_world t rest cmd fp ar w))) as [Hnone Ht]; try done.
  { unfold tg. erewrite nth_lookup_Some by (apply list_lookup_insert_eq; lia). lia. }
  split; [done|]. split; simpl; try done.
  - by apply cmd_send; [|rewrite length_insert|].
  - by apply (status_frame g).
  - by apply spec_send_ok.
Qed.

(** What sending does. *)
Definition sent_ok (cmd : list Z) fp ar (a : Spec) (g : Ghost) (w w' : World)
    (a' : Spec) (g' : Ghost) : Prop :=
  ∃ a1 t, rtc spec_step a a1 ∧ outst a1 !! t = None ∧ (1 ≤ t < 1024)%nat ∧
    a' = spec_send t cmd fp ar a1 ∧ Inv sp a' g' w' ∧
    sent g' = sent g + 1 ∧ publ g' = publ g ∧ query g' = false ∧
    printed (sw w') = printed (sw w) ∧ work g' (hw w') ≤ work g (hw w) + 9.

Lemma ring_send_wp (fuel : nat) cmd fp ar a g w : Inv sp a g w → query g = false →
  length cmd = 8%nat → (nops a < 762)%nat →
  (∀ t : nat, (t < 1024)%nat →
    entry_ok sp a t (mkEntry (<[7%nat := Z.of_nat t]> cmd) fp ar false)) →
  (nf ∨ fair ∧ work g (hw w) + 1 < fuel ∧ sent g - publ g ≤ 126) →
  wpf nf (ring_send sp sched poll_rc fuel CmdRing cmd fp ar)
    (λ _ w', ∃ a' g', sent_ok cmd fp ar a g w w' a' g') w.
Proof.
  intros HI Hq Hl Hn Hok Hfuel. unfold ring_send, get_ring, sw_gets. wpf_steps.
  apply wpf_assert.
  { destruct (inv_cmd _ _ _ _ HI). rewrite ci_first, ci_size. apply bool_decide_true.
    pose proof (off_range (sent g)). lia. }
  wpf_steps. eapply wpf_mono; [by apply (ring_space_wp fuel a g w)|].
  intros [] w1 (a1 & g1 & (HI1 & Hr1 & Hs1 & Hp1 & Hq1 & Hpr1 & Hw1) & Hc1).
  assert (nops a1 < 762)%nat as Hn1 by (pose proof (nops_steps _ _ Hr1); lia).
  destruct (free_tag _ _ _ HI1 Hn1) as (t & rest & Ef).
  pose proof (inv_tags _ _ _ _ HI1) as Htag.
  assert (Ht : (1 ≤ t < 1024)%nat).
  { assert (t ∈ seq 1 1023) as ?%elem_of_seq; [|lia].
    rewrite <-(ti_perm _ _ _ _ Htag), Ef. left. }
  destruct (ti_free _ _ _ _ Htag t) as (f0 & r0 & Hct); [rewrite Ef; left|].
  unfold get_free_completion, sw_gets, sw_modify. wpf_steps. rewrite Ef. wpf_steps.
  eapply wpf_elem; [exact Hct|]. wpf_steps. apply wpf_assert; [done|]. wpf_steps.
  eapply wpf_elem.
  { cbn [sw upd_sw completion set_completion set_completionfreelist].
    apply list_lookup_insert_eq. rewrite (ti_len _ _ _ _ Htag). lia. }
  wpf_steps. unfold memcpy. wpf_steps. cbn [tag in_use].
  destruct (inv_cmd _ _ _ _ HI1) as [_ _ _ Hb _ Hf _ _ _ _ _ _ Hbl _ _ _ _ _].
  cbn [sw upd_sw cmd_ring set_completion set_completionfreelist] in *.
  rewrite Hb. rewrite bool_decide_true.
  2:{ cbn [mem upd_sw]. rewrite Hf, off_word, length_insert, Hl, Hbl.
      pose proof (Z.mod_pos_bound (sent g1) 128). lia. }
  wpf_steps. unfold set_ring, sw_modify. wpf_steps.
  pose proof (Hok t ltac:(lia)) as Hokt. eapply entry_ok_steps in Hokt; [|done].
  destruct (send_inv _ _ _ _ _ _ _ _ HI1 Ef Hl Hc1 Hokt) as [Hnone HI2].
  eexists _, _, a1, t. split; [done|]. split; [done|]. split; [done|].
  split; [done|]. split.
  { revert HI2. unfold sent_world, upd_sw, upd_mem. simpl. rewrite list_insert_insert_eq. done. }
  split; [simpl; congruence|]. split; [simpl; congruence|]. split; [done|].
  split; [simpl; congruence|].
  unfold work in *. simpl. rewrite Hs1 in *. lia.
Qed.

(** Announcing what has been written. *)
Lemma STARTRING_wp a g w : Inv sp a g w →
  wpf nf STARTRING (λ _ w', ∃ g', Inv sp a g' w' ∧ publ g' = sent g ∧ sent g' = sent g ∧
    query g' = query g ∧ printed (sw w') = printed (sw w) ∧
    work g' (hw w') = work g (hw w) + 1) w.
Proof.
  intros [Hcmd Hst Hget Htag Hspec ? ? ? ? ? ?].
  unfold STARTRING, get_ring, sw_gets, ring_setCmdFirst, hw_modify. wpf_steps.
  exists (g_publ (sent g) g). split; [split; simpl; try done|].
  - destruct Hcmd. rewrite ci_first. split; simpl; try done; [lia|].
    eapply pend_app; [done|]. lia.
  - by apply (status_frame g).
  - by apply (tag_frame a _ g _ (hw w) _ (sw w)).
  - repeat (split; [done|]). unfold work. simpl. rewrite length_app. simpl. lia.
Qed.
End Ops.
