(* ===== verification/RingClient.v ===== *)
(** * Programs on the rings (src/examples/ring/testring.cpp)

    The commands of testring.cpp and its tests, proved on top of RingOps.v: echoes
    get back what they sent, copies copy, and the tests report no failure, for
    every schedule of the hardware that gives each rule a turn. *)
From stdpp Require Import base gmap numbers relations list.
From S2P Require Import Prelude Ring RingInv RingOps.
Local Open Scope Z_scope.

#[local] Arguments engineselect : simpl never.
#[local] Arguments slot : simpl never.
(** Fuel left for a part of a loop, from the fuel for the whole. *)
Ltac solve_fuel :=
  match goal with
  | H : _ ∨ fair _ ∧ _ |- _ => destruct H as [?|[? ?]]; [by left|right];
      first [lia | split; [done|lia]]
  end.
#[local] Arguments copy_ok : simpl never.
#[local] Arguments copy_words : simpl never.
#[local] Arguments copy_response : simpl never.
#[local] Arguments response : simpl never.

(** ** Progress of one command *)

(** Nothing announced is outstanding but what the hardware drops. *)
Lemma idle_lost sp a g w t e : Inv sp a g w → idle g (hw w) → publ g = sent g →
  outst a !! t = Some e → at_lost e.
Proof.
  intros [Hcmd _ _ Htag _ _ _ _ _ _ _] (Hak & Eq & Eo & Ee & Em) Hp He.
  assert (Hc : cmds g = []).
  { apply length_zero_iff_nil. destruct Hcmd. lia. }
  assert (Hin : t ∈ (tg <$> flight g (hw w)) ++ lost g) by (apply (ti_dom _ _ _ _ Htag); eauto).
  unfold flight in Hin. rewrite Hc, Eq, Eo, Ee, Em in Hin. cbn [app fmap list_fmap] in Hin.
  pose proof (ti_lost _ _ _ _ Htag) as Hl. rewrite Forall_forall in Hl.
  destruct (Hl t Hin) as (e' & He' & ?). by simplify_eq.
Qed.

(** The event [i] expects [x], [y] and has been completed or will be. *)
Definition echo_pending (a : Spec) (i : nat) : Prop :=
  ∃ t e, outst a !! t = Some e ∧ e_fin e = Some EchoFinish ∧ e_arg e = Some i ∧
    is_echo (e_cmd e).
Definition echo_state (i : nat) (x y : Z) (a : Spec) : Prop :=
  ∃ ev, s_events a !! i = Some ev ∧ exp_a ev = x ∧ exp_b ev = y ∧
    (flag ev ≠ 0 ∨ echo_pending a i).

Lemma callback_events fin ar r a i ev : s_events a !! i = Some ev →
  ∃ ev', s_events (callback fin ar r a) !! i = Some ev' ∧ exp_a ev' = exp_a ev ∧
    exp_b ev' = exp_b ev ∧ (flag ev ≠ 0 → flag ev' ≠ 0) ∧
    (fin = Some EchoFinish → ar = Some i → flag ev' ≠ 0).
Proof.
  intros H. destruct fin as [[]|], ar as [j|]; simpl; try (exists ev; naive_solver).
  destruct (decide (i = j)) as [->|].
  - rewrite list_lookup_alter_eq, H. eexists. split; [done|]. naive_solver.
  - rewrite list_lookup_alter_ne by done. exists ev. naive_solver.
Qed.

Lemma echo_state_step i x y a a' : spec_step a a' → echo_state i x y a →
  echo_state i x y a'.
Proof.
  intros Hs (ev & Hev & Hx & Hy & Hp). destruct Hs as [t e Ht Hc Hd|t e Ht Hr].
  - exists ev. repeat split; try done. destruct Hp as [?|(u & f & Hu & Hf & Ha & Hec)]; [by left|].
    right. exists u. destruct (decide (u = t)) as [->|].
    + simplify_eq. eexists. simpl. by rewrite lookup_insert_eq.
    + exists f. simpl. by rewrite lookup_insert_ne.
  - destruct (callback_events (e_fin e) (e_arg e) (response (e_cmd e))
      (set_outst (delete t (outst a)) a) i ev Hev) as (ev' & ? & Ha & Hb & Hk & Hset).
    exists ev'. split; [done|]. split; [congruence|]. split; [congruence|].
    destruct Hp as [?|(u & f & Hu & Hf & Har & Hec)]; [left; auto|].
    destruct (decide (u = t)) as [->|].
    + simplify_eq. left. auto.
    + right. exists u, f. rewrite callback_outst. simpl. by rewrite lookup_delete_ne.
Qed.
Lemma echo_state_steps i x y a a' : rtc spec_step a a' → echo_state i x y a →
  echo_state i x y a'.
Proof. induction 1; eauto using echo_state_step. Qed.

(** A completed event got what it expected. *)
Lemma echo_state_got sp i x y a : spec_ok sp a → echo_state i x y a →
  ¬ echo_pending a i → ∃ ev, s_events a !! i = Some ev ∧ exp_a ev = x ∧ exp_b ev = y ∧
    flag ev ≠ 0 ∧ got_a ev = x ∧ got_b ev = y.
Proof.
  intros [_ Hev] (ev & He & Hx & Hy & [Hf|?]) Hn; [|done]. exists ev.
  rewrite Forall_lookup in Hev. destruct (Hev i ev He Hf). by subst.
Qed.

(** New objects do not disturb the service. *)
Lemma add_event_inv sp a g w ev : Inv sp a g w → flag ev = 0 →
  Inv sp (mkSpec (outst a) (s_flags a) (s_events a ++ [ev]) (s_total a) (s_scratch a)) g
    (upd_sw (λ s, set_events (events s ++ [ev]) s) w).
Proof.
  intros [Hcmd Hst Hget Htag [Ho Hv] ? ? ? ? ? ?] Hf. split; simpl; try done; [| |congruence].
  - by apply (tag_frame a _ g _ (hw w) _ (sw w)).
  - split.
    + eapply map_Forall_impl; [exact Ho|]. intros t e (? & ? & ? & Hfin).
      repeat split; try done. destruct (e_fin e) as [[]|]; try done.
      destruct Hfin as (? & i & ev' & ? & Hl & ?). split; [done|]. exists i, ev'.
      split; [done|]. split; [|done]. by apply lookup_app_l_Some.
    + simpl. apply Forall_app. split; [done|]. apply Forall_singleton. done.
Qed.
Lemma add_flags_inv sp a g w l : Inv sp a g w →
  Inv sp (mkSpec (outst a) (s_flags a ++ l) (s_events a) (s_total a) (s_scratch a)) g
    (upd_sw (λ s, set_flags (flags s ++ l) s) w).
Proof.
  intros [Hcmd Hst Hget Htag [Ho Hv] ? ? ? ? ? ?]. split; simpl; try done; [| |congruence].
  - by apply (tag_frame a _ g _ (hw w) _ (sw w)).
  - split; [|done]. eapply map_Forall_impl; [exact Ho|]. intros t e (? & ? & ? & Hfin).
    repeat split; try done. destruct (e_fin e) as [[]|]; try done.
    destruct Hfin as (i & ? & ?). exists i. simpl. rewrite length_app. split; [done|lia].
Qed.

Section Client.
Context (sp : Z) (sched : nat → list hwstep) (poll_rc : nat → Z) (junk : nat → Z).
Context (nf : Prop) (Hpoll : ∀ n, 0 ≤ poll_rc n).

(** Between commands: no query is open, and everything written is announced. *)
Record rest (a : Spec) (g : Ghost) (w : World) : Prop := {
  rest_inv : Inv sp a g w;
  rest_query : query g = false;
  rest_publ : publ g = sent g;
  rest_nops : (nops a < 762)%nat }.

(** Polling until a condition that holds once nothing is outstanding. *)
Lemma poll_wait_wp (J : Spec → World → Prop) f body (fuel : nat) a g w :
  (∀ a1 g1 w1, Inv sp a1 g1 w1 → query g1 = false → work g1 (hw w1) ≤ work g (hw w) →
     wpf nf body (λ _ w', ∃ a' g', polled sp sched a1 g1 w1 w' a' g' ∧ query g' = false) w1) →
  (∀ a g g' w w' a', J a w → Inv sp a g w → rtc spec_step a a' → frame g g' w w' →
     Inv sp a' g' w' → J a' w') →
  (∀ a g w, J a w → Inv sp a g w → f w = false → publ g = sent g → ¬ idle g (hw w)) →
  rest a g w → J a w → (nf ∨ fair sched ∧ work g (hw w) + 1 < fuel) →
  wpf nf (poll_until fuel body f) (λ _ w', ∃ a' g', rest a' g' w' ∧ J a' w' ∧
    rtc spec_step a a' ∧ printed (sw w') = printed (sw w) ∧
    work g' (hw w') ≤ work g (hw w) ∧ f w' = true) w.
Proof.
  intros Hbody HJ Hidle [HI Hq Hp Hn] HJ0 Hfuel.
  eapply wpf_mono; [apply (poll_until_wp sp nf (λ a' g' w', J a' w' ∧ rtc spec_step a a' ∧
    frame g g' w w' ∧ query g' = false ∧ work g' (hw w') ≤ work g (hw w)) _ _ _ a g w)|].
  - intros a1 g1 w1 HI1 (HJ1 & Hr1 & Hf1 & Hq1 & Hw1) Hfl.
    eapply wpf_mono; [by apply Hbody|].
    intros [] w2 (a2 & g2 & (HI2 & Hr2 & Hf2 & Hle2 & Hpr2) & Hq2). exists a2, g2.
    split; [done|]. split.
    { split; [by eapply HJ|]. split; [by eapply rtc_trans|].
      split; [by eapply frame_trans|]. split; [done|lia]. }
    destruct Hfuel as [?|[Hfair _]]; [by left|right; left].
    destruct (Hpr2 Hfair) as [?|[-> Hi]]; [done|]. exfalso.
    eapply Hidle; try done. destruct Hf1. congruence.
  - done.
  - split; [done|]. split; [done|]. split; [apply frame_refl|]. done.
  - destruct Hfuel as [?|[? ?]]; auto.
  - intros [] w' (a' & g' & HI' & (HJ' & Hr' & Hf' & Hq' & Hw') & Hf). exists a', g'.
    split; [|by destruct Hf'; repeat (split; [done|])].
    split; try done; [destruct Hf'; congruence|].
    pose proof (nops_steps _ _ Hr'). lia.
Qed.

Lemma StatusPoll_body a g w : Inv sp a g w → query g = false →
  wpf nf (StatusPoll sp sched poll_rc) (λ _ w', ∃ a' g',
     polled sp sched a g w w' a' g' ∧ query g' = false) w.
Proof.
  intros HI Hq. eapply wpf_mono; [by apply StatusPoll_wp|].
  intros [] w' (a' & g' & Hp & Hq' & _). exists a', g'. split; [done|]. auto.
Qed.

(** Sending a command and announcing it. *)
Lemma send_start_wp (fuel : nat) cmd fp ar a g w : rest a g w →
  length cmd = 8%nat → ¬ at_lost (mkEntry cmd fp ar false) →
  (∀ t : nat, (t < 1024)%nat →
    entry_ok sp a t (mkEntry (<[7%nat := Z.of_nat t]> cmd) fp ar false)) →
  (nf ∨ fair sched ∧ work g (hw w) + 1 < fuel) →
  wpf nf (ring_send sp sched poll_rc fuel CmdRing cmd fp ar;; STARTRING)
    (λ _ w', ∃ a1 t g', rtc spec_step a a1 ∧ outst a1 !! t = None ∧
      rest (spec_send t cmd fp ar a1) g' w' ∧ printed (sw w') = printed (sw w) ∧
      work g' (hw w') ≤ work g (hw w) + 10) w.
Proof.
  intros [HI Hq Hp Hn] Hl Hnl Hok Hfuel. apply wpf_bind.
  eapply wpf_mono; [apply (ring_send_wp sp sched poll_rc nf Hpoll fuel cmd fp ar a g w); try done|].
  { destruct Hfuel as [?|[? ?]]; [by left|right]. split; [done|]. split; [done|lia]. }
  intros [] w1 (a' & g1 & a1 & t & Hr & Hnone & Ht & -> & HI1 & Hs & Hpb & Hq1 & Hpr & Hw1).
  eapply wpf_mono; [by apply (STARTRING_wp sp nf)|].
  intros [] w2 (g2 & HI2 & Hp2 & Hs2 & Hq2 & Hpr2 & Hw2). exists a1, t, g2.
  split; [done|]. split; [done|]. split.
  - split; [done|congruence|congruence|].
    pose proof (nops_steps _ _ Hr). unfold nops in *. simpl.
    rewrite map_filter_insert_not'; [lia| |by rewrite Hnone].
    cbn [snd]. intros [Hnc Hne]. apply Hnl. split; cbn [e_cmd] in *; unfold is_copy, is_echo in *.
    all: destruct cmd as [|c0 cmd]; [done|]; by cbn in *.
  - split; [congruence|lia].
Qed.

(** *** Echoes *)
Lemma echo_cmd_is x y n : is_echo (<[7%nat := n]> (echo_cmd junk x y)).
Proof. reflexivity. Qed.
Lemma echo_cmd_is' x y : is_echo (echo_cmd junk x y).
Proof. reflexivity. Qed.
Lemma echo_not_copy c : is_echo c → ¬ is_copy c.
Proof. unfold is_echo, is_copy. by intros ->. Qed.

Lemma echo_entry_ok a i ev x y : s_events a !! i = Some ev →
  exp_a ev = u64 x → exp_b ev = u64 y → ∀ t : nat, (t < 1024)%nat →
  entry_ok sp a t (mkEntry (<[7%nat := Z.of_nat t]> (echo_cmd junk x y))
    (Some EchoFinish) (Some i) false).
Proof.
  intros He Hx Hy t _. split; [done|]. split; [done|]. split.
  - intros Hc. destruct (echo_not_copy _ (echo_cmd_is x y t) Hc).
  - split; [apply echo_cmd_is|]. exists i, ev. by rewrite Hx, Hy.
Qed.

Lemma echo_sent_state a1 t i ev x y : s_events a1 !! i = Some ev →
  exp_a ev = u64 x → exp_b ev = u64 y →
  echo_state i (u64 x) (u64 y)
    (spec_send t (echo_cmd junk x y) (Some EchoFinish) (Some i) a1).
Proof.
  intros He Hx Hy. exists ev. repeat split; try done. right.
  eexists t, _. simpl. rewrite lookup_insert_eq. repeat split.
Qed.

(** An outstanding echo keeps the hardware from being idle. *)
Lemma pending_not_idle a g w i : Inv sp a g w → publ g = sent g →
  echo_pending a i → ¬ idle g (hw w).
Proof.
  intros HI Hp (t & e & He & _ & _ & Hec) Hi.
  by destruct (idle_lost _ _ _ _ _ _ HI Hi Hp He).
Qed.

Lemma events_exp_steps a a' i ev : rtc spec_step a a' → s_events a !! i = Some ev →
  ∃ ev', s_events a' !! i = Some ev' ∧ exp_a ev' = exp_a ev ∧ exp_b ev' = exp_b ev.
Proof.
  intros Hr. revert ev. induction Hr as [a|a a1 a2 Hs _ IH]; intros ev Hev; [by exists ev|].
  assert (∃ ev1, s_events a1 !! i = Some ev1 ∧ exp_a ev1 = exp_a ev ∧ exp_b ev1 = exp_b ev)
    as (ev1 & H1 & ? & ?).
  { destruct Hs as [|t e Ht Hrd]; [by exists ev|].
    destruct (callback_events (e_fin e) (e_arg e) (response (e_cmd e))
      (set_outst (delete t (outst a)) a) i ev Hev) as (ev' & ? & ? & ? & _). by exists ev'. }
  destruct (IH ev1 H1) as (ev2 & ? & ? & ?). exists ev2. repeat split; congruence.
Qed.

(** Nothing is outstanding that could still be completed. *)
Definition quiet (a : Spec) : Prop := ∀ t e, outst a !! t = Some e → at_lost e.
(** ... but for the command under tag [t]. *)
Definition solo (t : nat) (a : Spec) : Prop :=
  ∀ u e, u ≠ t → outst a !! u = Some e → at_lost e.

Lemma lost_not_ready e (P : Prop) : at_lost e → is_copy (e_cmd e) ∧ P ∨ is_echo (e_cmd e) → False.
Proof. intros [? ?] [[? _]|?]; auto. Qed.
Lemma quiet_steps a a' : quiet a → rtc spec_step a a' → a' = a.
Proof.
  intros Hq Hr. inversion Hr as [|? ? ? Hs]; subst; [done|]. exfalso.
  destruct Hs as [t e He Hc|t e He Hrd]; [by destruct (Hq t e He)|].
  by eapply lost_not_ready; [apply (Hq t e He)|].
Qed.
Lemma solo_step t a a' : solo t a → spec_step a a' → solo t a'.
Proof.
  intros Hso [u e Hu Hc|u e Hu Hr] v f Hv.
  - simpl. destruct (decide (v = u)) as [->|].
    + by destruct (Hso u e Hv Hu).
    + rewrite lookup_insert_ne by done. by apply Hso.
  - rewrite callback_outst. simpl. intros [_ ?]%lookup_delete_Some. by eapply Hso.
Qed.
Lemma solo_steps t a a' : solo t a → rtc spec_step a a' → solo t a'.
Proof. intros H Hr. revert H. induction Hr; eauto using solo_step. Qed.
Lemma solo_quiet t a : solo t a → outst a !! t = None → quiet a.
Proof. intros H Hn u e He. destruct (decide (u = t)) as [->|]; [congruence|]. by eapply H. Qed.
Lemma solo_send t cmd fp ar a : quiet a → solo t (spec_send t cmd fp ar a).
Proof. intros Hq u e Hu. simpl. rewrite lookup_insert_ne by done. apply Hq. Qed.

(** A lone echo is outstanding or has set its event; nothing else changes. *)
Definition echo_solo (t i : nat) (b a : Spec) : Prop :=
  solo t a ∧ (∀ e, outst a !! t = Some e → is_echo (e_cmd e) ∧ e_fin e = Some EchoFinish) ∧
  s_scratch a = s_scratch b ∧ s_flags a = s_flags b ∧
  length (s_events a) = length (s_events b) ∧
  ∃ ev, s_events a !! i = Some ev ∧ (flag ev = 0 ∨ outst a !! t = None).
Lemma echo_solo_step t i b a a' : spec_step a a' → echo_solo t i b a → echo_solo t i b a'.
Proof.
  intros Hs (Hso & Hec & Hsc & Hfl & Hln & ev & Hev & Hf).
  split; [by eapply solo_step|].
  destruct Hs as [u e Hu Hc Hd|u e Hu Hr].
  - destruct (decide (u = t)) as [->|]; [|by destruct (Hso u e)].
    by destruct (echo_not_copy (e_cmd e)); [apply Hec|].
  - destruct (decide (u = t)) as [->|Hne].
    + rewrite callback_outst, callback_scratch. cbn [outst set_outst s_scratch].
      rewrite lookup_delete_eq. split; [done|]. split; [done|].
      destruct (callback_events (e_fin e) (e_arg e) (response (e_cmd e))
        (set_outst (delete t (outst a)) a) i ev Hev) as (ev' & ? & _).
      generalize dependent (response (e_cmd e)). intros r He'.
      destruct (Hec e Hu) as [_ Hfin]. rewrite Hfin in *.
      split; [by destruct (e_arg e)|]. split; [|by eauto].
      destruct (e_arg e); simpl; rewrite ?length_alter; done.
    + exfalso. eapply lost_not_ready; [by apply (Hso u e)|done].
Qed.
Lemma echo_solo_steps t i b a a' : rtc spec_step a a' → echo_solo t i b a → echo_solo t i b a'.
Proof. induction 1; eauto using echo_solo_step. Qed.

(** The echo under tag [t] is the only one, whatever else is outstanding. *)
Definition echo_alone (t i : nat) (a : Spec) : Prop :=
  (∀ u e, u ≠ t → outst a !! u = Some e → e_fin e ≠ Some EchoFinish) ∧
  ∃ ev, s_events a !! i = Some ev ∧ (flag ev = 0 ∨ outst a !! t = None).
Lemma echo_alone_step t i a a' : spec_step a a' → echo_alone t i a → echo_alone t i a'.
Proof.
  intros Hs (Hso & ev & Hev & Hf). destruct Hs as [u e Hu Hc Hd|u e Hu Hr].
  - split; simpl.
    + intros v f Hv. destruct (decide (v = u)) as [->|].
      * rewrite lookup_insert_eq. intros [= <-]. by apply (Hso u e).
      * rewrite lookup_insert_ne by done. by apply Hso.
    + exists ev. split; [done|]. destruct Hf as [?|Hn]; [by left|right].
      rewrite lookup_insert_ne; [done|]. intros ->. congruence.
  - split.
    + intros v f Hv. rewrite callback_outst. simpl. intros [_ ?]%lookup_delete_Some.
      by eapply Hso.
    + destruct (decide (u = t)) as [->|Hne].
      * destruct (callback_events (e_fin e) (e_arg e) (response (e_cmd e))
          (set_outst (delete t (outst a)) a) i ev Hev) as (ev' & ? & _).
        exists ev'. split; [done|]. right. rewrite callback_outst. apply lookup_delete_eq.
      * exists ev. pose proof (Hso u e Hne Hu) as Hfin.
        generalize (response (e_cmd e)). intros r. split.
        -- by destruct (e_fin e) as [[]|], (e_arg e).
        -- destruct Hf as [?|Hn]; [by left|right]. rewrite callback_outst. simpl.
           by rewrite lookup_delete_ne.
Qed.
Lemma echo_alone_steps t i a a' : rtc spec_step a a' → echo_alone t i a → echo_alone t i a'.
Proof. induction 1; eauto using echo_alone_step. Qed.

Lemma events_length_steps a a' : rtc spec_step a a' →
  length (s_events a') = length (s_events a).
Proof.
  induction 1 as [|a a1 a2 Hs _ IH]; [done|]. rewrite IH.
  destruct Hs as [|t e _ _]; [done|].
  generalize (response (e_cmd e)). intros r.
  by destruct (e_fin e) as [[]|], (e_arg e); simpl; rewrite ?length_alter.
Qed.

(** Outstanding echoes. *)
Definition echoes (a : Spec) : nat :=
  base.size (filter (λ te, e_fin te.2 = Some EchoFinish) (outst a)).

Lemma echoes_0 a : echoes a = O ↔ ∀ t e, outst a !! t = Some e → e_fin e ≠ Some EchoFinish.
Proof.
  unfold echoes. rewrite map_size_empty_iff. split.
  - intros H t e He Hf. eapply (map_filter_empty_not_lookup _ _ t e) in H; [|done]. done.
  - intros H. apply map_empty_filter. intros t e He. by apply (H t).
Qed.
Lemma echoes_pending a i : echoes a = O → ¬ echo_pending a i.
Proof. rewrite echoes_0. intros H (t & e & He & Hf & _). by eapply H. Qed.

Lemma echoes_0_steps a a' : rtc spec_step a a' → echoes a = O → echoes a' = O.
Proof.
  rewrite !echoes_0. induction 1 as [|a a1 a2 Hs _ IH]; [done|]. intros H. apply IH.
  intros t e. destruct Hs as [u f Hu Hc Hd|u f Hu Hr].
  - simpl. destruct (decide (t = u)) as [->|].
    + rewrite lookup_insert_eq. intros [= <-]. by apply (H u f).
    + rewrite lookup_insert_ne by done. apply H.
  - rewrite callback_outst. simpl. intros [_ ?]%lookup_delete_Some. by eapply H.
Qed.

Lemma echoes_0_events a a' : rtc spec_step a a' → echoes a = O → s_events a' = s_events a.
Proof.
  induction 1 as [|a a1 a2 Hs _ IH]; [done|]. intros H. rewrite IH.
  - destruct Hs as [|t e He _]; [done|]. rewrite echoes_0 in H. pose proof (H t e He).
    by destruct (e_fin e) as [[]|], (e_arg e).
  - eapply echoes_0_steps; [by apply rtc_once|done].
Qed.

(** While [hw_echo] waits: the command is under tag [t] and its event is the [i]-th;
    [a0] is the state in which it was sent. *)
Record echo_wait (a0 : Spec) (t i : nat) (x y : Z) (a : Spec) : Prop := {
  ew_state : echo_state i x y a;
  ew_solo : quiet a0 → echo_solo t i a0 a;
  ew_alone : echoes a0 = O → echo_alone t i a }.

Lemma echo_wait_steps a0 t i x y a a' :
  rtc spec_step a a' → echo_wait a0 t i x y a → echo_wait a0 t i x y a'.
Proof.
  intros Hr [? ? ?]. split; [by eapply echo_state_steps| |]; intros;
    [eapply echo_solo_steps|eapply echo_alone_steps]; eauto.
Qed.
Lemma echo_wait_sent a0 a1 t i x y ev :
  rtc spec_step a0 a1 → outst a1 !! t = None → s_events a0 !! i = Some ev → flag ev = 0 →
  exp_a ev = u64 x → exp_b ev = u64 y →
  echo_wait a0 t i (u64 x) (u64 y)
    (spec_send t (echo_cmd junk x y) (Some EchoFinish) (Some i) a1).
Proof.
  intros Hr Hnone Hev Hf Hx Hy.
  destruct (events_exp_steps _ _ _ _ Hr Hev) as (ev1 & Hev1 & Hx1 & Hy1). split.
  - eapply echo_sent_state; [done| |]; congruence.
  - intros Hqt. rewrite (quiet_steps a0 a1 Hqt Hr) in *.
    split; [by apply solo_send|]. split.
    + intros e. simpl. rewrite lookup_insert_eq. intros [= <-]. split; reflexivity.
    + repeat (split; [done|]). exists ev. split; [done|by left].
  - intros Hz. pose proof (echoes_0_steps _ _ Hr Hz) as Hz1. rewrite echoes_0 in Hz1. split.
    + intros u e Hu. simpl. rewrite lookup_insert_ne by done. apply Hz1.
    + exists ev. simpl. rewrite (echoes_0_events _ _ Hr Hz). split; [done|by left].
Qed.
(** Once the event is flagged: what has been answered, and that nothing is left over. *)
Lemma echo_wait_done a0 t i x y a ev :
  spec_ok sp a → echo_wait a0 t i x y a → s_events a !! i = Some ev → flag ev ≠ 0 →
  got_a ev = x ∧ got_b ev = y ∧
  (quiet a0 → quiet a ∧ s_scratch a = s_scratch a0 ∧ s_flags a = s_flags a0 ∧
     length (s_events a) = length (s_events a0)) ∧
  (echoes a0 = O → echoes a = O).
Proof.
  intros [_ Hok] [(ev2 & He2 & Hx & Hy & _) Hso Hal] Hev Hf.
  assert (ev2 = ev) as -> by congruence.
  rewrite Forall_lookup in Hok. destruct (Hok i ev He2 Hf) as [-> ->].
  split; [done|]. split; [done|]. clear He2. split.
  - intros Hqt. destruct (Hso Hqt) as (Hs & _ & ? & ? & Hln & ev3 & Hev3 & Hf3).
    simplify_eq. destruct Hf3 as [?|Hnone]; [done|].
    split; [by eapply solo_quiet|]. done.
  - intros Hz. destruct (Hal Hz) as (Hoth & ev3 & Hev3 & Hf3). simplify_eq.
    destruct Hf3 as [?|Hnone]; [done|]. apply echoes_0. intros u e He.
    destruct (decide (u = t)) as [->|]; [congruence|by eapply Hoth].
Qed.
Lemma echo_wait_idle a0 t i x y a g w :
  Inv sp a g w → echo_wait a0 t i x y a → publ g = sent g → idle g (hw w) →
  from_option flag 1 (events (sw w) !! i) ≠ 0.
Proof.
  intros HI [(ev & He & _ & _ & [Hf|Hpd]) _ _] Hp Hi.
  - by rewrite <-(inv_events _ _ _ _ HI), He.
  - by destruct (pending_not_idle _ _ _ _ HI Hp Hpd).
Qed.

Lemma hw_echo_wp (fuel : nat) x y a g w : rest a g w →
  (nf ∨ fair sched ∧ work g (hw w) + 11 < fuel) →
  wpf nf (hw_echo sp sched poll_rc junk fuel x y) (λ _ w', ∃ a' g', rest a' g' w' ∧
    printed (sw w') = printed (sw w) ∧ work g' (hw w') ≤ work g (hw w) + 10 ∧
    (quiet a → quiet a' ∧ s_scratch a' = s_scratch a ∧ s_flags a' = s_flags a ∧
       length (s_events a') = S (length (s_events a))) ∧
    (echoes a = O → echoes a' = O) ∧
    length (events (sw w')) = S (length (events (sw w))) ∧
    ∃ ev, events (sw w') !! length (events (sw w)) = Some ev ∧ flag ev ≠ 0 ∧
      got_a ev = u64 x ∧ got_b ev = u64 y) w.
Proof.
  intros [HI Hq Hp Hn] Hfuel. unfold hw_echo, sw_gets, sw_modify. wpf_steps.
  set (ev := mkEvent (u64 x) (u64 y) _ _ _). set (i := length (events (sw w))).
  pose proof (add_event_inv _ _ _ _ ev HI eq_refl) as HI0. set (a0 := mkSpec _ _ _ _ _) in *.
  set (w0 := upd_sw _ w) in *.
  assert (Hev : s_events a0 !! i = Some ev).
  { simpl. rewrite (inv_events _ _ _ _ HI). by apply list_lookup_middle. }
  assert (Hln0 : length (s_events a0) = S i).
  { simpl. rewrite length_app, (inv_events _ _ _ _ HI). simpl. lia. }
  eapply wpf_mono; [apply wpf_unbind, (send_start_wp fuel _ _ _ a0 g w0); try done|].
  { intros [_ Hne]. apply Hne, echo_cmd_is'. }
  { by eapply echo_entry_ok. }
  { change (hw w0) with (hw w). solve_fuel. }
  intros [] ws Hstart. apply wpf_bind. eapply wpf_mono; [exact Hstart|].
  intros [] w1 (a1 & t & g1 & Hr & Hnone & Hrest & Hpr & Hw).
  change (hw w0) with (hw w) in Hw. wpf_steps.
  eapply wpf_mono; [apply (poll_wait_wp (λ a' _, echo_wait a0 t i (u64 x) (u64 y) a') _ _ fuel
    (spec_send t (echo_cmd junk x y) (Some EchoFinish) (Some i) a1) g1 w1)|].
  - intros. by apply StatusPoll_body.
  - intros. by eapply echo_wait_steps.
  - intros a2 g2 w2 Hew HI2 Hfl Hp2 Hi. apply bool_decide_eq_false in Hfl.
    by apply Hfl, (echo_wait_idle _ _ _ _ _ _ _ _ HI2 Hew Hp2 Hi).
  - done.
  - by eapply echo_wait_sent.
  - solve_fuel.
  - intros [] w2 (a2 & g2 & Hrest2 & Hew & Hr2 & Hpr2 & Hw2 & Hf2).
    apply bool_decide_eq_true in Hf2. pose proof (rest_inv _ _ _ Hrest2) as HI2.
    destruct (ew_state _ _ _ _ _ _ Hew) as (ev2 & He2 & _).
    pose proof He2 as He2'. rewrite (inv_events _ _ _ _ HI2) in He2'.
    rewrite He2' in Hf2. cbn [from_option] in Hf2.
    destruct (echo_wait_done _ _ _ _ _ _ ev2 (inv_spec _ _ _ _ HI2) Hew He2 Hf2)
      as (Hga & Hgb & Hso & Hal).
    wpf_steps. eapply wpf_elem; [exact He2'|]. unfold when.
    rewrite Hga, Hgb, !bool_decide_false by tauto. wpf_steps.
    exists a2, g2. split; [done|]. split; [etrans; [done|exact Hpr]|]. split; [lia|]. split.
    + intros Hqt. destruct (Hso Hqt) as (? & ? & ? & Hln). repeat (split; [done|]).
      by rewrite Hln, Hln0, (inv_events _ _ _ _ HI).
    + split; [done|]. split; [|by exists ev2].
      by rewrite <-(inv_events _ _ _ _ HI2), (events_length_steps _ _ Hr2), <-Hln0,
        <-(events_length_steps _ _ Hr).
Qed.

(** *** Copies *)
Definition no_copy (a : Spec) : Prop :=
  ∀ t e, outst a !! t = Some e → ¬ is_copy (e_cmd e).

Lemma no_copy_steps a a' : rtc spec_step a a' → no_copy a →
  no_copy a' ∧ s_scratch a' = s_scratch a ∧ (length (s_flags a') = length (s_flags a)) ∧
  (∀ t, outst a' !! t = None ∨ outst a' !! t = outst a !! t).
Proof.
  induction 1 as [a|a a1 a2 Hs _ IH]; [naive_solver|]. intros Hn.
  assert (no_copy a1 ∧ s_scratch a1 = s_scratch a ∧ length (s_flags a1) = length (s_flags a) ∧
    ∀ t, outst a1 !! t = None ∨ outst a1 !! t = outst a !! t) as (H1 & H2 & H3 & H4).
  { destruct Hs as [t e Ht Hc|t e Ht _]; [by destruct (Hn t e Ht)|].
    unfold no_copy. rewrite callback_outst, callback_scratch. simpl. repeat split.
    - intros u f [_ Hf]%lookup_delete_Some. eauto.
    - destruct (e_fin e) as [[]|], (e_arg e); simpl; rewrite ?length_insert; done.
    - intros u. destruct (decide (u = t)) as [->|]; [left; apply lookup_delete_eq|right].
      by apply lookup_delete_ne. }
  destruct (IH H1) as (? & ? & ? & H5). repeat split; try done; try congruence.
  intros u. destruct (H5 u) as [?|E]; [by left|]. destruct (H4 u); [left; congruence|right; congruence].
Qed.

(** The copy [c], under tag [t] with flag [i], is the only one. *)
Record copy_state (t i : nat) (c sc : list Z) (a : Spec) : Prop := {
  cs_phase :
    (s_flags a !! i = Some 0 ∧ s_scratch a = sc ∧
     outst a !! t = Some (mkEntry c (Some FlagFinish) (Some i) false)) ∨
    (s_flags a !! i = Some 0 ∧ s_scratch a = copy_words c sc ∧
     outst a !! t = Some (mkEntry c (Some FlagFinish) (Some i) true)) ∨
    (s_flags a !! i = Some 1 ∧ s_scratch a = copy_words c sc ∧ outst a !! t = None);
  cs_other : ∀ u e, u ≠ t → outst a !! u = Some e →
    ¬ is_copy (e_cmd e) ∧ (e_fin e = Some FlagFinish → e_arg e ≠ Some i) }.

Lemma callback_flag e r a i : (e_fin e = Some FlagFinish → e_arg e ≠ Some i) →
  s_flags (callback (e_fin e) (e_arg e) r a) !! i = s_flags a !! i.
Proof.
  intros H. destruct (e_fin e) as [[]|], (e_arg e) as [j|]; simpl; try done.
  apply list_lookup_insert_ne. intros ->. by apply H.
Qed.

Lemma copy_state_no_copy t i c sc a : copy_state t i c sc a → outst a !! t = None → no_copy a.
Proof.
  intros [_ Ho] Hn u e He. destruct (decide (u = t)) as [->|]; [congruence|].
  by apply (Ho u e).
Qed.

Lemma copy_state_step t i c sc a a' : is_copy c → spec_step a a' →
  copy_state t i c sc a → copy_state t i c sc a'.
Proof.
  intros Hcp Hs [Hph Hoth]. destruct Hs as [u e Hu Hc Hd|u e Hu Hr].
  - destruct (decide (u = t)) as [->|Hne]; [|by destruct (Hoth u e Hne Hu)].
    destruct Hph as [(Hf & Hsc & Ht)|[(Hf & Hsc & Ht)|(Hf & Hsc & Hn)]]; [| |congruence].
    + rewrite Ht in Hu. injection Hu as <-. split; simpl.
      * right. left. rewrite lookup_insert_eq, Hsc. done.
      * intros v f Hv. rewrite lookup_insert_ne by done. by apply Hoth.
    + rewrite Ht in Hu. by injection Hu as <-.
  - assert (Hoth' : ∀ v f, v ≠ t → delete u (outst a) !! v = Some f →
      ¬ is_copy (e_cmd f) ∧ (e_fin f = Some FlagFinish → e_arg f ≠ Some i)).
    { intros v f Hv [_ Hf]%lookup_delete_Some. eauto. }
    destruct (decide (u = t)) as [->|Hne].
    + destruct Hph as [(Hf & Hsc & Ht)|[(Hf & Hsc & Ht)|(Hf & Hsc & Hn)]]; [| |congruence].
      * rewrite Ht in Hu. injection Hu as <-. cbn [e_cmd e_done] in Hr.
        destruct Hr as [[_ ?]|He]; [done|]. by destruct (echo_not_copy _ He).
      * rewrite Ht in Hu. injection Hu as <-. split; [|done]. right. right. simpl.
        split; [apply list_lookup_insert_eq; by eapply lookup_lt_Some|]. split; [done|].
        apply lookup_delete_eq.
    + destruct (Hoth u e Hne Hu) as [_ Hfl]. split; [|by rewrite callback_outst].
      rewrite callback_flag, callback_scratch, callback_outst by done. simpl.
      by rewrite lookup_delete_ne by done.
Qed.
Lemma copy_state_steps t i c sc a a' : is_copy c → rtc spec_step a a' →
  copy_state t i c sc a → copy_state t i c sc a'.
Proof. induction 2; eauto using copy_state_step. Qed.

(** Arguments of a copy of whole words between disjoint parts of the scratch memory. *)
Record copy_args (from to count : Z) (sc : list Z) : Prop := {
  ca_from : 0 ≤ from < 2 ^ 40; ca_to : 0 ≤ to < 2 ^ 40; ca_count : 0 ≤ count < 2 ^ 16;
  ca_align : from mod 8 = 0 ∧ to mod 8 = 0 ∧ count mod 8 = 0;
  ca_in : from + count ≤ length sc ∧ to + count ≤ length sc;
  ca_apart : from + count ≤ to ∨ to + count ≤ from }.
Definition copied (from to count : Z) (sc : list Z) : list Z :=
  list_inserts (Z.to_nat to) (take (Z.to_nat count) (drop (Z.to_nat from) sc)) sc.

Context (Hsp : 0 ≤ sp < 2 ^ 32).

Lemma copy_cmd_is from to count n : is_copy (<[7%nat := n]> (copy_cmd sp junk from to count)).
Proof. reflexivity. Qed.
Lemma copy_cmd_fields from to count n sc : copy_args from to count sc →
  let c := <[7%nat := n]> (copy_cmd sp junk from to count) in
  copy_src c = from ∧ copy_dst c = to ∧ copy_count c = count.
Proof.
  intros [? ? ? _ _ _]. cbv zeta. unfold copy_src, copy_dst, copy_count, copy_cmd, Hw.offset.
  cbn [insert list_insert nth]. unfold u16. rewrite u32_small, !u64_small, !Z.mod_small by lia.
  done.
Qed.
Lemma copy_cmd_ok from to count n sc : copy_args from to count sc →
  copy_ok sp (<[7%nat := n]> (copy_cmd sp junk from to count)) sc = true.
Proof.
  intros Ha. pose proof (copy_cmd_fields _ _ _ n _ Ha) as (E1 & E2 & E3).
  unfold copy_ok. rewrite E1, E2, E3. destruct Ha as [_ _ _ (? & ? & ?) [? ?] ?].
  assert (u32 sp = sp) by by apply u32_small.
  rewrite !bool_decide_true by done. done.
Qed.
Lemma copy_cmd_words from to count n sc : copy_args from to count sc →
  copy_words (<[7%nat := n]> (copy_cmd sp junk from to count)) sc = copied from to count sc.
Proof.
  intros Ha. pose proof (copy_cmd_fields _ _ _ n _ Ha) as (E1 & E2 & E3).
  unfold copy_words. by rewrite E1, E2, E3.
Qed.

(** A flag no outstanding command points to keeps its value. *)
Lemma flag_steps i b b' : rtc spec_step b b' → no_copy b →
  (∀ u e, outst b !! u = Some e → e_fin e = Some FlagFinish → e_arg e ≠ Some i) →
  s_flags b' !! i = s_flags b !! i.
Proof.
  induction 1 as [b|b b1 b2 Hs _ IH]; [done|]. intros Hnc Hne.
  destruct Hs as [u e Hu Hcc|u e Hu _]; [by destruct (Hnc u e Hu)|].
  rewrite IH; unfold no_copy; rewrite ?callback_outst; cbn [outst set_outst].
  - apply (callback_flag e _ (set_outst _ b)). eauto.
  - intros v f [_ ?]%lookup_delete_Some. eauto.
  - intros v f [_ ?]%lookup_delete_Some. eauto.
Qed.

(** A copy that has just been sent. *)
Lemma copy_sent_state a0 a1 t i cmd : rtc spec_step a0 a1 → no_copy a0 →
  s_flags a0 !! i = Some 0 →
  (∀ u e, outst a0 !! u = Some e → e_fin e = Some FlagFinish → e_arg e ≠ Some i) →
  copy_state t i (<[7%nat := Z.of_nat t]> cmd) (s_scratch a0)
    (spec_send t cmd (Some FlagFinish) (Some i) a1).
Proof.
  intros Hr Hnc Hfl Hne. destruct (no_copy_steps _ _ Hr Hnc) as (Hnc1 & Hsc1 & _ & Hout1).
  split; simpl.
  - left. rewrite lookup_insert_eq, Hsc1, (flag_steps i _ _ Hr) by done. done.
  - intros u e Hu. rewrite lookup_insert_ne by done. intros He. split; [by eapply Hnc1|].
    destruct (Hout1 u) as [?|E]; [congruence|]. rewrite E in He. eauto.
Qed.

(** A lone copy leaves the events alone. *)
Definition copy_solo (t : nat) (b a : Spec) : Prop :=
  solo t a ∧ (∀ e, outst a !! t = Some e → e_fin e = Some FlagFinish) ∧
  s_events a = s_events b ∧ length (s_flags a) = length (s_flags b).
Lemma copy_solo_step t b a a' : spec_step a a' → copy_solo t b a → copy_solo t b a'.
Proof.
  intros Hs (Hso & Hfin & Hev & Hfl). split; [by eapply solo_step|].
  destruct Hs as [u e Hu Hc Hd|u e Hu Hr]; cbn [outst s_events s_flags].
  - split; [|done]. intros f. destruct (decide (u = t)) as [->|].
    + rewrite lookup_insert_eq. intros [= <-]. by apply (Hfin e).
    + rewrite lookup_insert_ne by done. apply Hfin.
  - destruct (decide (u = t)) as [->|Hne].
    + rewrite callback_outst. cbn [outst set_outst]. rewrite lookup_delete_eq. split; [done|].
      rewrite (Hfin e Hu). by destruct (e_arg e); simpl; rewrite ?length_insert.
    + exfalso. eapply lost_not_ready; [by apply (Hso u e)|done].
Qed.
Lemma copy_solo_steps t b a a' : rtc spec_step a a' → copy_solo t b a → copy_solo t b a'.
Proof. induction 1; eauto using copy_solo_step. Qed.

(** While [hw_copy] waits; [a0] is the state in which it was sent. *)
Record copy_wait (a0 : Spec) (t i : nat) (c sc : list Z) (a : Spec) : Prop := {
  cw_state : copy_state t i c sc a;
  cw_solo : quiet a0 → copy_solo t a0 a }.

Lemma copy_wait_steps a0 t i c sc a a' :
  is_copy c → rtc spec_step a a' → copy_wait a0 t i c sc a → copy_wait a0 t i c sc a'.
Proof.
  intros Hc Hr [? ?]. split; [by eapply copy_state_steps|].
  intros. eapply copy_solo_steps; eauto.
Qed.
Lemma copy_wait_sent a0 a1 t i cmd : rtc spec_step a0 a1 → no_copy a0 →
  s_flags a0 !! i = Some 0 →
  (∀ u e, outst a0 !! u = Some e → e_fin e = Some FlagFinish → e_arg e ≠ Some i) →
  copy_wait a0 t i (<[7%nat := Z.of_nat t]> cmd) (s_scratch a0)
    (spec_send t cmd (Some FlagFinish) (Some i) a1).
Proof.
  intros Hr Hnc Hfl Hne. split; [by apply copy_sent_state|].
  intros Hqt. rewrite (quiet_steps a0 a1 Hqt Hr) in *.
  split; [by apply solo_send|]. split; [|done].
  intros e. simpl. rewrite lookup_insert_eq. by intros [= <-].
Qed.
Lemma copy_wait_done a0 t i c sc a :
  copy_wait a0 t i c sc a → s_flags a !! i ≠ Some 0 →
  no_copy a ∧ s_scratch a = copy_words c sc ∧
  (quiet a0 → quiet a ∧ s_events a = s_events a0 ∧ length (s_flags a) = length (s_flags a0)).
Proof.
  intros [Hcs Hso] Hz. pose proof Hcs as [Hph _].
  destruct Hph as [(? & _)|[(? & _)|(_ & Hsc2 & Hnone2)]]; [done|done|].
  split; [by eapply copy_state_no_copy|]. split; [done|].
  intros Hqt. destruct (Hso Hqt) as (Hs & _ & ? & Hln). split; [by eapply solo_quiet|done].
Qed.
Lemma copy_wait_idle a0 t i c sc a g w :
  Inv sp a g w → is_copy c → copy_wait a0 t i c sc a → publ g = sent g → idle g (hw w) →
  nth i (flags (sw w)) 0 ≠ 0.
Proof.
  intros HI Hc [[Hph _] _] Hp2 Hidle.
  destruct Hph as [(_ & _ & Ht)|[(_ & _ & Ht)|(Hf & _ & _)]].
  - by destruct (idle_lost _ _ _ _ _ _ HI Hidle Hp2 Ht) as [[] _].
  - by destruct (idle_lost _ _ _ _ _ _ HI Hidle Hp2 Ht) as [[] _].
  - rewrite (inv_flags _ _ _ _ HI) in Hf. by rewrite (nth_lookup_Some _ _ _ _ Hf).
Qed.

Lemma hw_copy_wp (fuel : nat) from to count a g w : rest a g w → no_copy a →
  copy_args from to count (scratchBuffer (mem w)) →
  (nf ∨ fair sched ∧ work g (hw w) + 11 < fuel) →
  wpf nf (hw_copy sp sched poll_rc junk fuel from to count) (λ _ w', ∃ a' g',
    rest a' g' w' ∧ no_copy a' ∧ printed (sw w') = printed (sw w) ∧
    work g' (hw w') ≤ work g (hw w) + 10 ∧
    (quiet a → quiet a' ∧ s_events a' = s_events a ∧
       length (s_flags a') = S (length (s_flags a))) ∧
    scratchBuffer (mem w') = copied from to count (scratchBuffer (mem w))) w.
Proof.
  intros [HI Hq Hp Hn] Hnc Hargs Hfuel. unfold hw_copy, sw_gets, sw_modify. wpf_steps.
  set (i := length (flags (sw w))).
  pose proof (add_flags_inv _ _ _ _ [0] HI) as HI0. set (a0 := mkSpec _ _ _ _ _) in *.
  set (w0 := upd_sw _ w) in *.
  assert (Hi : i = length (s_flags a)) by (by rewrite (inv_flags _ _ _ _ HI)).
  assert (Hsc : s_scratch a0 = scratchBuffer (mem w)) by exact (inv_scratch _ _ _ _ HI).
  eapply wpf_mono; [apply wpf_unbind, (send_start_wp fuel _ _ _ a0 g w0); try done|].
  { intros [Hne _]. apply Hne. reflexivity. }
  { intros t _. split; [done|]. split; [done|]. split.
    - intros _. rewrite Hsc. by apply copy_cmd_ok.
    - exists i. split; [done|]. simpl. rewrite length_app, Hi. simpl. lia. }
  { change (hw w0) with (hw w). solve_fuel. }
  intros [] ws Hstart. apply wpf_bind. eapply wpf_mono; [exact Hstart|].
  intros [] w1 (a1 & t & g1 & Hr & Hnone & Hrest & Hpr & Hw).
  change (hw w0) with (hw w) in Hw. change (printed (sw w0)) with (printed (sw w)) in Hpr.
  set (c := <[7%nat := Z.of_nat t]> (copy_cmd sp junk from to count)).
  eapply wpf_mono; [apply (poll_wait_wp (λ a' _, copy_wait a0 t i c (s_scratch a0) a') _ _ fuel
    (spec_send t (copy_cmd sp junk from to count) (Some FlagFinish) (Some i) a1) g1 w1)|].
  - intros. by apply StatusPoll_body.
  - intros. eapply copy_wait_steps; [apply copy_cmd_is|done|done].
  - intros a2 g2 w2 Hcw HI2 Hfl Hp2 Hidle. apply bool_decide_eq_false in Hfl.
    eapply Hfl, copy_wait_idle; try done. apply copy_cmd_is.
  - done.
  - apply (copy_wait_sent a0 a1); try done.
    + simpl. rewrite Hi. by apply list_lookup_middle.
    + intros u e Hu Hfin Harg. destruct (inv_spec _ _ _ _ HI) as [Hent _].
      destruct (Hent u e Hu) as (_ & _ & _ & Hf). rewrite Hfin in Hf.
      destruct Hf as (j & Hj & ?). simplify_eq. lia.
  - solve_fuel.
  - intros [] w2 (a2 & g2 & Hrest2 & Hcw & Hr2 & Hpr2 & Hw2 & Hf2).
    apply bool_decide_eq_true in Hf2. pose proof (rest_inv _ _ _ Hrest2) as HI2.
    destruct (copy_wait_done _ _ _ _ _ _ Hcw) as (? & Hsc2 & Hso2).
    { intros E. rewrite (inv_flags _ _ _ _ HI2) in E. apply Hf2.
      by rewrite (nth_lookup_Some _ _ _ _ E). }
    exists a2, g2. split; [done|]. split; [done|]. split; [congruence|]. split; [lia|]. split.
    { intros Hqt. destruct (Hso2 Hqt) as (? & ? & Hln). split; [done|]. split; [done|].
      rewrite Hln. simpl. rewrite length_app. simpl. lia. }
    rewrite <-(inv_scratch _ _ _ _ HI2), Hsc2, Hsc. by apply copy_cmd_words.
Qed.

(** *** The echo test *)
(** Completions and outstanding echoes add up. *)
Definition tally (n : Z) (a : Spec) : Prop :=
  0 ≤ s_total a ∧ s_total a + echoes a = n.

Lemma tally_step n a a' : n < 2 ^ 31 → spec_ok sp a → spec_step a a' → tally n a → tally n a'.
Proof.
  intros Hn [Hok _] Hs [H0 Ht]. unfold tally, echoes in *.
  destruct Hs as [t e He Hc Hd|t e He Hr].
  - cbn [s_total outst]. assert (e_fin e ≠ Some EchoFinish).
    { intros Hf. destruct (Hok t e He) as (_ & _ & _ & Hx). rewrite Hf in Hx.
      destruct Hx as [Hx _]. by apply (echo_not_copy (e_cmd e)). }
    rewrite map_filter_insert_not'; [done|done|]. intros f. rewrite He. by intros [= <-].
  - rewrite callback_outst. cbn [outst set_outst].
    destruct (decide (e_fin e = Some EchoFinish)) as [Hf|Hf].
    + destruct (Hok t e He) as (_ & _ & _ & Hx). rewrite Hf in *.
      destruct Hx as (_ & i & ev & -> & _). cbn [callback s_total].
      assert (Hl : filter (λ te, e_fin te.2 = Some EchoFinish) (outst a) !! t = Some e)
        by by apply map_lookup_filter_Some.
      rewrite map_filter_delete, map_size_delete_Some by eauto.
      assert (base.size (filter (λ te, e_fin te.2 = Some EchoFinish) (outst a)) ≠ O).
      { rewrite map_size_non_empty_iff. intros E. by rewrite E in Hl. }
      cbn [set_outst s_total] in *. rewrite s32_small; lia.
    + rewrite map_filter_delete_not by (intros f; rewrite He; by intros [= <-]).
      destruct (e_fin e) as [[]|], (e_arg e); cbn [callback s_total set_outst]; done.
Qed.
Lemma tally_steps n a a' : n < 2 ^ 31 → spec_ok sp a → rtc spec_step a a' →
  tally n a → tally n a'.
Proof.
  intros Hn Hok Hr. revert Hok.
  induction Hr; eauto using tally_step, spec_step_ok.
Qed.
Lemma tally_send n a t cmd ar : outst a !! t = None → tally n a →
  tally (n + 1) (spec_send t cmd (Some EchoFinish) ar a).
Proof.
  intros Hnone [? ?]. unfold tally, echoes in *. cbn [s_total outst spec_send set_outst].
  rewrite map_filter_insert_True by done.
  rewrite map_size_insert_None by (by rewrite map_lookup_filter_None; left). lia.
Qed.

(** Objects change between commands. *)
Lemma set_event_inv a g w i ev : Inv sp a g w → echoes a = O → flag ev = 0 →
  Inv sp (mkSpec (outst a) (s_flags a) (<[i := ev]> (s_events a)) (s_total a) (s_scratch a)) g
    (upd_sw (λ s, set_events (<[i := ev]> (events s)) s) w).
Proof.
  rewrite echoes_0.
  intros [Hcmd Hst Hget Htag [Ho Hv] ? ? ? ? ? ?] He Hf. split; simpl; try done; [| |congruence].
  - by apply (tag_frame a _ g _ (hw w) _ (sw w)).
  - split; [|simpl; by apply Forall_insert].
    intros t e Hte. destruct (Ho t e Hte) as (? & ? & ? & Hfin).
    repeat split; try done. pose proof (He t e Hte). by destruct (e_fin e) as [[]|].
Qed.
Lemma set_total_inv a g w n : Inv sp a g w →
  Inv sp (mkSpec (outst a) (s_flags a) (s_events a) n (s_scratch a)) g
    (upd_sw (set_totalCompletions n) w).
Proof.
  intros [Hcmd Hst Hget Htag [Ho Hv] ? ? ? ? ? ?]. split; simpl; try done.
  by apply (tag_frame a _ g _ (hw w) _ (sw w)).
Qed.

(** What the test expects at event [j]. *)
Definition exp1 (j : nat) : Z := 0xaaa000 + j.
Definition exp2 (j : nat) : Z := 0xbbb000 + j.
Definition expects (j : nat) (a : Spec) : Prop :=
  ∃ ev, s_events a !! j = Some ev ∧ exp_a ev = exp1 j ∧ exp_b ev = exp2 j.

Lemma expects_steps j a a' : rtc spec_step a a' → expects j a → expects j a'.
Proof.
  intros Hr (ev & He & Ha & Hb).
  destruct (events_exp_steps _ _ _ _ Hr He) as (ev' & ? & ? & ?). exists ev'.
  repeat split; congruence.
Qed.
Lemma expects_lt j a : expects j a → (j < length (s_events a))%nat.
Proof. intros (ev & He & _). by eapply lookup_lt_Some. Qed.

Lemma seq_lookup n i j : seq 0 n !! i = Some j → j = i ∧ (i < n)%nat.
Proof. rewrite lookup_seq. naive_solver lia. Qed.

(** The first loop of a round. *)
Lemma echo_setup_wp (loops : nat) a g w : rest a g w → echoes a = O →
  (loops ≤ length (events (sw w)))%nat →
  wpf nf (for_each (seq 0 loops) echo_setup) (λ _ w', ∃ a', rest a' g w' ∧ echoes a' = O ∧
    hw w' = hw w ∧ printed (sw w') = printed (sw w) ∧
    length (events (sw w')) = length (events (sw w)) ∧
    ∀ j, (j < loops)%nat → expects j a') w.
Proof.
  intros Hrest He Hlen. eapply wpf_mono; [apply (wpf_for_each nf _ _ (λ k w', ∃ a',
    rest a' g w' ∧ echoes a' = O ∧ hw w' = hw w ∧ printed (sw w') = printed (sw w) ∧
    length (events (sw w')) = length (events (sw w)) ∧ ∀ j, (j < k)%nat → expects j a'))|].
  - exists a. repeat (split; [done|]). lia.
  - intros k k' w1 [-> Hk]%seq_lookup (a1 & [HI Hq Hp Hn] & He1 & Hhw & Hpr & Hl & Hexp).
    destruct (lookup_lt_is_Some_2 (events (sw w1)) k) as [ev Hev]; [lia|].
    unfold echo_setup, sw_gets, sw_modify. wpf_steps. eapply wpf_elem; [done|]. wpf_steps.
    eexists. split; [split; [apply set_event_inv|..]; done|]. split; [done|].
    split; [done|]. split; [done|]. split; [simpl; by rewrite length_insert|].
    intros j Hj. destruct (decide (j = k)) as [->|].
    + eexists. simpl. rewrite list_lookup_insert_eq; [done|].
      rewrite (inv_events _ _ _ _ HI). lia.
    + destruct (Hexp j) as (ev' & ? & ?); [lia|]. exists ev'. simpl.
      by rewrite list_lookup_insert_ne.
  - intros [] w' (a' & ?). exists a'. by rewrite length_seq in *.
Qed.

(** The commands of a round: [k] of them have been sent. *)
Record sending (loops k : nat) (W : Z) (a : Spec) (g : Ghost) (w : World) : Prop := {
  sd_inv : Inv sp a g w; sd_query : query g = false; sd_nops : (nops a < 762)%nat;
  sd_lag : sent g - publ g ≤ (if decide (k = O) then 0 else (k - 1) mod 16);
  sd_work : work g (hw w) ≤ W + 11 * k;
  sd_tally : tally k a;
  sd_state : ∀ j, (j < k)%nat → echo_state j (exp1 j) (exp2 j) a;
  sd_exp : ∀ j, (j < loops)%nat → expects j a }.

Lemma exp_small (j : nat) : j < 16384 → u64 (exp1 j) = exp1 j ∧ u64 (exp2 j) = exp2 j.
Proof. intros. unfold exp1, exp2. rewrite !u64_small by lia. done. Qed.

(** Every sixteenth command of a round makes the preceding ones visible. *)
Lemma echo_flush_wp (k : nat) a g w : Inv sp a g w → query g = false →
  sent g - publ g ≤ (if decide (k = O) then 0 else (k - 1) mod 16) + 1 →
  wpf nf (when (bool_decide (Z.land k 15 = 0)) STARTRING) (λ _ w', ∃ g',
    Inv sp a g' w' ∧ query g' = false ∧ sent g' - publ g' ≤ k mod 16 ∧
    work g' (hw w') ≤ work g (hw w) + 1 ∧ printed (sw w') = printed (sw w)) w.
Proof.
  intros HI Hq Hlag. change 15 with (2 ^ 4 - 1). rewrite land_low_mod by lia.
  change (2 ^ 4) with 16. unfold when. case_bool_decide as Hm.
  - eapply wpf_mono; [by apply (STARTRING_wp sp nf)|].
    intros [] w2 (g2 & HI2 & Hp2 & Hs2 & Hq2 & Hpr2 & Hw2). exists g2.
    split; [done|]. split; [congruence|]. split; [lia|]. split; [lia|done].
  - wpf_steps. exists g. split; [done|]. split; [done|].
    split; [destruct (decide (k = O)); [by subst|]; div_lia|]. split; [lia|done].
Qed.

(** What is awaited after a further command. *)
Lemma echo_states_sent (loops k : nat) a a1 t :
  rtc spec_step a a1 → outst a1 !! t = None → k < 16384 → (k < loops)%nat →
  (∀ j, (j < k)%nat → echo_state j (exp1 j) (exp2 j) a) →
  (∀ j, (j < loops)%nat → expects j a) →
  ∀ j, (j < S k)%nat → echo_state j (exp1 j) (exp2 j)
    (spec_send t (echo_cmd junk (exp1 k) (exp2 k)) (Some EchoFinish) (Some k) a1).
Proof.
  intros Hr Hnone Hk Hkl Hst Hexp j Hj. destruct (decide (j = k)) as [->|].
  - destruct (expects_steps _ _ _ Hr (Hexp k Hkl)) as (ev1 & Hev1 & Ha1 & Hb1).
    destruct (exp_small k) as [E1 E2]; [lia|].
    rewrite <-E1, <-E2 at 1. apply (echo_sent_state a1 t k ev1); congruence.
  - destruct (echo_state_steps _ _ _ _ _ Hr (Hst j ltac:(lia))) as (ev1 & ? & ? & ? & Hp1).
    exists ev1. repeat (split; [done|]).
    destruct Hp1 as [?|(u & f & Hu & ?)]; [by left|right]. exists u, f.
    simpl. rewrite lookup_insert_ne; [done|]. intros <-. by rewrite Hnone in Hu.
Qed.
Lemma nops_send_echo a t x y ar : outst a !! t = None →
  nops (spec_send t (echo_cmd junk x y) (Some EchoFinish) ar a) = nops a.
Proof.
  intros Hnone. unfold nops. simpl.
  rewrite map_filter_insert_not'; [done| |by rewrite Hnone].
  cbn [snd]. intros [_ []]. apply echo_cmd_is.
Qed.

Lemma echo_send_wp (fuel loops k : nat) W a g w : sending loops k W a g w →
  (k < loops)%nat → loops ≤ 16384 →
  (nf ∨ fair sched ∧ W + 11 * loops < fuel) →
  wpf nf (echo_send sp sched poll_rc junk fuel k) (λ _ w', ∃ a' g',
    sending loops (S k) W a' g' w' ∧ printed (sw w') = printed (sw w) ∧
    length (events (sw w')) = length (events (sw w))) w.
Proof.
  intros [HI Hq Hn Hlag Hwk Htl Hst Hexp] Hk Hlp Hfuel.
  unfold echo_send, sw_gets. wpf_steps.
  destruct (Hexp k Hk) as (ev & Hev & Ha & Hb). pose proof Hev as Hev'.
  rewrite (inv_events _ _ _ _ HI) in Hev'. eapply wpf_elem; [exact Hev'|].
  destruct (exp_small k) as [E1 E2]; [lia|]. rewrite Ha, Hb.
  wpf_steps. eapply wpf_mono; [apply (ring_send_wp sp sched poll_rc nf Hpoll fuel _ _ _ a g w); try done|].
  { apply (echo_entry_ok a k ev); congruence. }
  { destruct Hfuel as [?|[? ?]]; [by left|right]. split; [done|].
    split; [lia|]. destruct (decide (k = O)); div_lia. }
  intros [] w1 (a' & g1 & a1 & t & Hr & Hnone & Ht & -> & HI1 & Hs & Hpb & Hq1 & Hpr & Hw1).
  set (a2 := spec_send t _ _ _ a1) in *.
  wpf_steps. eapply wpf_mono; [apply (echo_flush_wp k a2 g1 w1 HI1 Hq1); lia|].
  intros [] w2 (g2 & HI2 & Hq2 & Hlag2 & Hw2 & Hpr2).
  eapply wpf_mono; [apply (StatusPollRingOnly_wp sp sched nf fuel a2 g2 w2 HI2)|].
  { solve_fuel. }
  intros [] w3 (a3 & g3 & (HI3 & Hr3 & Hf3 & Hle3 & _) & Hq3).
  exists a3, g3. destruct Hf3 as [Hs3 Hp3 _ _ _ Hpr3].
  split; [|split; [congruence|]]; [split; try done|].
  - congruence.
  - pose proof (nops_steps _ _ Hr3) as Hn3. pose proof (nops_steps _ _ Hr).
    unfold a2 in Hn3. rewrite nops_send_echo in Hn3 by done. lia.
  - rewrite decide_False by lia. rewrite Hs3, Hp3.
    replace (S k - 1) with (Z.of_nat k) by lia. done.
  - lia.
  - replace (Z.of_nat (S k)) with (k + 1) by lia.
    eapply tally_steps; [lia|apply HI2|done|]. apply tally_send; [done|].
    eapply tally_steps; [lia|apply HI|done|done].
  - intros j Hj. eapply echo_state_steps; [exact Hr3|].
    eapply (echo_states_sent loops k a a1 t); eauto. lia.
  - intros j Hj. apply (expects_steps _ _ _ Hr3). apply (expects_steps _ _ _ Hr).
    by apply Hexp.
  - rewrite <-(inv_events _ _ _ _ HI3), (events_length_steps _ _ Hr3).
    rewrite <-(inv_events _ _ _ _ HI). by apply (events_length_steps _ _ Hr).
Qed.

(** The comparison finds no difference. *)
Lemma echo_check_wp (loops : nat) w :
  (∀ j, (j < loops)%nat → ∃ ev, events (sw w) !! j = Some ev ∧
    exp_a ev = got_a ev ∧ exp_b ev = got_b ev) →
  wpf nf (for_each (seq 0 loops) echo_check) (λ _ w', w' = w) w.
Proof.
  intros H. eapply wpf_mono; [apply (wpf_for_each nf _ _ (λ k w', w' = w)); [done|]|done].
  intros k k' w1 [-> Hk]%seq_lookup ->. destruct (H k Hk) as (ev & Hev & Ha & Hb).
  unfold echo_check, sw_gets, when. wpf_steps. eapply wpf_elem; [done|].
  rewrite !bool_decide_false by tauto. by wpf_steps.
Qed.

(** While the completions of a round are awaited. *)
Definition awaiting (loops : nat) (a : Spec) : Prop :=
  tally loops a ∧ ∀ j, (j < loops)%nat → echo_state j (exp1 j) (exp2 j) a.

Lemma awaiting_done loops a w g : awaiting loops a → Inv sp a g w → loops ≤ 16384 →
  u32 (totalCompletions (sw w)) = loops → echoes a = O.
Proof.
  intros [[H0 Ht] _] HI Hl. rewrite <-(inv_total _ _ _ _ HI). intros H.
  rewrite u32_small in H; lia.
Qed.
Lemma awaiting_idle loops a w g : awaiting loops a → Inv sp a g w → loops ≤ 16384 →
  publ g = sent g → idle g (hw w) → u32 (totalCompletions (sw w)) = loops.
Proof.
  intros [[H0 Ht] _] HI Hl Hp Hi. assert (echoes a = O) as E.
  { apply echoes_0. intros t e He Hf.
    destruct (idle_lost _ _ _ _ _ _ HI Hi Hp He) as [_ Hne].
    destruct (inv_spec _ _ _ _ HI) as [Hok _].
    destruct (Hok t e He) as (_ & _ & _ & Hx). rewrite Hf in Hx. destruct Hx as [Hx _]. by apply Hne. }
  rewrite E in Ht. rewrite <-(inv_total _ _ _ _ HI), u32_small; lia.
Qed.

Context (clock : nat → Z * Z).

(** The second loop of a round: all commands are sent. *)
Lemma echo_sends_wp (fuel loops : nat) W a g w : sending loops 0 W a g w → loops ≤ 16384 →
  (nf ∨ fair sched ∧ W + 11 * loops < fuel) →
  wpf nf (for_each (seq 0 loops) (echo_send sp sched poll_rc junk fuel)) (λ _ w', ∃ a' g',
    sending loops loops W a' g' w' ∧ printed (sw w') = printed (sw w) ∧
    length (events (sw w')) = length (events (sw w))) w.
Proof.
  intros Hsd Hl Hfuel. eapply wpf_mono; [apply (wpf_for_each nf _ _ (λ k w', ∃ a' g',
    sending loops k W a' g' w' ∧ printed (sw w') = printed (sw w) ∧
    length (events (sw w')) = length (events (sw w))))|].
  - by exists a, g.
  - intros k k' w3 [-> Hk]%seq_lookup (a3 & g3 & Hsd3 & Hpr3 & Hln3).
    eapply wpf_mono; [by apply (echo_send_wp fuel loops k _ a3 g3 w3 Hsd3)|].
    intros [] w4 (a4 & g4 & ? & ? & ?). exists a4, g4. split; [done|]. split; congruence.
  - by rewrite length_seq.
Qed.

(** When nothing is awaited any more, the comparison passes. *)
Lemma awaiting_check_wp (loops : nat) a g w : awaiting loops a → Inv sp a g w → echoes a = O →
  loops ≤ 16384 → wpf nf (for_each (seq 0 loops) echo_check) (λ _ w', w' = w) w.
Proof.
  intros [_ Hst] HI He Hl. apply echo_check_wp. intros j Hj.
  rewrite <-(inv_events _ _ _ _ HI).
  destruct (echo_state_got sp j (exp1 j) (exp2 j) a) as (ev & ? & ? & ? & _ & ? & ?).
  - apply HI.
  - by apply Hst.
  - by apply echoes_pending.
  - exists ev. split; [done|]. split; congruence.
Qed.

Lemma echo_round_wp (fuel loops : nat) a g w : rest a g w → echoes a = O →
  (loops ≤ length (events (sw w)))%nat → loops ≤ 16384 →
  (nf ∨ fair sched ∧ work g (hw w) + 11 * loops + 3 < fuel) →
  wpf nf (echo_round sp sched poll_rc junk clock fuel loops) (λ _ w', ∃ a' g',
    rest a' g' w' ∧ echoes a' = O ∧ printed (sw w') = printed (sw w) ∧
    length (events (sw w')) = length (events (sw w)) ∧
    work g' (hw w') ≤ work g (hw w) + 11 * loops + 1) w.
Proof.
  intros Hrest He Hlen Hl Hfuel. unfold echo_round. apply wpf_bind.
  eapply wpf_mono; [by apply (echo_setup_wp loops a g w)|].
  intros [] w1 (a1 & [HI1 Hq1 Hp1 Hn1] & He1 & Hhw1 & Hpr1 & Hln1 & Hexp1).
  unfold sw_modify. wpf_steps. pose proof (set_total_inv _ _ _ 0 HI1) as HI2.
  set (a2 := mkSpec _ _ _ 0 _) in *. set (w2 := upd_sw _ w1) in *.
  assert (Hsd : sending loops 0 (work g (hw w)) a2 g w2).
  { split; try done; simpl; try lia; rewrite ?Hhw1; try lia.
    split; [done|]. simpl. change (echoes a2) with (echoes a1). by rewrite He1. }
  eapply wpf_mono; [apply (echo_sends_wp fuel loops _ a2 g w2 Hsd Hl); solve_fuel|].
  intros [] w3 (a3 & g3 & [HI3 Hq3 Hn3 _ Hw3 Htl3 Hst3 _] & Hpr3 & Hln3). wpf_steps.
  eapply wpf_mono; [by apply (STARTRING_wp sp nf)|].
  intros [] w4 (g4 & HI4 & Hp4 & Hs4 & Hq4 & Hpr4 & Hw4).
  wpf_steps. eapply wpf_mono; [apply (poll_wait_wp (λ a' _, awaiting loops a') _ _ fuel a3 g4 w4)|].
  - intros a5 g5 w5 HI5 Hq5 Hw5.
    eapply wpf_mono; [apply (StatusPollRingOnly_wp sp sched nf fuel a5 g5 w5 HI5)|].
    + solve_fuel.
    + intros [] w6 (a6 & g6 & ? & ?). exists a6, g6. split; [done|congruence].
  - intros a5 g5 g6 w5 w6 a6 [Htl Hst] HI5 Hr _ _. split.
    + eapply tally_steps; [|apply HI5|done|done]. lia.
    + intros j Hj. by eapply echo_state_steps; [|apply Hst].
  - intros a5 g5 w5 Haw HI5 Hf Hp5 Hi. apply bool_decide_eq_false in Hf.
    by apply Hf, (awaiting_idle loops a5 w5 g5).
  - split; [done|congruence|congruence|done].
  - by split.
  - solve_fuel.
  - intros [] w5 (a5 & g5 & Hrest5 & Haw & Hr5 & Hpr5 & Hw5 & Hf5).
    apply bool_decide_eq_true in Hf5. pose proof (rest_inv _ _ _ Hrest5) as HI5.
    pose proof (awaiting_done _ _ _ _ Haw HI5 Hl Hf5) as He5. wpf_steps.
    eapply wpf_mono; [by apply (awaiting_check_wp loops a5 g5)|]. intros [] w6 ->. wpf_steps.
    exists a5, g5. split; [done|]. split; [done|]. split; [simpl in *; congruence|].
    split; [|lia]. rewrite <-(inv_events _ _ _ _ HI5), (events_length_steps _ _ Hr5).
    rewrite (inv_events _ _ _ _ HI3). simpl in *. congruence.
Qed.

(** Rounds of doubling size, up to 16384. *)
Lemma fast_echo_loop_wp (rounds fuel loops : nat) a g w : rest a g w → echoes a = O →
  16384 ≤ length (events (sw w)) → 0 < loops ≤ 16384 →
  16384 < loops * 2 ^ rounds →
  (nf ∨ fair sched ∧ work g (hw w) + 12 * (32768 - loops) + 3 < fuel) →
  (∃ i, loops * 2 ^ i = 16384) →
  wpf nf (fast_echo_loop sp sched poll_rc junk clock rounds fuel loops) (λ _ w', ∃ a' g',
    rest a' g' w' ∧ echoes a' = O ∧ printed (sw w') = printed (sw w)) w.
Proof.
  revert loops a g w; induction rounds as [|rounds IH];
    intros loops a g w Hrest He Hlen Hl Hr Hfuel [i Hi]; [simpl in Hr; lia|].
  assert (0 ≤ i) by (destruct (decide (0 ≤ i)); [done|rewrite Z.pow_neg_r in Hi by lia; lia]).
  cbn [fast_echo_loop]. apply wpf_bind.
  eapply wpf_mono; [apply (echo_round_wp fuel loops a g w Hrest He); try lia|].
  { solve_fuel. }
  intros iv w1 (a1 & g1 & Hrest1 & He1 & Hpr1 & Hln1 & Hw1).
  destruct (_ || _) eqn:Eb; [wpf_steps; by exists a1, g1|].
  apply orb_false_iff in Eb as [_ Eb]. apply bool_decide_eq_false in Eb.
  assert (Hi0 : i ≠ 0) by (intros ->; lia).
  assert (Hi1 : 2 ^ i = 2 * 2 ^ (i - 1)).
  { rewrite <-(Z.pow_succ_r 2 (i - 1)) by lia. f_equal. lia. }
  assert (1 ≤ 2 ^ (i - 1)) by (apply (Z.pow_le_mono_r 2 0); lia).
  rewrite Hi1 in Hi.
  eapply wpf_mono; [apply (IH (2 * loops)%nat a1 g1 w1 Hrest1 He1)|].
  - lia.
  - nia.
  - rewrite Nat2Z.inj_succ, Z.pow_succ_r in Hr by lia. lia.
  - solve_fuel.
  - exists (i - 1). lia.
  - intros iv' w2 (a2 & g2 & ? & ? & ?). exists a2, g2. split; [done|]. split; [done|congruence].
Qed.
End Client.
