(* ===== verification/RingMain.v ===== *)
(** * The ring test program as a whole (src/examples/ring/testring.cpp)

    The three passes of main and the fast echo test, from the state that ring_init
    leaves, and the claims about the rings. *)
From stdpp Require Import base gmap numbers relations list.
From S2P Require Import Prelude Ring RingInv RingOps RingClient.
Local Open Scope Z_scope.

#[local] Arguments engineselect : simpl never.
#[local] Arguments slot : simpl never.
#[local] Arguments copy_ok : simpl never.
#[local] Arguments copy_words : simpl never.
#[local] Arguments copy_response : simpl never.
#[local] Arguments response : simpl never.

(** ** Initialisation

    While the rings are set up the hardware only takes requests.  [boot] is such a
    state: one register update may be under way, and the FIFOs of the pointers hold
    zeros, which the pointers are already; [fired] says which FIFOs have been
    served. *)
Section Boot.
Context (sp : Z) (sched : nat → list hwstep) (poll_rc : nat → Z).

Definition upd_ring (fired : hwstep → bool) (c r v : Z) (mine : bool) (b : Hw.RingBuffer)
    : Hw.RingBuffer :=
  if fired HwSet && eqb mine (bool_decide (c = 0)) then Hw.set r v b else b.
Definition served {A} (fired : hwstep → bool) (k : hwstep) (l : list A) : list A :=
  if fired k then [] else l.
Definition boot (rc rs : Hw.RingBuffer) (c r v : Z) (cf cl sf sl : list Z)
    (fired : hwstep → bool) : HwState :=
  mkHw (upd_ring fired c r v true rc) (upd_ring fired c r v false rs) false [] 0 [] [] []
    (served fired HwSet [(c, r, v)]) (served fired HwSetCmdFirst cf)
    (served fired HwSetCmdLast cl) (served fired HwSetStatusFirst sf)
    (served fired HwSetStatusLast sl) [] (if fired HwSet then [(true, c, r, v)] else []).

(** A ring with its pointers at the start. *)
Definition at_start (b : Hw.RingBuffer) : Prop :=
  Hw.rbufferfirst b = 0 ∧ Hw.rbufferlastfetch b = 0 ∧ Hw.rbufferlastack b = 0.
Definition zeros (l : list Z) : Prop := l = [] ∨ l = [0].

Lemma set_at_start r v b : r ≠ 2 → r ≠ 3 → r ≠ 6 → at_start b → at_start (Hw.set r v b).
Proof.
  intros ? ? ? (? & ? & ?). destruct b. unfold Hw.set. repeat case_bool_decide; done.
Qed.
Lemma setFirst_id b : at_start b → Hw.setFirst 0 b = b.
Proof. intros (? & ? & ?). destruct b. unfold Hw.setFirst. simpl in *. by subst. Qed.
Lemma setLast_id b : at_start b → Hw.setLast 0 b = b.
Proof. intros (? & ? & ?). destruct b. unfold Hw.setLast. simpl in *. by subst. Qed.

Context (rc rs : Hw.RingBuffer) (c r v : Z) (cf cl sf sl : list Z).
Context (Hrc : at_start rc) (Hrs : at_start rs) (Hr : r ≠ 2 ∧ r ≠ 3 ∧ r ≠ 6).
Context (Hcf : zeros cf) (Hcl : zeros cl) (Hsf : zeros sf) (Hsl : zeros sl).

Lemma upd_ring_start fired mine b : at_start b → at_start (upd_ring fired c r v mine b).
Proof. intros. unfold upd_ring. destruct (_ && _); [|done]. apply set_at_start; tauto. Qed.

Definition fire (fired : hwstep → bool) (k : hwstep) (k' : hwstep) : bool :=
  bool_decide (k' = k) || fired k'.

Lemma boot_step s m n fired k :
  hw_try sp (mkWorld s (boot rc rs c r v cf cl sf sl fired) m n) k =
    mkWorld s (boot rc rs c r v cf cl sf sl (fire fired k)) m n.
Proof.
  pose proof (upd_ring_start fired true rc Hrc) as H1.
  pose proof (upd_ring_start fired false rs Hrs) as H2.
  unfold hw_try. destruct k; cbn [hw_exec];
    unfold hw_set, hw_setCmdFirst, hw_setCmdLast, hw_setStatusFirst, hw_setStatusLast,
      hw_get, hw_fetch, hw_dispatch, hw_ack, hw_copy_engine, hw_respond_copy,
      hw_respond_echo, boot, served, fire, upd_hw; simpl; try done.
  - unfold upd_ring, fire. simpl. destruct (fired HwSet); [done|]. simpl.
    by case_bool_decide.
  - destruct (fired HwSetCmdFirst); [done|]. destruct Hcf as [->| ->]; [done|]. simpl.
    unfold set_cmdFirst_f, set_cmdRing. simpl. by rewrite setFirst_id.
  - destruct (fired HwSetCmdLast); [done|]. destruct Hcl as [->| ->]; [done|]. simpl.
    unfold set_cmdLast_f, set_cmdRing. simpl. by rewrite setLast_id.
  - destruct (fired HwSetStatusFirst); [done|]. destruct Hsf as [->| ->]; [done|]. simpl.
    unfold set_statusFirst_f, set_statusRing. simpl. by rewrite setFirst_id.
  - destruct (fired HwSetStatusLast); [done|]. destruct Hsl as [->| ->]; [done|]. simpl.
    unfold set_statusLast_f, set_statusRing. simpl. by rewrite setLast_id.
Qed.

Lemma boot_burst s m n l fired :
  ∃ fired', foldl (hw_try sp) (mkWorld s (boot rc rs c r v cf cl sf sl fired) m n) l =
    mkWorld s (boot rc rs c r v cf cl sf sl fired') m n ∧
    ∀ k, k ∈ l ∨ fired k = true → fired' k = true.
Proof.
  revert fired; induction l as [|k l IH]; intros fired; cbn [foldl].
  { exists fired. split; [done|]. intros k [H|]; [by apply elem_of_nil in H|done]. }
  rewrite boot_step. destruct (IH (fire fired k)) as (fired' & -> & H).
  exists fired'. split; [done|]. intros k' Hk'. apply H. unfold fire.
  destruct Hk' as [[->|?]%elem_of_cons| ->]; [right|by left|right].
  - by rewrite bool_decide_true.
  - apply orb_true_r.
Qed.

Context (Hpoll : ∀ n, 0 ≤ poll_rc n) (Hfair : fair sched).

(** The registers after the update. *)
Definition boot_done : HwState :=
  mkHw (upd_ring (λ _, true) c r v true rc) (upd_ring (λ _, true) c r v false rs)
    false [] 0 [] [] [] [] [] [] [] [] [] [].

(** A whole poll of the library: the registers are updated and the program told. *)
Lemma boot_poll s m n : ring_init_done s = 0 →
  StatusPoll sp sched poll_rc (mkWorld s (boot rc rs c r v cf cl sf sl (λ _, false)) m n) =
  (Done tt, mkWorld (set_setresult_flag 1 s) boot_done m (S n)).
Proof.
  intros Hd. unfold StatusPoll, hw_run. unfold mbind at 1, M_bind at 1, modify at 1.
  cbn [sw hw mem now].
  destruct (boot_burst s m (S n) (sched n) (λ _, false)) as (fired & -> & Hall).
  assert (Hb : boot rc rs c r v cf cl sf sl fired =
    set_inds [(true, c, r, v)] boot_done).
  { unfold boot, boot_done, served, upd_ring. rewrite !Hall by (left; apply Hfair). done. }
  rewrite Hb. unfold mbind at 1, M_bind at 1. cbn [gets now].
  rewrite bool_decide_true by apply Hpoll. unfold mbind, M_bind. simpl.
  by rewrite Hd.
Qed.

(** A poll with nothing under way. *)
Lemma idle_burst s m n l :
  foldl (hw_try sp) (mkWorld s boot_done m n) l = mkWorld s boot_done m n.
Proof. induction l as [|k l IH]; [done|]. cbn [foldl]. by destruct k. Qed.
Lemma idle_poll s m n : ring_init_done s = 0 →
  StatusPoll sp sched poll_rc (mkWorld s boot_done m n) =
  (Done tt, mkWorld s boot_done m (S n)).
Proof.
  intros Hd. unfold StatusPoll, hw_run. unfold mbind at 1, M_bind at 1, modify at 1.
  cbn [sw hw mem now]. rewrite idle_burst. unfold mbind at 1, M_bind at 1. cbn [gets now].
  rewrite bool_decide_true by apply Hpoll. unfold mbind, M_bind. simpl. by rewrite Hd.
Qed.

Context (thread : nat → bool).
Lemma boot_wait (fuel : nat) s m n : 1 < fuel → ring_init_done s = 0 →
  setresult_flag s = 0 →
  ∃ n', setup_wait sp sched poll_rc thread fuel
    (mkWorld s (boot rc rs c r v cf cl sf sl (λ _, false)) m n) =
  (Done tt, mkWorld (set_setresult_flag 1 s) boot_done m n').
Proof.
  intros Hf Hd Hs. destruct fuel as [|[|fuel]]; [lia|lia|].
  unfold setup_wait. cbn [poll_until].
  set (n' := if thread n then S (S n) else S n). exists n'.
  unfold mbind at 1, M_bind at 1. cbn [gets sw]. rewrite Hs, bool_decide_false by tauto.
  rewrite (bind_Done _ _ _ tt (mkWorld (set_setresult_flag 1 s) boot_done m n')).
  - unfold mbind, M_bind. cbn [gets sw set_setresult_flag setresult_flag]. done.
  - unfold n', thread_poll. destruct (thread n) eqn:Ht.
    + rewrite (bind_Done _ _ _ tt (mkWorld (set_setresult_flag 1 s) boot_done m (S n))).
      * by apply idle_poll.
      * unfold mbind at 1, M_bind at 1. cbn [gets now]. rewrite Ht. by apply boot_poll.
    + rewrite (bind_Done _ _ _ tt
        (mkWorld s (boot rc rs c r v cf cl sf sl (λ _, false)) m n)).
      * by apply boot_poll.
      * unfold mbind at 1, M_bind at 1. cbn [gets now]. by rewrite Ht.
Qed.
End Boot.

(** The hardware with nothing under way. *)
Definition resting (rc rs : Hw.RingBuffer) : HwState :=
  mkHw rc rs false [] 0 [] [] [] [] [] [] [] [] [] [].

(** The four registers ring_init sets. *)
Definition configured (rf : Z) (b : Hw.RingBuffer) : Hw.RingBuffer :=
  Hw.set REG_HANDLE rf (Hw.set REG_MASK (8192 - 1)
    (Hw.set REG_END 8192 (Hw.set REG_BASE 0 b))).

Section Init.
Context (sp : Z) (sched : nat → list hwstep) (poll_rc : nat → Z) (thread : nat → bool).
Context (nf : Prop).
Context (Hpoll : ∀ n, 0 ≤ poll_rc n) (Hfair : fair sched).

(** One register. *)
Lemma set_wait_wp (fuel : nat) rc rs c r v cf cl sf sl s m n (Q : () → World → Prop) :
  1 < fuel → ring_init_done s = 0 → setresult_flag s = 0 → at_start rc → at_start rs →
  r ≠ 2 ∧ r ≠ 3 ∧ r ≠ 6 → zeros cf → zeros cl → zeros sf → zeros sl →
  (∀ n', Q tt (mkWorld (set_setresult_flag 1 s)
    (if bool_decide (c = 0) then resting (Hw.set r v rc) rs
     else resting rc (Hw.set r v rs)) m n')) →
  wpf nf (setup_wait sp sched poll_rc thread fuel) Q
    (mkWorld s (mkHw rc rs false [] 0 [] [] [] [(c, r, v)] cf cl sf sl [] []) m n).
Proof.
  intros ? ? ? ? ? ? ? ? ? ? HQ.
  edestruct (boot_wait sp sched poll_rc rc rs c r v cf cl sf sl) as [n' E]; [done..|].
  eapply wpf_eq; [exact E|]. specialize (HQ n').
  unfold boot_done, upd_ring in *. by destruct (bool_decide (c = 0)).
Qed.

Lemma init_wp (fuel : nat) p id rf b rc rs s m n : 1 < fuel → ring_init_done s = 0 →
  at_start rc → at_start rs →
  (p = CmdRing ∧ id = 0 ∨ p = StatusRing ∧ id = 1) →
  wpf nf (ring_init sp sched poll_rc thread fuel p id rf b 8192) (λ _ w', ∃ n',
    w' = mkWorld (set_setresult_flag 1 (match p with
        | CmdRing => set_cmd_ring (mkSWRing rf b 0 0 8192 128 8128 0) s
        | StatusRing => set_status_ring (mkSWRing rf b 0 0 8192 128 8128 1) s end))
      (match p with CmdRing => resting (configured rf rc) rs
       | StatusRing => resting rc (configured rf rs) end) m n')
    (mkWorld s (resting rc rs) m n).
Proof.
  intros Hf Hd Hrc Hrs Hp.
  unfold ring_init, set_ring, sw_modify, ring_set, hw_modify.
  destruct Hp as [[-> ->]|[-> ->]].
  - wpf_steps. apply set_wait_wp; try done; try (by left); try intros ?.
    wpf_steps. apply set_wait_wp; try done; try (by left); try intros ?; [by apply set_at_start|].
    rewrite (bool_decide_true (0 = 0)) by done.
    unfold ring_setCmdFirst, ring_setCmdLast, hw_modify. wpf_steps.
    apply set_wait_wp; try done; try (by left); try (by right); try intros ?; [by repeat (apply set_at_start; [done..|])|].
    wpf_steps. apply set_wait_wp; try done; try (by left); try intros ?; [by repeat (apply set_at_start; [done..|])|].
    by eexists.
  - wpf_steps. apply set_wait_wp; try done; try (by left); try intros ?.
    wpf_steps. apply set_wait_wp; try done; try (by left); try intros ?; [by apply set_at_start|].
    rewrite (bool_decide_false (1 = 0)) by done.
    unfold ring_setStatusFirst, ring_setStatusLast, hw_modify. wpf_steps.
    apply set_wait_wp; try done; try (by left); try (by right); try intros ?; [by repeat (apply set_at_start; [done..|])|].
    wpf_steps. apply set_wait_wp; try done; try (by left); try intros ?; [by repeat (apply set_at_start; [done..|])|].
    by eexists.
Qed.

(** The state in which main starts: the hardware is reset, and freshly allocated
    memory is zero. *)
Record fresh (w : World) : Prop := {
  fr_hw : hw w = resting Hw.ring_reset Hw.ring_reset;
  fr_completion : length (completion (sw w)) = 1024%nat;
  fr_cmd : length (cmdBuffer (mem w)) = 1024%nat;
  fr_status : statusBuffer (mem w) = replicate 1024 0;
  fr_init : ring_init_done (sw w) = 0;
  fr_events : Forall event_ok (events (sw w)) }.

Lemma completion_list_init_wp w : length (completion (sw w)) = 1024%nat →
  wpf nf completion_list_init (λ _ w', ∃ cs, length cs = 1024%nat ∧
    (∀ t, (1 ≤ t < 1024)%nat → cs !! t = Some (mkCompletion t 0 None None)) ∧
    w' = upd_sw (λ s, set_completion cs (set_completionfreelist (seq 1 1023) s)) w) w.
Proof.
  intros Hl. unfold completion_list_init, sw_modify. wpf_steps.
  eapply wpf_mono; [apply (wpf_for_each nf _ _ (λ k w', ∃ cs, length cs = 1024%nat ∧
    (∀ t, (1 ≤ t < S k)%nat → cs !! t = Some (mkCompletion t 0 None None)) ∧
    w' = upd_sw (λ s, set_completion cs (set_completionfreelist (seq 1 k) s)) w))|].
  - exists (completion (sw w)). split; [done|]. split; [lia|]. by destruct w as [[] ? ? ?].
  - intros k k' w1 Hk (cs & Hcs & Hall & ->). apply lookup_seq in Hk as [-> Hk].
    wpf_steps. exists (<[(1 + k)%nat := mkCompletion (1 + k) 0 None None]> cs).
    split; [by rewrite length_insert|]. split.
    + intros t Ht. destruct (decide (t = 1 + k)%nat) as [->|].
      * apply list_lookup_insert_eq. lia.
      * rewrite list_lookup_insert_ne by done. apply Hall. lia.
    + rewrite seq_S. done.
  - rewrite length_seq. done.
Qed.

(** Nothing has been sent yet. *)
Definition ghost0 : Ghost := mkGhost 0 0 0 0 0 0 0 0 0 [] [] [] 0 false.
Definition spec0 (w : World) : Spec :=
  mkSpec ∅ (flags (sw w)) (events (sw w)) (totalCompletions (sw w)) (scratchBuffer (mem w)).

Lemma ready_inv cp stp cs fl w n :
  fresh w → length cs = 1024%nat →
  (∀ t, (1 ≤ t < 1024)%nat → cs !! t = Some (mkCompletion t 0 None None)) →
  Inv sp (spec0 w) ghost0
    (mkWorld (set_ring_init_done 1 (set_setresult_flag fl (set_status_ring
        (mkSWRing stp StatusBuffer 0 0 8192 128 8128 1) (set_cmd_ring
          (mkSWRing cp CmdBuffer 0 0 8192 128 8128 0)
          (set_completion cs (set_completionfreelist (seq 1 1023) (sw w)))))))
      (set_hwenabled true (resting (configured cp Hw.ring_reset)
        (configured stp Hw.ring_reset))) (mem w) n).
Proof.
  intros [Hh Hc Hcb Hsb Hd Hev] Hl Hcs. split; cbn [sw hw mem]; try done.
  - split; simpl; try done; try lia. exists 127. lia.
  - split; simpl; try done; try lia.
    + by rewrite Hsb, length_replicate.
    + intros k Hk. rewrite Hsb. unfold slot', slot.
      rewrite drop_replicate, take_replicate.
      destruct (decide (7 < 8 `min` (1024 - word (64 * (k mod 128))))%nat) as [H7|H7].
      * by rewrite (nth_lookup_Some _ _ _ 0) by (by apply lookup_replicate_2).
      * apply nth_overflow. rewrite length_replicate. lia.
  - split; try done; try (by apply Forall_nil).
    + intros t [e He]. cbn [outst spec0] in He. by rewrite lookup_empty in He.
    + intros t Ht. cbn [completionfreelist set_ring_init_done set_setresult_flag set_status_ring
        set_cmd_ring set_completion set_completionfreelist] in Ht. apply elem_of_seq in Ht.
      eexists _, _. apply Hcs. lia.
    + cbn [copyq copyout echoq set_hwenabled resting length]. lia.
Qed.

Lemma setup_wp (fuel : nat) cp stp w : fresh w → 1 < fuel →
  wpf nf (completion_list_init;; setup sp sched poll_rc thread fuel cp stp) (λ _ w',
    rest sp (spec0 w) ghost0 w' ∧ hw w' = set_hwenabled true (resting
      (configured cp Hw.ring_reset) (configured stp Hw.ring_reset)) ∧
    mem w' = mem w ∧ events (sw w') = events (sw w) ∧ printed (sw w') = printed (sw w)) w.
Proof.
  intros Hfr Hf. pose proof Hfr as [Hh Hc _ _ Hd _].
  wpf_steps. eapply wpf_mono; [by apply completion_list_init_wp|].
  intros [] w1 (cs & Hcs & Hall & ->). unfold setup. wpf_steps.
  destruct w as [s h m n]. simpl in Hh, Hc, Hd. subst h. unfold upd_sw. cbn [sw hw mem now].
  eapply wpf_mono; [apply (init_wp fuel CmdRing 0 cp CmdBuffer); try done; by left|].
  intros [] w2 (n2 & ->). wpf_steps.
  eapply wpf_mono; [apply (init_wp fuel StatusRing 1 stp StatusBuffer); try done|].
  { by right. }
  intros [] w3 (n3 & ->). unfold sw_modify, hw_modify. wpf_steps.
  split; [|done]. split; try done; [|unfold nops; cbn [outst spec0]; rewrite map_filter_empty, map_size_empty; lia].
  exact (ready_inv cp stp cs 1 _ n3 Hfr Hcs Hall).
Qed.
End Init.

Section Passes.
Context (sp : Z) (sched : nat → list hwstep) (poll_rc : nat → Z) (junk : nat → Z).
Context (nf : Prop) (Hpoll : ∀ n, 0 ≤ poll_rc n) (Hsp : 0 ≤ sp < 2 ^ 32).

(** Software may change the scratch memory between commands. *)
Lemma set_scratch_inv a g w sc : Inv sp a g w → length sc = length (s_scratch a) →
  Inv sp (mkSpec (outst a) (s_flags a) (s_events a) (s_total a) sc) g
    (upd_mem (set_scratchBuffer sc) w).
Proof.
  intros [Hcmd Hst Hget Htag [Ho Hv] ? ? ? ? ? ?] Hl. split; simpl; try done.
  - by apply (tag_frame a _ g _ (hw w) _ (sw w)).
  - split; [|done]. eapply map_Forall_impl; [exact Ho|]. intros t e. unfold entry_ok. simpl.
    by rewrite (copy_ok_length _ _ _ _ Hl).
Qed.

(** The bytes 0 to 255 at the start. *)
Definition filled (m : nat) (sc : list Z) : Prop :=
  ∀ i j, (i ≤ m)%nat → (j < 256)%nat → sc !! (256 * i + j)%nat = Some (Z.of_nat j).

Lemma fill_wp a g w : rest sp a g w → (256 ≤ length (scratchBuffer (mem w)))%nat →
  wpf nf (for_each (seq 0 256) (λ i, store_scratch i i)) (λ _ w', ∃ sc',
    w' = upd_mem (set_scratchBuffer sc') w ∧ length sc' = length (scratchBuffer (mem w)) ∧
    filled 0 sc') w.
Proof.
  intros _ Hl. eapply wpf_mono; [apply (wpf_for_each nf _ _ (λ k w', ∃ sc',
    w' = upd_mem (set_scratchBuffer sc') w ∧ length sc' = length (scratchBuffer (mem w)) ∧
    ∀ j, (j < k)%nat → sc' !! j = Some (Z.of_nat j)))|].
  - exists (scratchBuffer (mem w)). split; [by destruct w as [? ? [] ?]|]. split; [done|lia].
  - intros k k' w1 [-> Hk]%seq_lookup (sc & -> & Hsc & Hj).
    destruct (lookup_lt_is_Some_2 sc k) as [x Hx]; [lia|].
    unfold store_scratch. wpf_steps. eapply wpf_elem; [exact Hx|]. wpf_steps.
    exists (<[k := u8 k]> sc). split; [done|]. split; [by rewrite length_insert|].
    intros j Hjk. destruct (decide (j = k)) as [->|].
    + rewrite list_lookup_insert_eq by lia. by rewrite u8_small by lia.
    + rewrite list_lookup_insert_ne by done. apply Hj. lia.
  - intros [] w' (sc & -> & Hsc & Hj). exists sc. split; [done|]. split; [done|].
    intros i j Hi Hj'. replace i with O by lia. simpl. apply Hj. by rewrite length_seq.
Qed.

(** The next block becomes a copy of this one. *)
Lemma copied_filled (m : nat) sc : filled m sc → (256 * (m + 2) ≤ length sc)%nat →
  let sc' := copied (256 * m) (256 * (m + 1)) 256 sc in
  filled (S m) sc' ∧ length sc' = length sc.
Proof.
  intros Hf Hl. cbv zeta. unfold copied. split; [|apply length_inserts].
  replace (Z.to_nat (256 * (m + 1))) with (256 * (m + 1))%nat by lia.
  replace (Z.to_nat (256 * m)) with (256 * m)%nat by lia.
  change (Z.to_nat 256) with 256%nat.
  assert (Hlen : length (take 256 (drop (256 * m) sc)) = 256%nat).
  { rewrite length_take, length_drop. lia. }
  intros i j Hi Hj. rewrite list_lookup_inserts_full by lia. rewrite Hlen.
  destruct (decide (i = S m)) as [->|].
  - rewrite decide_True by lia. rewrite lookup_take_lt by lia. rewrite lookup_drop.
    replace (_ + _)%nat with (256 * m + j)%nat by lia. apply Hf; lia.
  - rewrite decide_False by lia. apply Hf; lia.
Qed.

(** Between the commands of the blocking tests. *)
Record settled (W : Z) (w0 : World) (a : Spec) (g : Ghost) (w : World) : Prop := {
  st_rest : rest sp a g w; st_quiet : quiet a;
  st_printed : printed (sw w) = printed (sw w0);
  st_work : work g (hw w) ≤ W;
  st_events : (length (events (sw w0)) ≤ length (events (sw w)))%nat;
  st_scratch : length (scratchBuffer (mem w)) = length (scratchBuffer (mem w0)) }.

Lemma echo_settled (fuel : nat) x y W w0 a g w : settled W w0 a g w →
  (nf ∨ fair sched ∧ W + 11 < fuel) →
  wpf nf (hw_echo sp sched poll_rc junk fuel x y) (λ _ w', ∃ a' g',
    settled (W + 10) w0 a' g' w' ∧ flags (sw w') = flags (sw w) ∧
    scratchBuffer (mem w') = scratchBuffer (mem w)) w.
Proof.
  intros [Hr Hq Hp Hw He Hs] Hfuel. pose proof (rest_inv _ _ _ _ Hr) as HI.
  eapply wpf_mono; [apply (hw_echo_wp sp sched poll_rc junk nf Hpoll fuel x y a g w Hr)|].
  { solve_fuel. }
  intros [] w' (a' & g' & Hr' & Hp' & Hw' & Hqt & _ & Hln & _).
  destruct (Hqt Hq) as (Hq' & Hsc & Hfl & _). pose proof (rest_inv _ _ _ _ Hr') as HI'.
  exists a', g'. rewrite <-(inv_flags _ _ _ _ HI'), <-(inv_flags _ _ _ _ HI).
  rewrite <-(inv_scratch _ _ _ _ HI'), <-(inv_scratch _ _ _ _ HI). split; [|done].
  split; try done; [congruence|lia|lia|].
  rewrite <-Hs, <-(inv_scratch _ _ _ _ HI'), <-(inv_scratch _ _ _ _ HI). congruence.
Qed.

Lemma copy_settled (fuel : nat) from to count W w0 a g w : settled W w0 a g w →
  copy_args from to count (scratchBuffer (mem w)) →
  (nf ∨ fair sched ∧ W + 11 < fuel) →
  wpf nf (hw_copy sp sched poll_rc junk fuel from to count) (λ _ w', ∃ a' g',
    settled (W + 10) w0 a' g' w' ∧
    length (flags (sw w')) = S (length (flags (sw w))) ∧
    scratchBuffer (mem w') = copied from to count (scratchBuffer (mem w))) w.
Proof.
  intros [Hr Hq Hp Hw He Hs] Hargs Hfuel. pose proof (rest_inv _ _ _ _ Hr) as HI.
  eapply wpf_mono; [apply (hw_copy_wp sp sched poll_rc junk nf Hpoll Hsp fuel
    from to count a g w Hr)|]; [|done| |].
  { intros t e Hte Hc. by destruct (Hq t e Hte). }
  { solve_fuel. }
  intros [] w' (a' & g' & Hr' & _ & Hp' & Hw' & Hqt & Hsc).
  destruct (Hqt Hq) as (Hq' & Hev & Hfl). pose proof (rest_inv _ _ _ _ Hr') as HI'.
  rewrite (inv_flags _ _ _ _ HI'), (inv_flags _ _ _ _ HI) in Hfl.
  rewrite (inv_events _ _ _ _ HI'), (inv_events _ _ _ _ HI) in Hev.
  exists a', g'. split; [|done]. split; try done; [congruence|lia|congruence|].
  rewrite Hsc. unfold copied. by rewrite length_inserts.
Qed.

Lemma pass1_wp (fuel : nat) W w0 a g w : settled W w0 a g w →
  2816 ≤ length (scratchBuffer (mem w0)) →
  (nf ∨ fair sched ∧ W + 210 < fuel) →
  wpf nf (pass1 sp sched poll_rc junk fuel) (λ _ w', ∃ a' g', settled (W + 200) w0 a' g' w' ∧
    (length (flags (sw w)) ≤ length (flags (sw w')))%nat) w.
Proof.
  intros Hst Hl Hfuel. pose proof Hst as [Hr Hq Hp Hw He Hs].
  unfold pass1. apply wpf_bind. eapply wpf_mono; [apply (fill_wp a g w Hr); lia|].
  intros [] w1 (sc & -> & Hsc & Hfill). destruct Hr as [HI Hqy Hpb Hn].
  assert (Hsc' : length sc = length (s_scratch a)) by (by rewrite (inv_scratch _ _ _ _ HI)).
  pose proof (set_scratch_inv _ _ _ _ HI Hsc') as HI1. set (a1 := mkSpec _ _ _ _ sc) in *.
  wpf_steps. eapply wpf_mono; [apply (wpf_for_each nf _ _ (λ k w', ∃ a' g',
    settled (W + 20 * k) w0 a' g' w' ∧ filled k (scratchBuffer (mem w')) ∧
    (length (flags (sw w)) ≤ length (flags (sw w')))%nat))|].
  - exists a1, g. split; [|done]. split; [by split|done|done|simpl; lia|done|simpl; congruence].
  - intros k k' w2 [-> Hk]%seq_lookup (a2 & g2 & Hst2 & Hf2 & Hfl2).
    pose proof (st_scratch _ _ _ _ _ Hst2) as Hl2. unfold pass1_step. apply wpf_bind.
    eapply wpf_mono; [apply (copy_settled fuel _ _ _ _ w0 a2 g2 w2 Hst2)|].
    { split; rewrite ?Hl2; try lia. div_lia. }
    { solve_fuel. }
    intros [] w3 (a3 & g3 & Hst3 & Hfl3 & Hsc3).
    eapply wpf_mono; [apply (echo_settled fuel _ _ _ w0 a3 g3 w3 Hst3)|].
    { solve_fuel. }
    intros [] w4 (a4 & g4 & Hst4 & Hfl4 & Hsc4). exists a4, g4.
    destruct (copied_filled k _ Hf2) as [Hf3 _]; [lia|].
    split; [|split; [rewrite Hsc4, Hsc3; exact Hf3|rewrite Hfl4; lia]].
    destruct Hst4. split; try done. lia.
  - intros [] w2 (a2 & g2 & Hst2 & Hf2 & Hfl2). rewrite length_seq in *.
    eapply wpf_mono; [apply (wpf_for_each nf _ _ (λ k w', w' = w2)); [done|]|].
    + intros k k' w3 [-> Hk]%seq_lookup ->. unfold pass1_check, when. wpf_steps.
      eapply wpf_elem; [replace (k + 2560)%nat with (256 * 10 + k)%nat by lia;
        apply Hf2; lia|]. rewrite bool_decide_false by tauto. by wpf_steps.
    + intros [] w3 ->. exists a2, g2. done.
Qed.

(** *** Pass 2 *)

(** The flag [i] is set, or will be. *)
Definition flag_pending (a : Spec) (i : nat) : Prop :=
  ∃ t e, outst a !! t = Some e ∧ e_fin e = Some FlagFinish ∧ e_arg e = Some i ∧
    is_copy (e_cmd e).
Definition flag_state (a : Spec) (i : nat) : Prop :=
  ∃ x, s_flags a !! i = Some x ∧ (x ≠ 0 ∨ flag_pending a i).

Lemma callback_flags fin ar r a i x : s_flags a !! i = Some x →
  ∃ x', s_flags (callback fin ar r a) !! i = Some x' ∧ (x ≠ 0 → x' ≠ 0) ∧
    (fin = Some FlagFinish → ar = Some i → x' ≠ 0).
Proof.
  intros H. destruct fin as [[]|], ar as [j|]; simpl; try (exists x; naive_solver).
  destruct (decide (i = j)) as [->|].
  - exists 1. rewrite list_lookup_insert_eq by (by eapply lookup_lt_Some). naive_solver.
  - rewrite list_lookup_insert_ne by done. exists x. naive_solver.
Qed.

Lemma flag_state_step i a a' : spec_step a a' → flag_state a i → flag_state a' i.
Proof.
  intros Hs (x & Hx & Hp). destruct Hs as [t e Ht Hc Hd|t e Ht Hr].
  - exists x. split; [done|]. destruct Hp as [?|(u & f & Hu & Hf)]; [by left|right].
    destruct (decide (u = t)) as [->|].
    + simplify_eq. eexists t, _. simpl. by rewrite lookup_insert_eq.
    + exists u, f. simpl. by rewrite lookup_insert_ne.
  - destruct (callback_flags (e_fin e) (e_arg e) (response (e_cmd e))
      (set_outst (delete t (outst a)) a) i x Hx) as (x' & ? & Hk & Hset).
    exists x'. split; [done|]. destruct Hp as [?|(u & f & Hu & Hf & Ha & ?)]; [left; auto|].
    destruct (decide (u = t)) as [->|].
    + simplify_eq. left. auto.
    + right. exists u, f. rewrite callback_outst. simpl. by rewrite lookup_delete_ne.
Qed.
Lemma flag_state_steps i a a' : rtc spec_step a a' → flag_state a i → flag_state a' i.
Proof. induction 1; eauto using flag_state_step. Qed.

Lemma lengths_steps a a' : rtc spec_step a a' →
  length (s_scratch a') = length (s_scratch a) ∧ length (s_flags a') = length (s_flags a).
Proof.
  induction 1 as [|a a1 a2 Hs _ [-> ->]]; [done|].
  destruct Hs as [t e|t e]; [simpl; by rewrite copy_words_length|].
  rewrite callback_scratch. split; [done|].
  generalize (response (e_cmd e)). intros r.
  destruct (e_fin e) as [[]|], (e_arg e); simpl; rewrite ?length_insert; done.
Qed.

(** During pass 2. *)
Record copying (W : Z) (w0 : World) (n m : nat) (a : Spec) (g : Ghost) (w : World) : Prop := {
  cp_rest : rest sp a g w; cp_echoes : echoes a = O;
  cp_printed : printed (sw w) = printed (sw w0);
  cp_work : work g (hw w) ≤ W;
  cp_events : (length (events (sw w0)) ≤ length (events (sw w)))%nat;
  cp_scratch : length (scratchBuffer (mem w)) = length (scratchBuffer (mem w0));
  cp_flags : (n + 10 ≤ length (flags (sw w)))%nat;
  cp_state : ∀ j, (j < m)%nat → flag_state a (n + j) }.

Lemma set_flag_inv a g w i x : Inv sp a g w →
  Inv sp (mkSpec (outst a) (<[i := x]> (s_flags a)) (s_events a) (s_total a) (s_scratch a)) g
    (upd_sw (λ s, set_flags (<[i := x]> (flags s)) s) w).
Proof.
  intros [Hcmd Hst Hget Htag [Ho Hv] ? ? ? ? ? ?]. split; simpl; try done; [| |congruence].
  - by apply (tag_frame a _ g _ (hw w) _ (sw w)).
  - split; [|done]. eapply map_Forall_impl; [exact Ho|]. intros t e. unfold entry_ok. simpl.
    by rewrite length_insert.
Qed.

(** One non-blocking copy. *)
Lemma hw_copy_nb_wp (fuel : nat) from to count W w0 n m a g w : copying W w0 n m a g w →
  (m < 10)%nat → copy_args from to count (scratchBuffer (mem w)) →
  (nf ∨ fair sched ∧ W + 1 < fuel) →
  wpf nf (hw_copy_nb sp sched poll_rc junk fuel from to count (n + m)) (λ _ w', ∃ a' g',
    copying (W + 10) w0 n (S m) a' g' w') w.
Proof.
  intros [Hr He Hp Hw Hev Hsc Hfl Hst] Hm Hargs Hfuel.
  pose proof (rest_inv _ _ _ _ Hr) as HI. unfold hw_copy_nb.
  eapply wpf_mono; [apply (send_start_wp sp sched poll_rc nf Hpoll fuel _ _ _ a g w Hr)|].
  { done. }
  { intros [Hne _]. apply Hne. reflexivity. }
  { intros t _. split; [done|]. split; [done|]. split.
    - intros _. rewrite (inv_scratch _ _ _ _ HI). by apply copy_cmd_ok.
    - exists (n + m)%nat. split; [done|]. rewrite (inv_flags _ _ _ _ HI). lia. }
  { solve_fuel. }
  intros [] w' (a1 & t & g' & Hr1 & Hnone & Hr' & Hp' & Hw').
  pose proof (rest_inv _ _ _ _ Hr') as HI'. eexists _, g'.
  destruct (lengths_steps _ _ Hr1) as [Hl1 Hl2].
  split; [exact Hr'| | |lia| | | |].
  - pose proof (echoes_0_steps _ _ Hr1 He) as He1. rewrite echoes_0 in *. intros u e. simpl.
    destruct (decide (u = t)) as [->|].
    + rewrite lookup_insert_eq. by intros [= <-].
    + rewrite lookup_insert_ne by done. apply He1.
  - congruence.
  - rewrite <-(inv_events _ _ _ _ HI'). simpl. rewrite (events_length_steps _ _ Hr1).
    by rewrite (inv_events _ _ _ _ HI).
  - rewrite <-Hsc, <-(inv_scratch _ _ _ _ HI'), <-(inv_scratch _ _ _ _ HI). done.
  - rewrite <-(inv_flags _ _ _ _ HI'). simpl. rewrite Hl2, (inv_flags _ _ _ _ HI). done.
  - intros j Hj. destruct (decide (j = m)) as [->|].
    + destruct (lookup_lt_is_Some_2 (s_flags a1) (n + m)) as [x Hx].
      { rewrite Hl2, (inv_flags _ _ _ _ HI). lia. }
      exists x. split; [done|]. right. eexists t, _. simpl. rewrite lookup_insert_eq.
      repeat split.
    + destruct (flag_state_steps _ _ _ Hr1 (Hst j ltac:(lia))) as (x & Hx & Hpd).
      exists x. split; [done|]. destruct Hpd as [?|(u & e & Hu & ?)]; [by left|right].
      exists u, e. simpl. rewrite lookup_insert_ne; [done|]. intros <-. congruence.
Qed.

(** Waiting for one of the flags. *)
Lemma wait_flag_wp (fuel : nat) W w0 n j a g w : copying W w0 n 10 a g w → (j < 10)%nat →
  (nf ∨ fair sched ∧ W + 1 < fuel) →
  wpf nf (poll_until fuel (StatusPoll sp sched poll_rc)
    (λ w, bool_decide (nth (n + j) (flags (sw w)) 0 ≠ 0))) (λ _ w', ∃ a' g',
    copying W w0 n 10 a' g' w') w.
Proof.
  intros [Hr He Hp Hw Hev Hsc Hfl Hst] Hj Hfuel. pose proof (rest_inv _ _ _ _ Hr) as HI.
  eapply wpf_mono; [apply (poll_wait_wp sp sched nf (λ a' _,
    ∀ j, (j < 10)%nat → flag_state a' (n + j)) _ _ fuel a g w)|].
  - intros. by apply StatusPoll_body.
  - intros. eapply flag_state_steps; eauto.
  - intros a2 g2 w2 Hst2 HI2 Hf Hp2 Hidle. apply bool_decide_eq_false in Hf.
    destruct (Hst2 j Hj) as (x & Hx & [Hne|(t & e & He2 & _ & _ & Hc)]).
    + apply Hf. rewrite (inv_flags _ _ _ _ HI2) in Hx. by rewrite (nth_lookup_Some _ _ _ _ Hx).
    + by destruct (idle_lost _ _ _ _ _ _ HI2 Hidle Hp2 He2).
  - done.
  - done.
  - solve_fuel.
  - intros [] w' (a' & g' & Hr' & Hst' & Hrt & Hp' & Hw' & _). exists a', g'.
    pose proof (rest_inv _ _ _ _ Hr') as HI'. destruct (lengths_steps _ _ Hrt) as [Hl1 Hl2].
    split; [done|by eapply echoes_0_steps|congruence|lia| | | |done].
    + rewrite <-(inv_events _ _ _ _ HI'), (events_length_steps _ _ Hrt).
      by rewrite (inv_events _ _ _ _ HI).
    + rewrite <-Hsc, <-(inv_scratch _ _ _ _ HI'), <-(inv_scratch _ _ _ _ HI). done.
    + rewrite <-(inv_flags _ _ _ _ HI'), Hl2, (inv_flags _ _ _ _ HI). done.
Qed.

Lemma seq_lookup_from n k i j : seq n k !! i = Some j → j = (n + i)%nat ∧ (i < k)%nat.
Proof. rewrite lookup_seq. naive_solver lia. Qed.

Lemma quiet_echoes a : spec_ok sp a → quiet a → echoes a = O.
Proof.
  intros [Hok _] Hq. apply echoes_0. intros t e Hte Hf. destruct (Hq t e Hte) as [_ Hne].
  destruct (Hok t e Hte) as (_ & _ & _ & Hx). rewrite Hf in Hx. destruct Hx as [Hx _].
  by apply Hne.
Qed.

(** The last two loops of pass 2: ten copies are sent, then awaited. *)
Lemma copies_nb_wp (fuel : nat) W w0 n a g w : copying W w0 n 0 a g w →
  2816 ≤ length (scratchBuffer (mem w0)) → (nf ∨ fair sched ∧ W + 110 < fuel) →
  wpf nf (for_each (seq 0 10) (λ i : nat,
        hw_copy_nb sp sched poll_rc junk fuel (256 * i) (256 * (i + 1)) 0x100 (n + i)%nat);;
      for_each (seq n 10) (λ i, poll_until fuel (StatusPoll sp sched poll_rc)
        (λ w, bool_decide (nth i (flags (sw w)) 0 ≠ 0))))
    (λ _ w', ∃ a' g', copying (W + 100) w0 n 10 a' g' w') w.
Proof.
  intros Hcp Hl Hfuel.
  apply wpf_bind. eapply wpf_mono; [apply (wpf_for_each nf _ _ (λ k w', ∃ a' g',
    copying (W + 10 * k) w0 n k a' g' w'))|].
  { exists a, g. destruct Hcp. split; try done. lia. }
  { intros k k' w4 [-> Hk]%seq_lookup (a4 & g4 & Hcp4).
    eapply wpf_mono; [apply (hw_copy_nb_wp fuel _ _ _ _ _ _ _ a4 g4 w4 Hcp4 Hk)|].
    - pose proof (cp_scratch _ _ _ _ _ _ _ Hcp4) as E. split; rewrite ?E; try lia. div_lia.
    - solve_fuel.
    - intros [] w5 (a5 & g5 & []). exists a5, g5. split; try done. lia. }
  rewrite length_seq. intros [] w4 (a4 & g4 & Hcp4).
  eapply wpf_mono; [apply (wpf_for_each nf _ _ (λ _ w', ∃ a' g',
    copying (W + 100) w0 n 10 a' g' w')); [eauto|]|].
  - intros k k' w5 [-> Hk]%seq_lookup_from (a5 & g5 & Hcp5).
    apply (wait_flag_wp fuel _ _ _ _ a5 g5 w5 Hcp5); [lia|]. solve_fuel.
  - intros [] w5 (a5 & g5 & ?). by exists a5, g5.
Qed.

Lemma pass2_wp (fuel : nat) W w0 n a g w : settled W w0 a g w →
  2816 ≤ length (scratchBuffer (mem w0)) → (n + 10 ≤ length (flags (sw w)))%nat →
  (nf ∨ fair sched ∧ W + 110 < fuel) →
  wpf nf (pass2 sp sched poll_rc junk fuel n) (λ _ w', ∃ a' g',
    copying (W + 100) w0 n 10 a' g' w') w.
Proof.
  intros [Hr Hq Hp Hw He Hs] Hl Hn Hfuel. unfold pass2. apply wpf_bind, wpf_modify.
  destruct Hr as [HI Hqy Hpb Hno].
  set (z := replicate (length (scratchBuffer (mem w))) 0).
  assert (Hz : length z = length (s_scratch a)).
  { unfold z. by rewrite length_replicate, (inv_scratch _ _ _ _ HI). }
  pose proof (set_scratch_inv _ _ _ _ HI Hz) as HI1.
  change (upd_mem (λ m, set_scratchBuffer (replicate (length (scratchBuffer m)) 0) m) w)
    with (upd_mem (set_scratchBuffer z) w).
  set (w1 := upd_mem _ w) in *. set (a1 := mkSpec _ _ _ _ z) in *.
  assert (Hz1 : length (scratchBuffer (mem w1)) = length (scratchBuffer (mem w0))).
  { simpl. unfold z. by rewrite length_replicate. }
  apply wpf_bind. eapply wpf_mono; [apply (fill_wp a1 g w1)|].
  { by split. }
  { lia. }
  intros [] w2 (sc & -> & Hsc & _).
  assert (Hsc1 : length sc = length (s_scratch a1)) by (simpl in *; congruence).
  pose proof (set_scratch_inv _ _ _ _ HI1 Hsc1) as HI2.
  set (w2 := upd_mem _ w1) in *. set (a2 := mkSpec _ _ _ _ sc) in *.
  assert (Hcp : copying W w0 n 0 a2 g w2).
  { split; try done; [|simpl; congruence|lia].
    eapply quiet_echoes; [apply HI2|done]. }
  apply wpf_bind. eapply wpf_mono; [apply (wpf_for_each nf _ _ (λ k w', ∃ a',
    copying W w0 n 0 a' g w')); [eauto|]|].
  { intros k k' w3 _ (a3 & [Hr3 He3 Hp3 Hw3 Hev3 Hsc3 Hfl3 _]). unfold sw_modify. wpf_steps.
    eexists. split; [destruct Hr3; split; [by apply set_flag_inv|done..]|done|done|done|done
      |done|simpl; by rewrite length_insert|lia]. }
  intros [] w3 (a3 & Hcp3).
  by apply (copies_nb_wp fuel W w0 n a3 g w3 Hcp3).
Qed.

(** After pass 2: the echo tests. *)
Record echoing (W : Z) (w0 : World) (a : Spec) (g : Ghost) (w : World) : Prop := {
  ec_rest : rest sp a g w; ec_echoes : echoes a = O;
  ec_printed : printed (sw w) = printed (sw w0);
  ec_work : work g (hw w) ≤ W;
  ec_events : (length (events (sw w0)) ≤ length (events (sw w)))%nat }.

Lemma pass3_wp (fuel : nat) W w0 a g w : echoing W w0 a g w →
  (nf ∨ fair sched ∧ W + 5130 < fuel) →
  wpf nf (pass3 sp sched poll_rc junk fuel) (λ _ w', ∃ a' g',
    echoing (W + 5120) w0 a' g' w') w.
Proof.
  intros Hec Hfuel. unfold pass3.
  eapply wpf_mono; [apply (wpf_for_each nf _ _ (λ k w', ∃ a' g',
    echoing (W + 10 * k) w0 a' g' w'))|].
  - exists a, g. destruct Hec. split; try done. lia.
  - intros k k' w1 [-> Hk]%seq_lookup (a1 & g1 & [Hr He Hp Hw Hev]).
    eapply wpf_mono; [apply (hw_echo_wp sp sched poll_rc junk nf Hpoll fuel _ _ a1 g1 w1 Hr)|].
    { solve_fuel. }
    intros [] w2 (a2 & g2 & Hr2 & Hp2 & Hw2 & _ & He2 & Hln & _). exists a2, g2.
    split; try done; [auto|congruence|lia|lia].
  - rewrite length_seq. intros [] w1 (a1 & g1 & ?). by exists a1, g1.
Qed.

Context (clock : nat → Z * Z).

Lemma tests_wp (fuel : nat) a g w : rest sp a g w → quiet a →
  2816 ≤ length (scratchBuffer (mem w)) → 16384 ≤ length (events (sw w)) →
  (nf ∨ fair sched ∧ work g (hw w) + 400000 < fuel) →
  wpf nf (tests sp sched poll_rc junk clock fuel) (λ _ w', ∃ a' g', rest sp a' g' w' ∧
    echoes a' = O ∧ printed (sw w') = printed (sw w)) w.
Proof.
  intros Hr Hq Hsc Hev Hfuel. unfold tests, sw_gets, sw_modify. wpf_steps.
  set (fl := junk <$> seq 0 10). set (n := length (flags (sw w))).
  assert (Hst : settled (work g (hw w)) w (mkSpec (outst a) (s_flags a ++ fl) (s_events a)
    (s_total a) (s_scratch a)) g (upd_sw (λ s, set_flags (flags s ++ fl) s) w)).
  { destruct Hr as [HI ? ? ?]. split; try done. split; try done. by apply add_flags_inv. }
  eapply wpf_mono; [apply (pass1_wp fuel _ _ _ _ _ Hst); [done|]|].
  { solve_fuel. }
  intros [] w1 (a1 & g1 & Hst1 & Hfl1). simpl in Hfl1. rewrite length_app in Hfl1.
  assert (length fl = 10%nat) by reflexivity.
  wpf_steps. eapply wpf_mono; [apply (pass2_wp fuel _ w n a1 g1 w1 Hst1); [done|lia|]|].
  { solve_fuel. }
  intros [] w2 (a2 & g2 & [Hr2 He2 Hp2 Hw2 Hev2 _ _ _]).
  wpf_steps. eapply wpf_mono; [apply (pass3_wp fuel (work g (hw w) + 300) w a2 g2 w2)|].
  { split; try done. lia. }
  { solve_fuel. }
  intros [] w3 (a3 & g3 & [Hr3 He3 Hp3 Hw3 Hev3]). unfold fast_echo_test.
  eapply wpf_mono; [apply (fast_echo_loop_wp sp sched poll_rc junk nf Hpoll Hsp clock
    15 fuel 1 a3 g3 w3 Hr3 He3); try done; try lia|].
  { solve_fuel. }
  { exists 14. done. }
  intros iv w4 (a4 & g4 & ? & ? & ?). exists a4, g4. split; [done|]. split; [done|congruence].
Qed.
End Passes.

(** ** Claims *)

Section Claims.
Context (sp : Z) (sched : nat → list hwstep) (poll_rc junk : nat → Z) (thread : nat → bool)
  (clock : nat → Z * Z).
Context (Hpoll : ∀ n, 0 ≤ poll_rc n) (Hsp : 0 ≤ sp < 2 ^ 32).

(** C7. The ring program ends and finds no error.  Started with the hardware reset and
    zeroed status memory, main initialises its completions and both rings, runs the
    blocking and the non-blocking copies, the echoes and the echo test of up to 16384
    commands, and comes to the end of the echo test (a function that lacks its return
    statement) without a failed assertion, an access outside the buffers or a reported
    failure, for every schedule that lets each part of the hardware act between two
    polls.  The polling thread of start-up, which main does not join, may make any
    number of polls while main sets the rings up; the conditions on it are that it
    polls between two polls of main, not at the same time as one, and that it has left
    its loop when main turns the engines on ([stale_poller_aborts] shows that
    otherwise the program may abort). *)
Theorem ring_program_passes (fuel : nat) cp stp w :
  fresh w → fair sched → 400001 < fuel →
  2816 ≤ length (scratchBuffer (mem w)) → 16384 ≤ length (events (sw w)) →
  wpf False (completion_list_init;; setup sp sched poll_rc thread fuel cp stp;;
             tests sp sched poll_rc junk clock fuel)
    (λ _ w', printed (sw w') = printed (sw w)) w.
Proof.
  intros Hfr Hfair Hf Hsc Hev.
  apply (wpf_assoc _ _ (λ _, setup sp sched poll_rc thread fuel cp stp)), wpf_bind.
  eapply wpf_mono; [apply (setup_wp sp sched poll_rc thread False Hpoll Hfair fuel); [done|lia]|].
  intros [] w1 (Hr & Hhw & Hm & He & Hp).
  eapply wpf_mono; [apply (tests_wp sp sched poll_rc junk False Hpoll Hsp clock fuel
    (spec0 w) ghost0 w1 Hr)|].
  - intros t e. cbn [outst spec0]. by rewrite lookup_empty.
  - by rewrite Hm.
  - by rewrite He.
  - right. split; [done|]. rewrite Hhw. unfold work. cbn. lia.
  - intros iv w2 (a2 & g2 & _ & _ & Hp2). congruence.
Qed.

(** C6. Whatever the hardware does, the rings refine the service [spec_step]: a rule of
    the hardware performs at most one step of it, a poll performs the callbacks of
    completed commands with the hardware's answers, and a sent command is added
    under a tag that is not in use, without overwriting a slot, a completion or an
    answer that is still needed.  No assertion of these functions fails.  This is from
    every state of the invariant in which no request for space is under way and fewer
    than 762 no-operations have been sent (they are never answered and keep their
    completions), as long as polling the portals succeeds.  A poll always returns.
    Sending waits for space as long as the hardware is not scheduled; it returns when
    every part of the hardware acts between two polls and at most 126 of the commands
    sent before are not announced yet. *)
Theorem rings_refine_service (fuel : nat) a g w :
  Inv sp a g w → query g = false → (nops a < 762)%nat →
  (∀ k w', hw_exec sp k w = Some w' →
     ∃ a' g', Inv sp a' g' w' ∧ (a' = a ∨ spec_step a a')) ∧
  wpf False (StatusPoll sp sched poll_rc) (λ _ w', ∃ a' g',
     Inv sp a' g' w' ∧ rtc spec_step a a') w ∧
  (∀ (nf : Prop) cmd fp ar, length cmd = 8%nat →
     (nf ∨ fair sched ∧ work g (hw w) + 1 < fuel ∧ sent g - publ g ≤ 126) →
     (∀ t : nat, (t < 1024)%nat →
        entry_ok sp a t (mkEntry (<[7%nat := Z.of_nat t]> cmd) fp ar false)) →
     wpf nf (ring_send sp sched poll_rc fuel CmdRing cmd fp ar) (λ _ w', ∃ a1 t g',
        rtc spec_step a a1 ∧ outst a1 !! t = None ∧ (1 ≤ t < 1024)%nat ∧
        Inv sp (spec_send t cmd fp ar a1) g' w') w).
Proof.
  intros HI Hq Hn. split; [|split].
  - intros k w' Hk. destruct (decide (k = HwGet)) as [->|Hne].
    + destruct (hw_get_post sp a g w HI w' Hk) as [? _]. exists a, g. auto.
    + destruct (hw_exec_post sp a g w HI k w' Hne Hk) as (a' & g' & ? & ? & _). by exists a', g'.
  - eapply wpf_mono; [by apply (StatusPoll_wp sp sched poll_rc False Hpoll a g)|].
    intros [] w' (a' & g' & (? & ? & _) & _). by exists a', g'.
  - intros nf cmd fp ar Hl Hnf Hok.
    eapply wpf_mono; [by apply (ring_send_wp sp sched poll_rc nf Hpoll fuel cmd fp ar a g w)|].
    intros [] w' (a' & g' & a1 & t & ? & ? & ? & -> & ? & _). by exists a1, t, g'.
Qed.

(** C25. Blocking commands, at a point where main may issue one (no request for space
    under way, fewer than 762 no-operations sent) and under a schedule that lets each
    part of the hardware act between two polls: [hw_echo] returns with the values it
    sent and reports nothing; [hw_copy] returns with the bytes copied, provided no
    other copy is outstanding, the copy is of whole words of 8 bytes, less than 2^16
    bytes in all, between word-aligned places inside the scratch memory, and the two
    places do not overlap. *)
Theorem blocking_commands (fuel : nat) a g w :
  rest sp a g w → fair sched → work g (hw w) + 11 < fuel →
  (∀ x y, wpf False (hw_echo sp sched poll_rc junk fuel x y) (λ _ w',
     printed (sw w') = printed (sw w) ∧
     ∃ ev, events (sw w') !! length (events (sw w)) = Some ev ∧
       got_a ev = u64 x ∧ got_b ev = u64 y) w) ∧
  (∀ from to count, no_copy a → copy_args from to count (scratchBuffer (mem w)) →
   wpf False (hw_copy sp sched poll_rc junk fuel from to count) (λ _ w',
     printed (sw w') = printed (sw w) ∧
     scratchBuffer (mem w') = copied from to count (scratchBuffer (mem w))) w).
Proof.
  intros Hr Hfair Hf. split.
  - intros x y. eapply wpf_mono; [apply (hw_echo_wp sp sched poll_rc junk False Hpoll fuel
      x y a g w Hr); by right|].
    intros [] w' (a' & g' & _ & ? & _ & _ & _ & _ & ev & ? & _ & ? & ?). eauto 10.
  - intros from to count Hnc Hargs.
    eapply wpf_mono; [apply (hw_copy_wp sp sched poll_rc junk False Hpoll Hsp fuel
      from to count a g w Hr Hnc Hargs); by right|].
    intros [] w' (a' & g' & _ & _ & ? & _ & _ & ?). auto.
Qed.
End Claims.

(** ** Witnesses *)
Definition all_steps : list hwstep :=
  [HwSet; HwSetCmdFirst; HwSetCmdLast; HwSetStatusFirst; HwSetStatusLast; HwGet;
   HwFetch; HwDispatch; HwAck; HwCopy; HwRespondCopy; HwRespondEcho].
Definition fresh_world (nevents nscratch : nat) : World :=
  mkWorld (mkSw (mkSWRing 0 CmdBuffer 0 0 0 0 0 0) (mkSWRing 0 StatusBuffer 0 0 0 0 0 0)
      (replicate 1024 (mkCompletion 0 0 None None)) [] 0 0 0 []
      (replicate nevents (mkEvent 0 0 0 0 0)) 0 [])
    (resting Hw.ring_reset Hw.ring_reset)
    (mkMem (replicate 1024 0) (replicate 1024 0) (replicate nscratch 0)) 0.

Lemma all_fair : fair (λ _, all_steps).
Proof. intros n k. apply list_elem_of_In. destruct k; simpl; tauto. Qed.
Lemma fresh_world_fresh n m : fresh (fresh_world n m).
Proof. split; try done. by apply Forall_replicate. Qed.

Definition ready_world : World :=
  mkWorld (set_ring_init_done 1 (set_setresult_flag 1 (set_status_ring
        (mkSWRing 2 StatusBuffer 0 0 8192 128 8128 1) (set_cmd_ring
          (mkSWRing 1 CmdBuffer 0 0 8192 128 8128 0)
          (set_completion (mkCompletion 0 0 None None ::
             ((λ t, mkCompletion t 0 None None) <$> seq 1 1023))
           (set_completionfreelist (seq 1 1023) (sw (fresh_world 4 512))))))))
      (set_hwenabled true (resting (configured 1 Hw.ring_reset)
        (configured 2 Hw.ring_reset))) (mem (fresh_world 4 512)) 8.
Lemma ready_world_inv : Inv 3 (spec0 (fresh_world 4 512)) ghost0 ready_world.
Proof.
  apply (ready_inv 3 1 2 _ 1 (fresh_world 4 512) 8); [apply fresh_world_fresh|done|].
  intros t Ht. rewrite lookup_cons_ne_0, list_lookup_fmap, lookup_seq_lt by lia.
  simpl. by replace (S (pred t)) with t by lia.
Qed.
Lemma ready_world_rest : rest 3 (spec0 (fresh_world 4 512)) ghost0 ready_world.
Proof.
  split; [apply ready_world_inv|done|done|].
  unfold nops. cbn [outst spec0]. rewrite map_filter_empty, map_size_empty. lia.
Qed.

Definition big_world : World := fresh_world (Z.to_nat 16384) (Z.to_nat 4096).

Lemma ring_program_passes_witness :
  wpf False (completion_list_init;;
      setup 3 (λ _, all_steps) (λ _, 0) (λ n, bool_decide (n < 3)%nat) (Z.to_nat 500000) 1 2;;
      tests 3 (λ _, all_steps) (λ _, 0) (λ _, 0) (λ _, (0, 0)) (Z.to_nat 500000))
    (λ _ w', printed (sw w') = printed (sw big_world)) big_world.
Proof.
  refine (ring_program_passes 3 (λ _, all_steps) (λ _, 0) (λ _, 0)
    (λ n, bool_decide (n < 3)%nat) (λ _, (0, 0))
    _ _ (Z.to_nat 500000) 1 2 big_world (fresh_world_fresh _ _) all_fair _ _ _).
  - intros _. lia.
  - lia.
  - lia.
  - unfold big_world. cbn [mem fresh_world scratchBuffer]. rewrite length_replicate. lia.
  - unfold big_world. cbn [sw fresh_world events]. rewrite length_replicate. lia.
Defined.

(** An echo under way: the command is sent and announced, nothing has answered yet. *)
Definition send_echo : M World () :=
  ring_send 3 (λ _, all_steps) (λ _, 0) 100 CmdRing (echo_cmd (λ _, 0) 0 0)
    (Some EchoFinish) (Some 0%nat);;
  STARTRING.
Definition sent_world : World := (send_echo ready_world).2.
Lemma spec_idle a a' : rtc spec_step a a' → outst a = ∅ → a' = a.
Proof.
  intros H Ho. inversion H as [|? a1 ? Hs _]; subst; [done|exfalso].
  destruct Hs as [t e Ht|t e Ht]; by rewrite Ho, lookup_empty in Ht.
Qed.
Lemma wpf_run {S A} nf (m : M S A) Q s x : wpf nf m Q s → (m s).1 = Done x → Q x (m s).2.
Proof. unfold wpf. destruct (m s) as [[]]; simpl; intros H E; by simplify_eq. Qed.

Lemma sent_world_rest : ∃ a t g, outst a = <[t := mkEntry (<[7%nat := Z.of_nat t]>
    (echo_cmd (λ _, 0) 0 0)) (Some EchoFinish) (Some 0%nat) false]> ∅ ∧
  s_events a = events (sw ready_world) ∧ rest 3 a g sent_world ∧
  work g (hw sent_world) ≤ 20.
Proof.
  assert (Hw0 : work ghost0 (hw ready_world) = 0) by (by vm_compute).
  pose proof (send_start_wp 3 (λ _, all_steps) (λ _, 0) False (λ _, Z.le_refl 0) 100
    (echo_cmd (λ _, 0) 0 0) (Some EchoFinish) (Some 0%nat) _ _ _ ready_world_rest) as H.
  eapply (wpf_run _ _ _ _ tt) in H as (a1 & t & g & Hr & _ & Hrest & _ & Hw);
    [|done| | | |by vm_compute].
  - apply spec_idle in Hr; [|done]. subst a1. exists (spec_send t (echo_cmd (λ _, 0) 0 0)
      (Some EchoFinish) (Some 0%nat) (spec0 (fresh_world 4 512))), t, g.
    split; [done|]. split; [done|]. split; [exact Hrest|]. unfold sent_world, send_echo. lia.
  - intros [_ He]. by apply He.
  - apply (echo_entry_ok 3 (λ _, 0) _ 0 (mkEvent 0 0 0 0 0)); done.
  - right. split; [apply all_fair|]. lia.
Qed.

Lemma rings_refine_service_witness : ∃ a g, outst a ≠ ∅ ∧ Inv 3 a g sent_world ∧
  (∃ w', hw_exec 3 HwSetCmdFirst sent_world = Some w' ∧
     ∃ a' g', Inv 3 a' g' w' ∧ (a' = a ∨ spec_step a a')) ∧
  wpf False (StatusPoll 3 (λ _, all_steps) (λ _, 0)) (λ _ w', ∃ a' g',
    Inv 3 a' g' w' ∧ rtc spec_step a a') sent_world ∧
  wpf False (ring_send 3 (λ _, all_steps) (λ _, 0) 100 CmdRing (echo_cmd (λ _, 0) 0 0)
      (Some EchoFinish) (Some 1%nat)) (λ _ w', ∃ a1 t g',
    rtc spec_step a a1 ∧ outst a1 !! t = None ∧ (1 ≤ t < 1024)%nat ∧
    Inv 3 (spec_send t (echo_cmd (λ _, 0) 0 0) (Some EchoFinish) (Some 1%nat) a1) g' w')
    sent_world.
Proof.
  destruct sent_world_rest as (a & t & g & Ho & He & [HI Hq Hp Hn] & Hw).
  exists a, g. destruct (rings_refine_service 3 (λ _, all_steps) (λ _, 0) (λ _, Z.le_refl 0)
    100 a g sent_world HI Hq Hn) as (Hstep & Hpoll & Hsend).
  split; [rewrite Ho; apply insert_non_empty|]. split; [done|]. split; [|split; [done|]].
  - eexists. split; [vm_compute; reflexivity|]. by apply (Hstep HwSetCmdFirst).
  - apply Hsend; [done| |].
    + right. split; [apply all_fair|]. lia.
    + apply (echo_entry_ok 3 (λ _, 0) a 1 (mkEvent 0 0 0 0 0)); [by rewrite He|done|done].
Defined.

Lemma demo_copy_args sc : length sc = 512%nat → copy_args 0 256 256 sc.
Proof. intros E. split; rewrite ?E; lia || done. Qed.

(** An echo, and a copy of 256 bytes while that echo is still under way. *)
Lemma blocking_commands_witness :
  wpf False (hw_echo 3 (λ _, all_steps) (λ _, 0) (λ _, 0) 100 5 7) (λ _ w',
    printed (sw w') = printed (sw sent_world) ∧
    ∃ ev, events (sw w') !! length (events (sw sent_world)) = Some ev ∧
      got_a ev = u64 5 ∧ got_b ev = u64 7) sent_world ∧
  wpf False (hw_copy 3 (λ _, all_steps) (λ _, 0) (λ _, 0) 100 0 256 256) (λ _ w',
    printed (sw w') = printed (sw sent_world) ∧
    scratchBuffer (mem w') = copied 0 256 256 (scratchBuffer (mem sent_world))) sent_world.
Proof.
  destruct sent_world_rest as (a & t & g & Ho & He & Hr & Hw).
  destruct (blocking_commands 3 (λ _, all_steps) (λ _, 0) (λ _, 0) (λ _, Z.le_refl 0)
    ltac:(lia) 100 a g sent_world Hr all_fair ltac:(lia)) as [Hecho Hcopy].
  split; [apply Hecho|]. apply Hcopy.
  - intros t' e. rewrite Ho. intros [[_ <-]|[_ H]]%lookup_insert_Some.
    + intros Hc. exact (echo_not_copy _ (echo_cmd_is (λ _, 0) 0 0 t) Hc).
    + by rewrite lookup_empty in H.
  - apply demo_copy_args. by vm_compute.
Defined.

(** The thread of start-up is not joined.  When it has found an answer in the status
    ring and main handles that answer before it, the thread reads a cleared slot as the
    answer of completion 0, which is never in use, and the program aborts. *)
Lemma stale_poller_aborts :
  ((hw_run 3 (λ _, all_steps);;
    msg ← ring_next StatusRing;
    StatusPoll 3 (λ _, all_steps) (λ _, 0);;
    match msg with Some m => Ring_Handle_Completion m | None => mret tt end)
   sent_world).1 = Aborted.
Proof. vm_compute. done. Qed.

(** The no-operation command leaks its completion: the engine never answers it, so
    that after 1023 of them, each delivered to an idle engine, the next command finds
    no free completion and the program aborts. *)
Lemma hw_nop_exhausts :
  let nop := hw_nop 3 (λ _, all_steps) (λ _, 0) (λ _, 0) 100 in
  let r := for_each (replicate 1023 tt) (λ _, nop) ready_world in
  r.1 = Done tt ∧ completionfreelist (sw r.2) = [] ∧ (nop r.2).1 = Aborted.
Proof. vm_compute. done. Qed.
