(* ===== verification/Dumppacket.v ===== *)
(** * The packet annotator (src/pcie/dumppacket.c)

    Reads the file the trace utility has written (XbsvUtil.v) and prints each
    packet with its direction and kind.  Characters are integers.  Lines whose
    time stamp is zero are skipped. *)
From stdpp Require Import base gmap numbers strings list.
From S2P Require Import Prelude TlpReplay XbsvUtil.
Local Open Scope Z_scope.

(** [pcie/dumppacket.c:13-13] LINE_LENGTH *)
Definition LINE_LENGTH : nat := 100.

(** What is printed. *)
Inductive dump_output :=
  | Bogus (ch : Z)
  | Packet (prefix : string) (seqno dataline : list Z).

(** [pcie/dumppacket.c:14-16] datap, and main's lineitem; [out] is what has been
    printed *)
Record dp_state := mkDp { datap : list Z; lineitem : list Z; out : list dump_output }.
Abbreviation D := (M dp_state).

Definition print (o : dump_output) : D () :=
  modify (λ s, mkDp (datap s) (lineitem s) (out s ++ [o])).

(** [pcie/dumppacket.c:18-34] gethex *)
Fixpoint gethex_from (ret : Z) (data : list Z) : D Z :=
  match data with
  | [] => mret ret
  | ch :: data =>
      let ret := s32 (Z.shiftl ret 4) in
      if bool_decide (48 ≤ ch ≤ 57) then gethex_from (Z.lor ret (ch - 48)) data
      else if bool_decide (97 ≤ ch ≤ 102) then gethex_from (Z.lor ret (ch - 97 + 10)) data
      else if bool_decide (65 ≤ ch ≤ 70) then gethex_from (Z.lor ret (ch - 65 + 10)) data
      else print (Bogus ch);; gethex_from ret data
  end.
Definition gethex (data : list Z) (len : nat) : D Z := gethex_from 0 (take len data).

(** [pcie/dumppacket.c:40-41] get_next_line: the inner loop.  A line that does not
    fit loses the character at which the buffer is full. *)
Fixpoint fill (rest : list Z) (bufp : nat) (buf : list Z) : list Z * nat * list Z :=
  match rest with
  | [] => ([], bufp, buf)
  | c :: rest =>
      if bool_decide (c = 10) then (rest, bufp, buf)
      else if bool_decide (bufp < LINE_LENGTH - 1)%nat
      then fill rest (S bufp) (<[bufp := c]> buf)
      else (rest, bufp, buf)
  end.

(** [pcie/dumppacket.c:35-47] get_next_line, on main's buffer *)
Fixpoint get_next_line (fuel : nat) : D nat :=
  match fuel with
  | O => no_fuel
  | S fuel =>
      s ← get;
      let '(rest, bufp, buf) := fill (datap s) 0 (lineitem s) in
      let buf := <[bufp := 0]> buf in
      put (mkDp rest buf (out s));;
      if bool_decide (nth 0 buf 0 ≠ 0) && bool_decide (take 8 buf ≠ replicate 8 48)
      then mret bufp
      else get_next_line fuel
  end.

(** The string at the start of an array, if it ends inside it. *)
Fixpoint cstr (l : list Z) : option (list Z) :=
  match l with
  | [] => None
  | c :: l => if bool_decide (c = 0) then Some [] else cons c <$> cstr l
  end.

(** [pcie/dumppacket.c:90-102] main: the kind and the direction *)
Definition packet_prefix (portnum tlpsof pkttype : Z) : string :=
  let foo := if bool_decide (tlpsof = 0) then "cc"
             else if bool_decide (pkttype = 10) then "pp" else "qq" in
  if bool_decide (portnum = 4) then "RX" +:+ foo
  else if bool_decide (portnum = 8) then "TX" +:+ foo else "____".

(** [pcie/dumppacket.c:81-103] main: one line *)
Definition dump_line (fuel : nat) : D () :=
  get_next_line fuel;;
  line ← gets lineitem;
  let seqno := take 8 line ++ [0] in
  let dataline := drop 8 line in
  p ← gethex dataline 2;
  let portnum := Z.shiftr p 1 in
  t ← gethex (drop 1 dataline) 1;
  let tlpsof := Z.land t 1 in
  k ← gethex (drop 8 dataline) 2;
  let pkttype := Z.land k 0x1f in
  match cstr seqno, cstr dataline with
  | Some a, Some b => print (Packet (packet_prefix portnum tlpsof pkttype) a b)
  | _, _ => undefined
  end.

(** [pcie/dumppacket.c:65-106] main: [file] is testdata.dat, if it can be opened,
    and [junk] the initial contents of [lineitem] *)
Fixpoint dump_lines (fuel : nat) : D () :=
  match fuel with
  | O => no_fuel
  | S n =>
      rest ← gets datap;
      match rest with
      | [] => mret tt
      | _ => dump_line fuel;; dump_lines n
      end
  end.
Definition dumppacket_main (fuel : nat) (file : option (list Z)) (junk : list Z)
    : outcome Z * list dump_output :=
  match file with
  | None => (Done (-1), [])
  | Some data =>
      let '(r, s) := (dump_lines fuel;; mret 0) (mkDp data junk []) in (r, out s)
  end.

(** ** The file the trace utility writes *)
Definition trace_file (ts : list (list Z)) : list Z := ts ≫= λ t, tlp_line t ++ [10].

(** What is to be printed for a packet [t0 .. t5] (lowest word first): the direction
    is in bits 25 to 31 of [t4], the start-of-packet flag in bit 24, and the kind in
    the top byte of [t3]. *)
Definition annotation (t : list Z) : option dump_output :=
  if bool_decide (nth 5 t 0 = 0) then None else
  Some (Packet (packet_prefix (nth 4 t 0 / 2 ^ 25) (nth 4 t 0 / 2 ^ 24 mod 2)
                  (nth 3 t 0 / 2 ^ 24 mod 32))
          (hex8 (nth 5 t 0)) (tlp_line (take 5 t))).

(** *** Hexadecimal digits *)
Definition hexch (c : Z) : Prop := 48 ≤ c ≤ 57 ∨ 97 ≤ c ≤ 102.
Lemma hex_digit_ch n : 0 ≤ n < 16 → hexch (hex_digit n).
Proof. intros. unfold hex_digit, hexch. case_bool_decide; lia. Qed.
Lemma hex8_ch v : Forall hexch (hex8 v).
Proof.
  unfold hex8, hex_bytes, be_bytes. cbn [mbind list_bind app].
  repeat (apply Forall_cons_2; [apply hex_digit_ch; unfold u8; div_lia|]). done.
Qed.
Lemma tlp_line_ch t : Forall hexch (tlp_line t).
Proof.
  unfold tlp_line. induction (reverse t) as [|v l IH]; [done|].
  rewrite bind_cons. apply Forall_app. auto using hex8_ch.
Qed.
Lemma tlp_line_length t : length (tlp_line t) = (8 * length t)%nat.
Proof.
  unfold tlp_line. rewrite <-(length_reverse t). induction (reverse t) as [|v l IH]; [done|].
  rewrite bind_cons, length_app, IH. simpl. lia.
Qed.

Lemma gethex_digit ret n l s : 0 ≤ n < 16 → 0 ≤ ret < 2 ^ 20 →
  gethex_from ret (hex_digit n :: l) s = gethex_from (16 * ret + n) l s.
Proof.
  intros Hn Hr. cbn [gethex_from]. rewrite shiftl_mul by lia. change (2 ^ 4) with 16.
  rewrite s32_small by lia.
  assert (E : Z.lor (ret * 16) n = 16 * ret + n).
  { change 16 with (2 ^ 4) at 1. rewrite <-shiftl_mul, lor_shiftl_add by lia. lia. }
  unfold hex_digit. destruct (decide (n < 10)).
  - rewrite (bool_decide_true (n < 10)), bool_decide_true by lia. by replace (48 + n - 48) with n by lia; rewrite E.
  - rewrite (bool_decide_false (n < 10)), bool_decide_false, bool_decide_true by lia.
    by replace (97 + (n - 10) - 97 + 10) with n by lia; rewrite E.
Qed.
Lemma hex8_zero v : 0 ≤ v < 2 ^ 32 → hex8 v = replicate 8 48 ↔ v = 0.
Proof.
  intros Hv. split; [|by intros ->]. unfold hex8, hex_bytes, be_bytes.
  cbn [mbind list_bind app replicate].
  assert (H : ∀ n, 0 ≤ n < 16 → hex_digit n = 48 → n = 0).
  { intros n ?. unfold hex_digit. case_bool_decide; lia. }
  rewrite !shiftr_div by lia. unfold u8. intros E. injection E as E1 E2 E3 E4 E5 E6 E7 E8.
  apply H in E1, E2, E3, E4, E5, E6, E7, E8; div_lia.
Qed.

(** *** Lines *)
Lemma fill_line l rest pre post : Forall (λ c, c ≠ 10) l →
  (length pre + length l ≤ 99)%nat → (length l ≤ length post)%nat →
  fill (l ++ 10 :: rest) (length pre) (pre ++ post) =
    (rest, (length pre + length l)%nat, pre ++ l ++ drop (length l) post).
Proof.
  intros Hl. revert pre post. induction Hl as [|c l Hc Hl IH]; intros pre post Hp Hq.
  - simpl. by rewrite Nat.add_0_r, drop_0.
  - simpl in Hp, Hq. destruct post as [|d post]; [simpl in Hq; lia|]. cbn [fill app].
    rewrite bool_decide_false by done. unfold LINE_LENGTH. rewrite bool_decide_true by lia.
    assert (<[length pre:=c]> (pre ++ d :: post) = (pre ++ [c]) ++ post) as ->.
    { rewrite insert_app_r_alt, Nat.sub_diag by lia. by rewrite <-(assoc_L (++)). }
    replace (S (length pre)) with (length (pre ++ [c])) by (rewrite length_app; simpl; lia).
    rewrite IH; rewrite ?length_app; simpl in *; try lia.
    rewrite <-(assoc_L (++)). do 2 f_equal. lia.
Qed.

Lemma cstr_app l r : Forall (λ c, c ≠ 0) l → cstr (l ++ 0 :: r) = Some l.
Proof. induction 1 as [|c l Hc Hl IH]; [done|]. simpl. by rewrite bool_decide_false, IH. Qed.

(** The buffer after a line has been read. *)
Definition line_buf (t buf : list Z) : list Z := tlp_line t ++ 0 :: drop 49 buf.

Lemma hexch_not l : Forall hexch l → Forall (λ c, c ≠ 10) l ∧ Forall (λ c, c ≠ 0) l.
Proof. intros H. split; eapply Forall_impl; try done; unfold hexch; simpl; lia. Qed.

Lemma packet_line t : packet_ok t → tlp_line t = hex8 (nth 5 t 0) ++ tlp_line (take 5 t) ∧
  tlp_line (take 5 t) = hex8 (nth 4 t 0) ++ hex8 (nth 3 t 0) ++ tlp_line (take 3 t).
Proof.
  intros [Hl _]. do 6 (destruct t as [|? t]; [done|]). by destruct t.
Qed.

Lemma packet_word t i : packet_ok t → 0 ≤ nth i t 0 < 2 ^ 32.
Proof.
  intros [_ H]. destruct (nth_in_or_default i t 0) as [Hi|E]; [|rewrite E; lia].
  rewrite Forall_forall in H. apply H. by apply list_elem_of_In.
Qed.

(** One turn of get_next_line on the next line of the file. *)
Lemma next_line_turn fuel t rest buf o : packet_ok t → length buf = LINE_LENGTH →
  get_next_line (S fuel) (mkDp (tlp_line t ++ 10 :: rest) buf o) =
    if bool_decide (nth 5 t 0 = 0) then get_next_line fuel (mkDp rest (line_buf t buf) o)
    else (Done 48%nat, mkDp rest (line_buf t buf) o).
Proof.
  intros Ht Hb. destruct (hexch_not _ (tlp_line_ch t)) as [H10 _].
  assert (Hl : length (tlp_line t) = 48%nat) by (rewrite tlp_line_length; by destruct Ht as [-> _]).
  cbn [get_next_line]. unfold mbind, M_bind, get, put. cbn [datap lineitem out].
  pose proof (fill_line (tlp_line t) rest [] buf H10) as E. simpl in E.
  unfold LINE_LENGTH in Hb. rewrite E by lia. clear E. rewrite Hl.
  assert (<[48%nat:=0]> (tlp_line t ++ drop 48 buf) = line_buf t buf) as ->.
  { rewrite insert_app_r_alt, Hl by lia. unfold line_buf. f_equal.
    destruct (drop 48 buf) eqn:Ed.
    - apply (f_equal length) in Ed. rewrite length_drop in Ed. simpl in Ed. lia.
    - simpl. f_equal. change 49%nat with (1 + 48)%nat. rewrite Nat.add_comm, <-drop_drop, Ed. done. }
  destruct (packet_line t Ht) as [E5 _]. unfold line_buf. rewrite E5.
  rewrite <-(assoc_L (++)), take_app_length' by done.
  rewrite (bool_decide_true (nth 0 _ 0 ≠ 0)).
  - rewrite andb_true_l. pose proof (hex8_zero _ (packet_word t 5 Ht)) as [Hz1 Hz2].
    repeat case_bool_decide; try done; tauto.
  - pose proof (hex8_ch (nth 5 t 0)) as Hx. unfold hex8, hex_bytes in *. simpl in *.
    apply Forall_cons in Hx as [Hx _]. unfold hexch in Hx. lia.
Qed.
Lemma next_line_nil fuel b buf o :
  get_next_line (S fuel) (mkDp [] (b :: buf) o) = get_next_line fuel (mkDp [] (0 :: buf) o).
Proof. reflexivity. Qed.

#[local] Arguments get_next_line : simpl never.
#[local] Arguments dump_line : simpl never.

Lemma line_buf_length t buf : packet_ok t → length buf = LINE_LENGTH →
  length (line_buf t buf) = LINE_LENGTH.
Proof.
  intros [Hl _] Hb. unfold line_buf, LINE_LENGTH in *. rewrite length_app, tlp_line_length, Hl.
  simpl. rewrite length_drop. lia.
Qed.

Lemma gethex_byte v l s : gethex (hex8 v ++ l) 2 s = (Done (u8 (Z.shiftr v 24)), s).
Proof.
  unfold gethex, hex8, hex_bytes, be_bytes. cbn [mbind list_bind app take].
  pose proof (u8_range (Z.shiftr v 24)).
  rewrite !gethex_digit by div_lia. cbn [gethex_from]. unfold mret, M_ret. do 2 f_equal. div_lia.
Qed.
Lemma gethex_nibble v l s :
  gethex (drop 1 (hex8 v ++ l)) 1 s = (Done (u8 (Z.shiftr v 24) mod 16), s).
Proof.
  unfold gethex, hex8, hex_bytes, be_bytes. cbn [mbind list_bind app take drop].
  by rewrite gethex_digit by div_lia.
Qed.

(** The rest of a turn of main. *)
Lemma dump_line_packet fuel t rest buf o s n : packet_ok t → nth 5 t 0 ≠ 0 →
  get_next_line fuel s = (Done n, mkDp rest (line_buf t buf) o) →
  dump_line fuel s = (Done tt, mkDp rest (line_buf t buf) (o ++ option_list (annotation t))).
Proof.
  intros Ht Hz Hn. unfold dump_line. rewrite (bind_Done _ _ _ _ _ Hn).
  rewrite (bind_Done (gets lineitem) _ (mkDp rest (line_buf t buf) o) _ _ eq_refl).
  cbn [lineitem]. cbv zeta.
  destruct (packet_line t Ht) as [E5 E43].
  assert (Hd : drop 8 (line_buf t buf) =
    hex8 (nth 4 t 0) ++ hex8 (nth 3 t 0) ++ tlp_line (take 3 t) ++ 0 :: drop 49 buf).
  { unfold line_buf. rewrite E5, <-(assoc_L (++)), drop_app_length' by done. by rewrite E43, <-!(assoc_L (++)). }
  rewrite Hd, (bind_Done _ _ _ _ _ (gethex_byte _ _ _)), (bind_Done _ _ _ _ _ (gethex_nibble _ _ _)).
  rewrite drop_app_length' by done. rewrite (bind_Done _ _ _ _ _ (gethex_byte _ _ _)).
  assert (Ht8 : take 8 (line_buf t buf) = hex8 (nth 5 t 0)).
  { unfold line_buf. by rewrite E5, <-(assoc_L (++)), take_app_length'. }
  rewrite Ht8, (cstr_app _ []) by apply hexch_not, hex8_ch.
  assert (cstr (hex8 (nth 4 t 0) ++ hex8 (nth 3 t 0) ++ tlp_line (take 3 t) ++ 0 :: drop 49 buf)
    = Some (tlp_line (take 5 t))) as ->.
  { rewrite E43, <-(cstr_app _ (drop 49 buf)) by (apply hexch_not, tlp_line_ch || rewrite <-E43;
      apply hexch_not, tlp_line_ch). by rewrite <-!(assoc_L (++)). }
  unfold annotation. rewrite bool_decide_false by done. unfold print, modify.
  pose proof (packet_word t 4 Ht). pose proof (packet_word t 3 Ht).
  assert (L5 : ∀ x, Z.land x 31 = x mod 32) by (intros; by apply (land_low_mod _ 5)).
  assert (L1 : ∀ x, Z.land x 1 = x mod 2) by (intros; by apply (land_low_mod _ 1)).
  rewrite L5, L1, !shiftr_div by lia. unfold u8. change (2 ^ 1) with 2.
  do 3 f_equal. unfold option_list. cbn [option_rect]. do 3 f_equal; div_lia.
Qed.

Lemma trace_file_app ts ts' : trace_file (ts ++ ts') = trace_file ts ++ trace_file ts'.
Proof. unfold trace_file. by rewrite bind_app. Qed.
Lemma trace_file_cons t ts : trace_file (t :: ts) = tlp_line t ++ 10 :: trace_file ts.
Proof. unfold trace_file. by rewrite bind_cons, <-(assoc_L (++)). Qed.
Lemma trace_file_nil ts : trace_file ts = [] → ts = [].
Proof. destruct ts as [|t ts]; [done|]. rewrite trace_file_cons. by destruct (tlp_line t). Qed.

(** Lines with a zero time stamp are skipped. *)
Lemma next_line_skip zs fuel t rest buf o :
  Forall packet_ok zs → Forall (λ z, nth 5 z 0 = 0) zs → packet_ok t → nth 5 t 0 ≠ 0 →
  length buf = LINE_LENGTH → (length zs < fuel)%nat →
  ∃ buf', length buf' = LINE_LENGTH ∧
    get_next_line fuel (mkDp (trace_file zs ++ tlp_line t ++ 10 :: rest) buf o) =
      (Done 48%nat, mkDp rest (line_buf t buf') o).
Proof.
  intros Hzs. revert fuel buf. induction Hzs as [|z zs Hz Hzs IH]; intros fuel buf H0 Ht Hn Hb Hf.
  - destruct fuel; [simpl in *; lia|]. exists buf. split; [done|]. simpl.
    rewrite next_line_turn by done. by rewrite bool_decide_false.
  - apply Forall_cons in H0 as [Hz0 H0]. destruct fuel; [simpl in *; lia|].
    simpl in Hf. destruct (IH fuel (line_buf z buf)) as (buf' & ? & E);
      auto using line_buf_length with lia.
    exists buf'. split; [done|]. rewrite trace_file_cons, <-(assoc_L (++)). cbn [app].
    rewrite next_line_turn by done. by rewrite bool_decide_true.
Qed.

(** A file whose last packet counts starts with packets to skip and one that counts. *)
Lemma split_counted ts t1 : last ts = Some t1 → nth 5 t1 0 ≠ 0 →
  ∃ zs t ts', ts = zs ++ t :: ts' ∧ Forall (λ z, nth 5 z 0 = 0) zs ∧ nth 5 t 0 ≠ 0 ∧
    (ts' = [] ∨ last ts' = Some t1).
Proof.
  induction ts as [|t ts IH]; [done|]. intros Hl Hn. destruct (decide (nth 5 t 0 = 0)).
  - destruct ts as [|u ts]; [simpl in Hl; congruence|].
    destruct (IH Hl Hn) as (zs & v & ts' & E & ? & ? & ?).
    exists (t :: zs), v, ts'. rewrite E. split_and!; try done. by constructor.
  - exists [], t, ts. split_and!; try done. destruct ts; [by left|by right].
Qed.
Lemma annotation_zeros zs : Forall (λ z, nth 5 z 0 = 0) zs → omap annotation zs = [].
Proof.
  induction 1 as [|z zs Hz _ IH]; [done|]. simpl. unfold annotation at 1.
  by rewrite bool_decide_true.
Qed.
Lemma dump_lines_packets n ts fuel buf o : (length ts ≤ n)%nat → Forall packet_ok ts →
  (∀ t, last ts = Some t → nth 5 t 0 ≠ 0) → length buf = LINE_LENGTH → (length ts < fuel)%nat →
  ∃ buf', dump_lines fuel (mkDp (trace_file ts) buf o) =
    (Done tt, mkDp [] buf' (o ++ omap annotation ts)).
Proof.
  revert ts fuel buf o. induction n as [|n IH]; intros ts fuel buf o Hn Hok Hlast Hb Hf.
  { destruct ts; [|simpl in Hn; lia]. destruct fuel; [simpl in *; lia|]. exists buf.
    simpl. by rewrite app_nil_r. }
  destruct (last ts) as [t1|] eqn:El.
  2:{ apply last_None in El as ->. destruct fuel; [simpl in *; lia|]. exists buf.
      simpl. by rewrite app_nil_r. }
  destruct (split_counted ts t1 El (Hlast _ eq_refl)) as (zs & t & ts' & -> & Hz & Ht & Hl').
  rewrite length_app in Hn, Hf. simpl in Hn, Hf. apply Forall_app in Hok as [Hoz [Ho1 Ho2]%Forall_cons].
  destruct fuel as [|fuel]; [lia|]. cbn [dump_lines].
  destruct (next_line_skip zs (S fuel) t (trace_file ts') buf o) as (buf1 & Hb1 & E); try done; [lia|].
  rewrite trace_file_app, trace_file_cons.
  unfold gets, mbind at 1, M_bind at 1. cbn [datap].
  destruct (trace_file zs ++ _) eqn:Ef.
  { apply app_eq_nil in Ef as [_ Ef]. by destruct (tlp_line t). }
  rewrite <-Ef in *. rewrite (bind_Done _ _ _ _ _ (dump_line_packet _ _ _ _ _ _ _ Ho1 Ht E)).
  destruct (IH ts' fuel (line_buf t buf1) (o ++ option_list (annotation t))) as [buf' ->];
    auto using line_buf_length with lia.
  { destruct Hl' as [-> | ->]; [done|]. intros ? [= <-]. by apply Hlast. }
  exists buf'. rewrite omap_app, (annotation_zeros zs) by done. cbn [app]. do 2 f_equal.
  rewrite <-(assoc_L (++)). f_equal. change (omap annotation (t :: ts')) with
    (match annotation t with Some x => x :: omap annotation ts' | None => omap annotation ts' end).
  by destruct (annotation t).
Qed.

(** C27. From hardware trace to annotation: when the trace utility has written packets
    the last of which has a time stamp, the annotator ends, and it prints, for each
    packet with a time stamp and in order, the direction, the kind and the words of
    that packet, whatever was in its line buffer. *)
Theorem dump_annotates (ts : list (list Z)) junk (fuel : nat) :
  Forall packet_ok ts → (∀ t, last ts = Some t → nth 5 t 0 ≠ 0) →
  length junk = LINE_LENGTH → (length ts < fuel)%nat →
  dumppacket_main fuel (Some (trace_file ts)) junk = (Done 0, omap annotation ts).
Proof.
  intros Hok Hl Hj Hf. unfold dumppacket_main.
  destruct (dump_lines_packets (length ts) ts fuel junk []) as [buf' E]; try done.
  by rewrite (bind_Done _ _ _ _ _ E).
Qed.

(** Only lines that are skipped are left: get_next_line never returns. *)
Lemma next_line_hangs fuel zs buf o : Forall packet_ok zs → Forall (λ z, nth 5 z 0 = 0) zs →
  length buf = LINE_LENGTH →
  (get_next_line fuel (mkDp (trace_file zs) buf o)).1 = OutOfFuel.
Proof.
  revert zs buf. induction fuel as [|fuel IH]; intros zs buf Hok Hz Hb; [done|].
  destruct zs as [|z zs].
  - change (trace_file []) with (@nil Z). destruct buf as [|b buf]; [done|].
    rewrite next_line_nil. apply (IH [] (0 :: buf)); done.
  - apply Forall_cons in Hok as [? ?], Hz as [? ?]. rewrite trace_file_cons, next_line_turn by done.
    rewrite bool_decide_true by done. apply IH; auto using line_buf_length.
Qed.
Lemma next_line_short fuel zs rest buf o : Forall packet_ok zs → Forall (λ z, nth 5 z 0 = 0) zs →
  length buf = LINE_LENGTH → (fuel ≤ length zs)%nat →
  (get_next_line fuel (mkDp (trace_file zs ++ rest) buf o)).1 = OutOfFuel.
Proof.
  revert zs buf. induction fuel as [|fuel IH]; intros zs buf Hok Hz Hb Hf; [done|].
  destruct zs as [|z zs]; [simpl in Hf; lia|]. simpl in Hf.
  apply Forall_cons in Hok as [? ?], Hz as [? ?]. rewrite trace_file_cons, <-(assoc_L (++)).
  cbn [app]. rewrite next_line_turn, bool_decide_true by done.
  apply IH; auto using line_buf_length with lia.
Qed.

Lemma bind_OutOfFuel {S A B} (m : M S A) (f : A → M S B) s :
  (m s).1 = OutOfFuel → ((m ≫= f) s).1 = OutOfFuel.
Proof. unfold mbind, M_bind. destruct (m s) as [[] ?]; naive_solver. Qed.

(** When the last packet of the file has no time stamp, the annotator never ends. *)
Lemma dump_hangs ts t fuel buf o : Forall packet_ok ts → last ts = Some t → nth 5 t 0 = 0 →
  length buf = LINE_LENGTH → (dump_lines fuel (mkDp (trace_file ts) buf o)).1 = OutOfFuel.
Proof.
  revert ts buf o. induction fuel as [|fuel IH]; intros ts buf o Hok Hl Hz Hb; [done|].
  cbn [dump_lines]. unfold gets, mbind at 1, M_bind at 1. cbn [datap].
  destruct (trace_file ts) eqn:Ef; [by rewrite (trace_file_nil _ Ef) in Hl|]. rewrite <-Ef.
  destruct (decide (Forall (λ z, nth 5 z 0 = 0) ts)) as [Ha|Hn].
  { apply bind_OutOfFuel. unfold dump_line. by apply bind_OutOfFuel, next_line_hangs. }
  assert (∃ zs u ts', ts = zs ++ u :: ts' ∧ Forall (λ z, nth 5 z 0 = 0) zs ∧ nth 5 u 0 ≠ 0)
    as (zs & u & ts' & -> & Hzs & Hu).
  { clear -Hn. induction ts as [|u ts IH]; [by destruct Hn|]. destruct (decide (nth 5 u 0 = 0)).
    - destruct IH as (zs & v & ts' & -> & ? & ?); [intros ?; apply Hn; by constructor|].
      exists (u :: zs), v, ts'. split; [done|]. split; [by constructor|done].
    - by exists [], u, ts. }
  apply Forall_app in Hok as [Hoz [Hou Hok]%Forall_cons].
  rewrite trace_file_app, trace_file_cons.
  destruct (decide (length zs < S fuel)%nat).
  - destruct (next_line_skip zs (S fuel) u (trace_file ts') buf o) as (buf1 & Hb1 & E); try done.
    rewrite (bind_Done _ _ _ _ _ (dump_line_packet _ _ _ _ _ _ _ Hou Hu E)).
    apply IH; auto using line_buf_length. rewrite last_app_cons in Hl.
    destruct ts' as [|v ts']; [simpl in Hl; congruence|done].
  - apply bind_OutOfFuel. unfold dump_line. apply bind_OutOfFuel, next_line_short; try done. lia.
Qed.

Lemma dump_annotates_witness :
  dumppacket_main 5 (Some (trace_file [[1; 2; 3; 0x4a000000; 0x09000000; 77]; [0; 0; 0; 0; 0; 0];
      [1; 2; 3; 4; 0x10000000; 78]])) (replicate 100 7) =
    (Done 0, omap annotation [[1; 2; 3; 0x4a000000; 0x09000000; 77]; [0; 0; 0; 0; 0; 0];
      [1; 2; 3; 4; 0x10000000; 78]]).
Proof.
  apply dump_annotates.
  - repeat (constructor; [by repeat constructor|]). constructor.
  - intros t [= <-]. done.
  - done.
  - simpl. lia.
Defined.

(** A trailing packet without a time stamp makes it run forever: no fuel suffices. *)
Example dump_hangs_zero fuel :
  (dumppacket_main fuel (Some (trace_file [[0; 0; 0; 0; 0; 0]])) (replicate 100 0)).1 = OutOfFuel.
Proof.
  unfold dumppacket_main.
  assert (H : (dump_lines fuel (mkDp (trace_file [[0; 0; 0; 0; 0; 0]])
    (replicate 100 0) [])).1 = OutOfFuel).
  { eapply dump_hangs; [|reflexivity|done|done]. constructor; [by repeat constructor|done]. }
  apply (bind_OutOfFuel _ (λ _, mret 0)) in H.
  by destruct ((dump_lines fuel;; mret 0) _) as [? ?].
Qed.
