(* ===== verification/Lcs.v ===== *)
(** * Longest common subsequences

    The problem the engine of examples/maxcommonsubseq solves, stated on lists:
    subsequences are stdpp's [sublist_of], [is_lcs] says that a list is a longest
    common one, [lcs] computes its length.  The lemmas are the ones the three
    algorithms rest on: the recurrence at the ends of two strings, reversal, and
    Hirschberg's split of one string. *)
From stdpp Require Import base list numbers.
From S2P Require Import Prelude.

Section Lcs.
Context {A : Type} `{EqDecision A}.
Implicit Types a b c d : list A.

Definition common c a b : Prop := c `sublist_of` a ∧ c `sublist_of` b.
Definition is_lcs c a b : Prop := common c a b ∧ ∀ d, common d a b → (length d ≤ length c)%nat.

Fixpoint lcs a b : nat :=
  match a with
  | [] => O
  | x :: a' =>
      (fix go b := match b with
       | [] => O
       | y :: b' => if decide (x = y) then S (lcs a' b') else Nat.max (go b') (lcs a' b)
       end) b
  end.

Lemma lcs_nil_r a : lcs a [] = O.
Proof. by destruct a. Qed.
Lemma lcs_cons x y a b : lcs (x :: a) (y :: b) =
  if decide (x = y) then S (lcs a b) else Nat.max (lcs (x :: a) b) (lcs a (y :: b)).
Proof. done. Qed.

Lemma common_nil a b : common [] a b.
Proof. split; apply sublist_nil_l. Qed.
Lemma common_cons x c a b : common c a b → common (x :: c) (x :: a) (x :: b).
Proof. intros [? ?]. by split; constructor. Qed.
Lemma common_sym c a b : common c a b → common c b a.
Proof. intros [? ?]. by split. Qed.
Lemma common_app c1 c2 a1 a2 b1 b2 :
  common c1 a1 b1 → common c2 a2 b2 → common (c1 ++ c2) (a1 ++ a2) (b1 ++ b2).
Proof. intros [? ?] [? ?]. split; by apply sublist_app. Qed.

(** The first characters differ: one of them is not used. *)
Lemma common_differ x y d a b : x ≠ y → common d (x :: a) (y :: b) →
  common d a (y :: b) ∨ common d (x :: a) b.
Proof.
  intros Hne [[?|(d1 & -> & ?)]%sublist_cons_r Hb]; [by left|right]. split.
  - by constructor.
  - apply sublist_cons_r in Hb as [?|(d2 & [= -> _] & _)]; [done|by destruct Hne].
Qed.

(** [lcs] is the length of a longest common subsequence. *)
Lemma lcs_attained a b : ∃ c, common c a b ∧ length c = lcs a b.
Proof.
  revert b; induction a as [|x a IHa]; intros b; [by exists []; auto using common_nil|].
  induction b as [|y b IHb]; [by exists []; auto using common_nil|].
  rewrite lcs_cons. destruct (decide (x = y)) as [->|Hne].
  - destruct (IHa b) as (c & ? & ?). exists (y :: c). split; [by apply common_cons|simpl; lia].
  - destruct (Nat.max_spec (lcs (x :: a) b) (lcs a (y :: b))) as [[? ->]|[? ->]].
    + destruct (IHa (y :: b)) as (c & [? ?] & ?). exists c. split; [|done].
      split; [by apply sublist_cons|done].
    + destruct IHb as (c & [? ?] & ?). exists c. split; [|done].
      split; [done|by apply sublist_cons].
Qed.
Lemma lcs_upper a b d : common d a b → (length d ≤ lcs a b)%nat.
Proof.
  revert b d; induction a as [|x a IHa]; intros b d.
  { intros [->%sublist_nil_r _]. done. }
  revert d; induction b as [|y b IHb]; intros d.
  { intros [_ ->%sublist_nil_r]. simpl. lia. }
  intros Hd. rewrite lcs_cons. destruct (decide (x = y)) as [->|Hne].
  - destruct d as [|z d]; [simpl; lia|]. simpl. apply le_n_S, IHa.
    destruct Hd as [Ha Hb]. apply sublist_cons_r in Ha, Hb.
    split; [destruct Ha as [Ha|(? & [= _ ->] & ?)]|destruct Hb as [Hb|(? & [= _ ->] & ?)]]; try done;
      [transitivity (z :: d)|transitivity (z :: d)]; try done; by constructor.
  - destruct (common_differ x y d a b Hne Hd) as [H|H]; [apply IHa in H|apply IHb in H]; lia.
Qed.

Lemma is_lcs_length c a b : is_lcs c a b ↔ common c a b ∧ length c = lcs a b.
Proof.
  split.
  - intros [Hc Hmax]. split; [done|]. destruct (lcs_attained a b) as (d & Hd & E).
    pose proof (lcs_upper _ _ _ Hc). pose proof (Hmax _ Hd). lia.
  - intros [Hc E]. split; [done|]. intros d Hd. rewrite E. by apply lcs_upper.
Qed.
(** The value is determined by what it is the maximum of. *)
Lemma lcs_unique a b n :
  (∃ c, common c a b ∧ length c = n) → (∀ d, common d a b → (length d ≤ n)%nat) → lcs a b = n.
Proof.
  intros (c & Hc & <-) Hmax. destruct (lcs_attained a b) as (d & Hd & E).
  pose proof (lcs_upper _ _ _ Hc). pose proof (Hmax _ Hd). lia.
Qed.

(** *** Reversal *)
Lemma common_reverse c a b : common c a b → common (reverse c) (reverse a) (reverse b).
Proof.
  assert (H : ∀ k l : list A, k `sublist_of` l → reverse k `sublist_of` reverse l).
  { induction 1; [done|rewrite !reverse_cons; by apply sublist_app|].
    rewrite reverse_cons. by apply sublist_inserts_r. }
  intros [? ?]. split; auto.
Qed.
Lemma lcs_reverse a b : lcs (reverse a) (reverse b) = lcs a b.
Proof.
  apply lcs_unique.
  - destruct (lcs_attained a b) as (c & ? & ?). exists (reverse c).
    rewrite length_reverse. by split; [apply common_reverse|].
  - intros d Hd%common_reverse. rewrite !reverse_involutive in Hd.
    rewrite <-(length_reverse d). by apply lcs_upper.
Qed.

(** The recurrence of algorithm A, at the ends of two prefixes. *)
Lemma lcs_snoc x y a b : lcs (a ++ [x]) (b ++ [y]) =
  if decide (x = y) then S (lcs a b) else Nat.max (lcs (a ++ [x]) b) (lcs a (b ++ [y])).
Proof.
  rewrite <-(lcs_reverse (a ++ [x]) (b ++ [y])), !reverse_snoc, lcs_cons.
  destruct (decide _).
  - by rewrite lcs_reverse.
  - by rewrite <-!reverse_snoc, !lcs_reverse.
Qed.

(** *** Hirschberg's split *)
Lemma lcs_app_le a1 a2 b1 b2 : (lcs a1 b1 + lcs a2 b2 ≤ lcs (a1 ++ a2) (b1 ++ b2))%nat.
Proof.
  destruct (lcs_attained a1 b1) as (c1 & H1 & <-), (lcs_attained a2 b2) as (c2 & H2 & <-).
  rewrite <-length_app. by apply lcs_upper, common_app.
Qed.
Lemma lcs_split a1 a2 b : ∃ j, (j ≤ length b)%nat ∧
  lcs (a1 ++ a2) b = (lcs a1 (take j b) + lcs a2 (drop j b))%nat.
Proof.
  destruct (lcs_attained (a1 ++ a2) b) as (c & [Ha Hb] & E).
  apply sublist_app_r in Ha as (c1 & c2 & -> & ? & ?).
  apply sublist_app_l in Hb as (b1 & b2 & -> & ? & ?). exists (length b1).
  rewrite take_app_length, drop_app_length. split; [rewrite length_app; lia|].
  pose proof (lcs_app_le a1 a2 b1 b2).
  assert (length c1 ≤ lcs a1 b1)%nat by (by apply lcs_upper; split).
  assert (length c2 ≤ lcs a2 b2)%nat by (by apply lcs_upper; split).
  rewrite length_app in E. lia.
Qed.

(** Where the sum is largest, longest common subsequences of the parts make one of
    the whole. *)
Lemma is_lcs_app c1 c2 a1 a2 b k :
  (∀ j, (j ≤ length b)%nat →
    (lcs a1 (take j b) + lcs a2 (drop j b) ≤ lcs a1 (take k b) + lcs a2 (drop k b))%nat) →
  is_lcs c1 a1 (take k b) → is_lcs c2 a2 (drop k b) → is_lcs (c1 ++ c2) (a1 ++ a2) b.
Proof.
  rewrite !is_lcs_length. intros Hk [Hc1 E1] [Hc2 E2]. split.
  - rewrite <-(take_drop k b). by apply common_app.
  - destruct (lcs_split a1 a2 b) as (j & Hj & E). specialize (Hk j Hj).
    pose proof (lcs_app_le a1 a2 (take k b) (drop k b)) as Hle. rewrite take_drop in Hle.
    rewrite length_app. lia.
Qed.

(** *** The base cases of algorithm C *)
Lemma is_lcs_nil_r a : is_lcs [] a [].
Proof. apply is_lcs_length. split; [apply common_nil|by rewrite lcs_nil_r]. Qed.
Lemma is_lcs_single x b : is_lcs (if decide (x ∈ b) then [x] else []) [x] b.
Proof.
  split.
  - destruct (decide (x ∈ b)) as [(b1 & b2 & ->)%list_elem_of_split|]; [|apply common_nil].
    split; [done|]. apply sublist_inserts_l. constructor. apply sublist_nil_l.
  - intros d [Hd Hb]. destruct (decide (x ∈ b)) as [|Hn].
    + by apply sublist_length in Hd.
    + apply sublist_cons_r in Hd as [->%sublist_nil_r|(d' & -> & _)]; [done|].
      destruct Hn. apply (elem_of_sublist (x :: d')); [left|done].
Qed.

Lemma lcs_le_r a b : (lcs a b ≤ length b)%nat.
Proof. destruct (lcs_attained a b) as (c & [_ H] & <-). by apply sublist_length. Qed.
End Lcs.
