(* ===== verification/Hirschberg.v ===== *)
(** * The common-subsequence engine (src/examples/maxcommonsubseq/Hirsch*.bsv)

    Hirschberg's three algorithms as hardware: A fills the whole table of lengths, B
    its last row in one row of memory, forwards or backwards, C finds a longest
    common subsequence by splitting the first string and calling B on both halves,
    with an explicit stack of frames.  The state machines are translated with their
    loops; a BRAM is a function from 14-bit addresses to its contents, which are
    unspecified after reset. *)
From stdpp Require Import base list numbers relations.
From S2P Require Import Prelude Lcs.
Local Open Scope Z_scope.

Definition Bram : Type := Z → Z.
Definition bput (a v : Z) (m : Bram) : Bram := λ x, if bool_decide (x = a) then v else m x.
(** Addresses and lengths are Bit#(14). *)
Definition o14 (x : Z) : Z := x mod 2 ^ 14.

Lemma bput_eq a v m : bput a v m a = v.
Proof. unfold bput. by rewrite bool_decide_true. Qed.
Lemma bput_ne a v m x : x ≠ a → bput a v m x = m x.
Proof. intros. unfold bput. by rewrite bool_decide_false. Qed.
Lemma o14_small x : 0 ≤ x < 2 ^ 14 → o14 x = x.
Proof. apply Z.mod_small. Qed.

(** ** Algorithm A *)
Section HirschA.
Context (strA strB : Bram) (aStartReg aLenReg bStartReg bLenReg : Z).

(** [examples/maxcommonsubseq/HirschA.bsv:69-87] the address [{i[6:0], j[6:0]}] *)
Definition cell (i j : Z) : Z := i mod 128 * 128 + j mod 128.

(** [examples/maxcommonsubseq/HirschA.bsv:47-54] hirschA: the first two loops *)
Definition hirschA_clear (matL : Bram) : Bram :=
  let matL := foldl (λ m ii, bput (cell ii 0) 0 m) matL (seqZ 0 aLenReg) in
  foldl (λ m ii, bput (cell 0 ii) 0 m) matL (seqZ 0 aLenReg).

(** [examples/maxcommonsubseq/HirschA.bsv:57-90] hirschA: one step of the inner loop *)
Definition hirschA_cell (ii : Z) (matL : Bram) (jj : Z) : Bram :=
  let aData := strA (o14 (aStartReg + ii - 1)) in
  let bData := strB (o14 (bStartReg + jj - 1)) in
  if bool_decide (aData = bData)
  then bput (cell ii jj) (u16 (matL (cell (ii - 1) (jj - 1)) + 1)) matL
  else bput (cell ii jj) (Z.max (matL (cell ii (jj - 1))) (matL (cell (ii - 1) jj))) matL.

(** [examples/maxcommonsubseq/HirschA.bsv:44-91] hirschA *)
Definition hirschA (matL : Bram) : Bram :=
  foldl (λ m ii, foldl (hirschA_cell ii) m (seqZ 1 bLenReg))
    (hirschA_clear matL) (seqZ 1 aLenReg).

(** [examples/maxcommonsubseq/HirschA.bsv:108-110] result *)
Definition hirschA_result : Z := o14 (aLenReg * bLenReg).
End HirschA.

(** ** Algorithm B *)
Section HirschB.
Context (strA strB : Bram) (dir : bool).
Context (aStartReg aLenReg bStartReg bLenReg rStartReg : Z).

(** [examples/maxcommonsubseq/HirschB.bsv:80-132] hirschB: the characters of a row and
    of a column, [ii] and [jj] counted from 1 *)
Definition charA (ii : Z) : Z :=
  strA (o14 (if dir then aStartReg + ii - 1 else aStartReg + aLenReg - ii)).
Definition charB (jj : Z) : Z :=
  strB (o14 (if dir then bStartReg + (jj - 1) else bStartReg + bLenReg - jj)).

(** [examples/maxcommonsubseq/HirschB.bsv:108-141] hirschB: one step of the inner loop,
    on the registers k0j and k1j and the memory *)
Definition hirschB_step (aData : Z) (s : Z * Z * Bram) (jj : Z) : Z * Z * Bram :=
  let '(k0j, k1j, matL) := s in
  let tk := matL (o14 (rStartReg + jj)) in
  let k0jm1 := k0j in
  let k1jm1 := k1j in
  let matL := bput (o14 (rStartReg + (jj - 1))) k1j matL in
  let tmp := if bool_decide (aData = charB jj) then u16 (k0jm1 + 1) else Z.max tk k1jm1 in
  (tk, tmp, matL).

(** [examples/maxcommonsubseq/HirschB.bsv:74-148] hirschB: one row *)
Definition hirschB_row (matL : Bram) (ii : Z) : Bram :=
  let '(_, k1j, matL) := foldl (hirschB_step (charA ii)) (0, 0, matL) (seqZ 1 bLenReg) in
  bput (o14 (rStartReg + bLenReg)) k1j matL.

(** [examples/maxcommonsubseq/HirschB.bsv:62-149] hirschB *)
Definition hirschB (matL : Bram) : Bram :=
  let matL := foldl (λ m jj, bput (o14 (rStartReg + jj)) 0 m) matL (seqZ 0 (bLenReg + 1)) in
  foldl hirschB_row matL (seqZ 1 aLenReg).

(** [examples/maxcommonsubseq/HirschB.bsv:167-169] result *)
Definition hirschB_result : Z := bLenReg.
End HirschB.

(** ** Facts on loops and tables *)
Lemma foldl_seqZ {T} (I : Z → T → Prop) (f : T → Z → T) m n s : 0 ≤ n →
  I m s → (∀ k s, m ≤ k < m + n → I k s → I (k + 1) (f s k)) →
  I (m + n) (foldl f s (seqZ m n)).
Proof.
  intros Hn. replace n with (Z.of_nat (Z.to_nat n)) by lia. generalize (Z.to_nat n). clear n Hn.
  intros n. revert m s. induction n as [|n IH]; intros m s H0 Hs.
  - rewrite Z.add_0_r. done.
  - rewrite seqZ_cons by lia. cbn [foldl].
    replace (Z.pred (S n)) with (Z.of_nat n) by lia.
    replace (m + S n) with (Z.succ m + n) by lia. apply IH.
    + apply Hs; [lia|done].
    + intros k s' Hk. apply Hs. lia.
Qed.

(** The characters [f 1 .. f n]. *)
Definition chars (f : Z → Z) (n : Z) : list Z := f <$> seqZ 1 n.
Lemma chars_S f n : 0 ≤ n → chars f (n + 1) = chars f n ++ [f (n + 1)].
Proof.
  intros. unfold chars. rewrite seqZ_app by lia. rewrite fmap_app. f_equal.
  simpl. do 2 f_equal. lia.
Qed.
Lemma length_chars f n : length (chars f n) = Z.to_nat n.
Proof. unfold chars. by rewrite length_fmap, length_seqZ. Qed.

(** The table of lengths: row [i], column [j]. *)
Definition table (f g : Z → Z) (i j : Z) : Z := lcs (chars f i) (chars g j).
Section Table.
Context (f g : Z → Z).
Lemma table_range i j : 0 ≤ j → 0 ≤ table f g i j ≤ j.
Proof.
  intros. unfold table. pose proof (lcs_le_r (chars f i) (chars g j)) as H1.
  rewrite length_chars in H1. lia.
Qed.
Lemma table_0_l j : table f g 0 j = 0.
Proof. done. Qed.
Lemma table_0_r i : table f g i 0 = 0.
Proof. unfold table. change (chars g 0) with (@nil Z). by rewrite lcs_nil_r. Qed.
Lemma table_S i j : 1 ≤ i → 1 ≤ j → table f g i j =
  if bool_decide (f i = g j) then table f g (i - 1) (j - 1) + 1
  else Z.max (table f g i (j - 1)) (table f g (i - 1) j).
Proof.
  intros Hi Hj. unfold table.
  assert (Ef : chars f i = chars f (i - 1) ++ [f i]).
  { rewrite <-(Z.sub_add 1 i) at 1 3. by rewrite chars_S by lia. }
  assert (Eg : chars g j = chars g (j - 1) ++ [g j]).
  { rewrite <-(Z.sub_add 1 j) at 1 3. by rewrite chars_S by lia. }
  rewrite Ef, Eg, lcs_snoc. case_bool_decide; [rewrite decide_True by done|rewrite decide_False by done]; lia.
Qed.
End Table.

(** ** Algorithm A is correct *)
Section HirschAFacts.
Context (strA strB : Bram) (aStartReg aLenReg bStartReg bLenReg : Z).
Context (HA : 0 ≤ aLenReg < 128) (HB : 0 ≤ bLenReg < 128).
Abbreviation fA := (λ i, strA (o14 (aStartReg + i - 1))).
Abbreviation fB := (λ j, strB (o14 (bStartReg + j - 1))).
Abbreviation T := (table fA fB).

Lemma cell_inj i j i' j' : 0 ≤ i < 128 → 0 ≤ j < 128 → 0 ≤ i' < 128 → 0 ≤ j' < 128 →
  cell i j = cell i' j' → i = i' ∧ j = j'.
Proof. intros. unfold cell in *. rewrite !Z.mod_small in * by lia. lia. Qed.

(** What the first two loops clear. *)
Lemma hirschA_clear_spec matL : bLenReg < aLenReg →
  (∀ i, 0 ≤ i < aLenReg → hirschA_clear aLenReg matL (cell i 0) = 0) ∧
  (∀ j, 0 ≤ j ≤ bLenReg → hirschA_clear aLenReg matL (cell 0 j) = 0) ∧
  hirschA_clear aLenReg matL (cell aLenReg 0) = matL (cell aLenReg 0).
Proof.
  intros Hlt. unfold hirschA_clear.
  set (m1 := foldl _ matL _).
  assert (H1 : (∀ i, 0 ≤ i < 0 + aLenReg → m1 (cell i 0) = 0) ∧
    m1 (cell aLenReg 0) = matL (cell aLenReg 0)).
  { unfold m1. apply (foldl_seqZ (λ k m, (∀ i, 0 ≤ i < k → m (cell i 0) = 0) ∧
      m (cell aLenReg 0) = matL (cell aLenReg 0))); [lia|split; [lia|done]|].
    intros k m Hk [IH1 IH2]. split.
    - intros i Hi. destruct (decide (i = k)) as [->|]; [apply bput_eq|].
      rewrite bput_ne; [apply IH1; lia|]. intros [? _]%cell_inj; lia.
    - rewrite bput_ne; [done|]. intros [? _]%cell_inj; lia. }
  destruct H1 as [H1 H2].
  match goal with |- context [foldl ?f m1 ?l] => set (m2 := foldl f m1 l) end.
  assert (H3 : (∀ j, 0 ≤ j < 0 + aLenReg → m2 (cell 0 j) = 0) ∧
    (∀ i, 0 ≤ i < aLenReg → m2 (cell i 0) = 0) ∧ m2 (cell aLenReg 0) = matL (cell aLenReg 0)).
  { unfold m2. apply (foldl_seqZ (λ k m, (∀ j, 0 ≤ j < k → m (cell 0 j) = 0) ∧
      (∀ i, 0 ≤ i < aLenReg → m (cell i 0) = 0) ∧ m (cell aLenReg 0) = matL (cell aLenReg 0)));
      [lia|split; [lia|split; [intros; apply H1; lia|done]]|].
    intros k m Hk (IH1 & IH2 & IH3). split; [|split].
    - intros j Hj. destruct (decide (j = k)) as [->|]; [apply bput_eq|].
      rewrite bput_ne; [apply IH1; lia|]. intros [_ ?]%cell_inj; lia.
    - intros i Hi. destruct (decide (i = 0 ∧ k = 0)) as [[-> ->]|]; [apply bput_eq|].
      rewrite bput_ne; [by apply IH2|]. intros [? ?]%cell_inj; lia.
    - rewrite bput_ne; [done|]. intros [? ?]%cell_inj; lia. }
  destruct H3 as (H3 & H4 & H5). split; [done|]. split; [|done]. intros j Hj. apply H3. lia.
Qed.

(** A row changes only its own cells, and continues a correct table. *)
Lemma hirschA_row_frame k m i j : 1 ≤ k < 128 → 0 ≤ i < 128 → 0 ≤ j < 128 → (i ≠ k ∨ j = 0) →
  foldl (hirschA_cell strA strB aStartReg bStartReg k) m (seqZ 1 bLenReg) (cell i j) =
    m (cell i j).
Proof.
  intros Hk Hi Hj Hne.
  apply (foldl_seqZ (λ _ m', m' (cell i j) = m (cell i j))); [lia|done|].
  intros jj m' Hjj <-. unfold hirschA_cell.
  case_bool_decide; rewrite bput_ne; try done; intros [? ?]%cell_inj; lia.
Qed.
Lemma hirschA_row_spec k m : 1 ≤ k < 128 →
  (∀ j, 0 ≤ j ≤ bLenReg → m (cell (k - 1) j) = T (k - 1) j) → m (cell k 0) = 0 →
  ∀ j, 0 ≤ j ≤ bLenReg →
  foldl (hirschA_cell strA strB aStartReg bStartReg k) m (seqZ 1 bLenReg) (cell k j) = T k j.
Proof.
  intros Hk Hrow H0.
  set (I := λ (jj : Z) (m' : Bram), (∀ j, 0 ≤ j < jj → m' (cell k j) = T k j) ∧
    ∀ j, 0 ≤ j ≤ bLenReg → m' (cell (k - 1) j) = T (k - 1) j).
  assert (H : I (1 + bLenReg)
    (foldl (hirschA_cell strA strB aStartReg bStartReg k) m (seqZ 1 bLenReg))).
  2:{ intros j Hj. apply H. lia. }
  apply foldl_seqZ; [lia| |].
  { split; [|done]. intros j Hj. replace j with 0 by lia. by rewrite H0, table_0_r. }
  intros jj m' Hjj [IH1 IH2]. unfold hirschA_cell.
  assert (E : ∀ v, v = T k jj → I (jj + 1) (bput (cell k jj) v m')).
  { intros v ->. split; intros j Hj.
    - destruct (decide (j = jj)) as [->|]; [apply bput_eq|].
      rewrite bput_ne; [apply IH1; lia|]. intros [_ ?]%cell_inj; lia.
    - rewrite bput_ne; [by apply IH2|]. intros [? _]%cell_inj; lia. }
  pose proof (table_S fA fB k jj) as Et. pose proof (table_range fA fB (k - 1) (jj - 1)).
  rewrite (IH1 (jj - 1)), (IH2 (jj - 1)), (IH2 jj) by lia.
  case_bool_decide; apply E; rewrite Et by lia.
  - rewrite bool_decide_true by done. unfold u16. rewrite Z.mod_small; lia.
  - by rewrite bool_decide_false.
Qed.

(** The table is right where the loops have cleared its border: everywhere but in the
    last row, which needs its first cell to be zero to begin with. *)
Lemma hirschA_spec matL i j : bLenReg < aLenReg → 0 ≤ i ≤ aLenReg → 0 ≤ j ≤ bLenReg →
  (i < aLenReg ∨ matL (cell aLenReg 0) = 0) →
  hirschA strA strB aStartReg aLenReg bStartReg bLenReg matL (cell i j) = T i j.
Proof.
  intros Hlt Hi Hj Hz. destruct (hirschA_clear_spec matL Hlt) as (Hc & Hr & Hl).
  set (I := λ (k : Z) (m : Bram),
    (∀ i, 0 ≤ i < k → i < aLenReg ∨ matL (cell aLenReg 0) = 0 →
      ∀ j, 0 ≤ j ≤ bLenReg → m (cell i j) = T i j) ∧
    (∀ i, k ≤ i ≤ aLenReg → i < aLenReg ∨ matL (cell aLenReg 0) = 0 → m (cell i 0) = 0)).
  assert (H : I (1 + aLenReg) (hirschA strA strB aStartReg aLenReg bStartReg bLenReg matL)).
  2:{ apply H; [lia|done|done]. }
  unfold hirschA. apply foldl_seqZ; [lia| |].
  { split.
    - intros i' Hi' _ j' Hj'. replace i' with 0 by lia. rewrite table_0_l. by apply Hr.
    - intros i' Hi' Hz'. destruct (decide (i' = aLenReg)) as [->|]; [|apply Hc; lia].
      rewrite Hl. destruct Hz'; [lia|done]. }
  intros k m Hk [IH1 IH2]. split.
  - intros i' Hi' Hz' j' Hj'. destruct (decide (i' = k)) as [->|].
    + apply hirschA_row_spec; [lia| |apply IH2; [lia|done]|done].
      intros j1 Hj1. apply IH1; [lia|left; lia|done].
    + rewrite hirschA_row_frame by lia. apply IH1; [lia|done|done].
  - intros i' Hi' Hz'. rewrite hirschA_row_frame by lia. apply IH2; [lia|done].
Qed.
End HirschAFacts.

(** ** Algorithm B is correct *)
Section HirschBFacts.
Context (strA strB : Bram) (dir : bool).
Context (aStartReg aLenReg bStartReg bLenReg rStartReg : Z).
Context (HA : 0 ≤ aLenReg) (HB : 0 ≤ bLenReg) (HR : 0 ≤ rStartReg)
  (HRB : rStartReg + bLenReg < 2 ^ 14).
Abbreviation fA := (charA strA dir aStartReg aLenReg).
Abbreviation fB := (charB strB dir bStartReg bLenReg).
Abbreviation T := (table fA fB).
Abbreviation step := (hirschB_step strB dir bStartReg bLenReg rStartReg).

(** In row [i], before column [jj]: the columns up to [jj - 2] are new. *)
Definition row_inv (i jj : Z) (s : Z * Z * Bram) : Prop :=
  let '(k0j, k1j, m) := s in
  k0j = T (i - 1) (jj - 1) ∧ k1j = T i (jj - 1) ∧
  (∀ j, 0 ≤ j < jj - 1 → m (rStartReg + j) = T i j) ∧
  (∀ j, jj - 1 ≤ j ≤ bLenReg → m (rStartReg + j) = T (i - 1) j).

Lemma hirschB_step_spec i jj s : 1 ≤ i → 1 ≤ jj ≤ bLenReg → row_inv i jj s →
  row_inv i (jj + 1) (step (fA i) s jj).
Proof.
  intros Hi Hjj. destruct s as [[k0j k1j] m]. intros (-> & -> & Hnew & Hold).
  unfold hirschB_step, row_inv. rewrite !o14_small by lia.
  replace (jj + 1 - 1) with jj by lia.
  pose proof (table_range fA fB (i - 1) (jj - 1)).
  split; [apply Hold; lia|]. split; [|split].
  - rewrite (table_S fA fB i jj), (Hold jj) by lia. case_bool_decide; [|lia].
    unfold u16. rewrite Z.mod_small; lia.
  - intros j Hj. destruct (decide (j = jj - 1)) as [->|]; [by rewrite bput_eq|].
    rewrite bput_ne by lia. apply Hnew. lia.
  - intros j Hj. rewrite bput_ne by lia. apply Hold. lia.
Qed.

Lemma hirschB_row_spec i m : 1 ≤ i →
  (∀ j, 0 ≤ j ≤ bLenReg → m (rStartReg + j) = T (i - 1) j) →
  ∀ j, 0 ≤ j ≤ bLenReg →
  hirschB_row strA strB dir aStartReg aLenReg bStartReg bLenReg rStartReg m i (rStartReg + j) = T i j.
Proof.
  intros Hi Hm. unfold hirschB_row.
  assert (H : row_inv i (1 + bLenReg) (foldl (step (fA i)) (0, 0, m) (seqZ 1 bLenReg))).
  { apply foldl_seqZ; [done| |].
    - split_and!; [by rewrite table_0_r|by rewrite table_0_r|lia|]. intros j Hj. apply Hm. lia.
    - intros k s Hk Hs. apply hirschB_step_spec; [done|lia|done]. }
  destruct (foldl _ _ _) as [[k0j k1j] m']. destruct H as (_ & -> & Hnew & _).
  intros j Hj. rewrite o14_small by lia. replace (1 + bLenReg - 1) with bLenReg in * by lia.
  destruct (decide (j = bLenReg)) as [->|]; [apply bput_eq|].
  rewrite bput_ne by lia. apply Hnew. lia.
Qed.

(** The row in memory is the last row of the table. *)
Lemma hirschB_spec m j : 0 ≤ j ≤ bLenReg →
  hirschB strA strB dir aStartReg aLenReg bStartReg bLenReg rStartReg m (rStartReg + j) =
    T aLenReg j.
Proof.
  intros Hj. unfold hirschB. set (m0 := foldl _ m _).
  assert (H0 : ∀ j, 0 ≤ j < 0 + (bLenReg + 1) → m0 (rStartReg + j) = 0).
  { unfold m0. apply (foldl_seqZ (λ k m', ∀ j, 0 ≤ j < k → m' (rStartReg + j) = 0)); [lia|lia|].
    intros k m' Hk IH j' Hj'. rewrite o14_small by lia.
    destruct (decide (j' = k)) as [->|]; [apply bput_eq|]. rewrite bput_ne by lia. apply IH. lia. }
  set (I := λ (k : Z) (m' : Bram), ∀ j, 0 ≤ j ≤ bLenReg → m' (rStartReg + j) = T (k - 1) j).
  assert (H : I (1 + aLenReg) (foldl (hirschB_row strA strB dir aStartReg aLenReg bStartReg
    bLenReg rStartReg) m0 (seqZ 1 aLenReg))).
  { apply foldl_seqZ; [done| |].
    - intros j' Hj'. rewrite H0 by lia. by rewrite table_0_l.
    - intros k m' Hk IH. unfold I. replace (k + 1 - 1) with k by lia.
      by apply hirschB_row_spec; [lia|]. }
  specialize (H j Hj). by replace (1 + aLenReg - 1) with aLenReg in H by lia.
Qed.
End HirschBFacts.

(** ** Algorithm C *)

(** [examples/maxcommonsubseq/HirschC.bsv:29-34] CArgs *)
Record CArgs := mkArgs { aStart : Z; bStart : Z; aLen : Z; bLen : Z }.
(** [examples/maxcommonsubseq/HirschC.bsv:36-39] CVars *)
Record CVars := mkVars { midi : Z; maxj : Z }.
(** [examples/maxcommonsubseq/HirschC.bsv:41-42] HCState *)
Inductive HCState := HCSIdle | HCS1 | HCS2 | HCS3 | HCS4 | HCS5 | HCS6 | HCSComplete.
#[export] Instance HCState_eq_dec : EqDecision HCState.
Proof. solve_decision. Defined.

(** [lib/bsv/StackReg.bsv:50-62] mkStackReg: the top of the stack and what is below *)
Record Frame := mkFrame { pc : HCState; args : CArgs; vars : CVars }.
(** [examples/maxcommonsubseq/HirschC.bsv:59-73] mkHirschC: its registers and the memories
    of the result and of the two instances of algorithm B *)
Record CState := mkC {
  fr : Frame; frames : list Frame; outcounter : Z; c_matL : Bram; l0 : Bram; l1 : Bram }.

Definition set_fr f s := mkC f (frames s) (outcounter s) (c_matL s) (l0 s) (l1 s).

(** [lib/bsv/StackReg.bsv:118-140] docall *)
Definition docall (jumpto returnto : HCState) (a : CArgs) (v : CVars) (s : CState) : CState :=
  mkC (mkFrame jumpto a v) (mkFrame returnto (args (fr s)) v :: frames s)
    (outcounter s) (c_matL s) (l0 s) (l1 s).
(** [lib/bsv/StackReg.bsv:142-162] doreturn *)
Definition doreturn (s : CState) : CState :=
  match frames s with
  | [] => s
  | f :: fs => mkC f fs (outcounter s) (c_matL s) (l0 s) (l1 s)
  end.
(** [lib/bsv/StackReg.bsv:164-166] nextpc *)
Definition nextpc (jumpto : HCState) (s : CState) : CState :=
  set_fr (mkFrame jumpto (args (fr s)) (vars (fr s))) s.

Section HirschC.
Context (strA strB : Bram).

(** [examples/maxcommonsubseq/HirschC.bsv:81-107] hirschC2Stmt: search the first
    character of A in B *)
Definition hirschC2 (s : CState) : CState :=
  let a := args (fr s) in
  let aData := strA (o14 (aStart a)) in
  let found := existsb (λ jj, bool_decide (aData = strB (o14 (bStart a + jj))))
                 (seqZ 0 (bLen a)) in
  doreturn (if found
    then mkC (fr s) (frames s) (o14 (outcounter s + 1)) (bput (outcounter s) aData (c_matL s))
           (l0 s) (l1 s)
    else s).

(** [examples/maxcommonsubseq/HirschC.bsv:112-133] hc1; the two instances of algorithm B run
    to their end before hc3 fires *)
Definition hc1 (s : CState) : CState :=
  let a := args (fr s) in
  if bool_decide (bLen a = 0) then doreturn s
  else if bool_decide (aLen a = 1) then nextpc HCS2 s
  else
    let m := Z.shiftr (aLen a) 1 in
    mkC (mkFrame HCS3 a (mkVars m (maxj (vars (fr s))))) (frames s) (outcounter s) (c_matL s)
      (hirschB strA strB true (aStart a) m (bStart a) (bLen a) 0 (l0 s))
      (hirschB strA strB false (o14 (aStart a + m)) (o14 (aLen a - m)) (bStart a) (bLen a) 0
         (l1 s)).

(** [examples/maxcommonsubseq/HirschC.bsv:136-159] hirschC4Stmt: the largest sum, and the
    call on the first halves *)
Definition hirschC4_max (b : Z) (s : CState) : Z * Z :=
  foldl (λ '(maxjvalue, mj) jj,
      let t := u16 (l0 s jj + l1 s (o14 (b - jj))) in
      if bool_decide (maxjvalue < t) then (t, jj) else (maxjvalue, mj))
    (0, 0) (seqZ 0 (b + 1)).
Definition hirschC4 (s : CState) : CState :=
  let a := args (fr s) in
  let v := mkVars (midi (vars (fr s))) (hirschC4_max (bLen a) s).2 in
  docall HCS1 HCS5 (mkArgs (aStart a) (bStart a) (midi v) (maxj v)) v s.

(** [examples/maxcommonsubseq/HirschC.bsv:169-174] hc5: the call on the second halves *)
Definition hc5 (s : CState) : CState :=
  let a := args (fr s) in
  let v := vars (fr s) in
  docall HCS1 HCS6
    (mkArgs (o14 (aStart a + midi v)) (o14 (bStart a + maxj v))
       (o14 (aLen a - midi v)) (o14 (bLen a - maxj v))) v s.

(** [examples/maxcommonsubseq/HirschC.bsv:112-184] the rules *)
Definition hc_step (s : CState) : option CState :=
  match pc (fr s) with
  | HCSIdle => None
  | HCS1 => Some (hc1 s)
  | HCS2 => Some (hirschC2 s)
  | HCS3 => Some (nextpc HCS4 s)
  | HCS4 => Some (hirschC4 s)
  | HCS5 => Some (hc5 s)
  | HCS6 => Some (doreturn s)
  | HCSComplete => Some (nextpc HCSIdle s)
  end.
Fixpoint hc_run (fuel : nat) (s : CState) : option CState :=
  match fuel with
  | O => None
  | S fuel => match hc_step s with None => Some s | Some s' => hc_run fuel s' end
  end.

(** [examples/maxcommonsubseq/HirschC.bsv:208-212] start *)
Definition hirschC_start (aLenReg bLenReg : Z) (s : CState) : CState :=
  docall HCS1 HCSComplete (mkArgs 0 0 aLenReg bLenReg) (mkVars 0 0) s.
End HirschC.

(** ** Algorithm C is correct *)

(** The string in a range of a memory. *)
Definition seg (m : Bram) (s n : Z) : list Z := (λ i, m (o14 (s + i))) <$> seqZ 0 n.

Lemma length_seg m s n : length (seg m s n) = Z.to_nat n.
Proof. unfold seg. by rewrite length_fmap, length_seqZ. Qed.
Lemma seqZ_shift (f g : Z → Z) m m' n : (∀ i, 0 ≤ i < n → f (m + i) = g (m' + i)) →
  f <$> seqZ m n = g <$> seqZ m' n.
Proof.
  intros H. apply list_eq. intros i. rewrite !list_lookup_fmap.
  destruct (decide (i < n)).
  - rewrite !lookup_seqZ_lt by lia. simpl. f_equal. apply H. lia.
  - by rewrite !lookup_seqZ_ge by lia.
Qed.
Lemma seg_app m s n1 n2 : 0 ≤ n1 → 0 ≤ n2 → seg m s (n1 + n2) = seg m s n1 ++ seg m (s + n1) n2.
Proof.
  intros. unfold seg. rewrite seqZ_app, fmap_app by lia. f_equal.
  apply seqZ_shift. intros. do 2 f_equal. lia.
Qed.
Lemma seg_take_drop m s n j : 0 ≤ j ≤ n →
  take (Z.to_nat j) (seg m s n) = seg m s j ∧ drop (Z.to_nat j) (seg m s n) = seg m (s + j) (n - j).
Proof.
  intros Hj. assert (E : seg m s n = seg m s j ++ seg m (s + j) (n - j)).
  { rewrite <-seg_app by lia. f_equal. lia. }
  rewrite E. split; [apply take_app_length'|apply drop_app_length']; by rewrite length_seg.
Qed.
Lemma seg_o14 m s n : seg m (o14 s) n = seg m s n.
Proof. apply seqZ_shift. intros. f_equal. unfold o14. by rewrite Zplus_mod_idemp_l. Qed.

(** Forwards and backwards. *)
Lemma chars_fwd m s n : chars (charA m true s n) n = seg m s n ∧
  ∀ k, chars (charB m true s n) k = seg m s k.
Proof.
  split; [|intros k]; apply seqZ_shift; intros; unfold charA, charB; do 2 f_equal; lia.
Qed.
Lemma chars_rev (f : Z → Z) n : chars f n = reverse ((λ i, f (n - i)) <$> seqZ 0 n).
Proof.
  apply list_eq. intros i. unfold chars. rewrite list_lookup_fmap.
  destruct (decide (i < n)).
  - rewrite lookup_seqZ_lt, reverse_lookup by (rewrite ?length_fmap, ?length_seqZ; lia).
    rewrite length_fmap, length_seqZ, list_lookup_fmap, lookup_seqZ_lt by lia.
    simpl. do 2 f_equal. lia.
  - rewrite lookup_seqZ_ge by lia. symmetry. apply lookup_ge_None_2.
    rewrite length_reverse, length_fmap, length_seqZ. lia.
Qed.
Lemma chars_bwd m s n k : 0 ≤ k ≤ n →
  chars (charA m false s n) k = reverse (seg m (s + n - k) k) ∧
  chars (charB m false s n) k = reverse (seg m (s + n - k) k).
Proof.
  intros Hk. split; rewrite chars_rev; f_equal; apply seqZ_shift; intros; unfold charA, charB;
    do 2 f_equal; lia.
Qed.

Section HirschCFacts.
Context (strA strB : Bram).
Abbreviation sA := (seg strA).
Abbreviation sB := (seg strB).
Definition hc_next (s s' : CState) : Prop := hc_step strA strB s = Some s'.

(** [c] has been appended to the output at [oc]. *)
Definition appended (oc : Z) (c : list Z) (m m' : Bram) : Prop :=
  (∀ (i : nat) x, c !! i = Some x → m' (oc + i) = x) ∧
  (∀ a, a < oc ∨ oc + length c ≤ a → m' a = m a).
Lemma appended_app oc c1 c2 m m1 m2 : appended oc c1 m m1 →
  appended (oc + length c1) c2 m1 m2 → appended oc (c1 ++ c2) m m2.
Proof.
  intros [H1 H1'] [H2 H2']. split.
  - intros i x. rewrite lookup_app. destruct (c1 !! i) eqn:E; intros Hx.
    + simplify_eq. rewrite H2'; [by apply H1|]. apply lookup_lt_Some in E. lia.
    + apply H2 in Hx. rewrite <-Hx. f_equal. apply lookup_ge_None in E. lia.
  - intros a Ha. rewrite length_app in Ha. rewrite H2', H1'; [done|lia|lia].
Qed.

(** The search of the best split. *)
Lemma hirschC4_max_spec b s (sum : Z → Z) : 0 ≤ b < 2 ^ 14 →
  (∀ j, 0 ≤ j ≤ b → 0 ≤ sum j ≤ b ∧ l0 s j + l1 s (b - j) = sum j) →
  let k := (hirschC4_max b s).2 in 0 ≤ k ≤ b ∧ ∀ j, 0 ≤ j ≤ b → sum j ≤ sum k.
Proof.
  intros Hb Hsum. unfold hirschC4_max.
  set (I := λ (jj : Z) '((v, k) : Z * Z), 0 ≤ k ≤ b ∧ v ≤ sum k ∧ ∀ j, 0 ≤ j < jj → sum j ≤ v).
  match goal with |- context [foldl ?f ?x ?l] =>
    assert (H : I (0 + (b + 1)) (foldl f x l)); [apply foldl_seqZ|destruct (foldl f x l) as [v k]] end.
  - lia.
  - split; [lia|]. split; [apply Hsum; lia|lia].
  - intros jj [v k] Hjj (Hk & Hv & Hj). rewrite o14_small by lia.
    destruct (Hsum jj) as [? E]; [lia|]. rewrite E. unfold u16. rewrite Z.mod_small by lia.
    case_bool_decide; (split; [lia|]); (split; [lia|]); intros j Hj'; destruct (decide (j = jj));
      subst; try lia; specialize (Hj j); lia.
  - destruct H as (Hk & Hv & Hj). split; [done|]. intros j Hj'. specialize (Hj j). simpl. lia.
Qed.

Lemma existsb_seg x s n :
  existsb (λ jj, bool_decide (x = strB (o14 (s + jj)))) (seqZ 0 n) = bool_decide (x ∈ sB s n).
Proof.
  apply Bool.eq_iff_eq_true. rewrite existsb_exists, bool_decide_eq_true. unfold seg.
  rewrite list_elem_of_fmap. split.
  - intros (j & Hj%list_elem_of_In & Hx%bool_decide_eq_true). by exists j.
  - intros (j & -> & Hj). exists j. split; [by apply list_elem_of_In|]. by apply bool_decide_eq_true.
Qed.

(** Arguments of a call: ranges inside the memories. *)
Record args_ok (a : CArgs) : Prop := {
  ok_a : 0 ≤ aStart a ∧ 1 ≤ aLen a ∧ aStart a + aLen a < 2 ^ 14;
  ok_b : 0 ≤ bStart a ∧ 0 ≤ bLen a ∧ bStart a + bLen a < 2 ^ 14 }.

(** What a call achieves: it returns to the frame below, with a longest common
    subsequence of its ranges appended to the output. *)
Definition call_returns (a : CArgs) (f : Frame) (fs : list Frame) (s : CState) : Prop :=
  ∃ (n : nat) c s', n ≤ 7 * aLen a - 5 ∧ nsteps hc_next n s s' ∧ fr s' = f ∧ frames s' = fs ∧
    is_lcs c (sA (aStart a) (aLen a)) (sB (bStart a) (bLen a)) ∧
    outcounter s' = outcounter s + length c ∧ appended (outcounter s) c (c_matL s) (c_matL s').

Lemma call_empty a v f fs s : args_ok a → fr s = mkFrame HCS1 a v → frames s = f :: fs →
  bLen a = 0 → call_returns a f fs s.
Proof.
  intros [Ha Hb] Hfr Hfs H0. exists 1%nat, [], (doreturn s). split; [lia|]. split.
  { apply nsteps_once. unfold hc_next, hc_step, hc1. rewrite Hfr. simpl.
    by rewrite bool_decide_true. }
  unfold doreturn. rewrite Hfs. simpl. split; [done|]. split; [done|]. split.
  - rewrite H0. apply is_lcs_nil_r.
  - split; [lia|]. split; [done|]. done.
Qed.

Lemma call_single a v f fs s : args_ok a → fr s = mkFrame HCS1 a v → frames s = f :: fs →
  bLen a ≠ 0 → aLen a = 1 → 0 ≤ outcounter s → outcounter s + bLen a < 2 ^ 14 →
  call_returns a f fs s.
Proof.
  intros [Ha Hb] Hfr Hfs H0 H1 Ho Hob.
  set (x := strA (o14 (aStart a))). set (c := if decide (x ∈ sB (bStart a) (bLen a)) then [x] else []).
  exists 2%nat, c, (hirschC2 strA strB (nextpc HCS2 s)). split; [lia|]. split.
  { apply (nsteps_l _ _ _ (nextpc HCS2 s)).
    - unfold hc_next, hc_step, hc1. rewrite Hfr. simpl. by rewrite bool_decide_false, bool_decide_true.
    - by apply nsteps_once. }
  unfold hirschC2. rewrite existsb_seg. simpl. rewrite Hfr. simpl. fold x.
  assert (Es : sA (aStart a) (aLen a) = [x]).
  { rewrite H1. unfold seg. simpl. unfold x. do 3 f_equal. lia. }
  rewrite Es.
  pose proof (is_lcs_single x (sB (bStart a) (bLen a))) as Hl. fold c in Hl.
  unfold c in *. case_bool_decide as Hin; [rewrite decide_True in * by done|rewrite decide_False in * by done];
    unfold doreturn; simpl; rewrite Hfs; simpl; (split; [done|]); (split; [done|]); (split; [done|]).
  - rewrite o14_small by lia. split; [lia|]. split.
    + intros i y Hy. destruct i; [|done]. injection Hy as <-. rewrite Z.add_0_r. apply bput_eq.
    + simpl. intros b Hb'. apply bput_ne. lia.
  - split; [lia|]. done.
Qed.

(** The two rows of lengths that a split is chosen from. *)
Lemma hc1_split a v s : args_ok a → fr s = mkFrame HCS1 a v → bLen a ≠ 0 → aLen a ≠ 1 →
  let h := aLen a / 2 in
  let s1 := hc1 strA strB s in
  fr s1 = mkFrame HCS3 a (mkVars h (maxj v)) ∧ frames s1 = frames s ∧
  outcounter s1 = outcounter s ∧ c_matL s1 = c_matL s ∧
  ∀ j, 0 ≤ j ≤ bLen a →
    l0 s1 j = lcs (sA (aStart a) h) (sB (bStart a) j) ∧
    l1 s1 (bLen a - j) = lcs (sA (aStart a + h) (aLen a - h)) (sB (bStart a + j) (bLen a - j)).
Proof.
  intros [Ha Hb] Hfr Hb0 Ha1. unfold hc1. rewrite Hfr. simpl.
  rewrite !bool_decide_false by done. simpl. rewrite shiftr_div by lia. change (2 ^ 1) with 2.
  assert (Hh : 1 ≤ aLen a / 2 < aLen a) by div_lia. set (h := aLen a / 2) in *.
  split_and!; try done. rewrite !o14_small by lia. intros j Hj. split.
  - pose proof (hirschB_spec strA strB true (aStart a) h (bStart a) (bLen a) 0) as H.
    specialize (H ltac:(lia) ltac:(lia) ltac:(lia) ltac:(lia) (l0 s) j Hj). rewrite Z.add_0_l in H. rewrite H.
    unfold table. destruct (chars_fwd strA (aStart a) h) as [-> _].
    destruct (chars_fwd strB (bStart a) (bLen a)) as [_ ->]. done.
  - pose proof (hirschB_spec strA strB false (aStart a + h) (aLen a - h) (bStart a) (bLen a) 0) as H.
    specialize (H ltac:(lia) ltac:(lia) ltac:(lia) ltac:(lia) (l1 s) (bLen a - j) ltac:(lia)).
    rewrite Z.add_0_l in H. rewrite H. unfold table.
    destruct (chars_bwd strA (aStart a + h) (aLen a - h) (aLen a - h)) as [-> _]; [lia|].
    destruct (chars_bwd strB (bStart a) (bLen a) (bLen a - j)) as [_ ->]; [lia|].
    rewrite lcs_reverse. do 3 f_equal; lia.
Qed.

Lemma hc_choose a v f fs s : args_ok a → fr s = mkFrame HCS1 a v → frames s = f :: fs →
  bLen a ≠ 0 → aLen a ≠ 1 →
  let h := aLen a / 2 in
  let A1 := sA (aStart a) h in let A2 := sA (aStart a + h) (aLen a - h) in
  let B := sB (bStart a) (bLen a) in
  ∃ k s3, 0 ≤ k ≤ bLen a ∧ nsteps hc_next 3 s s3 ∧
    fr s3 = mkFrame HCS1 (mkArgs (aStart a) (bStart a) h k) (mkVars h k) ∧
    frames s3 = mkFrame HCS5 a (mkVars h k) :: f :: fs ∧
    outcounter s3 = outcounter s ∧ c_matL s3 = c_matL s ∧
    ∀ j, (j ≤ length B)%nat → (lcs A1 (take j B) + lcs A2 (drop j B) ≤
      lcs A1 (take (Z.to_nat k) B) + lcs A2 (drop (Z.to_nat k) B))%nat.
Proof.
  intros Ha Hfr Hfs Hb0 Ha1.
  pose proof (hc1_split a v s Ha Hfr Hb0 Ha1) as H. cbv zeta in *.
  set (h := aLen a / 2) in *. set (A1 := sA (aStart a) h) in *.
  set (A2 := sA (aStart a + h) (aLen a - h)) in *. set (B := sB (bStart a) (bLen a)).
  set (s1 := hc1 strA strB s) in *. set (s2 := nextpc HCS4 s1).
  destruct H as (Hfr1 & Hfs1 & Ho1 & Hm1 & Hl). destruct Ha as [Ha Hb].
  set (sum := λ j, (lcs A1 (take (Z.to_nat j) B) + lcs A2 (drop (Z.to_nat j) B))%nat).
  destruct (hirschC4_max_spec (bLen a) s2 sum) as [Hk Hmax]; [lia| |].
  { intros j Hj. destruct (Hl j Hj) as [E0 E1]. unfold sum.
    destruct (seg_take_drop strB (bStart a) (bLen a) j Hj) as [Et Ed]. unfold B. rewrite Et, Ed.
    change (l0 s2) with (l0 s1). change (l1 s2) with (l1 s1). rewrite E0, E1. split; [|lia].
    pose proof (lcs_le_r A1 (sB (bStart a) j)).
    pose proof (lcs_le_r A2 (sB (bStart a + j) (bLen a - j))). rewrite !length_seg in *. lia. }
  exists (hirschC4_max (bLen a) s2).2, (hirschC4 s2).
  split; [done|]. split; [|split; [|split; [|split; [|split]]]].
  - apply (nsteps_l _ _ _ s1); [unfold hc_next, hc_step; by rewrite Hfr|].
    apply (nsteps_l _ _ _ s2); [unfold hc_next, hc_step; by rewrite Hfr1|]. by apply nsteps_once.
  - unfold hirschC4, docall, s2, nextpc, set_fr. simpl. by rewrite Hfr1.
  - unfold hirschC4, docall, s2, nextpc, set_fr. simpl. by rewrite Hfr1, Hfs1, Hfs.
  - done.
  - done.
  - intros j Hj. unfold B in Hj. rewrite length_seg in Hj. specialize (Hmax j ltac:(lia)).
    unfold sum in Hmax. rewrite Nat2Z.id in Hmax. apply Nat2Z.inj_le in Hmax. done.
Qed.

Lemma call_split a v f fs s : args_ok a → fr s = mkFrame HCS1 a v → frames s = f :: fs →
  bLen a ≠ 0 → aLen a ≠ 1 → 0 ≤ outcounter s → outcounter s + bLen a < 2 ^ 14 →
  (∀ a' v' f' fs' s', aLen a' < aLen a → args_ok a' → fr s' = mkFrame HCS1 a' v' →
    frames s' = f' :: fs' → 0 ≤ outcounter s' → outcounter s' + bLen a' < 2 ^ 14 →
    call_returns a' f' fs' s') →
  call_returns a f fs s.
Proof.
  intros Ha Hfr Hfs Hb0 Ha1 Ho Hob IH.
  destruct (hc_choose a v f fs s Ha Hfr Hfs Hb0 Ha1)
    as (k & s3 & Hk & Hn3 & Hfr3 & Hfs3 & Ho3 & Hm3 & Hbest).
  destruct Ha as [Ha Hb]. assert (Hh : 1 ≤ aLen a / 2 < aLen a) by div_lia.
  set (h := aLen a / 2) in *.
  destruct (IH (mkArgs (aStart a) (bStart a) h k) (mkVars h k)
    (mkFrame HCS5 a (mkVars h k)) (f :: fs) s3)
    as (n1 & c1 & s4 & Hn1 & Hst1 & Hfr4 & Hfs4 & Hl1 & Ho4 & Happ1); try done; simpl in *; try lia.
  { split; simpl; lia. }
  assert (Hc1 : length c1 ≤ k).
  { destruct Hl1 as [[_ H%sublist_length] _]. rewrite length_seg in H. lia. }
  set (s5 := hc5 s4). set (a2 := mkArgs (aStart a + h) (bStart a + k) (aLen a - h) (bLen a - k)).
  assert (E5 : fr s5 = mkFrame HCS1 a2 (mkVars h k)).
  { unfold s5, hc5, docall. rewrite Hfr4. simpl. by rewrite !o14_small by lia. }
  destruct (IH a2 (mkVars h k) (mkFrame HCS6 a (mkVars h k)) (f :: fs) s5)
    as (n2 & c2 & s6 & Hn2 & Hst2 & Hfr6 & Hfs6 & Hl2 & Ho6 & Happ2); try done; simpl in *; try lia.
  { split; simpl; lia. }
  { unfold s5, hc5, docall. rewrite Hfr4. simpl. by rewrite Hfs4. }
  exists (3 + (n1 + (1 + (n2 + 1))))%nat, (c1 ++ c2), (doreturn s6).
  destruct (seg_take_drop strB (bStart a) (bLen a) k Hk) as [Et Ed].
  split; [lia|]. split; [|unfold doreturn; rewrite Hfs6; simpl; split; [done|split; [done|]]].
  - apply (nsteps_trans _ _ _ s3); [done|]. apply (nsteps_trans _ _ _ s4); [done|].
    apply (nsteps_trans _ _ _ s5); [apply nsteps_once; unfold hc_next, hc_step; by rewrite Hfr4|].
    apply (nsteps_trans _ _ _ s6); [done|].
    apply nsteps_once. unfold hc_next, hc_step. by rewrite Hfr6.
  - split; [|split].
    + replace (aLen a) with (h + (aLen a - h)) by lia. rewrite seg_app by lia.
      apply (is_lcs_app _ _ _ _ _ (Z.to_nat k)); [done|by rewrite Et|by rewrite Ed].
    + rewrite length_app. lia.
    + apply (appended_app _ _ _ _ (c_matL s4)); [by rewrite <-Ho3, <-Hm3|].
      by rewrite <-Ho3, <-Ho4.
Qed.

Lemma call_spec (n : nat) a v f fs s : aLen a < n → args_ok a → fr s = mkFrame HCS1 a v →
  frames s = f :: fs → 0 ≤ outcounter s → outcounter s + bLen a < 2 ^ 14 → call_returns a f fs s.
Proof.
  revert a v f fs s. induction n as [|n IH]; intros a v f fs s Hn Ha Hfr Hfs Ho Hob.
  { destruct (ok_a _ Ha). lia. }
  destruct (decide (bLen a = 0)); [by eapply call_empty|].
  destruct (decide (aLen a = 1)); [by eapply call_single|].
  eapply call_split; try done. intros a' v' f' fs' s' Hlt. apply IH. lia.
Qed.

(** A run that reaches the idle state. *)
Lemma hc_run_steps n s s' fuel : nsteps hc_next n s s' → pc (fr s') = HCSIdle → (n < fuel)%nat →
  hc_run strA strB fuel s = Some s'.
Proof.
  intros Hs Hpc. revert fuel. induction Hs as [s|n s s1 s' Hs1 _ IH]; intros fuel Hf.
  - destruct fuel; [lia|]. simpl. unfold hc_step. by rewrite Hpc.
  - destruct fuel; [lia|]. simpl. rewrite Hs1. apply IH; [done|lia].
Qed.

(** Started on two strings, algorithm C ends and has appended one of their longest
    common subsequences to its output. *)
Lemma hirschC_spec aLenReg bLenReg s (fuel : nat) : pc (fr s) = HCSIdle →
  1 ≤ aLenReg < 2 ^ 14 → 0 ≤ bLenReg < 2 ^ 14 → 0 ≤ outcounter s →
  outcounter s + bLenReg < 2 ^ 14 → 7 * aLenReg < fuel →
  ∃ c s', hc_run strA strB fuel (hirschC_start aLenReg bLenReg s) = Some s' ∧
    pc (fr s') = HCSIdle ∧ is_lcs c (sA 0 aLenReg) (sB 0 bLenReg) ∧
    outcounter s' = outcounter s + length c ∧ appended (outcounter s) c (c_matL s) (c_matL s').
Proof.
  intros Hpc Ha Hb Ho Hob Hf. set (a := mkArgs 0 0 aLenReg bLenReg).
  destruct (call_spec (S (Z.to_nat aLenReg)) a (mkVars 0 0)
    (mkFrame HCSComplete (args (fr s)) (mkVars 0 0)) (frames s) (hirschC_start aLenReg bLenReg s))
    as (n & c & s1 & Hn & Hst & Hfr1 & Hfs1 & Hl & Ho1 & Happ); try done; simpl in *; try lia.
  exists c, (nextpc HCSIdle s1). split_and!; try done.
  eapply (hc_run_steps (n + 1)); [|done|lia].
  eapply nsteps_trans; [exact Hst|]. apply nsteps_once. unfold hc_next, hc_step. by rewrite Hfr1.
Qed.
End HirschCFacts.
