(* ===== verification/MaxCommonSubseq.v ===== *)
(** * The common-subsequence program (src/examples/maxcommonsubseq)

    testmaxcommonsubseq.cpp hands two strings to the engine of Hirschberg.v, runs its
    three algorithms, fetches the results into shared memory and prints them.  The
    request unit Maxcommonsubseq.bsv is modelled with it; a request is carried out
    when the program waits for its indication.  References stand for the buffers
    they are references to, memory is coherent, and a transfer between a buffer and
    the engine's memories is one step. *)
From stdpp Require Import base list numbers.
From S2P Require Import Prelude Lcs Hirschberg.
Local Open Scope Z_scope.

(** ** The request unit *)

(** Shared memory: bytes of the two strings, 16-bit words of the results. *)
Record Buffers := mkBuffers { strA : list Z; strB : list Z; fetched : list Z }.

(** [examples/maxcommonsubseq/Maxcommonsubseq.bsv:100-131] mkMaxcommonsubseqRequest: the
    memories, the registers of the algorithms, and the state of algorithm C (with
    the result memory matL) *)
Record Dev := mkDev {
  bramA : Bram; bramB : Bram; aStartReg : Z; aLenReg : Z; bStartReg : Z; bLenReg : Z;
  algC : CState }.
Definition matL (d : Dev) : Bram := c_matL (algC d).
Definition set_matL (m : Bram) (d : Dev) : Dev :=
  let c := algC d in
  mkDev (bramA d) (bramB d) (aStartReg d) (aLenReg d) (bStartReg d) (bLenReg d)
    (mkC (fr c) (frames c) (outcounter c) m (l0 c) (l1 c)).

(** [lib/bsv/Dma2BRAM.bsv:84-104] mkBRAMReadClient: load *)
Definition bram_load (buf : list Z) (start finish : Z) (m : Bram) : Bram :=
  foldl (λ m j, bput j (nth (Z.to_nat (j - start)) buf 0) m) m
    (seqZ start (finish - start + 1)).
(** [lib/bsv/Dma2BRAM.bsv:146-181] mkBRAMWriteClient: store, at a byte offset *)
Definition bram_store (m : Bram) (start finish off : Z) (buf : list Z) : list Z :=
  list_inserts (Z.to_nat (off / 2)) (m <$> seqZ start (finish - start + 1)) buf.

(** [examples/maxcommonsubseq/Maxcommonsubseq.bsv:174-182] setupA *)
Definition dev_setupA (b : Buffers) (strOffset strLen : Z) (d : Dev) : Dev :=
  mkDev (bram_load (strA b) (o14 strOffset) (o14 (strOffset + strLen - 1)) (bramA d)) (bramB d)
    (o14 strOffset) (o14 strLen) (bStartReg d) (bLenReg d) (algC d).
(** [examples/maxcommonsubseq/Maxcommonsubseq.bsv:184-192] setupB *)
Definition dev_setupB (b : Buffers) (strOffset strLen : Z) (d : Dev) : Dev :=
  mkDev (bramA d) (bram_load (strB b) (o14 strOffset) (o14 (strOffset + strLen - 1)) (bramB d))
    (aStartReg d) (aLenReg d) (o14 strOffset) (o14 strLen) (algC d).

(** [examples/maxcommonsubseq/Maxcommonsubseq.bsv:194-200] fetch *)
Definition dev_fetch (dest src strLen : Z) (d : Dev) (b : Buffers) : Buffers :=
  mkBuffers (strA b) (strB b)
    (bram_store (matL d) (o14 src) (o14 (o14 src + o14 (strLen - 1))) dest (fetched b)).

(** [examples/maxcommonsubseq/Maxcommonsubseq.bsv:151-171] the completion rules, and
    start: the result, if the algorithm ends *)
Definition dev_start (fuel : nat) (alg : Z) (d : Dev) : option (Z * Dev) :=
  if bool_decide (alg = 0) then
    Some (hirschA_result (aLenReg d) (bLenReg d),
      set_matL (hirschA (bramA d) (bramB d) (aStartReg d) (aLenReg d) (bStartReg d) (bLenReg d)
        (matL d)) d)
  else if bool_decide (alg = 1) || bool_decide (alg = 2) then
    Some (hirschB_result (bLenReg d),
      set_matL (hirschB (bramA d) (bramB d) (bool_decide (alg = 1)) (aStartReg d) (aLenReg d)
        (bStartReg d) (bLenReg d) 0 (matL d)) d)
  else if bool_decide (alg = 3) then
    c ← hc_run (bramA d) (bramB d) fuel (hirschC_start (aLenReg d) (bLenReg d) (algC d));
    Some (outcounter c, mkDev (bramA d) (bramB d) (aStartReg d) (aLenReg d) (bStartReg d)
      (bLenReg d) c)
  else None.

(** ** The program *)
Inductive request :=
  | SetupA (strOffset strLen : Z) | SetupB (strOffset strLen : Z)
  | Fetch (dest src strLen : Z) | Start (alg : Z).

(** What is printed: a number, a character, a line's end. *)
Inductive item := PD (n : Z) | PC (c : Z) | PNL.

Record Prog := mkProg {
  bufs : Buffers; dev : Dev; pending : list request; test_sem : Z; result_length : Z;
  out : list item }.
Abbreviation P := (M Prog).

Definition set_bufs b s := mkProg b (dev s) (pending s) (test_sem s) (result_length s) (out s).
Definition set_dev d s := mkProg (bufs s) d (pending s) (test_sem s) (result_length s) (out s).
Definition set_pending p s := mkProg (bufs s) (dev s) p (test_sem s) (result_length s) (out s).
Definition set_sem n s := mkProg (bufs s) (dev s) (pending s) n (result_length s) (out s).
Definition set_result n s := mkProg (bufs s) (dev s) (pending s) (test_sem s) n (out s).
Definition set_out o s := mkProg (bufs s) (dev s) (pending s) (test_sem s) (result_length s) o.
Definition print (o : item) : P () := modify (λ s, set_out (out s ++ [o]) s).

(** [examples/maxcommonsubseq/testmaxcommonsubseq.cpp:47-69] MaxcommonsubseqIndication *)
Definition setupComplete : P () := modify (λ s, set_sem (test_sem s + 1) s).
Definition searchResult (v : Z) : P () :=
  modify (set_result (s32 v));; modify (λ s, set_sem (test_sem s + 1) s).

Section Program.
Context (fuel : nat).
(** The bytes in memory before the two strings, if they can be read. *)
Context (beforeA beforeB : option Z).

(** A request is carried out and its indication delivered. *)
Definition serve (r : request) : P () :=
  s ← get;
  match r with
  | SetupA o n => modify (set_dev (dev_setupA (bufs s) o n (dev s)));; setupComplete
  | SetupB o n => modify (set_dev (dev_setupB (bufs s) o n (dev s)));; setupComplete
  | Fetch d r n => modify (set_bufs (dev_fetch d r n (dev s) (bufs s)));; setupComplete
  | Start a =>
      match dev_start fuel a (dev s) with
      | Some (v, d) => modify (set_dev d);; searchResult v
      | None => no_fuel
      end
  end.
Definition call (r : request) : P () := modify (λ s, set_pending (pending s ++ [r]) s).
(** sem_wait(&test_sem); with nothing posted and nothing under way it never returns *)
Definition sem_wait : P () :=
  s ← get;
  if bool_decide (0 < test_sem s) then modify (set_sem (test_sem s - 1)) else
  match pending s with
  | [] => no_fuel
  | r :: rs => modify (set_pending rs);; serve r;; modify (λ s, set_sem (test_sem s - 1) s)
  end.
Definition request_wait (r : request) : P () := call r;; sem_wait.

(** Reading a character of a string; index -1 is outside. *)
Definition char_at (before : option Z) (buf : Buffers → list Z) (i : Z) : P Z :=
  s ← get;
  if bool_decide (i = -1)
  then match before with Some c => mret c | None => undefined end
  else match buf (bufs s) !! Z.to_nat i with Some c => mret c | None => undefined end.

(** [examples/maxcommonsubseq/testmaxcommonsubseq.cpp:184-192] main: column numbers and
    characters *)
Definition print_header (strB_len : Z) : P () :=
  for_each (seqZ 0 (strB_len + 1)) (λ j, print (PD j));;
  print PNL;;
  for_each (seqZ 0 (strB_len + 1)) (λ j,
    c ← char_at beforeB strB (j - 1); print (PC c));;
  print PNL.
(** [examples/maxcommonsubseq/testmaxcommonsubseq.cpp:193-199] main: [n] rows *)
Definition print_rows (n strB_len : Z) (swFetch : list Z) : P () :=
  for_each (seqZ 0 n) (λ i,
    c ← char_at beforeA strA (i - 1); print (PC c);; print (PD i);;
    for_each (seqZ 0 (strB_len + 1)) (λ j,
      match swFetch !! Z.to_nat (Z.shiftl i 7 + j) with
      | Some v => print (PD (Z.land v 0xff))
      | None => undefined
      end);;
    print PNL).

(** [examples/maxcommonsubseq/testmaxcommonsubseq.cpp:234-239] main: a string is
    reversed, or written again *)
Definition put_strings (a b : list Z) : P () :=
  modify (λ s, set_bufs (mkBuffers (list_inserts 0 a (strA (bufs s)))
    (list_inserts 0 b (strB (bufs s))) (fetched (bufs s))) s).

(** strncpy of a text to a buffer of [n] bytes *)
Definition strncpy (text : list Z) (n : nat) : list Z :=
  take n text ++ replicate (n - length text) 0.

(** [examples/maxcommonsubseq/testmaxcommonsubseq.cpp:99-100] main: the buffers' lengths *)
Definition alloc_len : Z := 128.
Definition fetch_len : Z := alloc_len * alloc_len.

(** [examples/maxcommonsubseq/testmaxcommonsubseq.cpp:156-199] main: set-up and
    algorithm A *)
Definition run_A (strA_len strB_len : Z) : P () :=
  request_wait (SetupA 0 strA_len);;
  request_wait (SetupB 0 strB_len);;
  request_wait (Start 0);;
  request_wait (Fetch 0 0 (fetch_len / 2));;
  request_wait (Fetch fetch_len (fetch_len / 2) (fetch_len / 2));;
  swFetch ← gets (λ s, fetched (bufs s));
  print_header strB_len;;
  print_rows (strA_len + 1) strB_len swFetch.
(** [examples/maxcommonsubseq/testmaxcommonsubseq.cpp:203-231] main: algorithm B in one
    direction *)
Definition run_B (alg strB_len : Z) : P () :=
  request_wait (Start alg);;
  request_wait (Fetch 0 0 (fetch_len / 2));;
  swFetch ← gets (λ s, fetched (bufs s));
  print_header strB_len;;
  print_rows 1 strB_len swFetch.
(** [examples/maxcommonsubseq/testmaxcommonsubseq.cpp:295-314] main: algorithm C *)
Definition run_C (strB_len : Z) : P () :=
  request_wait (Start 3);;
  request_wait (Fetch 0 0 (fetch_len / 2));;
  swFetch ← gets (λ s, fetched (bufs s));
  r ← gets result_length;
  (if bool_decide (strB_len < r) then modify (set_result strB_len) else mret tt);;
  r ← gets result_length;
  for_each (seqZ 0 r) (λ j,
    match swFetch !! Z.to_nat j with
    | Some v => print (PC (Z.land v 0xff))
    | None => undefined
    end);;
  print PNL.

(** [examples/maxcommonsubseq/testmaxcommonsubseq.cpp:129-321] main *)
Definition mcs_main (strA_text strB_text : list Z) : P () :=
  assert (bool_decide (length strA_text < alloc_len));;
  assert (bool_decide (length strB_text < alloc_len));;
  modify (λ s, set_bufs (mkBuffers (strncpy strA_text (Z.to_nat alloc_len))
    (strncpy strB_text (Z.to_nat alloc_len)) (fetched (bufs s))) s);;
  let strA_len := Z.of_nat (length strA_text) in
  let strB_len := Z.of_nat (length strB_text) in
  run_A strA_len strB_len;;
  run_B 1 strB_len;;
  put_strings (reverse strA_text) (reverse strB_text);;
  request_wait (SetupA 0 strA_len);;
  request_wait (SetupB 0 strB_len);;
  run_B 2 strB_len;;
  put_strings strA_text strB_text;;
  request_wait (SetupA 0 strA_len);;
  request_wait (SetupB 0 strB_len);;
  run_C strB_len.
End Program.

(** ** Printing *)

(** A body that prints [f x] makes the loop print all of them. *)
Lemma for_each_print {A} (l : list A) (body : A → P ()) (f : A → list item) s o :
  (∀ x o, x ∈ l → body x (set_out o s) = (Done tt, set_out (o ++ f x) s)) →
  for_each l body (set_out o s) = (Done tt, set_out (o ++ (l ≫= f)) s).
Proof.
  revert o; induction l as [|x l IH]; intros o H; [by rewrite app_nil_r|]. cbn [for_each].
  rewrite (bind_Done _ _ _ _ _ (H x o ltac:(left))), IH by (intros; apply H; by right).
  by rewrite bind_cons, <-(assoc_L (++)).
Qed.
Lemma bind_singleton {A} (f : A → item) (l : list A) : (l ≫= λ x, [f x]) = f <$> l.
Proof. induction l as [|x l IH]; [done|]. rewrite bind_cons, IH. done. Qed.

Lemma print_bind {B} x (f : () → P B) s o :
  (print x ≫= f) (set_out o s) = f tt (set_out (o ++ [x]) s).
Proof. done. Qed.

Lemma print_last x s o : print x (set_out o s) = (Done tt, set_out (o ++ [x]) s).
Proof. done. Qed.

Definition header (cb : Z) (b : list Z) : list item :=
  (PD <$> seqZ 0 (length b + 1)) ++ [PNL] ++ (PC <$> cb :: b) ++ [PNL].
Definition row (c i : Z) (vals : list Z) : list item :=
  [PC c; PD i] ++ (PD <$> vals) ++ [PNL].

Section PrintFacts.
Context (ca cb : Z).

Lemma char_at_spec c buf l s o i : take (length l) (buf (bufs s)) = l → -1 ≤ i < length l →
  char_at (Some c) buf i (set_out o s) = (Done ((c :: l) !!! Z.to_nat (i + 1)), set_out o s).
Proof.
  intros Hl Hi. unfold char_at, get, mbind, M_bind. cbn [bufs set_out].
  case_bool_decide as E; [by rewrite E|].
  assert (Hx : buf (bufs s) !! Z.to_nat i = Some ((c :: l) !!! Z.to_nat (i + 1))).
  { replace (Z.to_nat (i + 1)) with (S (Z.to_nat i)) by lia. simpl.
    rewrite <-(lookup_take_lt _ (length l)), Hl by lia. apply list_lookup_lookup_total_lt. lia. }
  by rewrite Hx.
Qed.
Lemma fmap_total {A B} `{Inhabited A} (f : A → B) (l : list A) (n : Z) : n = length l →
  (λ i, f (l !!! Z.to_nat i)) <$> seqZ 0 n = f <$> l.
Proof.
  intros ->. apply list_eq. intros i. rewrite !list_lookup_fmap.
  destruct (decide (i < length l)%nat).
  - rewrite lookup_seqZ_lt by lia. rewrite Z.add_0_l. cbn [fmap option_fmap option_map].
    by rewrite Nat2Z.id, list_lookup_lookup_total_lt.
  - by rewrite lookup_seqZ_ge, lookup_ge_None_2 by lia.
Qed.

Lemma print_header_spec b s o : take (length b) (strB (bufs s)) = b →
  print_header (Some cb) (length b) (set_out o s) = (Done tt, set_out (o ++ header cb b) s).
Proof.
  intros Hb. unfold print_header.
  erewrite bind_Done by (by apply (for_each_print _ _ (λ j, [PD j]))).
  rewrite bind_singleton.
  rewrite print_bind.
  erewrite bind_Done.
  2:{ apply (for_each_print _ _ (λ j, [PC ((cb :: b) !!! Z.to_nat j)])).
      intros j o' [Hj1 Hj2]%elem_of_seqZ.
      rewrite (bind_Done _ _ _ _ _ (char_at_spec cb strB b s o' (j - 1) Hb ltac:(lia))).
      by replace (j - 1 + 1) with j by lia. }
  rewrite bind_singleton, print_last. do 2 f_equal.
  unfold header. rewrite <-!(assoc_L (++)), (fmap_total PC (cb :: b)) by (simpl; lia). done.
Qed.

Lemma print_rows_spec n (a b : list Z) s o sw : take (length a) (strA (bufs s)) = a →
  n ≤ length a + 1 → (∀ i j, 0 ≤ i < n → 0 ≤ j ≤ length b → is_Some (sw !! Z.to_nat (i * 128 + j))) →
  print_rows (Some ca) n (length b) sw (set_out o s) =
    (Done tt, set_out (o ++ (seqZ 0 n ≫= λ i, row ((ca :: a) !!! Z.to_nat i) i
      ((λ j, Z.land (sw !!! Z.to_nat (i * 128 + j)) 0xff) <$> seqZ 0 (length b + 1)))) s).
Proof.
  intros Ha Hn Hsw. unfold print_rows. apply for_each_print.
  intros i o' [Hi1 Hi2]%elem_of_seqZ.
  rewrite (bind_Done _ _ _ _ _ (char_at_spec ca strA a s o' (i - 1) Ha ltac:(lia))).
  replace (i - 1 + 1) with i by lia.
  set (c := (ca :: a) !!! Z.to_nat i).
  rewrite !print_bind.
  erewrite bind_Done.
  2:{ apply (for_each_print _ _ (λ j, [PD (Z.land (sw !!! Z.to_nat (i * 128 + j)) 0xff)])).
      intros j o1 [Hj1 Hj2]%elem_of_seqZ. rewrite shiftl_mul by lia. change (2 ^ 7) with 128.
      destruct (Hsw i j) as [v Hv]; [lia|lia|]. by rewrite (list_lookup_total_correct _ _ _ Hv), Hv. }
  rewrite bind_singleton, print_last. do 2 f_equal.
  unfold row. rewrite <-!(assoc_L (++)). cbn [app]. by rewrite <-list_fmap_compose.
Qed.
End PrintFacts.

(** ** The request unit *)

(** The engine holds two strings. *)
Record holds (a b : list Z) (d : Dev) : Prop := {
  h_a : seg (bramA d) 0 (length a) = a; h_b : seg (bramB d) 0 (length b) = b;
  h_as : aStartReg d = 0; h_al : aLenReg d = length a;
  h_bs : bStartReg d = 0; h_bl : bLenReg d = length b }.

Lemma bram_load_seg buf n m : 0 < n ≤ length buf → n < 2 ^ 14 →
  seg (bram_load buf 0 (n - 1) m) 0 n = take (Z.to_nat n) buf.
Proof.
  intros Hn Hs.
  assert (H : ∀ x, 0 ≤ x < 0 + (n - 1 - 0 + 1) → bram_load buf 0 (n - 1) m x = nth (Z.to_nat x) buf 0).
  { unfold bram_load. apply (foldl_seqZ (λ k m', ∀ x, 0 ≤ x < k → m' x = nth (Z.to_nat x) buf 0));
      [lia|lia|]. intros k m' Hk IH x Hx. destruct (decide (x = k)) as [->|].
    - rewrite bput_eq. do 2 f_equal. lia.
    - rewrite bput_ne by done. apply IH. lia. }
  apply list_eq. intros i. unfold seg. rewrite list_lookup_fmap.
  destruct (decide (i < Z.to_nat n)%nat).
  - rewrite lookup_seqZ_lt by lia. rewrite lookup_take_lt by lia.
    cbn [fmap option_fmap option_map]. rewrite !Z.add_0_l, o14_small, H, Nat2Z.id by lia.
    destruct (lookup_lt_is_Some_2 buf i) as [v Hv]; [lia|]. by rewrite Hv, (nth_lookup_Some _ _ _ _ Hv).
  - by rewrite lookup_seqZ_ge, lookup_take_ge by lia.
Qed.

Lemma setup_holds a b bs d : a ≠ [] → b ≠ [] → length a < 128 → length b < 128 →
  (length a ≤ length (strA bs))%nat → (length b ≤ length (strB bs))%nat →
  take (length a) (strA bs) = a → take (length b) (strB bs) = b →
  holds a b (dev_setupB bs 0 (length b) (dev_setupA bs 0 (length a) d)).
Proof.
  intros Ha Hb Hla Hlb Hsa Hsb Ea Eb.
  assert (0 < length a) by (destruct a; [done|simpl; lia]).
  assert (0 < length b) by (destruct b; [done|simpl; lia]).
  unfold dev_setupA, dev_setupB. split; cbn [bramA bramB aStartReg aLenReg bStartReg bLenReg];
    rewrite ?o14_small by lia; try done.
  - rewrite Z.add_0_l, bram_load_seg by lia. by rewrite Nat2Z.id.
  - rewrite Z.add_0_l, bram_load_seg by lia. by rewrite Nat2Z.id.
Qed.

(** Rows of the table of lengths. *)
Definition lengths (a b : list Z) : list Z :=
  (λ j, Z.of_nat (lcs a (take (Z.to_nat j) b))) <$> seqZ 0 (length b + 1).

Section DevFacts.
Context (a b : list Z) (d : Dev).
Context (Hd : holds a b d) (Ha : 1 ≤ length a < 128) (Hb : 1 ≤ length b < 128).

Lemma chars_a i : 0 ≤ i ≤ length a → seg (bramA d) 0 i = take (Z.to_nat i) a.
Proof.
  intros Hi. rewrite <-(h_a _ _ _ Hd) at 1.
  by destruct (seg_take_drop (bramA d) 0 (length a) i Hi) as [-> _].
Qed.
Lemma chars_b j : 0 ≤ j ≤ length b → seg (bramB d) 0 j = take (Z.to_nat j) b.
Proof.
  intros Hj. rewrite <-(h_b _ _ _ Hd) at 1.
  by destruct (seg_take_drop (bramB d) 0 (length b) j Hj) as [-> _].
Qed.

(** Algorithm A. *)
Lemma dev_start_A fuel : length b < length a → ∃ d', dev_start fuel 0 d = Some (o14 (length a * length b), d') ∧
  holds a b d' ∧ algC d' = algC (set_matL (matL d') d) ∧
  ∀ i j, 0 ≤ i ≤ length a → 0 ≤ j ≤ length b → i < length a ∨ matL d (cell (length a) 0) = 0 →
    matL d' (cell i j) = lcs (take (Z.to_nat i) a) (take (Z.to_nat j) b).
Proof.
  intros Hlt. destruct Hd as [Ea Eb Eas Eal Ebs Ebl].
  eexists. split; [unfold dev_start; rewrite bool_decide_true by done; unfold hirschA_result;
    by rewrite Eal, Ebl|]. split; [by split|]. split; [done|]. intros i j Hi Hj Hz.
  unfold matL at 1. cbn [algC set_matL c_matL]. rewrite Eas, Ebs.
  rewrite hirschA_spec; [|lia..|done]. unfold table. do 2 f_equal.
  - rewrite <-chars_a by done. apply seqZ_shift. intros. do 2 f_equal. lia.
  - rewrite <-chars_b by done. apply seqZ_shift. intros. do 2 f_equal. lia.
Qed.

(** Algorithm B: forwards, and backwards on the reversed strings. *)
Lemma dev_start_B fuel (dir : bool) : ∃ d', dev_start fuel (if dir then 1 else 2) d =
    Some (Z.of_nat (length b), d') ∧
  holds a b d' ∧ algC d' = algC (set_matL (matL d') d) ∧
  ∀ j, 0 ≤ j ≤ length b → matL d' j =
    (if dir then lcs a (take (Z.to_nat j) b)
     else lcs (reverse a) (take (Z.to_nat j) (reverse b))).
Proof.
  destruct Hd as [Ea Eb Eas Eal Ebs Ebl].
  eexists. split; [unfold dev_start, hirschB_result; destruct dir; simpl; by rewrite Ebl|].
  split; [by split|]. split; [done|]. intros j Hj.
  unfold matL at 1. cbn [algC set_matL c_matL]. rewrite ?Eas, ?Eal, ?Ebs, ?Ebl.
  pose proof (hirschB_spec (bramA d) (bramB d) dir 0 (length a) 0 (length b) 0 ltac:(lia)
    ltac:(lia) ltac:(lia) ltac:(lia) (matL d) j Hj) as H. rewrite Z.add_0_l in H.
  destruct dir; simpl bool_decide; rewrite H; unfold table.
  - destruct (chars_fwd (bramA d) 0 (length a)) as [-> _].
    destruct (chars_fwd (bramB d) 0 (length b)) as [_ ->].
    by rewrite Ea, chars_b.
  - destruct (chars_bwd (bramA d) 0 (length a) (length a)) as [-> _]; [lia|].
    destruct (chars_bwd (bramB d) 0 (length b) j) as [_ ->]; [lia|].
    replace (0 + length a - length a) with 0 by lia. rewrite Ea. do 3 f_equal.
    destruct (seg_take_drop (bramB d) 0 (length b) (length b - j)) as [_ E]; [lia|].
    replace (length b - (length b - j)) with j in E by lia.
    replace (0 + length b - j) with (0 + (length b - j)) by lia. rewrite <-E, Eb.
    rewrite take_reverse. do 2 f_equal. lia.
Qed.

(** Algorithm C. *)
Lemma dev_start_C (fuel : nat) : 7 * length a < fuel →
  pc (fr (algC d)) = HCSIdle → outcounter (algC d) = 0 →
  ∃ c d', dev_start fuel 3 d = Some (Z.of_nat (length c), d') ∧ holds a b d' ∧ is_lcs c a b ∧
    ∀ (i : nat) x, c !! i = Some x → matL d' i = x.
Proof.
  intros Hf Hpc Ho. pose proof Hd as [Ea Eb Eas Eal Ebs Ebl].
  destruct (hirschC_spec (bramA d) (bramB d) (length a) (length b) (algC d) fuel)
    as (c & s' & Hrun & _ & Hl & Ho' & Happ & _); try done; try lia.
  rewrite Ea, Eb in Hl. exists c. eexists. split; [|split; [|split; [done|]]].
  - unfold dev_start. rewrite !bool_decide_false, bool_decide_true by done. simpl orb.
    rewrite Eal, Ebl, Hrun. simpl. by rewrite Ho', Ho.
  - by split.
  - intros i x Hx. apply Happ in Hx. rewrite Ho in Hx. done.
Qed.
End DevFacts.

(** ** The program *)

(** Between two requests. *)
Definition prog (bs : Buffers) (d : Dev) (r : Z) (o : list item) : Prog := mkProg bs d [] 0 r o.

Section Requests.
Context (fuel : nat).
Lemma request_setupA x n bs d r o :
  request_wait fuel (SetupA x n) (prog bs d r o) = (Done tt, prog bs (dev_setupA bs x n d) r o).
Proof. done. Qed.
Lemma request_setupB x n bs d r o :
  request_wait fuel (SetupB x n) (prog bs d r o) = (Done tt, prog bs (dev_setupB bs x n d) r o).
Proof. done. Qed.
Lemma request_fetch x y n bs d r o :
  request_wait fuel (Fetch x y n) (prog bs d r o) = (Done tt, prog (dev_fetch x y n d bs) d r o).
Proof. done. Qed.
Lemma request_start alg bs d r o v d' : dev_start fuel alg d = Some (v, d') →
  request_wait fuel (Start alg) (prog bs d r o) = (Done tt, prog bs d' (s32 v) o).
Proof.
  intros E. unfold request_wait, call, sem_wait, serve, prog, mbind, M_bind, modify, get.
  cbn [set_pending pending test_sem app bool_decide decide]. simpl. rewrite E. done.
Qed.
End Requests.

(** Shared memory with two strings at the start of their buffers. *)
Record has_strings (a b : list Z) (bs : Buffers) : Prop := {
  hs_a : take (length a) (strA bs) = a; hs_b : take (length b) (strB bs) = b;
  hs_la : length (strA bs) = 128%nat; hs_lb : length (strB bs) = 128%nat;
  hs_lf : Z.of_nat (length (fetched bs)) = fetch_len }.

(** The first half of the results. *)
Lemma fetch_low d bs a b : has_strings a b bs →
  has_strings a b (dev_fetch 0 0 (fetch_len / 2) d bs) ∧
  ∀ k, 0 ≤ k < 8192 → fetched (dev_fetch 0 0 (fetch_len / 2) d bs) !! Z.to_nat k = Some (matL d k).
Proof.
  intros [Ea Eb La Lb Lf]. change fetch_len with 16384 in *. unfold dev_fetch, bram_store.
  change (16384 / 2) with 8192. change (o14 0) with 0. rewrite (o14_small (8192 - 1)) by lia.
  rewrite o14_small by lia. change (0 / 2) with 0. change (0 + (8192 - 1) - 0 + 1) with 8192. split.
  - split; cbn [strA strB fetched]; try done. by rewrite length_inserts.
  - intros k Hk. cbn [fetched]. rewrite list_lookup_inserts; rewrite ?length_fmap, ?length_seqZ; [|lia|lia].
    rewrite list_lookup_fmap, lookup_seqZ_lt by lia. cbn [fmap option_fmap option_map].
    do 2 f_equal. lia.
Qed.
(** Both halves. *)
Lemma fetch_all d bs a b : has_strings a b bs →
  let bs' := dev_fetch fetch_len (fetch_len / 2) (fetch_len / 2) d
               (dev_fetch 0 0 (fetch_len / 2) d bs) in
  has_strings a b bs' ∧
  ∀ k, 0 ≤ k < fetch_len → fetched bs' !! Z.to_nat k = Some (matL d k).
Proof.
  intros Hs bs'. destruct (fetch_low d bs a b Hs) as [Hs1 Hlow].
  unfold bs'. clear bs'. set (b1 := dev_fetch 0 0 _ d bs) in *.
  destruct Hs1 as [Ea Eb La Lb Lf]. change fetch_len with 16384 in *.
  unfold dev_fetch, bram_store. change (16384 / 2) with 8192 in *.
  rewrite (o14_small 8192), (o14_small (8192 - 1)) by lia.
  rewrite o14_small by lia. change (8192 + (8192 - 1) - 8192 + 1) with 8192. split.
  - split; cbn [strA strB fetched]; try done. by rewrite length_inserts.
  - intros k Hk. cbn [fetched]. destruct (decide (k < 8192)).
    + rewrite list_lookup_inserts_lt by lia. apply Hlow. lia.
    + rewrite list_lookup_inserts; rewrite ?length_fmap, ?length_seqZ; [|lia|lia].
      rewrite list_lookup_fmap, lookup_seqZ_lt by lia. cbn [fmap option_fmap option_map].
      do 2 f_equal. lia.
Qed.

Lemma land_byte v : 0 ≤ v < 256 → Z.land v 0xff = v.
Proof. intros. change 0xff with (2 ^ 8 - 1). rewrite land_low_mod by lia. by apply Z.mod_small. Qed.

(** The values a row prints, from the results. *)
Lemma row_values (sw : list Z) (m : Bram) (a b : list Z) i : length b < 128 → 0 ≤ i < 128 →
  (∀ j, 0 ≤ j ≤ length b → sw !! Z.to_nat (i * 128 + j) = Some (m (i * 128 + j))) →
  (∀ j, 0 ≤ j ≤ length b → m (i * 128 + j) = lcs a (take (Z.to_nat j) b)) →
  (λ j, Z.land (sw !!! Z.to_nat (i * 128 + j)) 0xff) <$> seqZ 0 (length b + 1) = lengths a b.
Proof.
  intros Hb Hi Hsw Hm. apply seqZ_shift. intros j Hj. rewrite Z.add_0_l.
  rewrite (list_lookup_total_correct _ _ _ (Hsw j ltac:(lia))), Hm by lia. apply land_byte.
  pose proof (lcs_le_r a (take (Z.to_nat j) b)) as H1. rewrite length_take in H1. lia.
Qed.

Section ProgramFacts.
Context (fuel : nat) (ca cb : Z) (a b : list Z).
Context (Ha : 1 ≤ length a < 128) (Hb : 1 ≤ length b < 128).

(** What algorithm C needs and the others leave alone. *)
Definition fresh_C (d : Dev) : Prop := pc (fr (algC d)) = HCSIdle ∧ outcounter (algC d) = 0.
Lemma fresh_C_matL d m : fresh_C d → fresh_C (set_matL m d).
Proof. done. Qed.
Lemma fresh_C_eq d d' m : algC d' = algC (set_matL m d) → fresh_C d → fresh_C d'.
Proof. unfold fresh_C. by intros ->. Qed.

Lemma strings_ne : a ≠ [] ∧ b ≠ [].
Proof. split; intros ->; simpl in *; lia. Qed.

(** Both strings are handed over. *)
Lemma setup_spec bs d r o : has_strings a b bs →
  ∃ d', holds a b d' ∧ algC d' = algC d ∧ ∀ B (k : P B),
    (request_wait fuel (SetupA 0 (length a));; request_wait fuel (SetupB 0 (length b));; k)
      (prog bs d r o) = k (prog bs d' r o).
Proof.
  intros [Ea Eb La Lb Lf]. destruct strings_ne as [Hna Hnb].
  exists (dev_setupB bs 0 (length b) (dev_setupA bs 0 (length a) d)). split; [|split; [done|]].
  - apply setup_holds; try done; lia.
  - intros B k. by rewrite (bind_Done _ _ _ _ _ (request_setupA _ _ _ _ _ _ _)),
      (bind_Done _ _ _ _ _ (request_setupB _ _ _ _ _ _ _)).
Qed.

(** Algorithm B in one direction. *)
Lemma run_B_spec (dir : bool) bs d r o : has_strings a b bs → holds a b d →
  ∃ bs' d' r', run_B fuel (Some ca) (Some cb) (if dir then 1 else 2) (length b) (prog bs d r o) =
      (Done tt, prog bs' d' r' (o ++ header cb b ++ row ca 0
        (if dir then lengths a b else lengths (reverse a) (reverse b)))) ∧
    has_strings a b bs' ∧ holds a b d' ∧ (fresh_C d → fresh_C d').
Proof.
  intros Hs Hd. destruct (dev_start_B a b d Hd Ha Hb fuel dir) as (d' & Hst & Hd' & HC & Hm).
  destruct (fetch_low d' bs a b Hs) as [Hs' Hf]. set (bs' := dev_fetch _ _ _ d' bs) in *.
  exists bs', d', (s32 (length b)). split; [|split_and!; try done; by eapply fresh_C_eq].
  unfold run_B. rewrite (bind_Done _ _ _ _ _ (request_start _ _ _ _ _ _ _ _ Hst)).
  rewrite (bind_Done _ _ _ _ _ (request_fetch _ _ _ _ _ _ _ _)). fold bs'.
  rewrite (bind_Done (gets _) _ (prog bs' d' (s32 (length b)) o) _ _ eq_refl).
  change (prog bs' d' (s32 (length b)) o) with (set_out o (prog bs' d' (s32 (length b)) [])).
  set (p0 := prog bs' d' (s32 (length b)) []).
  rewrite (bind_Done _ _ _ _ _ (print_header_spec cb b p0 _ (hs_b _ _ _ Hs'))).
  change (bufs (set_out o p0)) with bs'. rewrite (print_rows_spec ca 1 a b); [|apply Hs'|lia|].
  2:{ intros i j Hi Hj. rewrite Hf by lia. eauto. }
  change (set_out ?x p0) with (prog bs' d' (s32 (length b)) x). do 2 f_equal.
  rewrite <-(assoc_L (++)). do 2 f_equal. change (seqZ 0 1) with [0]. rewrite bind_cons, app_nil_r.
  f_equal. destruct dir.
  - apply (row_values _ (matL d')); [lia|lia| |]; intros j Hj; [rewrite Hf by lia; done|].
    rewrite Hm by lia. done.
  - replace (length b) with (length (reverse b)) by by rewrite length_reverse.
    apply (row_values _ (matL d')); rewrite ?length_reverse; [lia|lia| |]; intros j Hj;
      [rewrite Hf by lia; done|]. rewrite Hm by lia. done.
Qed.

(** The table of algorithm A. *)
Definition table_rows (vals : Z → list Z) : list item :=
  seqZ 0 (length a + 1) ≫= λ i, row ((ca :: a) !!! Z.to_nat i) i (vals i).

Lemma run_A_spec bs d r o : has_strings a b bs → length b < length a →
  ∃ bs' d' r' vals, run_A fuel (Some ca) (Some cb) (length a) (length b) (prog bs d r o) =
      (Done tt, prog bs' d' r' (o ++ header cb b ++ table_rows vals)) ∧
    (∀ i, 0 ≤ i < length a → vals i = lengths (take (Z.to_nat i) a) b) ∧
    (matL d (cell (length a) 0) = 0 → vals (length a) = lengths a b) ∧
    has_strings a b bs' ∧ holds a b d' ∧ (fresh_C d → fresh_C d').
Proof.
  intros Hs Hlt. unfold run_A.
  destruct (setup_spec bs d r o Hs) as (d1 & Hd1 & HC1 & E). rewrite E. clear E.
  destruct (dev_start_A a b d1 Hd1 Ha Hb fuel Hlt) as (d' & Hst & Hd' & HC & Hm).
  destruct (fetch_all d' bs a b Hs) as [Hs' Hf].
  rewrite (bind_Done _ _ _ _ _ (request_start _ _ _ _ _ _ _ _ Hst)).
  rewrite (bind_Done _ _ _ _ _ (request_fetch _ _ _ _ _ _ _ _)).
  rewrite (bind_Done _ _ _ _ _ (request_fetch _ _ _ _ _ _ _ _)).
  set (bs' := dev_fetch _ _ _ d' _) in *. set (r' := s32 _).
  rewrite (bind_Done (gets _) _ (prog bs' d' r' o) _ _ eq_refl).
  change (prog bs' d' r' o) with (set_out o (prog bs' d' r' [])).
  set (p0 := prog bs' d' r' []).
  rewrite (bind_Done _ _ _ _ _ (print_header_spec cb b p0 _ (hs_b _ _ _ Hs'))).
  change (bufs (set_out o p0)) with bs'.
  change fetch_len with 16384 in Hf.
  assert (Hsw : ∀ i j, 0 ≤ i < length a + 1 → 0 ≤ j ≤ length b →
    fetched bs' !! Z.to_nat (i * 128 + j) = Some (matL d' (i * 128 + j))).
  { intros i j Hi Hj. apply Hf. lia. }
  rewrite (print_rows_spec ca (length a + 1) a b); [|apply Hs'|lia|].
  2:{ intros i j Hi Hj. rewrite Hsw by done. eauto. }
  set (vals := λ i, (λ j, Z.land (fetched bs' !!! Z.to_nat (i * 128 + j)) 0xff) <$>
    seqZ 0 (length b + 1)).
  change (set_out ?x p0) with (prog bs' d' r' x). exists bs', d', r', vals.
  assert (Hc : ∀ i j, 0 ≤ i < 128 → 0 ≤ j < 128 → cell i j = i * 128 + j).
  { intros i j Hi Hj. unfold cell. by rewrite !Z.mod_small. }
  split; [by rewrite <-(assoc_L (++))|]. split; [|split; [|split; [done|split; [done|]]]].
  - intros i Hi. apply (row_values _ (matL d')); [lia|lia| |]; intros j Hj; [apply Hsw; lia|].
    rewrite <-Hc by lia. apply Hm; [lia|done|left; lia].
  - intros Hz. apply (row_values _ (matL d')); [lia|lia| |]; intros j Hj; [apply Hsw; lia|].
    rewrite <-Hc by lia. rewrite Hm by (try lia; right; unfold matL in *; by rewrite HC1).
    by rewrite Nat2Z.id, firstn_all.
  - intros HfC. eapply fresh_C_eq; [exact HC|]. unfold fresh_C. by rewrite HC1.
Qed.

(** Algorithm C. *)
Lemma run_C_spec bs d r o : has_strings a b bs → holds a b d → fresh_C d → 7 * length a < fuel →
  Forall (λ x, 0 ≤ x < 256) a →
  ∃ c s', is_lcs c a b ∧
    run_C fuel (length b) (prog bs d r o) = (Done tt, s') ∧ out s' = o ++ (PC <$> c) ++ [PNL].
Proof.
  intros Hs Hd [Hpc Hoc] Hf Hbytes.
  destruct (dev_start_C a b d Hd Ha Hb fuel Hf Hpc Hoc) as (c & d' & Hst & Hd' & Hl & Hm).
  destruct (fetch_low d' bs a b Hs) as [Hs' Hft]. set (bs' := dev_fetch _ _ _ d' bs) in *.
  pose proof Hl as [[Hca Hcb] _]. pose proof (sublist_length _ _ Hcb).
  unfold run_C. rewrite (bind_Done _ _ _ _ _ (request_start _ _ _ _ _ _ _ _ Hst)).
  rewrite (bind_Done _ _ _ _ _ (request_fetch _ _ _ _ _ _ _ _)). fold bs'.
  rewrite s32_small by lia. set (p := prog bs' d' (length c) o).
  rewrite (bind_Done (gets _) _ p _ _ eq_refl), (bind_Done (gets _) _ p _ _ eq_refl).
  rewrite bool_decide_false by (simpl; lia).
  rewrite (bind_Done (mret tt) _ p _ _ eq_refl), (bind_Done (gets _) _ p _ _ eq_refl).
  change p with (set_out o (prog bs' d' (length c) [])). cbn [bufs result_length prog set_out].
  exists c. eexists. split; [done|]. split.
  - erewrite bind_Done; [rewrite print_last; done|].
    apply (for_each_print _ _ (λ j, [PC (c !!! Z.to_nat j)])).
    intros j o' [Hj1 Hj2]%elem_of_seqZ.
    destruct (lookup_lt_is_Some_2 c (Z.to_nat j)) as [x Hx]; [lia|].
    rewrite Hft by lia. pose proof (Hm _ _ Hx) as Hmx. rewrite Z2Nat.id in Hmx by lia.
    rewrite Hmx, print_last, land_byte, (list_lookup_total_correct _ _ _ Hx); [done|].
    rewrite Forall_forall in Hbytes. apply Hbytes, list_elem_of_In. eapply elem_of_sublist; [|done].
    by eapply list_elem_of_lookup_2.
  - cbn [out set_out]. by rewrite bind_singleton, (fmap_total PC c), <-(assoc_L (++)).
Qed.
End ProgramFacts.

Lemma strncpy_take text n : (length text ≤ n)%nat →
  take (length text) (strncpy text n) = text ∧ length (strncpy text n) = n.
Proof.
  intros H. unfold strncpy. rewrite (take_ge text) by done. split; [apply take_app_length|].
  rewrite length_app, length_replicate. lia.
Qed.
Lemma put_has a b a' b' bs : has_strings a' b' bs → length a ≤ 128 → length b ≤ 128 →
  has_strings a b (mkBuffers (list_inserts 0 a (strA bs)) (list_inserts 0 b (strB bs)) (fetched bs)).
Proof.
  assert (H : ∀ l k : list Z, (length l ≤ length k)%nat → take (length l) (list_inserts 0 l k) = l).
  { intros l k Hl. apply list_eq. intros i. destruct (decide (i < length l)%nat).
    - rewrite lookup_take_lt, list_lookup_inserts by lia. by rewrite Nat.sub_0_r.
    - by rewrite lookup_take_ge, lookup_ge_None_2 by lia. }
  intros [Ea Eb La Lb Lf] Ha Hb. split; cbn [strA strB fetched]; rewrite ?length_inserts; try done;
    apply H; lia.
Qed.

(** New strings are written and handed over. *)
Lemma reload_spec fuel (a b a' b' : list Z) bs d r o : 1 ≤ length a < 128 → 1 ≤ length b < 128 →
  has_strings a' b' bs → ∃ bs' d', has_strings a b bs' ∧ holds a b d' ∧ (fresh_C d → fresh_C d') ∧
    ∀ B (k : P B), (put_strings a b;; request_wait fuel (SetupA 0 (length a));;
      request_wait fuel (SetupB 0 (length b));; k) (prog bs d r o) = k (prog bs' d' r o).
Proof.
  intros Ha Hb Hs. set (bs' := mkBuffers (list_inserts 0 a (strA bs)) (list_inserts 0 b (strB bs))
    (fetched bs)).
  assert (H' : has_strings a b bs') by (eapply put_has; [done|lia|lia]).
  destruct (setup_spec fuel a b Ha Hb bs' d r o H') as (d' & Hd' & HC & E).
  exists bs', d'. split; [done|]. split; [done|]. split; [unfold fresh_C; by rewrite HC|].
  intros B k. rewrite (bind_Done (put_strings _ _) _ (prog bs d r o) tt (prog bs' d r o) eq_refl).
  apply E.
Qed.

(** C8. The program prints what it promises, whatever the engine's memories held before:
    the table of the lengths of longest common subsequences of the prefixes (its last
    row if the one cell of it that is never cleared happened to be zero), the last
    row of that table from algorithm B in both directions, and in the end the
    characters of a longest common subsequence of the two strings.  It needs the
    bytes in front of the two buffers to be readable. *)
Theorem mcs_prints_lcs (fuel : nat) ca cb (a b : list Z) bs d r :
  length b < length a < 128 → 1 ≤ length b → Forall (λ x, 0 ≤ x < 256) a →
  Z.of_nat (length (fetched bs)) = fetch_len → fresh_C d → 7 * length a < fuel →
  ∃ vals c s', is_lcs c a b ∧
    (∀ i, 0 ≤ i < length a → vals i = lengths (take (Z.to_nat i) a) b) ∧
    (matL d (cell (length a) 0) = 0 → vals (length a) = lengths a b) ∧
    mcs_main fuel (Some ca) (Some cb) a b (prog bs d r []) = (Done tt, s') ∧
    out s' = header cb b ++ table_rows ca a vals ++
             header cb b ++ row ca 0 (lengths a b) ++
             header cb (reverse b) ++ row ca 0 (lengths a b) ++ (PC <$> c) ++ [PNL].
Proof.
  intros Ha Hb Hbytes Hlf Hfr Hfuel. unfold mcs_main, alloc_len.
  rewrite (bind_Done (assert _) _ (prog bs d r []) tt (prog bs d r []))
    by (unfold assert; by rewrite bool_decide_true by lia).
  rewrite (bind_Done (assert _) _ (prog bs d r []) tt (prog bs d r []))
    by (unfold assert; by rewrite bool_decide_true by lia).
  set (b0 := mkBuffers (strncpy a (Z.to_nat 128)) (strncpy b (Z.to_nat 128)) (fetched bs)).
  rewrite (bind_Done (modify _) _ (prog bs d r []) tt (prog b0 d r []) eq_refl).
  assert (H0 : has_strings a b b0).
  { destruct (strncpy_take a (Z.to_nat 128)) as [? ?]; [lia|].
    destruct (strncpy_take b (Z.to_nat 128)) as [? ?]; [lia|]. by split. }
  destruct (run_A_spec fuel ca cb a b ltac:(lia) ltac:(lia) b0 d r [] H0 ltac:(lia))
    as (b1 & d1 & r1 & vals & EA & Hv & Hlast & H1 & Hd1 & Hf1).
  rewrite (bind_Done _ _ _ _ _ EA). clear EA.
  destruct (run_B_spec fuel ca cb a b ltac:(lia) ltac:(lia) true b1 d1 r1
    ([] ++ header cb b ++ table_rows ca a vals) H1 Hd1)
    as (b2 & d2 & r2 & EB & H2 & Hd2 & Hf2).
  rewrite (bind_Done _ _ _ _ _ EB). clear EB. set (o2 := ([] ++ _) ++ _).
  destruct (reload_spec fuel (reverse a) (reverse b) a b b2 d2 r2 o2)
    as (b3 & d3 & H3 & Hd3 & Hf3 & E3); rewrite ?length_reverse; [lia|lia|done|].
  rewrite !length_reverse in E3. rewrite E3. clear E3.
  destruct (run_B_spec fuel ca cb (reverse a) (reverse b) ltac:(rewrite length_reverse; lia)
    ltac:(rewrite length_reverse; lia) false b3 d3 r2 o2 H3 Hd3)
    as (b4 & d4 & r4 & EB & H4 & Hd4 & Hf4).
  rewrite !length_reverse, !reverse_involutive in EB.
  rewrite (bind_Done _ _ _ _ _ EB). clear EB. set (o4 := o2 ++ _).
  destruct (reload_spec fuel a b (reverse a) (reverse b) b4 d4 r4 o4)
    as (b5 & d5 & H5 & Hd5 & Hf5 & E5); [lia|lia|done|]. rewrite E5. clear E5.
  destruct (run_C_spec fuel a b ltac:(lia) ltac:(lia) b5 d5 r4 o4 H5 Hd5) as (c & s' & Hl & EC & Ho);
    [auto 10|lia|done|].
  exists vals, c, s'. split_and!; try done. rewrite Ho. unfold o4, o2. cbn [app].
  by rewrite <-!(assoc_L (++)).
Qed.

(** The engine after reset, with something in its memories, and the program's strings. *)
Definition demo_dev : Dev :=
  mkDev (λ x, x mod 7) (λ x, x mod 5) 0 0 0 0
    (mkC (mkFrame HCSIdle (mkArgs 0 0 0 0) (mkVars 0 0)) [] 0 (λ x, x mod 11) id id).
Definition demo_bufs : Buffers := mkBuffers [] [] (replicate (Z.to_nat fetch_len) 0).
Definition textA : list Z :=
  [48; 49; 50; 97; 52; 53; 54; 55; 56; 98; 48; 49; 50; 51; 52; 53; 99; 55; 56; 57; 48].
Definition textB : list Z :=
  [65; 66; 97; 68; 69; 70; 71; 72; 73; 74; 75; 98; 77; 99; 79; 80; 81; 82].

Lemma mcs_prints_lcs_witness :
  ∃ vals c s', is_lcs c textA textB ∧
    (∀ i, 0 ≤ i < length textA → vals i = lengths (take (Z.to_nat i) textA) textB) ∧
    (matL demo_dev (cell (length textA) 0) = 0 → vals (length textA) = lengths textA textB) ∧
    mcs_main 1000 (Some 0) (Some 0) textA textB (prog demo_bufs demo_dev 0 []) = (Done tt, s') ∧
    out s' = header 0 textB ++ table_rows 0 textA vals ++
             header 0 textB ++ row 0 0 (lengths textA textB) ++
             header 0 (reverse textB) ++ row 0 0 (lengths textA textB) ++ (PC <$> c) ++ [PNL].
Proof.
  apply mcs_prints_lcs.
  - simpl. lia.
  - simpl. lia.
  - repeat constructor; lia.
  - unfold demo_bufs. cbn [fetched]. rewrite length_replicate. done.
  - done.
  - simpl. lia.
Defined.

(** The header of each table prints the byte before the string: when it is not mapped,
    the program fails there. *)
Lemma header_reads_outside n s : 0 ≤ n →
  (print_header None n s).1 = Undefined.
Proof.
  intros Hn. unfold print_header.
  assert (E : ∃ o, for_each (seqZ 0 (n + 1)) (λ j, print (PD j)) s = (Done tt, set_out o s)).
  { eexists. replace s with (set_out (out s) s) at 1 by by destruct s.
    by apply (for_each_print _ _ (λ j, [PD j])). }
  destruct E as [o E]. rewrite (bind_Done _ _ _ _ _ E), print_bind.
  rewrite (seqZ_cons 0 (n + 1)) by lia. done.
Qed.

(** The cell of the last row that algorithm A never clears: with 5 in it, the engine
    reports a common subsequence of length 5 for the strings "xy" and "z". *)
Example hirschA_uncleared :
  let m := hirschA (λ i, 120 + i) (λ _, 122) 0 2 0 1 (bput (cell 2 0) 5 (λ _, 0)) in
  m (cell 2 1) = 5 ∧ lcs [120; 121] [122] = 0%nat.
Proof. done. Qed.
