(* ===== verification/DotProd.v ===== *)
(** * Parts of the matrix multiplier (src/examples/matmul/bsv)

    The multiplier's parts are connected by FIFOs, each written and read by one rule,
    so what they compute does not depend on their timing: a part is a function from
    the streams it takes to the streams it gives.  This file has the address
    generators (mkXYZRangePipeOut), which run through nested loops
    ([positions_grid]), and the dot-product server (DotProdServer.bsv), which
    interleaves [K] dot products and keeps [gatherSz] partial sums for each; its
    adder's pipeline and the FIFO behind it are one queue.  [dp_round] and
    [vdot_spec] say what it computes and in which order, [dot_sum] that the order does
    not matter where addition is exact. *)
From stdpp Require Import base list numbers sorting.
From S2P Require Import Prelude.
Local Open Scope Z_scope.

(** ** Address generators *)

(** [examples/rbm/bsv/RbmTypes.bsv:26-26] MMSize: the width of indices *)
Definition u20 (x : Z) : Z := x mod 2 ^ 20.

(** [examples/matmul/bsv/MatrixTN.bsv:60-70] XYZRangeConfig *)
Record XYZRangeConfig := mkRange {
  xbase : Z; xlimit : Z; xstep : Z; ybase : Z; ylimit : Z; ystep : Z;
  zbase : Z; zlimit : Z; zstep : Z }.

(** [examples/matmul/bsv/MatrixTN.bsv:94-94] mkXYZRangePipeOut: guard *)
Definition range_guard (c : XYZRangeConfig) (p : Z * Z * Z) : bool :=
  let '(x, y, z) := p in
  bool_decide (x < xlimit c) && bool_decide (y < ylimit c) && bool_decide (z < zlimit c).
(** [examples/matmul/bsv/MatrixTN.bsv:105-120] mkXYZRangePipeOut: deq *)
Definition range_deq (c : XYZRangeConfig) (p : Z * Z * Z) : Z * Z * Z :=
  let '(x, y, z) := p in
  let newx := u20 (x + xstep c) in
  if bool_decide (xlimit c ≤ newx) then
    let newy := u20 (y + ystep c) in
    if bool_decide (ylimit c ≤ newy) then (xbase c, ybase c, u20 (z + zstep c))
    else (xbase c, newy, z)
  else (newx, y, z).

(** What the generator gives, up to [fuel] positions. *)
Fixpoint positions (fuel : nat) (c : XYZRangeConfig) (p : Z * Z * Z) : list (Z * Z * Z) :=
  match fuel with
  | O => []
  | S fuel => if range_guard c p then p :: positions fuel c (range_deq c p) else []
  end.
(** [examples/matmul/bsv/MatrixTN.bsv:125-138] mkXYZRangePipeOut: start *)
Definition range_start (c : XYZRangeConfig) : Z * Z * Z := (xbase c, ybase c, zbase c).

(** [examples/matmul/bsv/MatrixTN.bsv:97-104] mkXYZRangePipeOut: first, for each of the
    three behaviours *)
Inductive RangeBehavior := RangeA | RangeB | RangeC.
Definition range_first (alt : RangeBehavior) (p : Z * Z * Z) : Z * Z :=
  let '(x, y, z) := p in
  match alt with RangeA => (x, z) | RangeB => (x, y) | RangeC => (u20 (x + y), z) end.
(** [examples/matmul/bsv/MatrixTN.bsv:365-390] startSourceA, startSourceB, startSink: the
    index a fetch or a write starts at *)
Definition range_offset (alt : RangeBehavior) (p : Z * Z * Z) : Z :=
  let '(base, off) := range_first alt p in u20 (base + off).

(** The nested loops the generator runs through. *)
Definition grid (nx ny nz : nat) (c : XYZRangeConfig) : list (Z * Z * Z) :=
  k ← seq 0 nz; j ← seq 0 ny; i ← seq 0 nx;
  [(Z.of_nat i * xstep c, Z.of_nat j * ystep c, Z.of_nat k * zstep c)].

Section Ranges.
Context (c : XYZRangeConfig) (nx ny nz : nat).
Context (Hxb : xbase c = 0) (Hyb : ybase c = 0) (Hzb : zbase c = 0).
Context (Hxs : 0 < xstep c) (Hys : 0 < ystep c) (Hzs : 0 < zstep c).
Context (Hx : xlimit c = nx * xstep c) (Hy : ylimit c = ny * ystep c)
  (Hz : zlimit c = nz * zstep c).
Context (Bx : xlimit c < 2 ^ 20) (By : ylimit c < 2 ^ 20) (Bz : zlimit c < 2 ^ 20).

Definition at_ (i j k : nat) : Z * Z * Z :=
  (Z.of_nat i * xstep c, Z.of_nat j * ystep c, Z.of_nat k * zstep c).

Lemma guard_at i j k :
  range_guard c (at_ i j k) = bool_decide (i < nx ∧ j < ny ∧ k < nz)%nat.
Proof using Hx Hxs Hy Hys Hz Hzs.
  unfold range_guard, at_. rewrite Hx, Hy, Hz.
  repeat case_bool_decide; simpl; try done; nia.
Qed.
Lemma u20_small x : 0 ≤ x < 2 ^ 20 → u20 x = x.
Proof using Type. apply Z.mod_small. Qed.

Lemma deq_at i j k : (i < nx)%nat → (j < ny)%nat → (k < nz)%nat →
  range_deq c (at_ i j k) =
    if decide (S i < nx)%nat then at_ (S i) j k else
    if decide (S j < ny)%nat then at_ 0 (S j) k else at_ 0 0 (S k).
Proof using All.
  intros Hi Hj Hk. unfold range_deq, at_.
  rewrite !u20_small by nia.
  destruct (decide (S i < nx)%nat).
  - rewrite bool_decide_false by nia. repeat f_equal; nia.
  - rewrite bool_decide_true by nia.
    destruct (decide (S j < ny)%nat).
    + rewrite bool_decide_false by nia. repeat f_equal; nia.
    + rewrite bool_decide_true by nia. repeat f_equal; nia.
Qed.

(** One line, one plane, the whole grid. *)
Definition line (j k i : nat) : list (Z * Z * Z) := (λ i, at_ i j k) <$> seq i (nx - i).
Lemma positions_line f j k i : (i < nx)%nat → (j < ny)%nat → (k < nz)%nat →
  positions ((nx - i) + f) c (at_ i j k) = line j k i ++
    positions f c (if decide (S j < ny)%nat then at_ 0 (S j) k else at_ 0 0 (S k)).
Proof using All.
  intros Hi Hj Hk. unfold line. remember (nx - i)%nat as n eqn:En.
  revert i Hi En; induction n as [|n IH]; intros i Hi En; [lia|].
  cbn [Nat.add positions seq fmap list_fmap app].
  rewrite guard_at, bool_decide_true by done. f_equal.
  rewrite deq_at by done. destruct (decide (S i < nx)%nat).
  - apply IH; lia.
  - replace n with O by lia. done.
Qed.

Definition plane (k j : nat) : list (Z * Z * Z) := j ← seq j (ny - j); line j k 0.
Lemma positions_plane f k j : (0 < nx)%nat → (j < ny)%nat → (k < nz)%nat →
  positions ((ny - j) * nx + f) c (at_ 0 j k) = plane k j ++ positions f c (at_ 0 0 (S k)).
Proof using All.
  intros Hn Hj Hk. unfold plane. remember (ny - j)%nat as n eqn:En.
  revert j Hj En; induction n as [|n IH]; intros j Hj En; [lia|].
  cbn [seq]. rewrite bind_cons, <-(assoc_L (++)).
  replace (S n * nx + f)%nat with ((nx - 0) + (n * nx + f))%nat by lia.
  rewrite positions_line by done. f_equal.
  destruct (decide (S j < ny)%nat).
  - apply IH; lia.
  - replace n with O by lia. done.
Qed.

Lemma positions_grid f : (0 < nx)%nat → (0 < ny)%nat →
  positions (nz * (ny * nx) + f) c (range_start c) = grid nx ny nz c.
Proof using All.
  intros Hn Hn'. unfold grid, range_start. rewrite Hxb, Hyb, Hzb.
  change (0, 0, 0) with (at_ 0 0 0).
  assert (H : ∀ n k, (k + n = nz)%nat →
    positions (n * (ny * nx) + f) c (at_ 0 0 k) = seq k n ≫= λ k, plane k 0).
  { induction n as [|n IH]; intros k Hk.
    - destruct f as [|f]; [done|]. cbn [Nat.mul Nat.add positions].
      by rewrite guard_at, bool_decide_false by lia.
    - cbn [seq]. rewrite bind_cons.
      replace (S n * (ny * nx) + f)%nat with ((ny - 0) * nx + (n * (ny * nx) + f))%nat by lia.
      rewrite positions_plane by lia. f_equal. apply IH. lia. }
  rewrite H by lia. apply list_bind_ext; [|done]. intros k.
  unfold plane. rewrite Nat.sub_0_r. apply list_bind_ext; [|done]. intros j.
  unfold line. rewrite Nat.sub_0_r. generalize (seq 0 nx). intros l.
  induction l as [|i l IH]; [done|]. rewrite bind_cons, fmap_cons, IH. done.
Qed.
End Ranges.

(** ** The dot-product server *)

(** [examples/matmul/bsv/DotProdServer.bsv:59-67] MmToken *)
Record MmToken (F : Type) := mkToken { tok_v : F; tok_first : bool; tok_last : bool }.
Arguments mkToken {F}. Arguments tok_v {F}. Arguments tok_first {F}. Arguments tok_last {F}.

(** [examples/matmul/bsv/DotProdServer.bsv:72-120] mkSharedInterleavedDotProdServer: its
    registers; [queue] is what the adder and adder_buffer hold *)
Record Dp (F : Type) := mkDp {
  rowReg : nat; lastRowReg : bool; firstCnt : nat; lastCnt : nat; gatherCnt : nat;
  gReg : bool; gFifo : list F; gather_phase : bool; queue : list F }.
Arguments mkDp {F}. Arguments rowReg {F}. Arguments lastRowReg {F}. Arguments firstCnt {F}.
Arguments lastCnt {F}. Arguments gatherCnt {F}. Arguments gReg {F}. Arguments gFifo {F}.
Arguments gather_phase {F}. Arguments queue {F}.

Section Server.
Context {F : Type} (fzero : F) (fmul fadd : F → F → F) (K : nat).

(** [examples/matmul/bsv/DotProdServer.bsv:69-74] UB_AddLat, and Div#(UB_AddLat, K, gatherSz),
    which rounds up *)
Definition gatherSz : nat := ((8 + K - 1) / K)%nat.

Definition dp_init : Dp F := mkDp 0 false 0 0 0 false [] false [].

(** [examples/matmul/bsv/DotProdServer.bsv:149-161] incrementRowReg: the new row and the
    new lastRowReg *)
Definition incrementRowReg (row : nat) : nat * bool :=
  if bool_decide (S row = K) then (O, bool_decide (K = 1)%nat)
  else (S row, bool_decide (S (S row) = K)).

(** [examples/matmul/bsv/DotProdServer.bsv:164-188] accumulate: [None] when it has to wait *)
Definition accumulate (resp : F) (last : bool) (s : Dp F) : option (Dp F) :=
  let '(row, lrow) := incrementRowReg (rowReg s) in
  '(acc, fc, q) ← (if bool_decide (firstCnt s = K * gatherSz)%nat
     then match queue s with [] => None | acc :: q => Some (acc, firstCnt s, q) end
     else Some (fzero, S (firstCnt s), queue s));
  Some (mkDp row lrow fc (if last then S (lastCnt s) else lastCnt s) (gatherCnt s) (gReg s)
    (gFifo s) (if last then bool_decide (S (lastCnt s) = K) else gather_phase s)
    (q ++ [fadd resp acc])).

(** [examples/matmul/bsv/DotProdServer.bsv:191-230] gather: the state and, in the last pass,
    the value put to a row's FIFO *)
Definition gather (s : Dp F) : option (Dp F * list (nat * F)) :=
  let '(row, lrow) := incrementRowReg (rowReg s) in
  let last_row := lastRowReg s in
  match queue s with
  | [] => None
  | x :: q =>
    if bool_decide (S (gatherCnt s) = gatherSz) then
      Some (if last_row then mkDp row lrow 0 0 0 (gReg s) (gFifo s) false q
        else mkDp row lrow (firstCnt s) (lastCnt s) (gatherCnt s) (gReg s) (gFifo s) true q,
        [(rowReg s, x)])
    else
      let gc := if last_row && gReg s then S (gatherCnt s) else gatherCnt s in
      let gr := if last_row then negb (gReg s) else gReg s in
      if gReg s then
        match gFifo s with
        | [] => None
        | y :: g =>
          Some (mkDp row lrow (firstCnt s) (lastCnt s) gc gr g true (q ++ [fadd x y]), [])
        end
      else Some (mkDp row lrow (firstCnt s) (lastCnt s) gc gr (gFifo s ++ [x]) true q, [])
  end.

(** The gathering phase, up to [n] steps or until it ends or has to wait. *)
Fixpoint gather_all (n : nat) (s : Dp F) : Dp F * list (nat * F) :=
  match n with
  | O => (s, [])
  | S n =>
    if gather_phase s then
      match gather s with
      | None => (s, [])
      | Some (s', o) => let '(s'', o') := gather_all n s' in (s'', o ++ o')
      end
    else (s, [])
  end.
(** Enough steps for one gathering phase. *)
Definition gather_steps : nat := (2 * gatherSz * K)%nat.

(** The server: products come in, with their marks; it stops when it has to wait for
    more. *)
Fixpoint dp_run (ins : list (F * bool)) (s : Dp F) : list (nat * F) :=
  match ins with
  | [] => []
  | (p, last) :: ins =>
    if gather_phase s then [] else
    match accumulate p last s with
    | None => []
    | Some s' => let '(s'', o) := gather_all gather_steps s' in o ++ dp_run ins s''
    end
  end.

(** *** The order of the additions

    The queue of one row: a partial sum for each of [gatherSz] lanes, then pairwise
    sums until one value is left. *)
Definition lanes_step (q : list F) (p : F) : list F :=
  if bool_decide (length q < gatherSz)%nat then q ++ [fadd p fzero]
  else match q with [] => [] | a :: q => q ++ [fadd p a] end.
Fixpoint reduce (n : nat) (q : list F) : list F :=
  match n with
  | O => q
  | S n => match q with y :: x :: q => reduce n (q ++ [fadd x y]) | _ => q end
  end.
Definition dot (ps : list F) : F := hd fzero (reduce (gatherSz - 1) (foldl lanes_step [] ps)).

(** The same for blocks of [K] values. *)
Definition vlanes_step (q : list (list F)) (ps : list F) : list (list F) :=
  if bool_decide (length q < gatherSz)%nat then q ++ [(λ p, fadd p fzero) <$> ps]
  else match q with [] => [] | a :: q => q ++ [zip_with fadd ps a] end.
Fixpoint vreduce (n : nat) (q : list (list F)) : list (list F) :=
  match n with
  | O => q
  | S n => match q with y :: x :: q => vreduce n (q ++ [zip_with fadd x y]) | _ => q end
  end.
Definition vdot (rows : list (list F)) : list F :=
  hd [] (vreduce (gatherSz - 1) (foldl vlanes_step [] rows)).

(** *** The rows of a round *)

(** The state after [i] products of a round whose queue holds [q]. *)
Definition acc_state (i : nat) (fc lc : nat) (ph : bool) (q : list F) (lr : bool) : Dp F :=
  mkDp i lr fc lc 0 false [] ph q.

Context (HK : (0 < K)%nat).
Lemma gatherSz_pos : (0 < gatherSz)%nat.
Proof using HK. unfold gatherSz. apply Nat.div_str_pos. lia. Qed.

Lemma incrementRowReg_lt i : (S i < K)%nat →
  incrementRowReg i = (S i, bool_decide (S (S i) = K)).
Proof using HK. intros. unfold incrementRowReg. by rewrite bool_decide_false by lia. Qed.
Lemma incrementRowReg_end i : (S i = K)%nat → incrementRowReg i = (O, bool_decide (K = 1%nat)).
Proof using HK. intros. unfold incrementRowReg. by rewrite bool_decide_true by lia. Qed.

(** Feeding products without gathering. *)
Fixpoint feed (ps : list F) (last : bool) (s : Dp F) : option (Dp F) :=
  match ps with
  | [] => Some s
  | p :: ps => s ← accumulate p last s; if gather_phase s && negb (bool_decide (ps = [])) then None
      else feed ps last s
  end.

Definition lcnt (last : bool) (i : nat) : nat := if last then i else O.

Lemma accumulate_warm p last i fc q lr : fc ≠ (K * gatherSz)%nat →
  accumulate p last (acc_state i fc (lcnt last i) false q lr) =
    Some (acc_state (incrementRowReg i).1 (S fc) (lcnt last (S i)) (last && bool_decide (S i = K))
      (q ++ [fadd p fzero]) (incrementRowReg i).2).
Proof using Type.
  intros. unfold accumulate, acc_state. cbn [rowReg firstCnt queue lastCnt].
  destruct (incrementRowReg i). rewrite (bool_decide_false (fc = _)) by done. by destruct last.
Qed.
Lemma accumulate_steady p last i a q lr :
  accumulate p last (acc_state i (K * gatherSz) (lcnt last i) false (a :: q) lr) =
    Some (acc_state (incrementRowReg i).1 (K * gatherSz) (lcnt last (S i))
      (last && bool_decide (S i = K)) (q ++ [fadd p a]) (incrementRowReg i).2).
Proof using Type.
  unfold accumulate, acc_state. cbn [rowReg firstCnt queue lastCnt].
  destruct (incrementRowReg i). rewrite (bool_decide_true (_ = K * gatherSz)%nat) by done. by destruct last.
Qed.

(** What a row does to the queue: while the lanes are being filled, and then. *)
Lemma feed_warm (ps : list F) last i fc lr q : (i + length ps = K)%nat → ps ≠ [] →
  (fc + length ps ≤ K * gatherSz)%nat →
  feed ps last (acc_state i fc (lcnt last i) false q lr) =
    Some (acc_state 0 (fc + length ps) (lcnt last K) last (q ++ ((λ p, fadd p fzero) <$> ps))
      (bool_decide (K = 1%nat))).
Proof using HK.
  revert i fc lr q; induction ps as [|p ps IH]; intros i fc lr q Hi Hne Hfc; [done|].
  cbn [feed length] in *. rewrite accumulate_warm by lia. cbn [mbind option_bind].
  destruct (decide (ps = [])) as [->|Hps].
  - cbn [length] in *. rewrite incrementRowReg_end by lia.
    rewrite (bool_decide_true ([] = [])), andb_false_r by done. cbn [feed].
    rewrite (bool_decide_true (S i = K)), andb_true_r by lia.
    replace (S i) with K by lia. do 2 f_equal. lia.
  - assert (0 < length ps)%nat by (destruct ps; [done|simpl; lia]).
    rewrite incrementRowReg_lt by lia. rewrite (bool_decide_false (S i = K)), andb_false_r by lia.
    cbn [fst snd gather_phase acc_state andb]. rewrite IH by (done || lia).
    rewrite <-(assoc_L (++)). do 2 f_equal. lia.
Qed.
Lemma feed_steady (ps blk : list F) last i lr q : (i + length ps = K)%nat → ps ≠ [] →
  length blk = length ps →
  feed ps last (acc_state i (K * gatherSz) (lcnt last i) false (blk ++ q) lr) =
    Some (acc_state 0 (K * gatherSz) (lcnt last K) last (q ++ zip_with fadd ps blk)
      (bool_decide (K = 1%nat))).
Proof using HK.
  revert i blk lr q; induction ps as [|p ps IH]; intros i blk lr q Hi Hne Hb; [done|].
  destruct blk as [|b blk]; [done|]. cbn [feed length app] in *.
  rewrite accumulate_steady. cbn [mbind option_bind].
  destruct (decide (ps = [])) as [->|Hps].
  - destruct blk; [|done]. cbn [length] in *. rewrite incrementRowReg_end by lia.
    rewrite (bool_decide_true ([] = [])), andb_false_r by done. cbn [feed].
    rewrite (bool_decide_true (S i = K)), andb_true_r by lia.
    by replace (S i) with K by lia.
  - assert (0 < length ps)%nat by (destruct ps; [done|simpl; lia]).
    rewrite incrementRowReg_lt by lia. rewrite (bool_decide_false (S i = K)), andb_false_r by lia.
    cbn [fst snd gather_phase acc_state andb]. rewrite <-(assoc_L (++)).
    rewrite IH by (done || lia). by rewrite <-(assoc_L (++)).
Qed.

(** *** Gathering *)
Lemma gather_all_step n s s' o : gather_phase s = true → gather s = Some (s', o) →
  gather_all (S n) s = ((gather_all n s').1, o ++ (gather_all n s').2).
Proof using Type. intros Hp Hg. cbn [gather_all]. rewrite Hp, Hg. by destruct (gather_all n s'). Qed.
Lemma gather_all_idle n s : gather_phase s = false → gather_all n s = (s, []).
Proof using Type. intros H. destruct n; [done|]. cbn [gather_all]. by rewrite H. Qed.
Lemma pair_app_nil {A B} (p : A * list B) : (p.1, [] ++ p.2) = p.
Proof using Type. by destruct p. Qed.

(** The row register through a block of which [l] is left. *)
Lemma row_step {A} i (x : A) (l : list A) : (i + length (x :: l) = K)%nat →
  incrementRowReg i = (if bool_decide (l = []) then O else S i, bool_decide (length l = 1%nat) ||
    bool_decide (l = []) && bool_decide (K = 1%nat)) ∧
  bool_decide (S i = K) = bool_decide (l = []).
Proof using HK.
  intros Hi. destruct l as [|y l]; cbn [length] in *.
  - rewrite incrementRowReg_end by lia. split; [done|]. by rewrite !bool_decide_true by (done || lia).
  - rewrite incrementRowReg_lt by lia. split; [|by rewrite !bool_decide_false by (done || lia)].
    rewrite (bool_decide_false (y :: l = [])), orb_false_r by done. f_equal.
    apply bool_decide_ext. lia.
Qed.
(** lastRowReg while [l] is left of a block, and after it. *)
Definition at_last {A} (l : list A) : bool :=
  bool_decide (length l = 1%nat) || bool_decide (l = []) && bool_decide (K = 1%nat).

Lemma at_last_cons {A} (x y : A) l : at_last (x :: y :: l) = false.
Proof using Type. done. Qed.
Lemma at_last_one {A} (x : A) : at_last [x] = true.
Proof using Type. done. Qed.
Lemma at_last_nil {A} : at_last (@nil A) = bool_decide (K = 1%nat).
Proof using Type. done. Qed.

(** A step inside a block, in each of the three passes. *)
Ltac gather_step i x blk Hi :=
  let Hr := fresh "Hr" in
  destruct (row_step i x blk Hi) as [Hr _]; cbn [length Nat.add app];
  erewrite gather_all_step; [|done|unfold gather;
    cbn [rowReg queue gatherCnt lastRowReg gReg gFifo]; rewrite Hr; fold (at_last blk)].

Lemma gather_hold (blk g q : list F) i fc lc c n : (i + length blk = K)%nat → blk ≠ [] →
  S c ≠ gatherSz →
  gather_all (length blk + n) (mkDp i (at_last blk) fc lc c false g true (blk ++ q)) =
    gather_all n (mkDp 0 (bool_decide (K = 1%nat)) fc lc c true (g ++ blk) true q).
Proof using HK.
  revert i g; induction blk as [|x blk IH]; intros i g Hi Hne Hc; [done|].
  gather_step i x blk Hi; [|by rewrite (bool_decide_false (S c = gatherSz))].
  rewrite pair_app_nil, andb_false_r. cbn [firstCnt lastCnt negb].
  destruct blk as [|y blk]; [by rewrite at_last_one, at_last_nil|].
  rewrite at_last_cons, IH by (done || (simpl in *; lia)). by rewrite <-(assoc_L (++)).
Qed.
Lemma gather_add (blk g q : list F) i fc lc c n : (i + length blk = K)%nat → blk ≠ [] →
  S c ≠ gatherSz → length g = length blk →
  gather_all (length blk + n) (mkDp i (at_last blk) fc lc c true g true (blk ++ q)) =
    gather_all n (mkDp 0 (bool_decide (K = 1%nat)) fc lc (S c) false [] true
      (q ++ zip_with fadd blk g)).
Proof using HK.
  revert i g q; induction blk as [|x blk IH]; intros i g q Hi Hne Hc Hg; [done|].
  destruct g as [|y g]; [done|].
  gather_step i x blk Hi; [|by rewrite (bool_decide_false (S c = gatherSz))].
  rewrite pair_app_nil, andb_true_r. cbn [firstCnt lastCnt negb].
  destruct blk as [|z blk]; [destruct g; [|done]; by rewrite at_last_one, at_last_nil|].
  rewrite at_last_cons, <-(assoc_L (++)), IH by (done || (simpl in *; lia)).
  by rewrite <-(assoc_L (++)).
Qed.
Lemma gather_put (blk q : list F) i fc lc c n : (i + length blk = K)%nat → blk ≠ [] →
  S c = gatherSz →
  gather_all (length blk + n) (mkDp i (at_last blk) fc lc c false [] true (blk ++ q)) =
    (mkDp 0 (bool_decide (K = 1%nat)) 0 0 0 false [] false q, zip (seq i (length blk)) blk).
Proof using HK.
  revert i; induction blk as [|x blk IH]; intros i Hi Hne Hc; [done|].
  gather_step i x blk Hi; [|by rewrite (bool_decide_true (S c = gatherSz))].
  cbn [firstCnt lastCnt]. destruct blk as [|z blk].
  - rewrite at_last_one, at_last_nil, gather_all_idle by done. done.
  - rewrite at_last_cons, IH by (done || (simpl in *; lia)). done.
Qed.

Lemma at_last_full {A} (blk : list A) : length blk = K → at_last blk = bool_decide (K = 1%nat).
Proof using HK.
  intros H. unfold at_last. rewrite H, (bool_decide_false (blk = [])) by (intros ->; simpl in *; lia).
  apply orb_false_r.
Qed.
Lemma vreduce_length n q : Forall (λ b, length b = K) q → (n < length q)%nat →
  Forall (λ b, length b = K) (vreduce n q) ∧ length (vreduce n q) = (length q - n)%nat.
Proof using HK.
  revert q; induction n as [|n IH]; intros q Hq Hn; [by rewrite Nat.sub_0_r|].
  destruct q as [|y [|x q]]; [simpl in *; lia..|]. cbn [vreduce].
  inversion_clear Hq as [|? ? Hy Hq']. inversion_clear Hq' as [|? ? Hx Hq].
  destruct (IH (q ++ [zip_with fadd x y])) as [H1 H2].
  - apply Forall_app. split; [done|]. constructor; [|done]. rewrite length_zip_with. lia.
  - rewrite length_app. simpl in *. lia.
  - split; [done|]. rewrite H2, length_app. simpl. lia.
Qed.

(** Two passes add the first two blocks. *)
Lemma gather_pair (y x q : list F) fc lc c n : length y = K → length x = K → S c ≠ gatherSz →
  gather_all (K + (K + n)) (mkDp 0 (bool_decide (K = 1%nat)) fc lc c false [] true (y ++ x ++ q)) =
    gather_all n (mkDp 0 (bool_decide (K = 1%nat)) fc lc (S c) false [] true
      (q ++ zip_with fadd x y)).
Proof using HK.
  intros Hy Hx Hc. rewrite <-(at_last_full y Hy) at 1. rewrite <-Hy at 1.
  rewrite gather_hold by (done || (intros ->; simpl in *; lia)).
  rewrite app_nil_l, <-(at_last_full x Hx) at 1. rewrite <-Hx at 1.
  by rewrite gather_add by (done || lia || (intros ->; simpl in *; lia)).
Qed.
(** The whole gathering phase. *)
Lemma gather_blocks (q : list (list F)) fc lc c n : Forall (λ b, length b = K) q →
  (0 < length q)%nat → (c + length q = gatherSz)%nat →
  gather_all (2 * K * (length q - 1) + K + n)
    (mkDp 0 (bool_decide (K = 1%nat)) fc lc c false [] true (concat q)) =
    (mkDp 0 (bool_decide (K = 1%nat)) 0 0 0 false [] false [],
     zip (seq 0 K) (hd [] (vreduce (length q - 1) q))).
Proof using HK.
  remember (length q - 1)%nat as m eqn:Em. revert q c Em; induction m as [|m IH]; intros q c Em Hq H0 Hc.
  - destruct q as [|b [|? ?]]; [simpl in *; lia| |simpl in *; lia].
    inversion_clear Hq as [|? ? Hb _]. cbn [vreduce hd concat].
    replace (2 * K * 0 + K + n)%nat with (length b + n)%nat by lia.
    rewrite <-(at_last_full b Hb), gather_put by (done || (simpl in *; lia) ||
      (intros ->; simpl in *; lia)). by rewrite Hb, (at_last_full b Hb).
  - destruct q as [|y [|x q]]; [simpl in *; lia..|].
    inversion_clear Hq as [|? ? Hy Hq']. inversion_clear Hq' as [|? ? Hx Hq].
    cbn [concat vreduce length] in *.
    replace (2 * K * S m + K + n)%nat with (K + (K + (2 * K * m + K + n)))%nat by lia.
    rewrite gather_pair by (done || lia).
    replace (concat q ++ zip_with fadd x y) with (concat (q ++ [zip_with fadd x y]))
      by (rewrite concat_app; simpl; by rewrite app_nil_r).
    apply IH.
    + rewrite length_app. simpl. lia.
    + apply Forall_app. split; [done|]. constructor; [|done]. rewrite length_zip_with. lia.
    + rewrite length_app. simpl. lia.
    + rewrite length_app. simpl in *. lia.
Qed.

(** *** A round: all rows of a tile *)
Lemma dp_run_feed ps last s s' ins : ps ≠ [] → gather_phase s = false → feed ps last s = Some s' →
  dp_run (((λ p, (p, last)) <$> ps) ++ ins) s =
    (gather_all gather_steps s').2 ++ dp_run ins (gather_all gather_steps s').1.
Proof using Type.
  revert s; induction ps as [|p ps IH]; intros s Hne Hp Hf; [done|]. cbn in Hf |- *. rewrite Hp.
  destruct (accumulate p last s) as [s1|]; [|done]. simpl in Hf.
  destruct (decide (ps = [])) as [->|Hps].
  - rewrite bool_decide_true, andb_false_r in Hf by done. simplify_eq/=.
    by destruct (gather_all _ s').
  - rewrite bool_decide_false, andb_true_r in Hf by done.
    destruct (gather_phase s1) eqn:H1; [done|].
    rewrite gather_all_idle by done. cbn [app]. by apply IH.
Qed.

(** With fewer blocks than lanes the gathering waits for values that never come. *)
Lemma gather_blocks_stuck (q : list (list F)) fc lc c n : Forall (λ b, length b = K) q →
  (0 < length q)%nat → (c + length q < gatherSz)%nat →
  ∃ s, gather_all (2 * K * (length q - 1) + K + n)
    (mkDp 0 (bool_decide (K = 1%nat)) fc lc c false [] true (concat q)) = (s, []) ∧
    gather_phase s = true.
Proof using HK.
  remember (length q - 1)%nat as m eqn:Em. revert q c Em; induction m as [|m IH]; intros q c Em Hq H0 Hc.
  - destruct q as [|b [|? ?]]; [simpl in *; lia| |simpl in *; lia].
    inversion_clear Hq as [|? ? Hb _]. cbn [concat].
    replace (2 * K * 0 + K + n)%nat with (length b + n)%nat by lia.
    rewrite <-(at_last_full b Hb).
    rewrite gather_hold by (done || (simpl in *; lia) || (intros ->; simpl in *; lia)).
    set (s0 := mkDp _ _ _ _ _ _ _ _ _). exists s0. split; [|done].
    assert (E : gather s0 = None) by (unfold gather; cbn; by destruct (incrementRowReg 0)).
    destruct n; [done|]. cbn [gather_all]. by rewrite E.
  - destruct q as [|y [|x q]]; [simpl in *; lia..|].
    inversion_clear Hq as [|? ? Hy Hq']. inversion_clear Hq' as [|? ? Hx Hq].
    cbn [concat length] in *.
    replace (2 * K * S m + K + n)%nat with (K + (K + (2 * K * m + K + n)))%nat by lia.
    rewrite gather_pair by (done || lia).
    replace (concat q ++ zip_with fadd x y) with (concat (q ++ [zip_with fadd x y]))
      by (rewrite concat_app; simpl; by rewrite app_nil_r).
    apply IH.
    + rewrite length_app. simpl. lia.
    + apply Forall_app. split; [done|]. constructor; [|done]. rewrite length_zip_with. lia.
    + rewrite length_app. simpl. lia.
    + rewrite length_app. simpl in *. lia.
Qed.

Definition blocks_ok (q : list (list F)) : Prop :=
  Forall (λ b, length b = K) q ∧ (length q ≤ gatherSz)%nat.
Lemma vlanes_step_ok q ps : blocks_ok q → length ps = K → blocks_ok (vlanes_step q ps) ∧
  length (vlanes_step q ps) = (if decide (length q < gatherSz)%nat then S (length q) else length q).
Proof using HK.
  intros [Hq Hl] Hp. unfold vlanes_step, blocks_ok. pose proof gatherSz_pos.
  destruct (decide (length q < gatherSz)%nat).
  - rewrite bool_decide_true by done. rewrite length_app, Forall_app, Forall_singleton, length_fmap.
    simpl. split_and!; try done; lia.
  - rewrite bool_decide_false by done. destruct q as [|a q]; [simpl in *; lia|].
    apply Forall_cons in Hq as [Ha Hq].
    rewrite length_app, Forall_app, Forall_singleton, length_zip_with. simpl in *.
    split_and!; try done; lia.
Qed.
Lemma concat_snoc {A} (q : list (list A)) b : concat (q ++ [b]) = concat q ++ b.
Proof using Type. rewrite concat_app. simpl. by rewrite app_nil_r. Qed.

Lemma feed_blocks q ps last lr : blocks_ok q → length ps = K →
  feed ps last (acc_state 0 (K * length q) 0 false (concat q) lr) =
    Some (acc_state 0 (K * length (vlanes_step q ps)) (lcnt last K) last (concat (vlanes_step q ps))
      (bool_decide (K = 1%nat))).
Proof using HK.
  intros Hq Hp. destruct (vlanes_step_ok q ps Hq Hp) as [_ Hl]. rewrite Hl.
  replace O with (lcnt last 0) at 2 by by destruct last.
  destruct (decide (length q < gatherSz)%nat).
  - unfold vlanes_step. rewrite bool_decide_true, concat_snoc by done.
    rewrite feed_warm by (done || nia || (intros ->; simpl in *; lia)). do 2 f_equal. lia.
  - unfold vlanes_step. rewrite bool_decide_false by done. destruct Hq as [Hq Hle].
    destruct q as [|a q]; [pose proof gatherSz_pos; simpl in *; lia|].
    apply Forall_cons in Hq as [Ha Hq]. rewrite concat_snoc. cbn [concat].
    replace (length (a :: q)) with gatherSz by lia.
    by rewrite feed_steady by (done || lia || (intros ->; simpl in *; lia)).
Qed.

Definition round_ins (rows : list (list F)) (row : list F) : list (F * bool) :=
  ((λ p, (p, false)) <$> concat rows) ++ ((λ p, (p, true)) <$> row).
Definition idle (lr : bool) : Dp F := acc_state 0 0 0 false [] lr.

Lemma dp_run_rows rows q lr ins : blocks_ok q → Forall (λ b, length b = K) rows →
  ∃ lr', dp_run (((λ p, (p, false)) <$> concat rows) ++ ins)
      (acc_state 0 (K * length q) 0 false (concat q) lr) =
    dp_run ins (acc_state 0 (K * length (foldl vlanes_step q rows)) 0 false
      (concat (foldl vlanes_step q rows)) lr') ∧ blocks_ok (foldl vlanes_step q rows).
Proof using HK.
  revert q lr; induction rows as [|r rows IH]; intros q lr Hq Hr; [by exists lr|].
  apply Forall_cons in Hr as [Hr Hrs]. cbn [concat foldl].
  rewrite fmap_app, <-(assoc_L (++)).
  erewrite dp_run_feed by (apply (feed_blocks _ _ false _ Hq Hr) || (intros ->; simpl in *; lia) || done).
  rewrite gather_all_idle by done. cbn [fst snd app].
  apply IH; [|done]. by apply vlanes_step_ok.
Qed.

Lemma vlanes_length rows : Forall (λ b, length b = K) rows →
  length (foldl vlanes_step [] rows) = Nat.min (length rows) gatherSz ∧
  blocks_ok (foldl vlanes_step [] rows).
Proof using HK.
  induction rows as [|r rows IH] using rev_ind; intros Hr.
  - split; [done|]. split; [constructor|simpl; lia].
  - apply Forall_app in Hr as [Hr Hr'].
    apply Forall_cons in Hr' as [Hr' _]. destruct (IH Hr) as [H1 H2].
    rewrite foldl_snoc, length_app. destruct (vlanes_step_ok _ r H2 Hr') as [H3 H4].
    split; [|done]. rewrite H4. cbn [length]. case_decide; rewrite H1 in *; lia.
Qed.

(** A round gives the dot products of its columns, and the server is idle again. *)
Lemma dp_round rows row lr ins : Forall (λ b, length b = K) rows → length row = K →
  (gatherSz ≤ S (length rows))%nat →
  ∃ lr', dp_run (round_ins rows row ++ ins) (idle lr) =
    zip (seq 0 K) (vdot (rows ++ [row])) ++ dp_run ins (idle lr').
Proof using HK.
  intros Hr Hrow HG. unfold round_ins. rewrite <-(assoc_L (++)).
  destruct (dp_run_rows rows [] lr (((λ p, (p, true)) <$> row) ++ ins)) as (lr1 & E & Hq);
    [split; [constructor|simpl; lia]|done|].
  cbn [length concat] in E. rewrite Nat.mul_0_r in E. unfold idle at 1. rewrite E.
  erewrite dp_run_feed by (apply (feed_blocks _ _ true _ Hq Hrow) || (intros ->; simpl in *; lia) || done).
  rewrite <-foldl_snoc.
  destruct (vlanes_length (rows ++ [row])) as [Hl [Hf _]]; [by apply Forall_app; auto|].
  rewrite length_app in Hl. cbn [length] in Hl. pose proof gatherSz_pos.
  set (q := foldl vlanes_step [] (rows ++ [row])) in *.
  pose proof (gather_blocks q (K * length q) (lcnt true K) 0 (K * 1) Hf) as Hg.
  replace gather_steps with (2 * K * (length q - 1) + K + K * 1)%nat by (unfold gather_steps; nia).
  unfold acc_state. rewrite Hg by lia. cbn [fst snd].
  exists (bool_decide (K = 1%nat)). unfold vdot. fold q. by replace (length q) with gatherSz by lia.
Qed.

(** A round of too few rows gives nothing, and nothing after it does. *)
Lemma dp_round_stuck rows row lr ins : Forall (λ b, length b = K) rows → length row = K →
  (S (length rows) < gatherSz)%nat → dp_run (round_ins rows row ++ ins) (idle lr) = [].
Proof using HK.
  intros Hr Hrow HG. unfold round_ins. rewrite <-(assoc_L (++)).
  destruct (dp_run_rows rows [] lr (((λ p, (p, true)) <$> row) ++ ins)) as (lr1 & E & Hq);
    [split; [constructor|simpl; lia]|done|].
  cbn [length concat] in E. rewrite Nat.mul_0_r in E. unfold idle at 1. rewrite E.
  erewrite dp_run_feed by (apply (feed_blocks _ _ true _ Hq Hrow) || (intros ->; simpl in *; lia) || done).
  rewrite <-foldl_snoc.
  destruct (vlanes_length (rows ++ [row])) as [Hl [Hf _]]; [by apply Forall_app; auto|].
  rewrite length_app in Hl. cbn [length] in Hl.
  set (q := foldl vlanes_step [] (rows ++ [row])) in *.
  destruct (gather_blocks_stuck q (K * length q) (lcnt true K) 0
    (gather_steps - (2 * K * (length q - 1) + K)) Hf) as (s & Eg & Hp); [lia|lia|].
  replace (2 * K * (length q - 1) + K + (gather_steps - (2 * K * (length q - 1) + K)))%nat
    with gather_steps in Eg by (unfold gather_steps; nia).
  unfold acc_state. rewrite Eg. cbn [fst snd app]. destruct ins as [|[p l] ins]; [done|].
  cbn [dp_run]. by rewrite Hp.
Qed.

(** *** Column by column *)
Definition col (k : nat) (q : list (list F)) : list F := (λ b, nth k b fzero) <$> q.

Lemma nth_zip_with k (a b : list F) : (k < length a)%nat → length a = length b →
  nth k (zip_with fadd a b) fzero = fadd (nth k a fzero) (nth k b fzero).
Proof using Type.
  clear HK K. revert k b; induction a as [|x a IH]; intros k [|y b] Hk Hl; simpl in *; try lia.
  destruct k; [done|]. apply IH; lia.
Qed.
Lemma nth_fmap_lt k (f : F → F) (a : list F) : (k < length a)%nat →
  nth k (f <$> a) fzero = f (nth k a fzero).
Proof using Type. clear HK K. revert k; induction a; intros [|k] Hk; simpl in *; try lia; auto with lia. Qed.

Lemma col_lanes k q ps : (k < K)%nat → blocks_ok q → length ps = K →
  col k (vlanes_step q ps) = lanes_step (col k q) (nth k ps fzero).
Proof using HK.
  intros Hk [Hq Hle] Hp. unfold vlanes_step, lanes_step, col. rewrite length_fmap.
  case_bool_decide.
  - rewrite fmap_app. cbn [fmap list_fmap]. by rewrite nth_fmap_lt by lia.
  - destruct q as [|a q]; [done|]. apply Forall_cons in Hq as [Ha Hq]. cbn [fmap list_fmap].
    rewrite fmap_app. cbn [fmap list_fmap]. by rewrite nth_zip_with by lia.
Qed.
Lemma col_fold k rows : (k < K)%nat → Forall (λ b, length b = K) rows →
  col k (foldl vlanes_step [] rows) = foldl lanes_step [] (col k rows).
Proof using HK.
  intros Hk. induction rows as [|r rows IH] using rev_ind; intros Hr; [done|].
  apply Forall_app in Hr as [Hr Hr']. apply Forall_cons in Hr' as [Hr' _].
  unfold col at 2. rewrite fmap_app, !foldl_app. cbn [foldl fmap list_fmap].
  rewrite col_lanes by (done || by apply vlanes_length). by rewrite IH.
Qed.
Lemma col_reduce k n q : (k < K)%nat → Forall (λ b, length b = K) q →
  col k (vreduce n q) = reduce n (col k q).
Proof using HK.
  intros Hk. revert q; induction n as [|n IH]; intros q Hq; [done|].
  destruct q as [|y [|x q]]; [done..|]. apply Forall_cons in Hq as [Hy Hq].
  apply Forall_cons in Hq as [Hx Hq]. cbn [vreduce]. rewrite IH.
  - unfold col. rewrite fmap_app. cbn [fmap list_fmap reduce]. by rewrite nth_zip_with by lia.
  - apply Forall_app. split; [done|]. constructor; [|done]. rewrite length_zip_with. lia.
Qed.

Lemma vdot_spec rows : Forall (λ b, length b = K) rows → (gatherSz ≤ length rows)%nat →
  length (vdot rows) = K ∧
  ∀ k, (k < K)%nat → nth k (vdot rows) fzero = dot (col k rows).
Proof using HK.
  intros Hr HG. destruct (vlanes_length rows Hr) as [Hl [Hf Hle]]. pose proof gatherSz_pos.
  set (q := foldl vlanes_step [] rows) in *.
  destruct (vreduce_length (gatherSz - 1) q Hf) as [H1 H2]; [lia|]. unfold vdot. fold q.
  destruct (vreduce (gatherSz - 1) q) as [|b l] eqn:E; [simpl in *; lia|].
  apply Forall_cons in H1 as [Hb _]. split; [done|]. intros k Hk. unfold dot.
  rewrite <-col_fold, <-col_reduce by done. fold q. by rewrite E.
Qed.

(** Where addition is exact the order does not matter. *)
Definition fsum (ps : list F) : F := foldr fadd fzero ps.
Section Exact.
Context (fadd_assoc : ∀ x y z, fadd x (fadd y z) = fadd (fadd x y) z).
Context (fadd_comm : ∀ x y, fadd x y = fadd y x).
Context (fadd_0 : ∀ x, fadd x fzero = x).

Lemma fsum_app a b : fsum (a ++ b) = fadd (fsum a) (fsum b).
Proof using fadd_assoc fadd_comm fadd_0.
  unfold fsum. induction a as [|x a IH]; simpl; [by rewrite fadd_comm, fadd_0|].
  by rewrite IH, fadd_assoc.
Qed.
Lemma fsum_lanes q p : (0 < gatherSz)%nat → fsum (lanes_step q p) = fadd (fsum q) p.
Proof using fadd_assoc fadd_comm fadd_0.
  clear HK. intros HG. unfold lanes_step. case_bool_decide as E.
  - rewrite fsum_app. simpl. by rewrite !fadd_0.
  - destruct q as [|a q]; [simpl in E; lia|]. rewrite fsum_app. simpl.
    rewrite fadd_0, (fadd_comm p a), fadd_assoc, (fadd_comm (fsum q) a). done.
Qed.
Lemma lanes_length q p : (0 < gatherSz)%nat →
  length (lanes_step q p) = if decide (length q < gatherSz)%nat then S (length q) else length q.
Proof using Type.
  clear HK. intros HG. unfold lanes_step. case_decide.
  - rewrite bool_decide_true, length_app by done. simpl. lia.
  - rewrite bool_decide_false by done. destruct q; [done|]. rewrite length_app. simpl. lia.
Qed.
Lemma fsum_reduce n q : fsum (reduce n q) = fsum q.
Proof using fadd_assoc fadd_comm fadd_0.
  revert q; induction n as [|n IH]; intros q; [done|]. destruct q as [|y [|x q]]; [done..|].
  cbn [reduce]. rewrite IH, fsum_app. simpl. fold (fsum q).
  by rewrite fadd_0, fadd_comm, (fadd_comm x y), <-fadd_assoc.
Qed.
Lemma dot_sum ps : (gatherSz ≤ length ps)%nat → dot ps = fsum ps.
Proof using HK fadd_assoc fadd_comm fadd_0.
  intros HG. unfold dot. pose proof gatherSz_pos as Hpos.
  assert (Hs : ∀ l, fsum (foldl lanes_step [] l) = fsum l ∧
    length (foldl lanes_step [] l) = Nat.min (length l) gatherSz).
  { induction l as [|p l [IH1 IH2]] using rev_ind; [done|]. rewrite foldl_app. cbn [foldl].
    rewrite fsum_lanes, IH1, fsum_app, length_app by done. split; [simpl; by rewrite fadd_0|].
    rewrite lanes_length, IH2 by done. simpl. case_decide; lia. }
  destruct (Hs ps) as [H1 H2].
  assert (Hr : ∀ n q, (n < length q)%nat → length (reduce n q) = (length q - n)%nat).
  { induction n as [|n IH]; intros q Hn; [simpl; lia|]. destruct q as [|y [|x q]]; [simpl in *; lia..|].
    cbn [reduce]. rewrite IH; rewrite length_app; simpl in *; lia. }
  rewrite <-H1, <-(fsum_reduce (gatherSz - 1)).
  specialize (Hr (gatherSz - 1)%nat (foldl lanes_step [] ps)).
  destruct (reduce _ _) as [|v [|? ?]]; simpl in *; [lia|by rewrite fadd_0|lia].
Qed.
End Exact.
End Server.
