(* ===== verification/MatrixTN.v ===== *)
(** * The matrix multiplier (src/examples/matmul/bsv/MatrixTN.bsv)

    The unit multiplies the transpose of a matrix A with a matrix B, both in shared
    memory, and writes the product to a third object, in tiles of [J] rows and [K]
    columns; memory is read and written [N = 2^nshift] numbers at a time.

    - [row_source]: fetching rows (mkRowSource), marking the last row of a round;
    - [unfunnel], [funnel]: round-robin distribution and collection (Pipe.bsv);
    - [server]: a row of the tile (DotProd.v), its FIFOs joined again;
    - [sink]: writing the results, [mm_engine]: the unit from request to completion.

    Numbers and their operations are arguments: in simulation they are Bluespec's, on
    a board those of a vendor's core.  [mm_engine_spec] shows that for dimensions the
    unit can handle every element of the result is the dot product of two columns. *)
From stdpp Require Import base list numbers.
From S2P Require Import Prelude DotProd.
Local Open Scope Z_scope.

(** ** Streams *)

(** [lib/bsv/Pipe.bsv:403-430] mkUnFunnelPipesPipelinedRR for one input and c = 1: element
    after element to the outputs in turn; what output [j] gets, [dest] being next *)
Fixpoint unfunnel {A} (J dest : nat) (l : list A) (j : nat) : list A :=
  match l with
  | [] => []
  | v :: l => (if bool_decide (dest = j) then [v] else []) ++
      unfunnel J (if bool_decide (S dest = J) then O else S dest) l j
  end.

(** [lib/bsv/Pipe.bsv:540-552] mkRepeat *)
Definition repeat_pipe {A} (repetitions : nat) (l : list A) : list A :=
  v ← l; replicate repetitions v.

(** [lib/bsv/Pipe.bsv:361-397] mkFunnelPipesPipelinedRR for one output: [c] elements of each
    input in turn; input [i] is next and [cnt] of its elements are through *)
Fixpoint funnel {A} (fuel c i cnt : nat) (ins : list (list A)) : list A :=
  match fuel with
  | O => []
  | S fuel =>
    match ins !! i with
    | Some (v :: l) =>
      v :: (if bool_decide (S cnt = c)
            then funnel fuel c (if bool_decide (S i = length ins) then O else S i) O (<[i := l]> ins)
            else funnel fuel c i (S cnt) (<[i := l]> ins))
    | _ => []
    end
  end.

(** Joining FIFOs: a vector as soon as each has an element. *)
Fixpoint join {A} (n : nat) (fs : list (list A)) : list A :=
  match n with
  | O => []
  | S n => match mapM head fs with Some hs => hs ++ join n (tail <$> fs) | None => [] end
  end.

Section Engine.
Context {F : Type} (fzero : F) (fmul fadd : F → F → F) (J K : nat) (nshift : Z).

(** ** Memory *)

(** [bsv/MemTypes.bsv:41-46] ObjectRequest: burstLen, in bytes, has 8 bits; as numbers of
    elements *)
Definition burst_elems (n : nat) : nat :=
  Z.to_nat ((Z.shiftl (Z.shiftr n nshift) (nshift + 2)) mod 2 ^ 8 / 4).
(** [examples/matmul/bsv/MatrixTN.bsv:174-175] mkRowSource: start; the element a burst starts
    at *)
Definition burst_start (off : Z) : Z := Z.shiftl (Z.shiftr off nshift) nshift.

Definition read_burst (obj : list F) (off : Z) (n : nat) : option (list F) :=
  let l := take n (drop (Z.to_nat off) obj) in
  if bool_decide (length l = n) then Some l else None.

(** [examples/matmul/bsv/MatrixTN.bsv:144-229] mkRowSource: the tokens of a list of fetches of
    [n] elements; [cmdCount] is cmdCountReg *)
Fixpoint row_source (obj : list F) (numRows : Z) (n : nat) (starts : list Z) (cmdCount : Z) :
    option (list (MmToken F)) :=
  match starts with
  | [] => Some []
  | off :: starts =>
    vs ← read_burst obj (burst_start off) (burst_elems n);
    let last := bool_decide (u20 (cmdCount + 1) = numRows) in
    ts ← row_source obj numRows n starts (if last then 0 else u20 (cmdCount + 1));
    Some (((λ v, mkToken v (bool_decide (cmdCount = 0)) last) <$> vs) ++ ts)
  end.

(** ** A row of the tile *)

(** [examples/matmul/bsv/DotProdServer.bsv:130-147] multiply *)
Definition multiply (a b : MmToken F) : F * bool := (fmul (tok_v a) (tok_v b), tok_last a).
(** [examples/matmul/bsv/DotProdServer.bsv:219-222] dotfifos *)
Definition dotfifo (row : nat) (outs : list (nat * F)) : list F :=
  outs ≫= λ o, if bool_decide (o.1 = row) then [o.2] else [].
(** [examples/matmul/bsv/DotProdServer.bsv:269-326] mkMmTile: one of its rows *)
Definition server (as_ bs : list (MmToken F)) : list F :=
  let outs := dp_run fzero fadd K (zip_with multiply as_ bs) dp_init in
  join (length outs) ((λ row, dotfifo row outs) <$> seq 0 K).

(** [examples/matmul/bsv/MatrixTN.bsv:329-352] mkDmaMatrixMultiply: the tile, from the tokens
    of both sources to the sink *)
Definition tile (ta tb : list (MmToken F)) : list F :=
  let outs := (λ j, server (repeat_pipe K (unfunnel J 0 ta j)) tb) <$> seq 0 J in
  funnel (length (concat outs)) K 0 0 outs.

(** [examples/matmul/bsv/MatrixTN.bsv:231-258] mkRowColSink, startSink: each write takes [K]
    elements; the object and the number of writes done *)
Fixpoint sink (starts : list Z) (data : list F) (obj : list F) : option (list F * nat) :=
  match starts with
  | [] => Some (obj, O)
  | off :: starts =>
    if bool_decide (length data < burst_elems K)%nat then Some (obj, O) else
    let at_ := Z.to_nat (burst_start off) in
    if bool_decide (at_ + burst_elems K ≤ length obj)%nat then
      '(obj', n) ← sink starts (drop (burst_elems K) data)
        (list_inserts at_ (take (burst_elems K) data) obj);
      Some (obj', S n)
    else None
  end.

(** [examples/matmul/bsv/MatrixTN.bsv:392-401] finishSink: whether [n] completions bring
    sinkCnt to 0 *)
Fixpoint finishSink (n : nat) (sinkCnt : Z) : bool :=
  match n with
  | O => false
  | S n => let c := u20 (sinkCnt - 1) in bool_decide (c = 0) || finishSink n c
  end.

(** ** The request *)

(** [examples/matmul/bsv/MatrixTN.bsv:424-434] start: the three generators *)
Definition offsetcfgA (numRowsA_x_numColumnsA numColumnsA numColumnsB : Z) : XYZRangeConfig :=
  mkRange 0 numRowsA_x_numColumnsA numColumnsA 0 numColumnsB K 0 numColumnsA J.
Definition offsetcfgB (numRowsB_x_numColumnsB numColumnsA numColumnsB : Z) : XYZRangeConfig :=
  mkRange 0 numRowsB_x_numColumnsB numColumnsB 0 numColumnsB K 0 numColumnsA J.
Definition offsetcfgC (numColumnsB_x_J numColumnsB numColumnsA_x_numColumnsB : Z) :
    XYZRangeConfig :=
  mkRange 0 numColumnsB_x_J numColumnsB 0 numColumnsB K 0 numColumnsA_x_numColumnsB numColumnsB_x_J.

Definition starts (fuel : nat) (alt : RangeBehavior) (c : XYZRangeConfig) : list Z :=
  range_offset alt <$> positions fuel c (range_start c).

(** [examples/matmul/bsv/MatrixTN.bsv:416-455] start, and the run it starts: the contents of
    the result and whether the unit reports completion.  [None]: a transfer outside
    an object.  [fuel] bounds the transfers of each kind. *)
Definition mm_engine (fuel : nat) (a b c : list F)
    (numRowsA numColumnsA numRowsB numColumnsB numRowsA_x_numColumnsA numColumnsB_x_J
     numColumnsA_x_numColumnsB numRowsB_x_numColumnsB : Z) : option (list F * bool) :=
  ta ← row_source a numRowsA J
    (starts fuel RangeA (offsetcfgA numRowsA_x_numColumnsA numColumnsA numColumnsB)) 0;
  tb ← row_source b numRowsB K
    (starts fuel RangeB (offsetcfgB numRowsB_x_numColumnsB numColumnsA numColumnsB)) 0;
  '(c', n) ← sink
    (starts fuel RangeC (offsetcfgC numColumnsB_x_J numColumnsB numColumnsA_x_numColumnsB))
    (tile ta tb) c;
  Some (c', finishSink n (numColumnsA_x_numColumnsB / K)).

(** [examples/matmul/bsv/MatrixTN.bsv:548-566] mmRequest.mmf: 32-bit arguments, truncated *)
Definition mmf (fuel : nat) (a b c : list F) (r1 c1 r2 c2 r1_x_c1 c1_x_j r1_x_c2 c2_x_j c1_x_c2
    r2_x_c2 : Z) : option (list F * bool) :=
  mm_engine fuel a b c (u20 r1) (u20 c1) (u20 r2) (u20 c2) (u20 r1_x_c1) (u20 c2_x_j)
    (u20 c1_x_c2) (u20 r2_x_c2).
End Engine.

(** ** Streams made of blocks *)
Lemma unfunnel_block {A} J dest (b l : list A) j (d : A) : (dest + length b = J)%nat →
  unfunnel J dest (b ++ l) j =
    (if decide (dest ≤ j < J)%nat then [nth (j - dest) b d] else []) ++
    unfunnel J (if bool_decide (b = []) then dest else 0) l j.
Proof.
  revert dest; induction b as [|v b IH]; intros dest Hd.
  - simpl in *. by rewrite decide_False by lia.
  - cbn [app unfunnel length] in *. rewrite (bool_decide_false (v :: b = [])) by done.
    destruct (decide (b = [])) as [->|Hb].
    + simpl in *. rewrite (bool_decide_true (S dest = J)) by lia. f_equal.
      case_bool_decide; [|by rewrite decide_False by lia]. rewrite decide_True by lia.
      by replace (j - dest)%nat with O by lia.
    + assert (0 < length b)%nat by (destruct b; [done|simpl; lia]).
      rewrite (bool_decide_false (S dest = J)), IH by lia.
      rewrite (bool_decide_false (b = [])), (assoc_L (++)) by done. f_equal.
      clear IH. case_bool_decide; repeat case_decide; try lia; cbn [app].
      * by replace (j - dest)%nat with O by lia.
      * by replace (j - dest)%nat with (S (j - S dest)) by lia.
      * done.
Qed.
Lemma unfunnel_full {A} J (b l : list A) j d : length b = J → (j < J)%nat →
  unfunnel J 0 (b ++ l) j = nth j b d :: unfunnel J 0 l j.
Proof.
  intros Hb Hj. rewrite (unfunnel_block J 0 b l j d) by lia.
  rewrite decide_True, Nat.sub_0_r by lia. cbn [app]. f_equal.
  by destruct (bool_decide (b = [])).
Qed.

Lemma zip_with_block {A B C} (f : A → B → C) a a' b b' : length a = length b →
  zip_with f (a ++ a') (b ++ b') = zip_with f a b ++ zip_with f a' b'.
Proof. intros. by rewrite zip_with_app. Qed.
Lemma zip_with_replicate {A B C} (f : A → B → C) v (b : list B) n : n = length b →
  zip_with f (replicate n v) b = f v <$> b.
Proof. intros ->. induction b as [|x b IH]; [done|].
  cbn [length replicate zip_with]. by rewrite IH.
Qed.

(** Taking [c] elements of one input, a whole round, all rounds. *)
Lemma funnel_input {A} (b l : list A) c i cnt ins f : b ≠ [] → (cnt + length b = c)%nat →
  ins !! i = Some (b ++ l) →
  funnel (length b + f) c i cnt ins =
    b ++ funnel f c (if bool_decide (S i = length ins) then O else S i) O (<[i := l]> ins).
Proof.
  revert cnt ins; induction b as [|v b IH]; intros cnt ins Hb Hc Hi; [done|].
  cbn [length Nat.add funnel app] in *. rewrite Hi. f_equal.
  destruct (decide (b = [])) as [->|Hb'].
  - rewrite (bool_decide_true (S cnt = c)) by (simpl in *; lia). done.
  - assert (0 < length b)%nat by (destruct b; [done|simpl; lia]).
    rewrite (bool_decide_false (S cnt = c)) by lia. rewrite IH; [|done|lia|].
    + by rewrite length_insert, list_insert_insert_eq.
    + rewrite list_lookup_insert_eq; [done|]. by eapply lookup_lt_Some.
Qed.
Lemma funnel_round {A} (bs ls : list (list A)) c f : (0 < c)%nat → bs ≠ [] →
  length bs = length ls → Forall (λ b, length b = c) bs →
  funnel (length bs * c + f) c 0 0 (zip_with (++) bs ls) = concat bs ++ funnel f c 0 0 ls.
Proof.
  intros Hc Hne Hl Hb.
  assert (H : ∀ (bs dn ls ls' : list (list A)), length bs = length ls → Forall (λ b, length b = c) bs → bs ≠ [] →
    ls' = dn ++ ls →
    funnel (length bs * c + f) c (length dn) 0 (dn ++ zip_with (++) bs ls) =
      concat bs ++ funnel f c 0 0 ls').
  { clear -Hc. induction bs as [|b bs IH]; intros dn ls ls' Hl Hb Hne ->; [done|].
    destruct ls as [|l ls]; [done|]. apply Forall_cons_1 in Hb as [Hb Hbs].
    cbn [length Nat.mul zip_with concat] in *. rewrite <-(assoc_L (++)).
    replace (c + length bs * c + f)%nat with (length b + (length bs * c + f))%nat by lia.
    rewrite (funnel_input b l) by (lia || (intros ->; simpl in *; lia) ||
      by rewrite lookup_app_r, Nat.sub_diag by lia).
    f_equal. rewrite insert_app_r_alt, Nat.sub_diag by lia. cbn [list_insert insert].
    rewrite length_app. cbn [length]. rewrite length_zip_with_l_eq by lia.
    destruct (decide (bs = [])) as [->|Hbs'].
    - destruct ls; [|done]. by rewrite bool_decide_true by (simpl; lia).
    - rewrite bool_decide_false by (destruct bs; [done|simpl; lia]).
      specialize (IH (dn ++ [l]) ls ((dn ++ [l]) ++ ls)). rewrite length_app in IH. cbn [length] in IH.
      rewrite <-!(assoc_L (++)) in IH. cbn [app] in IH.
      replace (length dn + 1)%nat with (S (length dn)) in IH by lia. apply IH; [lia|done..]. }
  apply (H bs [] ls); done.
Qed.

Lemma fmap_nth_seq {A} (v : list A) d : (λ i, nth i v d) <$> seq 0 (length v) = v.
Proof.
  apply list_eq. intros i. rewrite list_lookup_fmap. destruct (decide (i < length v)%nat) as [Hi|Hi].
  - rewrite lookup_seq_lt by done. destruct (lookup_lt_is_Some_2 v i Hi) as [x Hx]. simpl.
    by rewrite (nth_lookup_Some _ _ _ _ Hx), Hx.
  - by rewrite lookup_seq_ge, lookup_ge_None_2 by lia.
Qed.

Lemma length_concat_const {A} n (ls : list (list A)) : (∀ l, l ∈ ls → length l = n) →
  length (concat ls) = (length ls * n)%nat.
Proof.
  induction ls as [|l ls IH]; intros H; [done|]. cbn [concat length]. rewrite length_app, H by (by left).
  rewrite IH; [lia|]. intros. apply H. by right.
Qed.

Section Facts.
Context {F : Type} (fzero : F) (fmul fadd : F → F → F) (J K : nat) (nshift : Z).
Context (HJ : (0 < J)%nat) (HK : (0 < K)%nat).

Lemma dotfifo_zip i (v : list F) row :
  dotfifo row (zip (seq i (length v)) v) =
    if decide (i ≤ row < i + length v)%nat then [nth (row - i) v fzero] else [].
Proof.
  unfold dotfifo. revert i; induction v as [|x v IH]; intros i.
  - simpl. by rewrite decide_False by lia.
  - cbn [length seq zip zip_with]. rewrite bind_cons, IH. clear IH. cbn [fst snd].
    case_bool_decide; repeat case_decide; try lia; cbn [app].
    + by replace (row - i)%nat with O by lia.
    + by replace (row - i)%nat with (S (row - S i)) by lia.
    + done.
Qed.
Lemma dotfifo_block (v : list F) rest row : length v = K → (row < K)%nat →
  dotfifo row (zip (seq 0 K) v ++ rest) = nth row v fzero :: dotfifo row rest.
Proof.
  intros Hv Hr. unfold dotfifo at 1. rewrite bind_app. fold (dotfifo row rest).
  fold (dotfifo row (zip (seq 0 K) v)). rewrite <-Hv at 1.
  rewrite dotfifo_zip, decide_True, Nat.sub_0_r by lia. done.
Qed.
Lemma join_blocks (vs : list (list F)) n : Forall (λ v, length v = K) vs → (length vs ≤ n)%nat →
  join n ((λ row, dotfifo row (vs ≫= zip (seq 0 K))) <$> seq 0 K) = concat vs.
Proof.
  revert n; induction vs as [|v vs IH]; intros n Hv Hn.
  - destruct n; [done|]. destruct K; [lia|]. done.
  - apply Forall_cons_1 in Hv as [Hv Hvs]. destruct n as [|n]; [simpl in *; lia|].
    rewrite bind_cons. cbn [join concat].
    assert (E : (λ row, dotfifo row (zip (seq 0 K) v ++ (vs ≫= zip (seq 0 K)))) <$> seq 0 K =
      (λ row, nth row v fzero :: dotfifo row (vs ≫= zip (seq 0 K))) <$> seq 0 K).
    { apply list_fmap_ext. intros i row Hi%lookup_seq. apply dotfifo_block; [done|lia]. }
    rewrite E. rewrite (proj2 (mapM_Some head _ v)).
    + rewrite <-list_fmap_compose. cbn [length] in Hn. f_equal. apply IH; [done|lia].
    + rewrite <-(fmap_nth_seq v fzero) at 1. rewrite Hv. apply Forall2_fmap, Forall_Forall2_diag.
      by apply Forall_forall.
Qed.

(** *** One round of a tile

    [as_] are [r] blocks of [J] elements, [bs] are [r] blocks of [K]. *)
Fixpoint tokens (cc nr : Z) (bs : list (list F)) : list (MmToken F) :=
  match bs with
  | [] => []
  | b :: bs => ((λ v, mkToken v (bool_decide (cc = 0)) (bool_decide (cc + 1 = nr))) <$> b) ++
      tokens (cc + 1) nr bs
  end.

Lemma row_source_round obj n cc nr (bs : list (list F)) st rest :
  Forall2 (λ s b, read_burst obj (burst_start nshift s) (burst_elems nshift n) = Some b) st bs →
  bs ≠ [] → 0 ≤ cc → cc + length bs = nr → nr < 2 ^ 20 →
  row_source nshift obj nr n (st ++ rest) cc =
    (ts ← row_source nshift obj nr n rest 0; Some (tokens cc nr bs ++ ts)).
Proof.
  intros Hf. revert cc; induction Hf as [|s b st bs Hs Hf IH]; intros cc Hne Hc Hl Hb; [done|].
  cbn [app row_source tokens length] in *. rewrite Hs. cbn [mbind option_bind].
  rewrite u20_small by lia.
  destruct (decide (bs = [])) as [->|Hbs].
  - inversion Hf; subst. cbn [length app tokens] in *. rewrite (bool_decide_true (cc + 1 = _)) by lia.
    destruct (row_source nshift obj _ n rest 0); [|done]. simpl. by rewrite app_nil_r.
  - assert (0 < length bs)%nat by (destruct bs; [done|simpl; lia]).
    rewrite (bool_decide_false (cc + 1 = nr)), IH by (done || lia).
    destruct (row_source nshift obj nr n rest 0); [|done]. simpl. by rewrite (assoc_L (++)).
Qed.

(** The products a row [j] of the tile gets in a round. *)
Definition prods (j : nat) (as_ bs : list (list F)) : list (list F) :=
  zip_with (λ a b, fmul (nth j a fzero) <$> b) as_ bs.

Lemma row_products j (as_ bs : list (list F)) cc nr ta tb : (j < J)%nat →
  length as_ = length bs → Forall (λ b, length b = J) as_ → Forall (λ b, length b = K) bs →
  bs ≠ [] → 0 ≤ cc → cc + length bs = nr →
  ∃ rows row, prods j as_ bs = rows ++ [row] ∧
  zip_with (multiply fmul) (repeat_pipe K (unfunnel J 0 (tokens cc nr as_ ++ ta) j))
    (tokens cc nr bs ++ tb) =
  round_ins rows row ++ zip_with (multiply fmul) (repeat_pipe K (unfunnel J 0 ta j)) tb.
Proof.
  intros Hj. revert bs cc; induction as_ as [|a as_ IH];
    intros [|b bs] cc Hl Ha Hb Hne Hc Hn; [done..|].
  apply Forall_cons_1 in Ha as [Ha Has]. apply Forall_cons_1 in Hb as [Hb Hbs].
  cbn [tokens length] in *. rewrite <-!(assoc_L (++)).
  rewrite (unfunnel_full J _ _ j (mkToken fzero (bool_decide (cc = 0)) (bool_decide (cc + 1 = nr))))
    by (rewrite ?length_fmap; done).
  unfold repeat_pipe at 1. rewrite bind_cons. fold (repeat_pipe K (unfunnel J 0 (tokens (cc + 1) nr as_ ++ ta) j)).
  rewrite zip_with_block by (rewrite length_replicate, length_fmap; done).
  rewrite zip_with_replicate by (rewrite length_fmap; done).
  rewrite (map_nth (λ v, mkToken v _ _) a fzero j).
  rewrite <-list_fmap_compose. unfold prods. cbn [zip_with].
  destruct (decide (bs = [])) as [->|Hbs'].
  - destruct as_; [|done]. exists [], (fmul (nth j a fzero) <$> b). split; [done|].
    unfold round_ins. cbn [concat fmap list_fmap app tokens length] in *.
    rewrite (bool_decide_true (cc + 1 = nr)) by lia. f_equal.
    rewrite <-list_fmap_compose. done.
  - destruct (IH bs (cc + 1)) as (rows & row & E1 & E2); [lia|done|done|done|lia|lia|].
    rewrite E2. unfold prods in E1. rewrite E1. exists ((fmul (nth j a fzero) <$> b) :: rows), row.
    split; [done|]. unfold round_ins. cbn [concat]. rewrite fmap_app, <-!(assoc_L (++)). f_equal.
    assert (0 < length bs)%nat by (destruct bs; [done|simpl; lia]).
    rewrite (bool_decide_false (cc + 1 = nr)) by lia. rewrite <-list_fmap_compose. done.
Qed.

(** *** All rounds

    A round is given by the blocks of both matrices. *)
Definition round_ok (r : nat) (t : list (list F) * list (list F)) : Prop :=
  length t.1 = r ∧ length t.2 = r ∧
  Forall (λ b, length b = J) t.1 ∧ Forall (λ b, length b = K) t.2.

Lemma prods_ok r j t : round_ok r t → length (prods j t.1 t.2) = r ∧
  Forall (λ b, length b = K) (prods j t.1 t.2).
Proof.
  intros (H1 & H2 & Ha & Hb). unfold prods. split; [rewrite length_zip_with; lia|].
  rewrite <-H2 in H1. revert H1 Hb. generalize t.1 t.2. clear.
  induction l as [|a l IH]; intros [|b k] Hl Hb; [constructor..|]. simpl.
  apply Forall_cons_1 in Hb as [Hb Hk]. constructor; [by rewrite length_fmap|].
  apply IH; [simpl in Hl; lia|done].
Qed.

Section Rounds.
Context (r : nat) (Hr : (gatherSz K ≤ r)%nat).

Lemma rounds_pos : (0 < r)%nat.
Proof. pose proof (gatherSz_pos K HK). lia. Qed.

Lemma server_rounds j tl : (j < J)%nat → Forall (round_ok r) tl →
  server fzero fmul fadd K (repeat_pipe K (unfunnel J 0 (tl ≫= λ t, tokens 0 r t.1) j))
    (tl ≫= λ t, tokens 0 r t.2) =
  concat ((λ t, vdot fzero fadd K (prods j t.1 t.2)) <$> tl).
Proof.
  intros Hj Htl. unfold server. pose proof rounds_pos as Hr0.
  assert (E : ∀ lr, dp_run fzero fadd K (zip_with (multiply fmul)
      (repeat_pipe K (unfunnel J 0 (tl ≫= λ t, tokens 0 r t.1) j)) (tl ≫= λ t, tokens 0 r t.2))
      (idle lr) = ((λ t, vdot fzero fadd K (prods j t.1 t.2)) <$> tl) ≫= zip (seq 0 K)).
  { induction Htl as [|t tl Ht Htl IH]; intros lr; [done|].
    destruct (prods_ok r j t Ht) as [Hp1 Hp2]. destruct Ht as (H1 & H2 & Ha & Hb).
    rewrite !bind_cons.
    destruct (row_products j t.1 t.2 0 r (tl ≫= λ t, tokens 0 r t.1) (tl ≫= λ t, tokens 0 r t.2))
      as (rows & row & E1 & E2); try done; [lia|by intros ->%length_zero_iff_nil||(intros E; rewrite E in H2; simpl in *; lia)|lia|].
    rewrite E2. rewrite E1 in Hp1, Hp2. apply Forall_app in Hp2 as [Hrows Hrow].
    apply Forall_cons_1 in Hrow as [Hrow _]. rewrite length_app in Hp1. cbn [length] in Hp1.
    destruct (dp_round fzero fadd K HK rows row lr (zip_with (multiply fmul)
      (repeat_pipe K (unfunnel J 0 (tl ≫= λ t, tokens 0 r t.1) j)) (tl ≫= λ t, tokens 0 r t.2)))
      as [lr' E3]; [done|done|lia|].
    rewrite E3, IH. by rewrite fmap_cons, bind_cons, E1. }
  change dp_init with (@idle F false). rewrite (E false).
  set (vs := (λ t, vdot fzero fadd K (prods j t.1 t.2)) <$> tl).
  assert (Hv : Forall (λ v, length v = K) vs).
  { apply Forall_fmap. eapply Forall_impl; [|exact Htl]. intros t Ht.
    destruct (prods_ok r j t Ht) as [Hp1 Hp2]. cbn. apply vdot_spec; [done|done|lia]. }
  apply join_blocks; [done|]. clear -Hv HK. induction Hv as [|v vs Hv Hvs IH]; [simpl; lia|].
  rewrite bind_cons, length_app, length_zip_with, length_seq. cbn [length]. lia.
Qed.

Lemma funnel_rounds {T} (f : nat → T → list F) (tl : list T) x :
  (∀ j t, t ∈ tl → length (f j t) = K) →
  funnel (length tl * (J * K) + x) K 0 0 ((λ j, concat (f j <$> tl)) <$> seq 0 J) =
  concat ((λ t, concat ((λ j, f j t) <$> seq 0 J)) <$> tl).
Proof.
  induction tl as [|t tl IH]; intros Hf.
  - destruct x as [|x]; [done|]. cbn [length Nat.mul Nat.add funnel].
    destruct J; [lia|]. done.
  - cbn [length fmap list_fmap concat].
    replace ((λ j, f j t ++ concat (list_fmap T (list F) (f j) tl)) <$> seq 0 J) with
      (zip_with (++) ((λ j, f j t) <$> seq 0 J) ((λ j, concat (f j <$> tl)) <$> seq 0 J)).
    2:{ generalize (seq 0 J). induction l as [|j l IHl]; [done|]. by rewrite !fmap_cons, <-IHl. }
    replace (S (length tl) * (J * K) + x)%nat with
      (length ((λ j, f j t) <$> seq 0 J) * K + (length tl * (J * K) + x))%nat
      by (rewrite length_fmap, length_seq; lia).
    rewrite funnel_round.
    + f_equal. apply IH. intros. apply Hf. by right.
    + done.
    + intros E%(f_equal length). rewrite length_fmap, length_seq in E. simpl in E. lia.
    + by rewrite !length_fmap.
    + apply Forall_fmap, Forall_forall. intros j _. apply Hf. by left.
Qed.

Lemma tile_rounds tl : Forall (round_ok r) tl →
  tile fzero fmul fadd J K (tl ≫= λ t, tokens 0 r t.1) (tl ≫= λ t, tokens 0 r t.2) =
  concat ((λ t, concat ((λ j, vdot fzero fadd K (prods j t.1 t.2)) <$> seq 0 J)) <$> tl).
Proof.
  intros Htl. unfold tile.
  assert (Hl : ∀ j t, t ∈ tl → length (vdot fzero fadd K (prods j t.1 t.2)) = K).
  { intros j t Ht%list_elem_of_In. rewrite Forall_forall in Htl. destruct (prods_ok r j t (Htl t Ht)) as [Hp1 Hp2].
    apply vdot_spec; [done|done|lia]. }
  rewrite (list_fmap_ext _ (λ j, concat ((λ t, vdot fzero fadd K (prods j t.1 t.2)) <$> tl)) (seq 0 J)).
  2:{ intros i j Hj%lookup_seq. apply server_rounds; [lia|done]. }
  replace (length _) with (length tl * (J * K) + 0)%nat.
  - by apply (funnel_rounds (λ j t, vdot fzero fadd K (prods j t.1 t.2))).
  - rewrite (length_concat_const (length tl * K)), length_fmap, length_seq; [lia|].
    intros l (j & -> & _)%list_elem_of_fmap.
    rewrite (length_concat_const K), length_fmap; [done|].
    intros k (t & -> & Ht)%list_elem_of_fmap. by apply Hl.
Qed.
End Rounds.
End Facts.

(** ** Writing the result *)
Lemma finishSink_done n m : (0 < m ≤ n)%nat → Z.of_nat m < 2 ^ 20 → finishSink n m = true.
Proof.
  revert m; induction n as [|n IH]; intros m Hm Hb; [lia|]. cbn [finishSink].
  rewrite u20_small by lia. destruct (decide (m = 1)%nat) as [->|].
  - by rewrite bool_decide_true by lia.
  - replace (Z.of_nat m - 1) with (Z.of_nat (m - 1)) by lia. rewrite IH by lia. apply orb_true_r.
Qed.

Section Sink.
Context {F : Type} (K : nat) (nshift : Z) (HK : (0 < K)%nat).
Context (Hburst : burst_elems nshift K = K).

(** If every write puts what [g] says to its place, what they cover is as [g] says. *)
Lemma sink_writes (g : nat → F) (sts : list nat) (chunks : list (list F)) (obj : list F) :
  Forall2 (λ (s : nat) ch, burst_start nshift s = s ∧ (s + K ≤ length obj)%nat ∧
    ch = (λ e, g (s + e)%nat) <$> seq 0 K) sts chunks →
  ∃ obj', sink K nshift (Z.of_nat <$> sts) (concat chunks) obj = Some (obj', length sts) ∧
    length obj' = length obj ∧
    (∀ i s, s ∈ sts → (s ≤ i < s + K)%nat → obj' !! i = Some (g i)) ∧
    (∀ i, (∀ s, s ∈ sts → ¬ (s ≤ i < s + K)%nat) → obj' !! i = obj !! i).
Proof.
  revert chunks obj. induction sts as [|s sts IH]; intros chunks obj Hf.
  - inversion Hf; subst. exists obj. split_and!; [done|done| |done]. intros i s Hs. by apply elem_of_nil in Hs.
  - apply Forall2_cons_inv_l in Hf as (ch & chs & (Ha & Hb & Hc) & Hf & ->).
    assert (Hl : length ch = K) by (subst; by rewrite length_fmap, length_seq).
    cbn [fmap list_fmap concat sink]. rewrite Hburst, bool_decide_false by (rewrite length_app; lia).
    rewrite Ha, Nat2Z.id, bool_decide_true by done.
    rewrite drop_app_length', take_app_length' by done.
    destruct (IH chs (list_inserts s ch obj)) as (obj' & E & El & Hin & Hout).
    { eapply Forall2_impl; [|exact Hf]. intros s' ch'. by rewrite length_inserts. }
    fold (Z.of_nat <$> sts). rewrite E. cbn. exists obj'. rewrite length_inserts in El.
    split_and!; [done|done| |].
    + intros i s' Hs Hi. destruct (decide (Exists (λ s0, s0 ≤ i < s0 + K)%nat sts)) as [Hex|Hno];
        rewrite list.Exists_exists in *.
      * destruct Hex as (s0 & H1 & H2). by apply (Hin i s0).
      * apply elem_of_cons in Hs as [->|Hs]; [|destruct Hno; by exists s'].
        rewrite Hout by (intros s0 H0 H1; apply Hno; by exists s0).
        rewrite list_lookup_inserts by lia. subst ch. rewrite list_lookup_fmap, lookup_seq_lt by lia.
        simpl. f_equal. f_equal. lia.
    + intros i Hno. rewrite Hout by (intros s0 H0; apply Hno; by right).
      pose proof (Hno s ltac:(left)). destruct (decide (i < s)%nat).
      * by rewrite list_lookup_inserts_lt by lia.
      * by rewrite list_lookup_inserts_ge by lia.
Qed.
End Sink.

Lemma burst_elems_small nshift n : 0 ≤ nshift → (2 ^ nshift | Z.of_nat n) → 4 * Z.of_nat n < 256 →
  burst_elems nshift n = n.
Proof.
  intros Hs [m Hm] Hb. unfold burst_elems. rewrite shiftr_div, shiftl_mul, Hm by lia.
  rewrite Z.div_mul by lia. rewrite Z.pow_add_r, Z.mul_assoc, <-Hm by lia.
  rewrite Z.mod_small by lia. change (2 ^ 2) with 4. rewrite Z.div_mul by lia. apply Nat2Z.id.
Qed.
Lemma burst_start_aligned nshift off : 0 ≤ nshift → (2 ^ nshift | off) → burst_start nshift off = off.
Proof.
  intros Hs [m ->]. unfold burst_start. rewrite shiftr_div, shiftl_mul by lia.
  by rewrite Z.div_mul by lia.
Qed.
Lemma read_burst_nth {F} (d : F) obj off n : (off + n ≤ length obj)%nat →
  read_burst obj off n = Some ((λ e, nth (off + e) obj d) <$> seq 0 n).
Proof.
  intros H. unfold read_burst. rewrite Nat2Z.id.
  rewrite bool_decide_true by (rewrite length_take, length_drop; lia). f_equal.
  apply list_eq. intros i. rewrite list_lookup_fmap. destruct (decide (i < n)%nat).
  - rewrite lookup_take_lt, lookup_drop, lookup_seq_lt by lia. simpl.
    destruct (lookup_lt_is_Some_2 obj (off + i)) as [x Hx]; [lia|].
    by rewrite Hx, (nth_lookup_Some _ _ _ _ Hx).
  - by rewrite lookup_take_ge, lookup_seq_ge by lia.
Qed.

(** ** The product *)
Lemma block_le (x r t p n : nat) : (x < r)%nat → (t < p)%nat →
  (x * (p * n) + t * n + n ≤ r * (p * n))%nat.
Proof.
  intros Hx Ht. assert ((t + 1) * n ≤ p * n)%nat by (apply Nat.mul_le_mono_r; lia).
  assert ((x + 1) * (p * n) ≤ r * (p * n))%nat by (apply Nat.mul_le_mono_r; lia). lia.
Qed.

Section Product.
Context {F : Type} (fzero : F) (fmul fadd : F → F → F) (J K : nat) (nshift : Z).
Context (HJ : (0 < J)%nat) (HK : (0 < K)%nat) (Hs : 0 ≤ nshift).
Context (HNJ : (2 ^ nshift | Z.of_nat J)) (HNK : (2 ^ nshift | Z.of_nat K)).
Context (HJ8 : 4 * Z.of_nat J < 256) (HK8 : 4 * Z.of_nat K < 256).
(** [r] rows; [p * J] columns of A and [q * K] of B. *)
Context (r p q : nat) (Hr0 : (0 < r)%nat) (Hp : (0 < p)%nat) (Hq : (0 < q)%nat).
Definition cA : nat := (p * J)%nat.
Definition cB : nat := (q * K)%nat.
Context (HrA : Z.of_nat (r * cA) < 2 ^ 20) (HrB : Z.of_nat (r * cB) < 2 ^ 20)
  (HAB : Z.of_nat (cA * cB) < 2 ^ 20).
Context (a b : list F) (Ha : (r * cA ≤ length a)%nat) (Hb : (r * cB ≤ length b)%nat).

(** The products of column [i] of A with column [j] of B. *)
Definition terms (i j : nat) : list F :=
  (λ x, fmul (nth (x * cA + i) a fzero) (nth (x * cB + j) b fzero)) <$> seq 0 r.
(** Element [idx] of the result, row by row. *)
Definition entry (idx : nat) : F := dot fzero fadd K (terms (idx / cB) (idx mod cB)).

Definition tiles : list (nat * nat) := k ← seq 0 p; j ← seq 0 q; [(k, j)].
Definition startA (t : nat * nat) (x : nat) : nat := (x * cA + t.1 * J)%nat.
Definition startB (t : nat * nat) (x : nat) : nat := (x * cB + t.2 * K)%nat.
Definition startC (t : nat * nat) (x : nat) : nat := ((t.1 * J + x) * cB + t.2 * K)%nat.

Lemma tiles_lt t : t ∈ tiles → (t.1 < p ∧ t.2 < q)%nat.
Proof.
  unfold tiles. intros (k & Hk & Hkp%elem_of_seq)%list_elem_of_bind.
  apply list_elem_of_bind in Hk as (j & Hj & Hjq%elem_of_seq).
  apply list_elem_of_singleton in Hj as ->. simpl. lia.
Qed.
Lemma cA_pos : (0 < cA)%nat. Proof. unfold cA. nia. Qed.
Lemma cB_pos : (0 < cB)%nat. Proof. unfold cB. nia. Qed.

(** The generators run through the tiles. *)
Lemma grid_tiles (f : Z * Z * Z → Z) c nx :
  f <$> grid nx q p c = tiles ≫= λ t, (λ x, f (Z.of_nat x * xstep c, Z.of_nat t.2 * ystep c,
    Z.of_nat t.1 * zstep c)) <$> seq 0 nx.
Proof.
  unfold grid, tiles. induction (seq 0 p) as [|k l IH]; [done|].
  rewrite !bind_cons, fmap_app, bind_app, IH. apply (f_equal (λ l, l ++ _)). clear IH.
  induction (seq 0 q) as [|j l' IH]; [done|]. rewrite !bind_cons, fmap_app, bind_app, IH.
  apply (f_equal (λ l, l ++ _)). clear IH.
  cbn [mbind list_bind]. rewrite app_nil_r. induction (seq 0 nx) as [|x l'' IH]; [done|].
  rewrite bind_cons, fmap_app, IH. done.
Qed.
Lemma bind_ext_in {A B} (f g : A → list B) (l : list A) : (∀ x, x ∈ l → f x = g x) → l ≫= f = l ≫= g.
Proof.
  induction l as [|x l IH]; intros H; [done|]. rewrite !bind_cons, (H x), IH; [done| |by left].
  intros. apply H. by right.
Qed.

Lemma starts_tiles fuel alt nx xl xs yl ys zl zs : (p * (q * nx) ≤ fuel)%nat → (0 < nx)%nat →
  0 < xs → 0 < ys → 0 < zs → xl = nx * xs → yl = q * ys → zl = p * zs →
  xl < 2 ^ 20 → yl < 2 ^ 20 → zl < 2 ^ 20 →
  starts fuel alt (mkRange 0 xl xs 0 yl ys 0 zl zs) =
    tiles ≫= λ t, (λ x, range_offset alt (Z.of_nat x * xs, Z.of_nat t.2 * ys, Z.of_nat t.1 * zs))
      <$> seq 0 nx.
Proof.
  intros Hf Hn Hx Hy Hz Ex Ey Ez Bx By Bz. unfold starts.
  replace fuel with (p * (q * nx) + (fuel - p * (q * nx)))%nat by lia.
  rewrite (positions_grid _ nx q p) by done. by rewrite grid_tiles.
Qed.
Lemma bounds : Z.of_nat cA < 2 ^ 20 ∧ Z.of_nat cB < 2 ^ 20 ∧ Z.of_nat (cB * J) < 2 ^ 20.
Proof.
  pose proof cA_pos. pose proof cB_pos.
  split_and!; [nia|nia|]. unfold cA in HAB. nia.
Qed.

Lemma startsA fuel : (p * (q * r) ≤ fuel)%nat →
  starts fuel RangeA (offsetcfgA J K (Z.of_nat (r * cA)) (Z.of_nat cA) (Z.of_nat cB)) =
    tiles ≫= λ t, (λ x, Z.of_nat (startA t x)) <$> seq 0 r.
Proof.
  intros Hf. pose proof cA_pos. pose proof bounds as (? & ? & ?).
  unfold offsetcfgA. rewrite (starts_tiles _ _ r) by (done || lia || unfold cA, cB; lia).
  apply bind_ext_in. intros t Ht%tiles_lt. apply list_fmap_ext. intros i x Hx%lookup_seq.
  unfold range_offset, range_first, startA.
  rewrite u20_small; [lia|]. unfold cA in *. split; [lia|].
  pose proof (block_le x r t.1 p J ltac:(lia) ltac:(lia)). lia.
Qed.
Lemma startsB fuel : (p * (q * r) ≤ fuel)%nat →
  starts fuel RangeB (offsetcfgB J K (Z.of_nat (r * cB)) (Z.of_nat cA) (Z.of_nat cB)) =
    tiles ≫= λ t, (λ x, Z.of_nat (startB t x)) <$> seq 0 r.
Proof.
  intros Hf. pose proof cB_pos. pose proof bounds as (? & ? & ?).
  unfold offsetcfgB. rewrite (starts_tiles _ _ r) by (done || lia || unfold cA, cB; lia).
  apply bind_ext_in. intros t Ht%tiles_lt. apply list_fmap_ext. intros i x Hx%lookup_seq.
  unfold range_offset, range_first, startB.
  rewrite u20_small; [lia|]. unfold cB in *. split; [lia|].
  pose proof (block_le x r t.2 q K ltac:(lia) ltac:(lia)). lia.
Qed.
Lemma startC_lt t x : t ∈ tiles → (x < J)%nat → (startC t x + K ≤ cA * cB)%nat.
Proof.
  intros Ht%tiles_lt Hx. unfold startC.
  assert (t.1 * J + x + 1 ≤ cA)%nat by (unfold cA; nia).
  assert (t.2 * K + K ≤ cB)%nat by (unfold cB; nia). nia.
Qed.
Lemma startsC fuel : (p * (q * J) ≤ fuel)%nat →
  starts fuel RangeC (offsetcfgC K (Z.of_nat (cB * J)) (Z.of_nat cB) (Z.of_nat (cA * cB))) =
    tiles ≫= λ t, (λ x, Z.of_nat (startC t x)) <$> seq 0 J.
Proof.
  intros Hf. pose proof cA_pos. pose proof cB_pos. pose proof bounds as (? & ? & ?).
  unfold offsetcfgC. rewrite (starts_tiles _ _ J) by (done || lia || unfold cA, cB; lia).
  apply bind_ext_in. intros t Ht. apply list_fmap_ext. intros i x Hx%lookup_seq.
  pose proof (startC_lt t x Ht ltac:(lia)) as HC.
  assert (E : Z.of_nat (startC t x) = Z.of_nat x * Z.of_nat cB + Z.of_nat t.2 * Z.of_nat K +
    Z.of_nat t.1 * Z.of_nat (cB * J)) by (unfold startC; lia).
  assert (0 ≤ Z.of_nat x * Z.of_nat cB + Z.of_nat t.2 * Z.of_nat K ∧
    0 ≤ Z.of_nat t.1 * Z.of_nat (cB * J)) as [Hx1 Hx2]
    by (split; repeat first [apply Z.add_nonneg_nonneg|apply Z.mul_nonneg_nonneg]; lia).
  revert E Hx1 Hx2. unfold range_offset, range_first.
  generalize (Z.of_nat x * Z.of_nat cB + Z.of_nat t.2 * Z.of_nat K)
    (Z.of_nat t.1 * Z.of_nat (cB * J)). intros u v E Hu Hv.
  rewrite (u20_small u), u20_small by lia. done.
Qed.

(** What the sources deliver. *)
Definition blkA (t : nat * nat) : list (list F) :=
  (λ x, (λ e, nth (startA t x + e) a fzero) <$> seq 0 J) <$> seq 0 r.
Definition blkB (t : nat * nat) : list (list F) :=
  (λ x, (λ e, nth (startB t x + e) b fzero) <$> seq 0 K) <$> seq 0 r.

Lemma source_tiles obj n (st : nat * nat → nat → nat) (blk : nat * nat → nat → list F) l :
  (∀ t x, t ∈ l → (x < r)%nat →
    read_burst obj (burst_start nshift (st t x)) (burst_elems nshift n) = Some (blk t x)) →
  row_source nshift obj r n (l ≫= λ t, (λ x, Z.of_nat (st t x)) <$> seq 0 r) 0 =
    Some (l ≫= λ t, tokens 0 r (blk t <$> seq 0 r)).
Proof.
  assert (Hr20 : Z.of_nat r < 2 ^ 20) by (pose proof cA_pos; nia).
  induction l as [|t l IH]; intros H0; [done|]. rewrite !bind_cons.
  rewrite (row_source_round J K nshift HJ HK obj n 0 r (blk t <$> seq 0 r)).
  - rewrite IH by (intros; apply H0; [by right|done]). done.
  - rewrite Forall2_fmap. apply Forall_Forall2_diag, Forall_forall.
    intros x [_ Hx]%in_seq. apply H0; [by left|lia].
  - intros E%(f_equal length). rewrite length_fmap, length_seq in E. simpl in E. lia.
  - done.
  - rewrite length_fmap, length_seq. lia.
  - done.
Qed.
Lemma divide_nat_mul (x m n : nat) : (2 ^ nshift | Z.of_nat n) → (2 ^ nshift | Z.of_nat (x * (m * n))).
Proof. intros. rewrite !Nat2Z.inj_mul. by do 2 apply Z.divide_mul_r. Qed.
Lemma sourceA : row_source nshift a r J (tiles ≫= λ t, (λ x, Z.of_nat (startA t x)) <$> seq 0 r) 0 =
  Some (tiles ≫= λ t, tokens 0 r (blkA t)).
Proof.
  apply source_tiles. intros t x Ht%tiles_lt Hx.
  rewrite burst_elems_small, burst_start_aligned, (read_burst_nth fzero); try done.
  - pose proof (block_le x r t.1 p J Hx ltac:(lia)). unfold startA, cA in *. lia.
  - unfold startA, cA. rewrite Nat2Z.inj_add. apply Z.divide_add_r; [by apply divide_nat_mul|].
    rewrite Nat2Z.inj_mul. by apply Z.divide_mul_r.
Qed.
Lemma sourceB : row_source nshift b r K (tiles ≫= λ t, (λ x, Z.of_nat (startB t x)) <$> seq 0 r) 0 =
  Some (tiles ≫= λ t, tokens 0 r (blkB t)).
Proof.
  apply source_tiles. intros t x Ht%tiles_lt Hx.
  rewrite burst_elems_small, burst_start_aligned, (read_burst_nth fzero); try done.
  - pose proof (block_le x r t.2 q K Hx ltac:(lia)). unfold startB, cB in *. lia.
  - unfold startB, cB. rewrite Nat2Z.inj_add. apply Z.divide_add_r; [by apply divide_nat_mul|].
    rewrite Nat2Z.inj_mul. by apply Z.divide_mul_r.
Qed.

Lemma round_blk t : round_ok J K r (blkA t, blkB t).
Proof.
  unfold round_ok, blkA, blkB. cbn. rewrite !length_fmap, !length_seq. split_and!; try done.
  all: apply Forall_fmap, Forall_forall; intros; cbn; by rewrite length_fmap, length_seq.
Qed.

(** *** Too few rows *)
Lemma server_stuck j : (r < gatherSz K)%nat → (j < J)%nat →
  server fzero fmul fadd K (repeat_pipe K (unfunnel J 0 (tiles ≫= λ t, tokens 0 r (blkA t)) j))
    (tiles ≫= λ t, tokens 0 r (blkB t)) = [].
Proof.
  intros HG Hj. unfold server.
  assert (E : dp_run fzero fadd K (zip_with (multiply fmul)
      (repeat_pipe K (unfunnel J 0 (tiles ≫= λ t, tokens 0 r (blkA t)) j))
      (tiles ≫= λ t, tokens 0 r (blkB t))) dp_init = []); [|by rewrite E].
  destruct tiles as [|t tl]; [done|]. rewrite !bind_cons.
  destruct (prods_ok fzero fmul J K HJ HK r j _ (round_blk t)) as [Hl Hf]. cbn [fst snd] in Hl, Hf.
  destruct (round_blk t) as (B1 & B2 & B3 & B4). cbn [fst snd] in B1, B2, B3, B4.
  destruct (row_products fzero fmul J K HJ HK j (blkA t) (blkB t) 0 r
    (tl ≫= λ t, tokens 0 r (blkA t)) (tl ≫= λ t, tokens 0 r (blkB t)))
    as (rws & rw & E1 & E2); try done; [lia|intros E; rewrite E in B2; simpl in B2; lia|lia|].
  rewrite E2. change dp_init with (@idle F false). rewrite E1 in Hf, Hl.
  apply Forall_app in Hf as [Hf1 Hf2]. apply Forall_cons_1 in Hf2 as [Hf2 _].
  rewrite length_app in Hl. cbn [length] in Hl. apply dp_round_stuck; [done|done|done|lia].
Qed.
(** The unit then writes nothing and never reports completion. *)
Lemma mm_engine_stuck fuel c : (r < gatherSz K)%nat → (p * (q * r) ≤ fuel)%nat →
  (p * (q * J) ≤ fuel)%nat →
  mm_engine fzero fmul fadd J K nshift fuel a b c r cA r cB (r * cA)%nat (cB * J)%nat (cA * cB)%nat
    (r * cB)%nat = Some (c, false).
Proof.
  intros HG Hf Hf'. unfold mm_engine. rewrite startsA, startsB, startsC by done.
  rewrite sourceA. cbn [mbind option_bind]. rewrite sourceB. cbn [mbind option_bind].
  assert (E : tile fzero fmul fadd J K (tiles ≫= λ t, tokens 0 r (blkA t))
    (tiles ≫= λ t, tokens 0 r (blkB t)) = []).
  { unfold tile. rewrite (list_fmap_ext _ (λ _, []) (seq 0 J)).
    2:{ intros i j Hj%lookup_seq. apply server_stuck; [done|lia]. }
    assert (Hz : ∀ l : list nat, length (concat ((λ _, @nil F) <$> l)) = O)
      by (induction l; done). by rewrite Hz. }
  rewrite E. generalize (tiles ≫= λ t, (λ x, Z.of_nat (startC t x)) <$> seq 0 J).
  intros [|s0 ss]; cbn [sink]; [done|].
  rewrite burst_elems_small by done. rewrite bool_decide_true by (simpl; lia). done.
Qed.

Context (Hr : (gatherSz K ≤ r)%nat).
(** *** What the tile computes *)
Lemma zip_with_fmap_same {A B C D} (f : B → C → D) (g : A → B) (h : A → C) l :
  zip_with f (g <$> l) (h <$> l) = (λ x, f (g x) (h x)) <$> l.
Proof. induction l as [|x l IH]; [done|]. cbn. by rewrite <-IH. Qed.
Lemma nth_fmap_seq {A} (f : nat → A) n i d : (i < n)%nat → nth i (f <$> seq 0 n) d = f i.
Proof.
  intros. apply nth_lookup_Some. by rewrite list_lookup_fmap, lookup_seq_lt by done.
Qed.
Lemma chunk_entry t x : t ∈ tiles → (x < J)%nat →
  vdot fzero fadd K (prods fzero fmul x (blkA t) (blkB t)) =
    (λ e, entry (startC t x + e)) <$> seq 0 K.
Proof.
  intros Ht%tiles_lt Hx. set (rows := prods _ _ _ _ _).
  destruct (prods_ok fzero fmul J K HJ HK r x _ (round_blk t)) as [Hl Hf].
  cbn [fst snd] in Hl, Hf. fold rows in Hl, Hf.
  destruct (vdot_spec fzero fadd K HK rows Hf) as [Hv Hd]; [lia|].
  rewrite <-(fmap_nth_seq (vdot fzero fadd K rows) fzero), Hv.
  apply list_fmap_ext. intros i e [-> He]%lookup_seq. cbn. rewrite Hd by lia.
  unfold entry. f_equal. unfold rows, prods, blkA, blkB, col, terms.
  rewrite zip_with_fmap_same, <-list_fmap_compose. apply list_fmap_ext. intros ? y [-> Hy]%lookup_seq.
  cbn. rewrite !nth_fmap_seq, (nth_fmap_lt fzero) by (rewrite ?length_fmap, ?length_seq; lia).
  rewrite nth_fmap_seq by lia.
  assert (i + t.2 * K < cB)%nat by (unfold cB; nia). pose proof cB_pos.
  replace (startC t x + i)%nat with ((i + t.2 * K) + (t.1 * J + x) * cB)%nat by (unfold startC; lia).
  rewrite Nat.div_add, Nat.div_small, Nat.Div0.mod_add, Nat.mod_small by lia.
  unfold startA, startB. f_equal; f_equal; lia.
Qed.

(** All writes, in the order of the data. *)
Definition writes : list nat := tiles ≫= λ t, startC t <$> seq 0 J.
Definition chunks : list (list F) :=
  (λ s, (λ e, entry (s + e)) <$> seq 0 K) <$> writes.

Lemma tile_chunks :
  tile fzero fmul fadd J K (tiles ≫= λ t, tokens 0 r (blkA t)) (tiles ≫= λ t, tokens 0 r (blkB t)) =
    concat chunks.
Proof.
  pose proof (tile_rounds fzero fmul fadd J K HJ HK r Hr ((λ t, (blkA t, blkB t)) <$> tiles)) as E.
  assert (Hb1 : ∀ f : list (list F) * list (list F) → list (MmToken F),
    ((λ t, (blkA t, blkB t)) <$> tiles) ≫= f = tiles ≫= λ t, f (blkA t, blkB t)).
  { intros f. generalize tiles. induction l as [|t l IH]; [done|].
    rewrite fmap_cons, !bind_cons, IH. done. }
  rewrite !Hb1 in E. cbn [fst snd] in E. rewrite E.
  2:{ apply Forall_fmap, Forall_forall. intros. apply round_blk. }
  rewrite <-list_fmap_compose. unfold chunks, writes.
  assert (H : ∀ l, (∀ t, t ∈ l → t ∈ tiles) →
    concat (((λ t, concat ((λ j, vdot fzero fadd K (prods fzero fmul j t.1 t.2)) <$> seq 0 J)) ∘
      (λ t, (blkA t, blkB t))) <$> l) =
    concat ((λ s, (λ e, entry (s + e)) <$> seq 0 K) <$> (l ≫= λ t, startC t <$> seq 0 J)));
    [|by apply H].
  induction l as [|t l IH]; intros Hl; [done|].
  rewrite fmap_cons, bind_cons, fmap_app, concat_app. cbn [concat]. rewrite IH by (intros; apply Hl; by right).
  apply (f_equal (λ l, l ++ _)). cbn. f_equal. rewrite <-list_fmap_compose.
  apply list_fmap_ext. intros ? x [-> Hx]%lookup_seq. apply chunk_entry; [apply Hl; by left|done].
Qed.

Lemma writes_length : length writes = (p * q * J)%nat.
Proof.
  unfold writes, tiles. generalize (startC). intros f.
  assert (H : ∀ l : list (nat * nat), length (l ≫= λ t, f t <$> seq 0 J) = (length l * J)%nat).
  { induction l as [|t l IH]; [done|]. rewrite bind_cons, length_app, length_fmap, length_seq, IH.
    simpl. lia. }
  rewrite H. f_equal.
  assert (Hq' : ∀ (k : nat) l, length (l ≫= λ j : nat, [(k, j)]) = length l).
  { intros k. induction l as [|j l IH]; [done|]. rewrite bind_cons, length_app, IH. done. }
  assert (Hp' : ∀ l, length (k ← l; j ← seq 0 q; [(k, j)] : list (nat * nat)) = (length l * q)%nat).
  { induction l as [|k l IH]; [done|]. rewrite bind_cons, length_app, IH, Hq', length_seq. done. }
  by rewrite Hp', length_seq.
Qed.
Lemma in_writes i : (i < cA * cB)%nat ↔ ∃ s, s ∈ writes ∧ (s ≤ i < s + K)%nat.
Proof.
  split.
  - intros Hi. pose proof cB_pos. pose proof (Nat.div_mod i cB ltac:(lia)) as E1.
    pose proof (Nat.mod_upper_bound i cB ltac:(lia)).
    pose proof (Nat.div_mod (i / cB) J ltac:(lia)) as E2.
    pose proof (Nat.mod_upper_bound (i / cB) J ltac:(lia)).
    pose proof (Nat.div_mod (i mod cB) K ltac:(lia)) as E3.
    pose proof (Nat.mod_upper_bound (i mod cB) K ltac:(lia)).
    exists (startC (i / cB / J, i mod cB / K)%nat ((i / cB) mod J)%nat). split.
    + unfold writes. apply list_elem_of_bind. exists (i / cB / J, i mod cB / K)%nat. split.
      * apply list_elem_of_fmap. eexists. split; [done|]. apply elem_of_seq. lia.
      * unfold tiles. apply list_elem_of_bind. exists (i / cB / J)%nat. split.
        -- apply list_elem_of_bind. exists (i mod cB / K)%nat.
           split; [by apply list_elem_of_singleton|]. apply elem_of_seq. split; [lia|].
           apply Nat.Div0.div_lt_upper_bound. unfold cB in *. lia.
        -- apply elem_of_seq. split; [lia|]. apply Nat.Div0.div_lt_upper_bound.
           apply Nat.Div0.div_lt_upper_bound. unfold cA in *. lia.
    + unfold startC. cbn [fst snd].
      replace (i / cB / J * J + (i / cB) mod J)%nat with (i / cB)%nat by lia.
      set (u := (i / cB)%nat) in *. set (v := (i mod cB)%nat) in *. lia.
  - intros (s & Hs1 & Hs2). unfold writes in Hs1.
    apply list_elem_of_bind in Hs1 as (t & Ht & Htl).
    apply list_elem_of_fmap in Ht as (x & -> & Hx%elem_of_seq).
    pose proof (startC_lt t x Htl ltac:(lia)). lia.
Qed.

(** The unit reports completion, the result holds every dot product, and what lies
    behind it is left alone. *)
Lemma mm_engine_spec fuel c : (p * (q * r) ≤ fuel)%nat → (p * (q * J) ≤ fuel)%nat →
  (cA * cB ≤ length c)%nat →
  mm_engine fzero fmul fadd J K nshift fuel a b c r cA r cB (r * cA)%nat (cB * J)%nat (cA * cB)%nat
    (r * cB)%nat = Some ((entry <$> seq 0 (cA * cB)) ++ drop (cA * cB) c, true).
Proof.
  intros Hf Hf' Hc. unfold mm_engine. rewrite startsA, startsB, startsC by done.
  rewrite sourceA. cbn [mbind option_bind]. rewrite sourceB. cbn [mbind option_bind].
  rewrite tile_chunks.
  replace (tiles ≫= λ t, (λ x, Z.of_nat (startC t x)) <$> seq 0 J) with (Z.of_nat <$> writes).
  2:{ unfold writes. generalize tiles. induction l as [|t l IH]; [done|].
      rewrite !bind_cons, fmap_app, IH, <-list_fmap_compose. done. }
  destruct (sink_writes K nshift HK (burst_elems_small nshift K Hs HNK HK8) entry writes chunks c)
    as (c' & E & El & Hin & Hout).
  { unfold chunks. rewrite <-(list_fmap_id writes) at 1. apply Forall2_fmap, Forall_Forall2_diag, Forall_forall.
    intros s Hs'%list_elem_of_In. split_and!; [| |done].
    - apply burst_start_aligned; [done|]. unfold writes in Hs'.
      apply list_elem_of_bind in Hs' as (t & (x & -> & _)%list_elem_of_fmap & _).
      cbn. unfold startC, cB. rewrite Nat2Z.inj_add. apply Z.divide_add_r; [by apply divide_nat_mul|].
      rewrite Nat2Z.inj_mul. by apply Z.divide_mul_r.
    - unfold writes in Hs'. apply list_elem_of_bind in Hs' as (t & (x & -> & Hx%elem_of_seq)%list_elem_of_fmap & Ht).
      pose proof (startC_lt t x Ht ltac:(lia)). cbn. lia. }
  rewrite E. cbn [mbind option_bind]. rewrite writes_length. do 2 f_equal.
  - apply list_eq. intros i. destruct (decide (i < cA * cB)%nat) as [Hi|Hi].
    + rewrite lookup_app_l by (rewrite length_fmap, length_seq; done).
      rewrite list_lookup_fmap, lookup_seq_lt by done.
      apply in_writes in Hi as (s & H1 & H2). by apply (Hin i s).
    + rewrite lookup_app_r by (rewrite length_fmap, length_seq; lia).
      rewrite length_fmap, length_seq, lookup_drop.
      replace (cA * cB + (i - cA * cB))%nat with i by lia. apply Hout.
      intros s H1 H2. apply Hi, in_writes. by exists s.
  - replace (Z.of_nat (cA * cB) / K) with (Z.of_nat (p * q * J)).
    + apply finishSink_done; [nia|]. unfold cA, cB in HAB. nia.
    + unfold cA, cB. rewrite <-Nat2Z.inj_div. f_equal.
      replace (p * J * (q * K))%nat with (p * q * J * K)%nat by lia. by rewrite Nat.div_mul by lia.
Qed.
End Product.

(** ** Exact arithmetic *)

(** Dimensions the multiplier can handle: the tile's sides are multiples of the bus
    width and fit a burst, the matrices consist of whole tiles, there are enough rows
    to fill the adder's lanes, and every number of elements fits 20 bits. *)
Record mm_dims (J K : nat) (nshift : Z) (r p q : nat) : Prop := {
  md_J : (0 < J)%nat; md_K : (0 < K)%nat; md_shift : 0 ≤ nshift;
  md_NJ : (2 ^ nshift | Z.of_nat J); md_NK : (2 ^ nshift | Z.of_nat K);
  md_J8 : 4 * Z.of_nat J < 256; md_K8 : 4 * Z.of_nat K < 256;
  md_p : (0 < p)%nat; md_q : (0 < q)%nat;
  md_A : Z.of_nat (r * (p * J)) < 2 ^ 20; md_B : Z.of_nat (r * (q * K)) < 2 ^ 20;
  md_AB : Z.of_nat (p * J * (q * K)) < 2 ^ 20 }.

(** C28.  Where addition is exact, the accelerator computes the matrix product: for
    dimensions it can handle, it reports completion and element (i, j) of what it
    wrote is the sum over all rows of the products of columns i and j, in spite of
    tiling, interleaving and the lanes of its adder. *)
Theorem multiplier_exact {F} (fzero : F) fmul fadd J K nshift r p q fuel (a b c : list F) :
  (∀ x y z, fadd x (fadd y z) = fadd (fadd x y) z) → (∀ x y, fadd x y = fadd y x) →
  (∀ x, fadd x fzero = x) → mm_dims J K nshift r p q → (gatherSz K ≤ r)%nat →
  (p * (q * (r + J)) ≤ fuel)%nat →
  length a = (r * (p * J))%nat → length b = (r * (q * K))%nat → length c = (p * J * (q * K))%nat →
  ∃ l, mm_engine fzero fmul fadd J K nshift fuel a b c r (p * J)%nat r (q * K)%nat
      (r * (p * J))%nat (q * K * J)%nat (p * J * (q * K))%nat (r * (q * K))%nat = Some (l, true) ∧
    ∀ i j, (i < p * J)%nat → (j < q * K)%nat → nth (i * (q * K) + j) l fzero =
      fsum fzero fadd ((λ x, fmul (nth (x * (p * J) + i) a fzero) (nth (x * (q * K) + j) b fzero))
        <$> seq 0 r).
Proof.
  intros Hassoc Hcomm H0 [M1 M2 M3 M4 M5 M6 M7 M8 M9 M10 M11 M12] Hr Hf Ha Hb Hc.
  pose proof (gatherSz_pos K M2).
  pose proof (mm_engine_spec fzero fmul fadd J K nshift M1 M2 M3 M4 M5 M6 M7 r p q ltac:(lia) M8 M9
    M10 M11 M12 a b ltac:(unfold cA; lia) ltac:(unfold cB; lia) Hr fuel c) as E.
  unfold cA, cB in E. eexists. split; [apply E; lia|]. intros i j Hi Hj.
  pose proof (block_le i (p * J) j (q * K) 1 Hi Hj) as Hlt.
  rewrite app_nth1 by (rewrite length_fmap, length_seq; lia).
  rewrite nth_fmap_seq by lia. unfold entry.
  rewrite (dot_sum fzero fadd K M2 Hassoc Hcomm H0)
    by (unfold terms; rewrite length_fmap, length_seq; lia).
  unfold terms, cA, cB. rewrite Nat.div_add_l, Nat.div_small, Nat.add_0_r by lia.
  by rewrite Nat.add_comm, Nat.Div0.mod_add, Nat.mod_small by lia.
Qed.
Lemma multiplier_exact_witness : ∃ l, mm_engine 0 Z.mul Z.add 2 2 1 1000
    (seqZ 1 32) (seqZ 5 32) (replicate 16 0) 8 4 8 4 32 8 16 32 = Some (l, true) ∧
  nth 6 l 0 = 3360.
Proof.
  assert (D : mm_dims 2 2 1 8 2 2) by (split; try lia; by exists 1).
  destruct (multiplier_exact 0 Z.mul Z.add 2 2 1 8 2 2 1000 (seqZ 1 32) (seqZ 5 32) (replicate 16 0)
    Z.add_assoc Z.add_comm Z.add_0_r D ltac:(vm_compute; lia) ltac:(vm_compute; lia)
    eq_refl eq_refl eq_refl) as (l & E & H).
  exists l. split; [exact E|]. change 6%nat with (1 * (2 * 2) + 2)%nat.
  rewrite H by lia. vm_compute. done.
Defined.
