(* ===== verification/PortalMat.v ===== *)
(** * Matrices in shared memory (src/examples/matmul/cpp/portalmat.h, portalmat.cpp)

    [PortalMat] is a cv::Mat whose elements lie in a buffer that the hardware can
    reach.  An allocator puts every array into a buffer of its own and keeps four
    integers behind the elements: the reference count, the array's number, its DMA
    reference (0 for none) and the buffer's size.  A buffer is named by its
    descriptor, which stands for the open buffer and is not used again for another.

    OpenCV is not part of the sources: the class [OpenCV] states the documented
    behaviour of Mat::create.  What is needed of the DMA manager is the class
    [DmaRefs], which DmaManager.v's model implements ([DmaManager_refs]).
    Elements are IEEE single-precision numbers and the arithmetic of the C++ code is
    that of the standard library's specification of them; the multiplier's own
    operations are arguments. *)
From stdpp Require Import base list gmap numbers.
From Stdlib Require Import SpecFloat.
From S2P Require Import Prelude Portal SGListMMU DmaConfigProxy SendFd DmaManager.
From S2P Require Import DotProd MatrixTN.
Local Open Scope Z_scope.

(** ** Floating-point numbers *)
Abbreviation float := spec_float.
Definition round32 (x : float) : float :=
  match x with S754_finite s m e => binary_round 24 128 s m e | _ => x end.
Definition round64 (x : float) : float :=
  match x with S754_finite s m e => binary_round 53 1024 s m e | _ => x end.
Definition f32_of_Z (n : Z) : float := binary_normalize 24 128 n 0 false.
Definition f32_add : float → float → float := SFadd 24 128.
Definition f32_sub : float → float → float := SFsub 24 128.
Definition f32_mul : float → float → float := SFmul 24 128.
Definition f32_div : float → float → float := SFdiv 24 128.
Definition f64_add : float → float → float := SFadd 53 1024.
Definition f64_mul : float → float → float := SFmul 53 1024.
Definition f_zero : float := S754_zero false.
(** [x > y] *)
Definition f_gt (x y : float) : bool := SFltb y x.

(** ** What the DMA manager promises

    A reference is the next handle; the hardware then finds the buffer under it, and
    the others under theirs. *)
Class DmaRefs (D : Type) := {
  dma_reference : Z → M D Z;
  dma_next : D → Z;
  dma_resolve : D → Z → option Z;
  dma_ok : D → Prop;
  dma_fd : Z → Prop;
  dma_reference_wp fd d : dma_ok d → dma_fd fd → 0 ≤ dma_next d < 32 →
    wp False (dma_reference fd) (λ id d', id = dma_next d ∧ dma_ok d' ∧ dma_next d' = id + 1 ∧
      dma_resolve d' id = Some fd ∧ ∀ i, i ≠ id → dma_resolve d' i = dma_resolve d i) d }.

(** The model of DmaManager.v, with a record of what was referenced, keeps it. *)
Section Manager.
Context (traffic : Z) (fget : Z → option (list sg_entry)) (fuel : nat) (p : PortalInternal).

Definition dmam_reference (fd : Z) : M (sys DmaHw.t * gmap Z Z) Z :=
  id ← on_fst (DmaManager_reference_user (deliver_hw traffic) (S fuel) (send_fd_ioctl fget p) fd);
  modify (λ st, (st.1, <[id := fd]> st.2));; mret id.
Record dmam_ok (st : sys DmaHw.t * gmap Z Z) : Prop := {
  dm_quiet : quiet st.1; dm_device : device (priv st.1) = p;
  dm_dom : ∀ id fd, st.2 !! id = Some fd → id < handle (priv st.1) ∧
    ∃ sgl, fget fd = Some sgl ∧ ∀ off, 0 ≤ off < 2 ^ 40 →
      mmu_translate (DmaHw.mmu (hw st.1)) id off = sg_lookup sgl off }.

#[refine] Instance DmaManager_refs : DmaRefs (sys DmaHw.t * gmap Z Z) := {|
  dma_reference := dmam_reference;
  dma_next st := handle (priv st.1);
  dma_resolve st id := st.2 !! id;
  dma_ok := dmam_ok;
  dma_fd fd := ∃ sgl, fget fd = Some sgl ∧ sg_ok sgl |}.
Proof.
  intros fd [s g] [Hq Hp Hd] (sgl & Hf & Hok) Hn. cbn [fst snd] in *. unfold dmam_reference.
  apply wp_bind.
  pose proof (reference_user_wp fget traffic fuel fd (handle (priv s)) sgl s Hq Hf Hok eq_refl Hn) as W.
  rewrite Hp in W. unfold wp, on_fst in *. cbn [fst snd].
  destruct (DmaManager_reference_user _ _ _ fd s) as [[id| | | |] s']; try done.
  destruct W as (-> & Hq' & Hh & Hdev & T1 & T2). cbv [modify mbind M_bind mret M_ret]. cbn [fst snd]. rewrite lookup_insert_eq.
  split_and!; try done; [|intros i Hi; by rewrite lookup_insert_ne].
  split; cbn; [done|by rewrite Hdev|]. intros i fd' Hi. rewrite Hh.
  destruct (decide (i = handle (priv s))) as [->|Hne].
  - rewrite lookup_insert_eq in Hi. simplify_eq. split; [lia|]. exists sgl. split; [done|].
    intros. by apply T1.
  - rewrite lookup_insert_ne in Hi by done. destruct (Hd i fd' Hi) as (Hl & sgl' & Hf' & Ht).
    split; [lia|]. exists sgl'. split; [done|]. intros. rewrite T2 by lia. by apply Ht.
Defined.
End Manager.

(** ** State *)

(** [examples/matmul/cpp/portalmat.cpp:39-47] PortalMatAllocator::allocate: a buffer, the
    elements and the integers behind them *)
Record Array := mkArray {
  floats : list float; refcount : Z; arraynum : Z; ref : Z; psize : Z }.
Definition set_floats (l : list float) (a : Array) : Array :=
  mkArray l (refcount a) (arraynum a) (ref a) (psize a).
Definition set_ref (r : Z) (a : Array) : Array :=
  mkArray (floats a) (refcount a) (arraynum a) r (psize a).
Definition set_refcount (n : Z) (a : Array) : Array :=
  mkArray (floats a) n (arraynum a) (ref a) (psize a).

(** [examples/matmul/cpp/portalmat.h:71-88] PortalMat: its header; [data] is the buffer *)
Record PortalMat := mkMat { rows : Z; cols : Z; data : option Z }.
(** An ordinary matrix. *)
Record CvMat := mkCvMat { cv_rows : Z; cv_cols : Z; cv_data : list float }.
Inductive Src := Plain (m : CvMat) | Ported (m : PortalMat).
Definition src_rows (m : Src) : Z := match m with Plain m => cv_rows m | Ported m => rows m end.
Definition src_cols (m : Src) : Z := match m with Plain m => cv_cols m | Ported m => cols m end.

(** [examples/matmul/cpp/portalmat.h:53-66] PortalMatAllocator, with the buffers it made, the
    DMA manager and mul_sem *)
Record Pm (D : Type) := mkPm {
  arrayFds : list Z; numarrays : Z; mem : gmap Z Array; nalloc : nat; dma : D; mul_sem : Z }.
Arguments mkPm {D}. Arguments arrayFds {D}. Arguments numarrays {D}. Arguments mem {D}.
Arguments nalloc {D}. Arguments dma {D}. Arguments mul_sem {D}.
Definition set_mem {D} (m : gmap Z Array) (s : Pm D) : Pm D :=
  mkPm (arrayFds s) (numarrays s) m (nalloc s) (dma s) (mul_sem s).
Definition set_sem {D} (n : Z) (s : Pm D) : Pm D :=
  mkPm (arrayFds s) (numarrays s) (mem s) (nalloc s) (dma s) n.
Definition set_dma {D} (d : D) (s : Pm D) : Pm D :=
  mkPm (arrayFds s) (numarrays s) (mem s) (nalloc s) d (mul_sem s).

Section Ops.
Context {D : Type} `{DmaRefs D}.
Abbreviation P := (M (Pm D)).
(** The descriptor the [n]-th call of portalAlloc returns, and what its memory holds. *)
Context (answer : nat → Z) (junk : float).

Definition on_dma {A} (m : M D A) : P A :=
  λ s, let '(r, d) := m (dma s) in (r, set_dma d s).
Definition with_array (fd : Z) : P Array :=
  s ← get; match mem s !! fd with Some a => mret a | None => undefined end.
Definition put_array (fd : Z) (a : Array) : P () := modify (λ s, set_mem (<[fd := a]> (mem s)) s).

(** ** The allocator *)

(** cv::alignSize *)
Definition alignSize (n align : Z) : Z := (n + align - 1) / align * align.

(** [examples/matmul/cpp/portalmat.cpp:31-50] PortalMatAllocator::allocate, for [r] rows of
    [c] elements.  Without a buffer, or with no room in arrayFds, it writes outside
    its memory. *)
Definition allocate (r c : Z) : P Z :=
  let arraysize := c * 4 * r in
  let totalsize := alignSize (arraysize + 16) 4096 in
  s ← get;
  let n := numarrays s in
  let fd := answer (nalloc s) in
  if bool_decide (n < 128) && bool_decide (0 ≤ fd) then
    put (mkPm (<[Z.to_nat n := fd]> (arrayFds s)) (s32 (n + 1))
      (<[fd := mkArray (replicate (Z.to_nat (r * c)) junk) 1 n 0 (s32 totalsize)]> (mem s))
      (S (nalloc s)) (dma s) (mul_sem s));;
    mret fd
  else undefined.

(** Entry [n] of arrayFds. *)
Definition array_fd (n : Z) : P Z :=
  s ← get;
  match (if bool_decide (0 ≤ n) then arrayFds s !! Z.to_nat n else None) with
  | Some fd => mret fd
  | None => undefined
  end.

(** [examples/matmul/cpp/portalmat.cpp:52-64] PortalMatAllocator::deallocate *)
Definition deallocate (fd : Z) : P () :=
  a ← with_array fd;
  fd' ← array_fd (arraynum a);
  modify (λ s, set_mem (delete fd (mem s)) s);;
  modify (λ s, set_mem (delete fd' (mem s)) s).

(** [examples/matmul/cpp/portalmat.cpp:66-79] PortalMatAllocator::reference *)
Definition alloc_reference (fd : Z) : P Z :=
  a ← with_array fd;
  if bool_decide (ref a = 0) then
    fd' ← array_fd (arraynum a);
    r ← on_dma (dma_reference fd');
    put_array fd (set_ref r a);;
    mret r
  else mret (ref a).

(** [examples/matmul/cpp/portalmat.cpp:145-151] PortalMat::reference; an empty matrix has no
    integers to read *)
Definition reference (m : PortalMat) : P Z :=
  match data m with Some fd => alloc_reference fd | None => undefined end.

(** ** OpenCV

    Mat::release gives up a count, and the array with the last one. *)
Definition cv_release (m : PortalMat) : P () :=
  match data m with
  | None => mret tt
  | Some fd =>
      a ← with_array fd;
      put_array fd (set_refcount (refcount a - 1) a);;
      if bool_decide (refcount a = 1) then deallocate fd else mret tt
  end.
(** Mat::create keeps an array of the right shape; otherwise it releases it and has the
    allocator make a new one. *)
Class OpenCV := {
  create : PortalMat → Z → Z → P PortalMat;
  create_same m r c s : 0 < r → 0 < c → rows m = r → cols m = c → data m ≠ None →
    create m r c s = (Done m, s);
  create_new m r c s : 0 < r → 0 < c → ¬ (rows m = r ∧ cols m = c ∧ data m ≠ None) →
    create m r c s = (cv_release m;; fd ← allocate r c; mret (mkMat r c (Some fd))) s }.
Context `{OpenCV}.

(** ** Elements *)
Definition index (c i j : Z) : nat := Z.to_nat (i * c + j).
Definition at_ (m : PortalMat) (i j : Z) : P float :=
  match data m with
  | None => undefined
  | Some fd => a ← with_array fd;
      match floats a !! index (cols m) i j with Some v => mret v | None => undefined end
  end.
Definition set_at (m : PortalMat) (i j : Z) (v : float) : P () :=
  match data m with
  | None => undefined
  | Some fd => a ← with_array fd;
      if bool_decide (index (cols m) i j < length (floats a))%nat
      then put_array fd (set_floats (<[index (cols m) i j := v]> (floats a)) a) else undefined
  end.
Definition src_at (m : Src) (i j : Z) : P float :=
  match m with
  | Plain m => match cv_data m !! index (cv_cols m) i j with Some v => mret v | None => undefined end
  | Ported m => at_ m i j
  end.
(** for (i...) for (j...) *)
Definition for_ij (r c : Z) (body : Z → Z → P ()) : P () :=
  for_each (seqZ 0 r) (λ i, for_each (seqZ 0 c) (body i)).

(** [examples/matmul/cpp/portalmat.cpp:105-129] the copying constructors *)
Definition new_from (m : Src) : P PortalMat :=
  t ← create (mkMat 0 0 None) (src_rows m) (src_cols m);
  for_ij (src_rows m) (src_cols m) (λ i j, v ← src_at m i j; set_at t i j v);;
  mret t.

(** [examples/matmul/cpp/portalmat.cpp:153-174] PortalMat::copy, of a matrix or of an
    expression's value *)
Definition copy (t : PortalMat) (other : Src) : P PortalMat :=
  t ← create t (src_rows other) (src_cols other);
  for_ij (rows t) (cols t) (λ i j, v ← src_at other i j; set_at t i j v);;
  mret t.

(** [examples/matmul/cpp/portalmat.cpp:176-185] PortalMat::transpose *)
Definition transpose (t : PortalMat) (other : Src) : P PortalMat :=
  t ← create t (src_cols other) (src_rows other);
  for_ij (rows t) (cols t) (λ i j, v ← src_at other j i; set_at t i j v);;
  mret t.

(** [examples/matmul/cpp/portalmat.cpp:201-213] PortalMat::compare: one element *)
Definition mismatch (v ov epsilon : float) : bool := f_gt (SFabs (f32_div (f32_sub v ov) ov)) epsilon.
(** [examples/matmul/cpp/portalmat.cpp:187-217] PortalMat::compare *)
Definition compare (t : PortalMat) (other : Src) (epsilon : float) : P bool :=
  if bool_decide (rows t ≠ src_rows other) || bool_decide (cols t ≠ src_cols other)
  then mret false else
  foldr (λ i rest rv,
    rv ← foldr (λ j rest rv,
      v ← at_ t i j; ov ← src_at other i j;
      rest (if mismatch v ov epsilon then false else rv)) mret (seqZ 0 (cols t)) rv;
    rest rv) mret (seqZ 0 (rows t)) true.

(** [examples/matmul/cpp/portalmat.cpp:228-248] PortalMat::naive_mul: one element, summed in
    double precision *)
Definition naive_elem (a b : Src) (i j : Z) : P float :=
  c ← foldr (λ l rest c,
    x ← src_at a i l; y ← src_at b l j;
    rest (f64_add c (f64_mul (round64 x) (round64 y)))) mret (seqZ 0 (src_cols a)) f_zero;
  mret (round32 c).
(** [examples/matmul/cpp/portalmat.cpp:220-265] PortalMat::naive_mul, which prints the steps
    of the last element as well *)
Definition naive_mul (t : PortalMat) (a b : Src) : P PortalMat :=
  assert (bool_decide (src_cols a = src_rows b));;
  t ← create t (src_rows a) (src_cols b);
  for_ij (rows t) (cols t) (λ i j, x ← naive_elem a b i j; set_at t i j x);;
  mret t.

(** ** The multiplier *)
Context (hw_mul hw_add : float → float → float) (J_VALUE K_VALUE : nat) (nshift : Z) (fuel : nat).

(** [examples/matmul/cpp/portalmat.h:98-102] MmIndication::mmfDone *)
Definition mmfDone : P () := modify (λ s, set_sem (mul_sem s + 1) s).

(** The request mmf, carried out on the buffers its references lead to, and its
    indication.  Where a transfer leaves a buffer's elements, or the result is one of
    the factors, what happens is not modelled. *)
Definition device_mmf (aref ar ac bref br bc cref ar_ac ac_j ar_bc bc_j ac_bc br_bc : Z) : P () :=
  s ← get;
  match dma_resolve (dma s) aref, dma_resolve (dma s) bref, dma_resolve (dma s) cref with
  | Some fa, Some fb, Some fc =>
    a ← with_array fa; b ← with_array fb; c ← with_array fc;
    if bool_decide (fc = fa) || bool_decide (fc = fb) then undefined else
    match mmf f_zero hw_mul hw_add J_VALUE K_VALUE nshift fuel (floats a) (floats b) (floats c)
      (u32 ar) (u32 ac) (u32 br) (u32 bc) (u32 ar_ac) (u32 ac_j) (u32 ar_bc) (u32 bc_j) (u32 ac_bc)
      (u32 br_bc) with
    | Some (c', done) => put_array fc (set_floats c' c);; if done : bool then mmfDone else mret tt
    | None => undefined
    end
  | _, _, _ => undefined
  end.
(** sem_wait(&mul_sem): with nothing posted it never returns *)
Definition sem_wait_mul : P () :=
  s ← get; if bool_decide (0 < mul_sem s) then modify (set_sem (mul_sem s - 1)) else no_fuel.

(** [examples/matmul/cpp/portalmat.cpp:305-335] PortalMat::multf for MATRIX_TN: the transpose
    of [a] times [b] *)
Definition multf (t a b : PortalMat) : P () :=
  if bool_decide (rows a ≠ rows b) then mret tt else
  aref ← reference a; bref ← reference b; cref ← reference t;
  device_mmf aref (rows a) (cols a) bref (rows b) (cols b) cref
    (s32 (rows a * cols a)) (s32 (cols a * J_VALUE)) (s32 (rows a * cols b))
    (s32 (cols b * J_VALUE)) (s32 (cols a * cols b)) (s32 (rows b * cols b));;
  sem_wait_mul.
End Ops.

Lemma for_each_ext {A T} (l : list A) (f g : A → M T ()) (s : T) :
  (∀ x s, x ∈ l → f x s = g x s) → for_each l f s = for_each l g s.
Proof.
  revert s; induction l as [|x l IH]; intros s H0; [done|]. cbn [for_each]. unfold mbind, M_bind.
  rewrite H0 by (by left). destruct (g x s) as [[?| | | |] s']; try done.
  apply IH. intros. apply H0. by right.
Qed.

(** ** The allocator's invariant *)
Section Invariant.
Context {D : Type} `{DmaRefs D} (answer : nat → Z) (junk : float).
Context (answer_inj : ∀ n m, answer n = answer m → n = m).
Context (answer_fd : ∀ n, 0 ≤ answer n → dma_fd (answer n)).
Implicit Types s : Pm D.

(** An array knows its entry of arrayFds, and its reference leads to it. *)
Record array_wf s (fd : Z) (a : Array) : Prop := {
  aw_num : 1 ≤ arraynum a < numarrays s;
  aw_fds : arrayFds s !! Z.to_nat (arraynum a) = Some fd;
  aw_fd : dma_fd fd;
  aw_ref : ref a = 0 ∨ 0 < ref a < dma_next (dma s) ∧ dma_resolve (dma s) (ref a) = Some fd }.
Record pm_wf s : Prop := {
  wf_fds : length (arrayFds s) = 128%nat;
  wf_num : 1 ≤ numarrays s ≤ 128;
  wf_dma : dma_ok (dma s);
  wf_next : 0 ≤ dma_next (dma s);
  wf_fresh : ∀ n, (nalloc s ≤ n)%nat → mem s !! answer n = None;
  wf_arr : ∀ fd a, mem s !! fd = Some a → array_wf s fd a }.

Lemma wp_on_dma {A} (m : M D A) Q s :
  wp False m (λ a d, Q a (set_dma d s)) (dma s) → wp False (on_dma m) Q s.
Proof. unfold wp, on_dma. by destruct (m (dma s)) as [[?| | | |] d]. Qed.
Lemma with_array_eq fd a s : mem s !! fd = Some a → with_array fd s = (Done a, s).
Proof. intros Hm. unfold with_array, get, mbind, M_bind. by rewrite Hm. Qed.
Lemma array_fd_eq n fd s : 0 ≤ n → arrayFds s !! Z.to_nat n = Some fd → array_fd n s = (Done fd, s).
Proof.
  intros Hn Hm. unfold array_fd, get, mbind, M_bind. by rewrite bool_decide_true, Hm.
Qed.
Lemma wp_with_array fd a (Q : Array → Pm D → Prop) s :
  mem s !! fd = Some a → Q a s → wp False (with_array fd) Q s.
Proof. intros Hm HQ. unfold with_array. wp_steps. by rewrite Hm. Qed.
Lemma wp_array_fd n fd (Q : Z → Pm D → Prop) s : 0 ≤ n →
  arrayFds s !! Z.to_nat n = Some fd → Q fd s → wp False (array_fd n) Q s.
Proof. intros Hn Hm HQ. unfold array_fd. wp_steps. by rewrite bool_decide_true, Hm. Qed.

(** A new array: allocation keeps the invariant and what was there. *)
Definition new_array (r c n : Z) : Array :=
  mkArray (replicate (Z.to_nat (r * c)) junk) 1 n 0 (s32 (alignSize (c * 4 * r + 16) 4096)).
Definition after_alloc (r c : Z) s : Pm D :=
  let fd := answer (nalloc s) in
  mkPm (<[Z.to_nat (numarrays s) := fd]> (arrayFds s)) (s32 (numarrays s + 1))
    (<[fd := new_array r c (numarrays s)]> (mem s)) (S (nalloc s)) (dma s) (mul_sem s).
Lemma allocate_eq r c s : numarrays s < 128 → 0 ≤ answer (nalloc s) →
  allocate answer junk r c s = (Done (answer (nalloc s)), after_alloc r c s).
Proof.
  intros Hn Ha. unfold allocate, mbind, M_bind, get. by rewrite !bool_decide_true.
Qed.
Lemma after_alloc_wf r c s : pm_wf s → numarrays s < 128 → 0 ≤ answer (nalloc s) →
  pm_wf (after_alloc r c s).
Proof.
  intros [Hl Hn Hd Hx Hf Ha] Hlt Hans. unfold after_alloc. split; cbn.
  - by rewrite length_insert.
  - rewrite s32_small; lia.
  - done.
  - done.
  - intros n Hn'. rewrite lookup_insert_ne by (intros E%answer_inj; lia). apply Hf. lia.
  - intros fd a Hm. rewrite lookup_insert_Some in Hm. destruct Hm as [[<- <-]|[Hne Hm]].
    + split; cbn; [rewrite s32_small; lia| |by apply answer_fd|by left].
      apply list_lookup_insert_eq. lia.
    + destruct (Ha fd a Hm) as [A1 A2 A3 A4]. split; cbn; [rewrite s32_small; lia| |done|done].
      rewrite list_lookup_insert_ne by lia. done.
Qed.

(** A buffer's elements and their reference count, as far as it is there. *)
Definition elems s (fd : Z) : option (list float * Z) := (λ a, (floats a, refcount a)) <$> mem s !! fd.
Lemma elems_Some s fd l n : elems s fd = Some (l, n) ↔
  ∃ a, mem s !! fd = Some a ∧ floats a = l ∧ refcount a = n.
Proof.
  unfold elems. rewrite fmap_Some. split.
  - intros (a & Hm & [= -> ->]). by exists a.
  - intros (a & Hm & <- & <-). by exists a.
Qed.

(** A reference leads the hardware to the array, keeps all elements and what other
    references lead to, and takes at most one handle. *)
Definition refd (fd r : Z) s s' : Prop :=
  pm_wf s' ∧ dma_resolve (dma s') r = Some fd ∧ 0 ≤ r < dma_next (dma s') ∧
  dma_next (dma s) ≤ dma_next (dma s') ≤ dma_next (dma s) + 1 ∧
  (∀ i, 0 ≤ i < dma_next (dma s) → dma_resolve (dma s') i = dma_resolve (dma s) i) ∧
  (∀ fd', elems s' fd' = elems s fd') ∧ mul_sem s' = mul_sem s ∧ nalloc s' = nalloc s ∧
  numarrays s' = numarrays s.

Lemma reference_wp fd a s : pm_wf s → mem s !! fd = Some a → dma_next (dma s) < 32 →
  wp False (alloc_reference fd) (λ r s', refd fd r s s') s.
Proof.
  intros [Hl Hn Hd Hx Hf Ha] Hm H32. destruct (Ha fd a Hm) as [A1 A2 A3 A4].
  unfold alloc_reference. apply wp_bind, (wp_with_array fd a); [done|].
  case_bool_decide as E.
  - apply wp_bind, (wp_array_fd _ fd); [lia|done|]. apply wp_bind, wp_on_dma.
    eapply wp_mono; [by apply dma_reference_wp|]. intros r d (-> & Hd' & Hn' & Hr & Ho).
    apply wp_bind. unfold put_array. wp_steps. unfold refd. cbn.
    split_and!; try done; try lia; [|by intros; apply Ho; lia|].
    + split; cbn; try done; [lia| |].
      * intros n Hnn. rewrite lookup_insert_ne; [by apply Hf|]. intros E'.
        by rewrite E', Hf in Hm.
      * intros fd' a' Hm'. rewrite lookup_insert_Some in Hm'. destruct Hm' as [[<- <-]|[Hne Hm']].
        -- split; cbn; [done..|]. destruct (decide (dma_next (dma s) = 0)); [by left|].
           right. split; [lia|done].
        -- destruct (Ha fd' a' Hm') as [B1 B2 B3 B4]. split; cbn; [done..|].
           destruct B4 as [B4|[B4 B5]]; [by left|]. right. split; [lia|]. rewrite Ho by lia. done.
    + intros fd'. unfold elems. cbn. destruct (decide (fd' = fd)) as [->|].
      * by rewrite lookup_insert_eq, Hm.
      * by rewrite lookup_insert_ne.
  - destruct A4 as [A4|[A4 A5]]; [done|]. apply wp_ret. split_and!; try done; lia.
Qed.

(** ** Creating and filling *)

(** A matrix that holds [l]: the only owner of its array. *)
Definition holds s (m : PortalMat) (l : list float) : Prop :=
  ∃ fd a, data m = Some fd ∧ mem s !! fd = Some a ∧ floats a = l ∧ refcount a = 1 ∧
    0 < rows m ∧ 0 < cols m ∧ Z.of_nat (length l) = rows m * cols m.
(** A matrix that may be given a new shape. *)
Definition owned s (m : PortalMat) : Prop := data m = None ∨ ∃ l, holds s m l.

(** Releasing the only owner's array. *)
Definition drop_array (fd : Z) s : Pm D := set_mem (delete fd (mem s)) s.
Lemma drop_array_wf fd s : pm_wf s → pm_wf (drop_array fd s).
Proof.
  intros [Hl Hn Hd Hx Hf Ha]. split; cbn; try done.
  - intros n Hn'. rewrite lookup_delete_None. right. by apply Hf.
  - intros fd' a [_ Hm]%lookup_delete_Some. destruct (Ha fd' a Hm). by split.
Qed.
Lemma release_eq s m fd a : pm_wf s → data m = Some fd → mem s !! fd = Some a → refcount a = 1 →
  cv_release m s = (Done tt, drop_array fd s).
Proof.
  intros Hwf Hd Hm Hr. destruct (wf_arr s Hwf fd a Hm) as [A1 A2 _ _].
  unfold cv_release, deallocate. rewrite Hd.
  rewrite (bind_Done _ _ _ _ _ (with_array_eq fd a s Hm)).
  erewrite bind_Done by reflexivity. rewrite bool_decide_true by done.
  erewrite bind_Done by (apply with_array_eq; apply lookup_insert_eq).
  erewrite bind_Done by (apply array_fd_eq; [|exact A2]; cbn; lia).
  erewrite bind_Done by reflexivity. unfold modify, drop_array, set_mem. cbn [mem arrayFds numarrays nalloc dma mul_sem].
  by rewrite delete_insert_eq, delete_delete_eq.
Qed.

Context `{!OpenCV (D := D) answer junk}.
(** The shape is right afterwards, the matrix owns its array, other arrays are as
    before; at most one array was made. *)
Definition created m r c t s s' : Prop :=
  rows t = r ∧ cols t = c ∧ pm_wf s' ∧ (∃ l, holds s' t l) ∧
  (∀ fd, data m ≠ Some fd → data t ≠ Some fd → mem s' !! fd = mem s !! fd) ∧
  (∀ fd, data t = Some fd → data m = Some fd ∨ mem s !! fd = None) ∧
  dma s' = dma s ∧ mul_sem s' = mul_sem s ∧
  numarrays s ≤ numarrays s' ≤ numarrays s + 1 ∧ (nalloc s ≤ nalloc s' ≤ S (nalloc s))%nat.

Lemma create_alloc r c s : pm_wf s → 0 < r → 0 < c → numarrays s < 128 → 0 ≤ answer (nalloc s) →
  created (mkMat 0 0 None) r c (mkMat r c (Some (answer (nalloc s)))) s (after_alloc r c s).
Proof.
  intros Hwf Hr Hc Hn Ha. unfold created. cbn. split_and!; try done; try lia.
  - by apply after_alloc_wf.
  - exists (replicate (Z.to_nat (r * c)) junk). eexists _, _. cbn. rewrite lookup_insert_eq.
    split_and!; try done. rewrite length_replicate. lia.
  - intros fd _ Hne. rewrite lookup_insert_ne by congruence. done.
  - intros fd [= <-]. right. by apply (wf_fresh s Hwf).
  - rewrite s32_small; pose proof (wf_num s Hwf); lia.
  - rewrite s32_small; pose proof (wf_num s Hwf); lia.
Qed.

Lemma mat_create_wp m r c s : pm_wf s → owned s m → 0 < r → 0 < c → numarrays s < 128 →
  0 ≤ answer (nalloc s) → wp False (create answer junk m r c) (λ t s', created m r c t s s') s.
Proof.
  intros Hwf Ho Hr Hc Hn Ha.
  destruct (decide (rows m = r ∧ cols m = c ∧ data m ≠ None)) as [(E1 & E2 & E3)|Hne].
  - eapply wp_eq; [by apply create_same|]. destruct Ho as [Ho|Ho]; [done|].
    unfold created. split_and!; try done; try lia. intros fd Hfd. by left.
  - unfold wp. rewrite create_new by done. destruct Ho as [Ho|(l & fd & a & Hd & Hm & _ & Hrc & _)].
    + unfold cv_release. rewrite Ho. cbn. unfold mbind, M_bind. cbn.
      rewrite allocate_eq by done. cbn. pose proof (create_alloc r c s Hwf Hr Hc Hn Ha) as C.
      unfold created in *. rewrite Ho. cbn in *. tauto.
    + rewrite (bind_Done _ _ _ _ _ (release_eq s m fd a Hwf Hd Hm Hrc)).
      unfold mbind, M_bind. rewrite allocate_eq by done. cbn.
      pose proof (create_alloc r c (drop_array fd s) (drop_array_wf fd s Hwf) Hr Hc Hn Ha) as C.
      unfold created in *. cbn in *. destruct C as (C1 & C2 & C3 & C4 & C5 & C6 & C7).
      rewrite Hd. split_and!; try tauto.
      * intros fd' H1 H2. rewrite C5 by done. rewrite lookup_delete_ne by congruence. done.
      * intros fd' E. destruct (C6 fd' E) as [?|[E'|E']%lookup_delete_None]; [done|left; congruence|by right].
Qed.

(** Filling an array with [v]: after [k] elements. *)
Definition filled (v : Z → Z → float) (c : Z) (k : Z) (l : list float) : list float :=
  ((λ n, v (n / c) (n mod c)) <$> seqZ 0 k) ++ drop (Z.to_nat k) l.
Lemma filled_step v c i j l : 0 < c → 0 ≤ i → 0 ≤ j < c → i * c + j < length l →
  <[Z.to_nat (i * c + j) := v i j]> (filled v c (i * c + j) l) = filled v c (i * c + (j + 1)) l.
Proof.
  intros Hc Hi Hj Hl. unfold filled.
  assert (0 ≤ i * c) by lia. rewrite Z.add_assoc, (seqZ_app 0 (i * c + j) 1) by lia.
  rewrite fmap_app, <-(assoc_L (++)).
  rewrite insert_app_r_alt by (rewrite length_fmap, length_seqZ; lia).
  rewrite length_fmap, length_seqZ, Nat.sub_diag. f_equal.
  replace (Z.to_nat (i * c + j + 1)) with (S (Z.to_nat (i * c + j))) by lia.
  destruct (lookup_lt_is_Some_2 l (Z.to_nat (i * c + j))) as [x Hx]; [lia|].
  rewrite (drop_S l x _ Hx), seqZ_cons, seqZ_nil by lia. cbn [fmap list_fmap app insert list_insert].
  rewrite Z.add_0_l, (Z.add_comm (i * c) j), Z.div_add, Z.div_small, Z.mod_add, Z.mod_small by lia.
  done.
Qed.

Definition fill_at (fd : Z) (a : Array) (l : list float) s : Pm D :=
  set_mem (<[fd := set_floats l a]> (mem s)) s.
Lemma set_at_eq t fd a l s i j x : data t = Some fd → 0 ≤ i → 0 ≤ j < cols t →
  i * cols t + j < length l →
  set_at t i j x (fill_at fd a l s) =
    (Done tt, fill_at fd a (<[Z.to_nat (i * cols t + j) := x]> l) s).
Proof.
  intros Hd Hi Hj Hl. assert (0 ≤ i * cols t) by (apply Z.mul_nonneg_nonneg; lia).
  unfold set_at. rewrite Hd.
  erewrite bind_Done by (apply with_array_eq; apply lookup_insert_eq).
  unfold index. cbn [floats set_floats]. rewrite bool_decide_true by lia.
  unfold put_array, modify, fill_at, set_mem. cbn [mem arrayFds numarrays nalloc dma mul_sem].
  by rewrite insert_insert_eq.
Qed.

(** The double loop that computes every element from other arrays. *)
Lemma mat_fill_wp t fd a (body : Z → Z → M (Pm D) float) (v : Z → Z → float) s :
  data t = Some fd → mem s !! fd = Some a → 0 < cols t → 0 ≤ rows t →
  Z.of_nat (length (floats a)) = rows t * cols t →
  (∀ i j l, 0 ≤ i < rows t → 0 ≤ j < cols t →
    body i j (fill_at fd a l s) = (Done (v i j), fill_at fd a l s)) →
  for_ij (rows t) (cols t) (λ i j, x ← body i j; set_at t i j x) s =
    (Done tt, fill_at fd a (filled v (cols t) (rows t * cols t) (floats a)) s).
Proof.
  intros Hd Hm Hc Hr Hl Hb. unfold for_ij.
  assert (Hs : s = fill_at fd a (filled v (cols t) 0 (floats a)) s).
  { unfold fill_at, filled. rewrite seqZ_nil by lia. cbn [fmap list_fmap app Z.to_nat drop].
    destruct a. cbn. rewrite insert_id by done. by destruct s. }
  assert (Hin : ∀ i n j, 0 ≤ i < rows t → Z.of_nat n + j = cols t → 0 ≤ j →
    for_each (seqZ j n) (λ j, x ← body i j; set_at t i j x)
      (fill_at fd a (filled v (cols t) (i * cols t + j) (floats a)) s) =
    (Done tt, fill_at fd a (filled v (cols t) ((i + 1) * cols t) (floats a)) s)).
  { intros i. induction n as [|n IH]; intros j Hi Hn Hj.
    - replace (i * cols t + j) with ((i + 1) * cols t) by lia. done.
    - rewrite seqZ_cons by lia. cbn [for_each].
      assert (i * cols t + j < length (floats a)) by nia.
      erewrite bind_Done.
      2:{ rewrite (bind_Done _ _ _ _ _ (Hb i j _ Hi ltac:(lia))). apply set_at_eq; [done|lia|lia|].
          unfold filled. rewrite length_app, length_fmap, length_seqZ, length_drop. lia. }
      rewrite filled_step by lia. replace (Z.pred (S n)) with (Z.of_nat n) by lia. apply IH; lia. }
  assert (Hout : ∀ n i, Z.of_nat n + i = rows t → 0 ≤ i →
    for_each (seqZ i n) (λ i, for_each (seqZ 0 (cols t)) (λ j, x ← body i j; set_at t i j x))
      (fill_at fd a (filled v (cols t) (i * cols t) (floats a)) s) =
    (Done tt, fill_at fd a (filled v (cols t) (rows t * cols t) (floats a)) s)).
  { induction n as [|n IH]; intros i Hn Hi.
    - replace i with (rows t) by lia. done.
    - rewrite seqZ_cons by lia. cbn [for_each].
      pose proof (Hin i (Z.to_nat (cols t)) 0 ltac:(lia) ltac:(lia) ltac:(lia)) as E.
      rewrite Z.add_0_r, Z2Nat.id in E by lia. rewrite (bind_Done _ _ _ _ _ E).
      replace (Z.pred (S n)) with (Z.of_nat n) by lia. change (Z.succ i) with (i + 1). apply IH; lia. }
  rewrite Hs at 1. specialize (Hout (Z.to_nat (rows t)) 0 ltac:(lia) ltac:(lia)).
  rewrite Z.mul_0_l, Z2Nat.id in Hout by lia. exact Hout.
Qed.

(** ** Sources *)
Definition src_holds s (m : Src) (l : list float) : Prop :=
  match m with
  | Plain m => cv_data m = l ∧ 0 < cv_rows m ∧ 0 < cv_cols m ∧
      Z.of_nat (length l) = cv_rows m * cv_cols m
  | Ported m => holds s m l
  end.
Definition src_fd (m : Src) : option Z := match m with Plain _ => None | Ported m => data m end.
(** Element ([i], [j]) of a matrix of [c] columns. *)
Definition elt (c : Z) (l : list float) (i j : Z) : float := nth (index c i j) l f_zero.

Lemma src_holds_dims s m l : src_holds s m l →
  0 < src_rows m ∧ 0 < src_cols m ∧ Z.of_nat (length l) = src_rows m * src_cols m.
Proof. destruct m; cbn; [tauto|]. intros (fd & a & _ & _ & _ & _ & ?). tauto. Qed.

Lemma index_lt r c i j n : Z.of_nat n = r * c → 0 ≤ i < r → 0 ≤ j < c → (index c i j < n)%nat.
Proof. intros Hn Hi Hj. unfold index. assert ((i + 1) * c ≤ r * c) by nia. nia. Qed.

Lemma at_eq s m l i j : holds s m l → 0 ≤ i < rows m → 0 ≤ j < cols m →
  at_ m i j s = (Done (elt (cols m) l i j), s).
Proof.
  intros (fd & a & Hd & Hm & <- & _ & _ & _ & Hl) Hi Hj. unfold at_. rewrite Hd.
  rewrite (bind_Done _ _ _ _ _ (with_array_eq fd a s Hm)).
  destruct (lookup_lt_is_Some_2 (floats a) (index (cols m) i j)) as [x Hx];
    [by apply (index_lt (rows m))|].
  rewrite Hx. unfold elt. by rewrite (nth_lookup_Some _ _ _ _ Hx).
Qed.
Lemma src_at_eq s m l i j : src_holds s m l → 0 ≤ i < src_rows m → 0 ≤ j < src_cols m →
  src_at m i j s = (Done (elt (src_cols m) l i j), s).
Proof.
  destruct m as [m|m]; [|apply at_eq]. cbn. intros (<- & _ & _ & Hl) Hi Hj. unfold elt.
  destruct (lookup_lt_is_Some_2 (cv_data m) (index (cv_cols m) i j)) as [x Hx];
    [by apply (index_lt (cv_rows m))|].
  rewrite Hx. by rewrite (nth_lookup_Some _ _ _ _ Hx).
Qed.
(** Reading has no effect. *)
Lemma at_read m i j s : (at_ m i j s).2 = s.
Proof.
  unfold at_, with_array, get, mbind, M_bind. destruct (data m) as [fd|]; [|done].
  destruct (mem s !! fd) as [a|]; [|done]. cbn. by destruct (floats a !! _).
Qed.
Lemma src_at_read m i j s : (src_at m i j s).2 = s.
Proof. destruct m; [cbn; by destruct (_ !! _)|apply at_read]. Qed.
(** A source is not affected by what happens to another array. *)
Lemma src_holds_other s s' m l : src_holds s m l →
  (∀ fd, src_fd m = Some fd → mem s' !! fd = mem s !! fd) → src_holds s' m l.
Proof.
  destruct m as [m|m]; [done|]. intros (fd & a & Hd & Hm & Hr) Hs. exists fd, a.
  rewrite Hs by done. done.
Qed.

(** The shared part of all operations that make a matrix from others. *)
Lemma created_fill_wp t r c (v : Z → Z → float) (body : Z → Z → M (Pm D) float) s :
  pm_wf s → owned s t → 0 < r → 0 < c → numarrays s < 128 → 0 ≤ answer (nalloc s) →
  (∀ t' s0 fd a l i j, created t r c t' s s0 → data t' = Some fd → 0 ≤ i < r → 0 ≤ j < c →
    body i j (fill_at fd a l s0) = (Done (v i j), fill_at fd a l s0)) →
  wp False (t' ← create answer junk t r c;
      for_ij (rows t') (cols t') (λ i j, x ← body i j; set_at t' i j x);; mret t')
    (λ t' s', created t r c t' s s' ∧
      holds s' t' ((λ n, v (n / c) (n mod c)) <$> seqZ 0 (r * c))) s.
Proof.
  intros Hwf Ho Hr Hc Hn Ha Hb. apply wp_bind. eapply wp_mono; [by apply mat_create_wp|].
  intros t' s1 C. pose proof C as C0.
  destruct C as (Er & Ec & Hwf1 & (l & fd & a & Hd & Hm & Hf & Hrc & _ & _ & Hl) & Hoth & Hfr & Hrest).
  apply wp_bind. eapply wp_eq.
  { apply (mat_fill_wp t' fd a body v); try done; try lia; [by subst l|].
    intros i j k Hi Hj. apply (Hb t'); [done|done|lia|lia]. }
  apply wp_ret.
  assert (Efill : filled v (cols t') (rows t' * cols t') (floats a) =
    (λ n, v (n / c) (n mod c)) <$> seqZ 0 (r * c)).
  { unfold filled. rewrite Er, Ec. rewrite drop_ge, app_nil_r; [done|].
    rewrite <-Hf in Hl. rewrite Er, Ec in Hl. lia. }
  rewrite Efill. set (l' := _ <$> _).
  assert (Hh : holds (fill_at fd a l' s1) t' l').
  { exists fd, (set_floats l' a). unfold fill_at. cbn [mem set_mem]. rewrite lookup_insert_eq.
    split_and!; try done; try lia. unfold l'. rewrite length_fmap, length_seqZ, Er, Ec. nia. }
  split; [|done]. destruct Hrest as (R1 & R2 & R3 & R4).
  unfold created. split_and!; try done; try lia.
  - destruct Hwf1 as [W1 W2 W3 W4 W5 W6]. split; try done; cbn [mem fill_at set_mem].
    + intros n Hn'. rewrite lookup_insert_ne; [by apply W5|]. intros E. by rewrite E, W5 in Hm.
    + intros fd' a' Hm'. rewrite lookup_insert_Some in Hm'. destruct Hm' as [[<- <-]|[_ Hm']].
      * by destruct (W6 fd a Hm).
      * by destruct (W6 fd' a' Hm').
  - by exists l'.
  - intros fd' H1 H2. cbn [mem fill_at set_mem]. rewrite lookup_insert_ne by congruence. by apply Hoth.
  - apply R3.
  - apply R3.
  - apply R4.
  - apply R4.
Qed.

(** A source other than the target is still there while the target is filled. *)
Definition apart (m : Src) (t : PortalMat) : Prop := ∀ fd, src_fd m = Some fd → data t ≠ Some fd.
Lemma created_src t r c t' s s0 fd a k m l : created t r c t' s s0 → data t' = Some fd →
  src_holds s m l → apart m t → src_holds (fill_at fd a k s0) m l.
Proof.
  intros (_ & _ & _ & _ & Hoth & Hfr & _) Hd Hs Ht. eapply src_holds_other; [done|].
  intros fd' Hfd. assert (fd' ≠ fd) as Hne.
  { intros ->. destruct (Hfr fd Hd) as [E|E]; [by apply (Ht fd)|].
    destruct m as [m|m]; [done|]. destruct Hs as (fd0 & a0 & Hd0 & Hm0 & _). cbn in Hfd.
    congruence. }
  cbn [mem fill_at set_mem]. rewrite lookup_insert_ne by congruence. apply Hoth; [by apply Ht|congruence].
Qed.
Lemma elt_row_major c l r : 0 < c → 0 ≤ r → Z.of_nat (length l) = r * c →
  (λ n, elt c l (n / c) (n mod c)) <$> seqZ 0 (r * c) = l.
Proof.
  intros Hc Hr Hl. apply list_eq. intros i. rewrite list_lookup_fmap.
  destruct (decide (i < length l)%nat).
  - rewrite lookup_seqZ_lt by lia. cbn. rewrite Z.add_0_l. unfold elt, index.
    replace (Z.of_nat i / c * c + Z.of_nat i mod c) with (Z.of_nat i)
      by (pose proof (Z.div_mod (Z.of_nat i) c); lia).
    rewrite Nat2Z.id. destruct (lookup_lt_is_Some_2 l i) as [x Hx]; [done|].
    by rewrite Hx, (nth_lookup_Some _ _ _ _ Hx).
  - rewrite lookup_seqZ_ge, lookup_ge_None_2 by lia. done.
Qed.

Lemma elt_fill (v : Z → Z → float) r c i j : 0 ≤ i < r → 0 ≤ j < c →
  elt c ((λ n, v (n / c) (n mod c)) <$> seqZ 0 (r * c)) i j = v i j.
Proof.
  intros Hi Hj. unfold elt, index. assert ((i + 1) * c ≤ r * c) by nia.
  assert (0 ≤ i * c) by (apply Z.mul_nonneg_nonneg; lia).
  apply nth_lookup_Some. rewrite list_lookup_fmap, lookup_seqZ_lt by lia. cbn.
  rewrite Z.add_0_l, Z2Nat.id by lia. f_equal.
  by rewrite (Z.add_comm (i * c)), Z.div_add, Z.div_small, Z.mod_add, Z.mod_small by lia.
Qed.

Section Making.
Context (s : Pm D) (Hwf : pm_wf s) (Hn : numarrays s < 128) (Ha : 0 ≤ answer (nalloc s)).

Lemma copy_wp t m l : owned s t → src_holds s m l → apart m t →
  wp False (copy answer junk t m) (λ t' s', created t (src_rows m) (src_cols m) t' s s' ∧ holds s' t' l) s.
Proof.
  intros Ho Hs Ht. destruct (src_holds_dims s m l Hs) as (Hr & Hc & Hl).
  eapply wp_mono; [apply (created_fill_wp t _ _ (elt (src_cols m) l)); try done|].
  - intros t' s0 fd a k i j C Hd Hi Hj. apply src_at_eq; [|done|done]. by eapply created_src.
  - intros t' s' [C Hh]. split; [done|]. rewrite elt_row_major in Hh by lia. done.
Qed.
Lemma new_from_wp m l : src_holds s m l →
  wp False (new_from answer junk m)
    (λ t' s', created (mkMat 0 0 None) (src_rows m) (src_cols m) t' s s' ∧ holds s' t' l) s.
Proof.
  intros Hs. destruct (src_holds_dims s m l Hs) as (Hr & Hc & Hl).
  pose proof (copy_wp (mkMat 0 0 None) m l ltac:(by left) Hs ltac:(done)) as W.
  unfold copy in W. unfold new_from.
  unfold wp, mbind, M_bind in *.
  pose proof (mat_create_wp (mkMat 0 0 None) (src_rows m) (src_cols m) s Hwf ltac:(by left) Hr Hc Hn Ha) as C.
  unfold wp in C. destruct (create _ _ _ _ _ s) as [[t'| | | |] s1]; try done.
  destruct C as (Er & Ec & _). rewrite Er, Ec in W. exact W.
Qed.
(** Element ([i], [j]) of the transpose is element ([j], [i]). *)
Definition transposed (r c : Z) (l : list float) : list float :=
  (λ n, elt c l (n mod r) (n / r)) <$> seqZ 0 (c * r).
Lemma transpose_wp t m l : owned s t → src_holds s m l → apart m t →
  wp False (transpose answer junk t m) (λ t' s', created t (src_cols m) (src_rows m) t' s s' ∧
    holds s' t' (transposed (src_rows m) (src_cols m) l)) s.
Proof.
  intros Ho Hs Ht. destruct (src_holds_dims s m l Hs) as (Hr & Hc & Hl).
  apply (created_fill_wp t _ _ (λ i j, elt (src_cols m) l j i)); try done.
  intros t' s0 fd a k i j C Hd Hi Hj. apply src_at_eq; [|done|done]. by eapply created_src.
Qed.

(** The sum naive_mul computes, in double precision. *)
Definition naive_dot (n ca cb : Z) (la lb : list float) (i j : Z) : float :=
  round32 (foldl (λ c k, f64_add c (f64_mul (round64 (elt ca la i k)) (round64 (elt cb lb k j))))
    f_zero (seqZ 0 n)).
Lemma naive_elem_eq s' a b la lb i j : src_holds s' a la → src_holds s' b lb →
  src_cols a = src_rows b → 0 ≤ i < src_rows a → 0 ≤ j < src_cols b →
  naive_elem a b i j s' = (Done (naive_dot (src_cols a) (src_cols a) (src_cols b) la lb i j), s').
Proof.
  intros H1 H2 E Hi Hj. unfold naive_elem, naive_dot. erewrite bind_Done; [reflexivity|].
  assert (Hk : ∀ k, k ∈ seqZ 0 (src_cols a) → 0 ≤ k < src_cols a)
    by (intros k Hk%elem_of_seqZ; lia).
  revert Hk. generalize (seqZ 0 (src_cols a)) f_zero. intros l.
  induction l as [|k l IH]; intros c0 Hk; [done|]. cbn [foldr foldl]. pose proof (Hk k ltac:(left)).
  rewrite (bind_Done _ _ _ _ _ (src_at_eq s' a la i k H1 Hi ltac:(lia))).
  rewrite (bind_Done _ _ _ _ _ (src_at_eq s' b lb k j H2 ltac:(lia) Hj)).
  apply IH. intros. apply Hk. by right.
Qed.
Lemma naive_mul_wp t a b la lb : owned s t → src_holds s a la → src_holds s b lb →
  apart a t → apart b t → src_cols a = src_rows b →
  wp False (naive_mul answer junk t a b) (λ t' s', created t (src_rows a) (src_cols b) t' s s' ∧
    holds s' t' ((λ n, naive_dot (src_cols a) (src_cols a) (src_cols b) la lb
      (n / src_cols b) (n mod src_cols b)) <$> seqZ 0 (src_rows a * src_cols b))) s.
Proof.
  intros Ho Hsa Hsb Hta Htb E. destruct (src_holds_dims s a la Hsa) as (Hr & Hc & Hl).
  destruct (src_holds_dims s b lb Hsb) as (Hr' & Hc' & Hl'). unfold naive_mul.
  rewrite bool_decide_true by done. apply wp_bind. eapply wp_eq; [done|]. cbv beta.
  apply (created_fill_wp t _ _ (naive_dot (src_cols a) (src_cols a) (src_cols b) la lb)); try done.
  intros t' s0 fd a0 k i j C Hd Hi Hj.
  apply naive_elem_eq; try done; by eapply created_src.
Qed.
End Making.

(** ** Comparison *)
Lemma fold_and {A} (body : A → bool → M (Pm D) bool) (ok : A → bool) (l : list A) rv s :
  (∀ x rv, x ∈ l → body x rv s = (Done (rv && ok x), s)) →
  foldr (λ x rest rv, rv ← body x rv; rest rv) mret l rv s = (Done (rv && forallb ok l), s).
Proof.
  revert rv; induction l as [|x l IH]; intros rv Hb; cbn [foldr forallb]; [by rewrite andb_true_r|].
  rewrite (bind_Done _ _ _ _ _ (Hb x rv ltac:(left))), IH by (intros; apply Hb; by right).
  by rewrite andb_assoc.
Qed.
Definition agree (r c : Z) (l l' : list float) (epsilon : float) : bool :=
  forallb (λ i, forallb (λ j, negb (mismatch (elt c l i j) (elt c l' i j) epsilon)) (seqZ 0 c)) (seqZ 0 r).
Lemma compare_eq t m l l' epsilon s : holds s t l → src_holds s m l' →
  compare t m epsilon s =
    (Done (bool_decide (rows t = src_rows m ∧ cols t = src_cols m) &&
      agree (rows t) (cols t) l l' epsilon), s).
Proof.
  intros Ht Hm. unfold compare.
  destruct (decide (rows t = src_rows m)) as [Er|Er].
  2:{ rewrite (bool_decide_true (rows t ≠ _)), (bool_decide_false (_ ∧ _)) by tauto. done. }
  destruct (decide (cols t = src_cols m)) as [Ec|Ec].
  2:{ rewrite (bool_decide_true (cols t ≠ _)), orb_true_r, (bool_decide_false (_ ∧ _)) by tauto. done. }
  rewrite (bool_decide_false (rows t ≠ _)), (bool_decide_false (cols t ≠ _)),
    (bool_decide_true (_ ∧ _)) by tauto. cbn [orb andb].
  rewrite (fold_and (λ i rv, foldr (λ j rest rv, v ← at_ t i j; ov ← src_at m i j;
    rest (if mismatch v ov epsilon then false else rv)) mret (seqZ 0 (cols t)) rv)
    (λ i, forallb (λ j, negb (mismatch (elt (cols t) l i j) (elt (cols t) l' i j) epsilon))
      (seqZ 0 (cols t)))); [done|].
  intros i rv Hi%elem_of_seqZ.
  pose proof (fold_and (λ j rv, v ← at_ t i j; ov ← src_at m i j;
    mret (if mismatch v ov epsilon then false else rv))
    (λ j, negb (mismatch (elt (cols t) l i j) (elt (cols t) l' i j) epsilon)) (seqZ 0 (cols t)) rv s) as W.
  rewrite <-W.
  - clear W. revert rv. induction (seqZ 0 (cols t)) as [|j js IH]; intros rv; [done|]. cbn [foldr].
    unfold mbind, M_bind. destruct (at_ t i j s) as [[v| | | |] s1] eqn:E1; try done.
    destruct (src_at m i j s1) as [[ov| | | |] s2] eqn:E2; try done. cbn.
    pose proof (at_read t i j s) as R1. rewrite E1 in R1. cbn in R1. subst s1.
    pose proof (src_at_read m i j s) as R2. rewrite E2 in R2. cbn in R2. subst s2. apply IH.
  - intros j rv' Hj%elem_of_seqZ.
    rewrite (bind_Done _ _ _ _ _ (at_eq s t l i j Ht ltac:(lia) ltac:(lia))).
    rewrite (bind_Done _ _ _ _ _ (src_at_eq s m l' i j Hm ltac:(lia) ltac:(lia))).
    rewrite Ec. by destruct (mismatch _ _ _), rv'.
Qed.
Lemma agree_spec r c l l' epsilon : agree r c l l' epsilon = true ↔
  ∀ i j, 0 ≤ i < r → 0 ≤ j < c → mismatch (elt c l i j) (elt c l' i j) epsilon = false.
Proof.
  unfold agree. rewrite forallb_forall. setoid_rewrite forallb_forall.
  setoid_rewrite <-list_elem_of_In. setoid_rewrite elem_of_seqZ.
  split; intros Hx i; [intros j Hi Hj|intros Hi j Hj]; specialize (Hx i).
  - apply negb_true_iff, Hx; lia.
  - apply negb_true_iff, Hx; lia.
Qed.

(** ** Multiplication *)

(** Taking the three references. *)
Lemma wp_ex {T A} (m : M T A) Q (s : T) : wp False m Q s → ∃ a (s' : T), m s = (Done a, s') ∧ Q a s'.
Proof. unfold wp. destruct (m s) as [[a| | | |] s']; try done. by exists a, s'. Qed.
Lemma wp_run {T A} (m m' : M T A) Q (s s' : T) : m s = m' s' → wp False m' Q s' → wp False m Q s.
Proof. unfold wp. by intros ->. Qed.
Lemma references3 s fa fb ft xa xb xt : pm_wf s →
  elems s fa = Some xa → elems s fb = Some xb → elems s ft = Some xt → dma_next (dma s) + 3 ≤ 32 →
  ∃ ra rb rt s', (∀ k : Z → Z → Z → M (Pm D) (),
      (ra ← alloc_reference fa; rb ← alloc_reference fb; rt ← alloc_reference ft; k ra rb rt) s =
      k ra rb rt s') ∧ pm_wf s' ∧
    dma_resolve (dma s') ra = Some fa ∧ dma_resolve (dma s') rb = Some fb ∧
    dma_resolve (dma s') rt = Some ft ∧ (∀ fd, elems s' fd = elems s fd) ∧
    mul_sem s' = mul_sem s ∧ dma_next (dma s') ≤ dma_next (dma s) + 3 ∧ nalloc s' = nalloc s ∧
    numarrays s' = numarrays s.
Proof.
  intros Hwf Ha Hb Ht H32.
  assert (R : ∀ fd x s', pm_wf s' → elems s' fd = Some x → dma_next (dma s') < 32 →
    ∃ r s'', alloc_reference fd s' = (Done r, s'') ∧ refd fd r s' s'').
  { intros fd [l n] s' Hwf' (a & Hm & _)%elems_Some Hn'. by apply wp_ex, (reference_wp fd a). }
  destruct (R fa xa s) as (ra & s1 & E & W1 & X1 & Y1 & Z1 & O1 & E1 & S1 & A1 & N1); [done|done|lia|].
  destruct (R fb xb s1) as (rb & s2 & E' & W2 & X2 & Y2 & Z2 & O2 & E2 & S2 & A2 & N2);
    [done|by rewrite E1|lia|].
  destruct (R ft xt s2) as (rt & s3 & E'' & W3 & X3 & Y3 & Z3 & O3 & E3 & S3 & A3 & N3);
    [done|by rewrite E2, E1|lia|].
  exists ra, rb, rt, s3. split_and!; try done; try congruence; try lia.
  - intros k. rewrite (bind_Done _ _ _ _ _ E), (bind_Done _ _ _ _ _ E'), (bind_Done _ _ _ _ _ E''). done.
  - rewrite O3, O2 by lia. done.
  - rewrite O3 by lia. done.
Qed.
Lemma fill_at_wf s fd a l : pm_wf s → mem s !! fd = Some a → pm_wf (fill_at fd a l s).
Proof.
  intros [V1 V2 V3 V4 V5 V6] Hm. split; cbn [mem fill_at set_mem]; try done.
  - intros n Hn'. rewrite lookup_insert_ne; [by apply V5|]. intros E. by rewrite E, V5 in Hm.
  - intros fd' a' Hm'. rewrite lookup_insert_Some in Hm'. destruct Hm' as [[<- <-]|[_ Hm']].
    + by destruct (V6 fd a Hm).
    + by destruct (V6 fd' a' Hm').
Qed.

Section Multiply.
Context (hw_mul hw_add : float → float → float) (J K : nat) (nshift : Z) (fuel : nat).
Context (HJ : (0 < J)%nat) (HK : (0 < K)%nat) (Hs : 0 ≤ nshift).
Context (HNJ : (2 ^ nshift | Z.of_nat J)) (HNK : (2 ^ nshift | Z.of_nat K)).
Context (HJ8 : 4 * Z.of_nat J < 256) (HK8 : 4 * Z.of_nat K < 256).
Context (r p q : nat) (Hr0 : (0 < r)%nat) (Hp : (0 < p)%nat) (Hq : (0 < q)%nat).
Context (HrA : Z.of_nat (r * (p * J)) < 2 ^ 20) (HrB : Z.of_nat (r * (q * K)) < 2 ^ 20)
  (HAB : Z.of_nat (p * J * (q * K)) < 2 ^ 20).
Context (Hfuel : (p * (q * (r + J)) ≤ fuel)%nat).

Lemma u20_u32 x : 0 ≤ x < 2 ^ 20 → u20 (u32 x) = x.
Proof. intros. rewrite u32_small by lia. by apply u20_small. Qed.

(** The multiplier's result, element by element in row-major order. *)
Definition product (la lb : list float) : list float :=
  entry f_zero hw_mul hw_add J K r p q la lb <$> seq 0 (p * J * (q * K)).

Lemma mmf_args (la lb lc : list float) :
  mmf f_zero hw_mul hw_add J K nshift fuel la lb lc (u32 r) (u32 (p * J)%nat) (u32 r) (u32 (q * K)%nat)
    (u32 (s32 (r * (p * J)%nat))) (u32 (s32 ((p * J)%nat * J))) (u32 (s32 (r * (q * K)%nat)))
    (u32 (s32 ((q * K)%nat * J))) (u32 (s32 ((p * J)%nat * (q * K)%nat)))
    (u32 (s32 (r * (q * K)%nat))) =
  mm_engine f_zero hw_mul hw_add J K nshift fuel la lb lc r (p * J)%nat r (q * K)%nat
    (r * (p * J))%nat (q * K * J)%nat (p * J * (q * K))%nat (r * (q * K))%nat.
Proof.
  unfold mmf.
  assert (Hrr : Z.of_nat r < 2 ^ 20 ∧ Z.of_nat (p * J) < 2 ^ 20 ∧ Z.of_nat (q * K) < 2 ^ 20 ∧
    Z.of_nat (q * K * J) < 2 ^ 20).
  { assert (1 ≤ p * J)%nat by nia. assert (1 ≤ q * K)%nat by nia. split_and!; nia. }
  destruct Hrr as (R1 & R2 & R3 & R4).
  rewrite <-!Nat2Z.inj_mul. rewrite !s32_small by lia. by rewrite !u20_u32 by lia.
Qed.
Lemma mmf_product (la lb lc : list float) : (gatherSz K ≤ r)%nat → length la = (r * (p * J))%nat →
  length lb = (r * (q * K))%nat → length lc = (p * J * (q * K))%nat →
  mmf f_zero hw_mul hw_add J K nshift fuel la lb lc (u32 r) (u32 (p * J)%nat) (u32 r) (u32 (q * K)%nat)
    (u32 (s32 (r * (p * J)%nat))) (u32 (s32 ((p * J)%nat * J))) (u32 (s32 (r * (q * K)%nat)))
    (u32 (s32 ((q * K)%nat * J))) (u32 (s32 ((p * J)%nat * (q * K)%nat)))
    (u32 (s32 (r * (q * K)%nat))) = Some (product la lb, true).
Proof.
  intros Hr Ha Hb Hc. rewrite mmf_args.
  pose proof (mm_engine_spec f_zero hw_mul hw_add J K nshift HJ HK Hs HNJ HNK HJ8 HK8 r p q Hr0 Hp Hq
    HrA HrB HAB la lb ltac:(unfold cA; lia) ltac:(unfold cB; lia) Hr fuel lc) as E.
  unfold cA, cB in E. rewrite E by lia. rewrite drop_ge, app_nil_r by lia. done.
Qed.
(** With too few rows it writes nothing and does not report completion. *)
Lemma mmf_stuck (la lb lc : list float) : (r < gatherSz K)%nat → length la = (r * (p * J))%nat →
  length lb = (r * (q * K))%nat →
  mmf f_zero hw_mul hw_add J K nshift fuel la lb lc (u32 r) (u32 (p * J)%nat) (u32 r) (u32 (q * K)%nat)
    (u32 (s32 (r * (p * J)%nat))) (u32 (s32 ((p * J)%nat * J))) (u32 (s32 (r * (q * K)%nat)))
    (u32 (s32 ((q * K)%nat * J))) (u32 (s32 ((p * J)%nat * (q * K)%nat)))
    (u32 (s32 (r * (q * K)%nat))) = Some (lc, false).
Proof.
  intros HG Ha Hb. rewrite mmf_args.
  pose proof (mm_engine_stuck f_zero hw_mul hw_add J K nshift HJ HK Hs HNJ HNK HJ8 HK8 r p q Hr0 Hp Hq
    HrA HrB HAB la lb ltac:(unfold cA; lia) ltac:(unfold cB; lia) fuel lc) as E.
  unfold cA, cB in E. by rewrite E by lia.
Qed.

(** Three matrices in three buffers: the result's buffer then holds the product, every
    other buffer is as it was, and the call returns. *)
Lemma multf_wp s t a b la lb lc : (gatherSz K ≤ r)%nat → pm_wf s → holds s a la → holds s b lb → holds s t lc →
  data t ≠ data a → data t ≠ data b → rows a = r → rows b = r → cols a = (p * J)%nat →
  cols b = (q * K)%nat → rows t = cols a → cols t = cols b → mul_sem s = 0 →
  dma_next (dma s) + 3 ≤ 32 →
  wp False (multf hw_mul hw_add J K nshift fuel t a b) (λ _ s', pm_wf s' ∧ mul_sem s' = 0 ∧
    (∀ fd, elems s' fd = if bool_decide (data t = Some fd) then Some (product la lb, 1) else elems s fd) ∧
    dma_next (dma s') ≤ dma_next (dma s) + 3 ∧ nalloc s' = nalloc s ∧ numarrays s' = numarrays s) s.
Proof.
  intros Hr Hwf (fa & aa & Da & Ma & Fa & Ca' & _ & _ & La) (fb & ab & Db & Mb & Fb & Cb' & _ & _ & Lb)
    (ft & at0 & Dt & Mt & Ft & Ct' & _ & _ & Lt) Nta Ntb Ra Rb Ca Cb Rt Ct Hsem H32.
  unfold multf. rewrite bool_decide_false by (intros E; apply E; congruence).
  unfold reference. rewrite Da, Db, Dt.
  assert (Ea : elems s fa = Some (la, 1)) by (apply elems_Some; eauto).
  assert (Eb : elems s fb = Some (lb, 1)) by (apply elems_Some; eauto).
  assert (Et : elems s ft = Some (lc, 1)) by (apply elems_Some; eauto).
  destruct (references3 s fa fb ft _ _ _ Hwf Ea Eb Et H32) as
    (ra & rb & rt & s' & Erun & W & X1 & X2 & X3 & Hel & Hs' & Hn' & A' & N').
  rewrite <-Hel in Ea, Eb, Et. apply (wp_run _ _ _ _ _ (Erun _)).
  apply elems_Some in Ea as (xa & Ma3 & Fa3 & _). apply elems_Some in Eb as (xb & Mb3 & Fb3 & _).
  apply elems_Some in Et as (xt & Mt3 & Ft3 & Rt3).
  apply wp_bind. unfold device_mmf. apply wp_bind, wp_get. rewrite X1, X2, X3.
  apply wp_bind, (wp_with_array fa xa); [done|]. apply wp_bind, (wp_with_array fb xb); [done|].
  apply wp_bind, (wp_with_array ft xt); [done|].
  rewrite (bool_decide_false (ft = fa)), (bool_decide_false (ft = fb)) by congruence. cbn [orb].
  rewrite Ra, Rb, Ca, Cb, mmf_product by (done || (rewrite ?Fa3, ?Fb3, ?Ft3; nia)).
  apply wp_bind. unfold put_array, mmfDone, sem_wait_mul. wp_steps. cbn [mul_sem set_mem set_sem].
  rewrite Hs', Hsem. cbn. wp_steps. cbn [mul_sem set_sem]. rewrite Fa3, Fb3.
  split_and!; cbn; try lia; try congruence.
  - pose proof (fill_at_wf s' ft xt (product la lb) W Mt3) as [V1 V2 V3 V4 V5 V6].
    split; try done. intros fd' a' Hm'. by destruct (V6 fd' a' Hm').
  - intros fd. unfold elems. cbn. case_bool_decide as E.
    + injection E as <-. rewrite lookup_insert_eq. cbn. by rewrite Rt3.
    + rewrite lookup_insert_ne by congruence. apply Hel.
Qed.
End Multiply.
End Invariant.

(** ** What the matrix library guarantees *)

(** Column [j] of a matrix of [r] rows and [c] columns. *)
Definition column (r c : Z) (l : list float) (j : Z) : list float := (λ x, elt c l x j) <$> seqZ 0 r.

Section Claims.
Context {D : Type} `{DmaRefs D} (answer : nat → Z) (junk : float).

Lemma product_elt hw_mul hw_add J K r p q la lb i j : (0 < K)%nat → (0 < q)%nat →
  0 ≤ i < (p * J)%nat → 0 ≤ j < (q * K)%nat →
  elt (q * K)%nat (product hw_mul hw_add J K r p q la lb) i j =
    dot f_zero hw_add K (zip_with hw_mul (column r (p * J)%nat la i) (column r (q * K)%nat lb j)).
Proof.
  intros HK Hq Hi Hj. unfold elt at 1, product, index.
  assert (Hlt : (Z.to_nat (i * (q * K)%nat + j) < p * J * (q * K))%nat) by
    (apply (index_lt (p * J)%nat (q * K)%nat i j); [by rewrite Nat2Z.inj_mul|done|done]).
  rewrite nth_fmap_seq by done. unfold entry. f_equal.
  unfold terms, column, cA, cB. rewrite zip_with_fmap_same.
  assert (0 ≤ i * (q * K)%nat) by (apply Z.mul_nonneg_nonneg; lia).
  assert (Hdiv : (Z.to_nat (i * (q * K)%nat + j) / (q * K) = Z.to_nat i)%nat).
  { apply Nat2Z.inj. rewrite Nat2Z.inj_div, !Z2Nat.id by lia.
    rewrite Z.add_comm, Z.div_add, Z.div_small by lia. lia. }
  assert (Hmod : (Z.to_nat (i * (q * K)%nat + j) mod (q * K) = Z.to_nat j)%nat).
  { apply Nat2Z.inj. rewrite Nat2Z.inj_mod, !Z2Nat.id by lia.
    by rewrite Z.add_comm, Z.mod_add, Z.mod_small by lia. }
  rewrite Hdiv, Hmod. apply list_eq. intros x. rewrite !list_lookup_fmap.
  destruct (decide (x < r)%nat); [|by rewrite lookup_seq_ge, lookup_seqZ_ge by lia].
  rewrite lookup_seq_lt, lookup_seqZ_lt by lia. cbn. unfold elt, index. do 2 f_equal; f_equal; lia.
Qed.

(** C9.  Multiplying with the accelerator: for matrices of dimensions it can handle, in
    three different buffers, the call takes the references it needs and returns;
    element (i, j) of the result is the dot product of column i of the first and
    column j of the second factor, added up in the order of the server's queue;
    every other matrix is as before and the allocator's invariant holds.  The first factor is
    so taken as stored transposed, although the comment above the function says a * b. *)
Theorem multf_product hw_mul hw_add J K nshift fuel r p q s t a b la lb lc :
  mm_dims J K nshift r p q → (gatherSz K ≤ r)%nat → (p * (q * (r + J)) ≤ fuel)%nat →
  pm_wf answer s → holds s a la → holds s b lb → holds s t lc →
  data t ≠ data a → data t ≠ data b → rows a = r → rows b = r → cols a = (p * J)%nat →
  cols b = (q * K)%nat → rows t = cols a → cols t = cols b → mul_sem s = 0 →
  dma_next (dma s) + 3 ≤ 32 →
  wp False (multf hw_mul hw_add J K nshift fuel t a b) (λ _ s',
    pm_wf answer s' ∧ mul_sem s' = 0 ∧
    (∃ l, holds s' t l ∧ ∀ i j, 0 ≤ i < rows t → 0 ≤ j < cols t → elt (cols t) l i j =
      dot f_zero hw_add K (zip_with hw_mul (column r (cols a) la i) (column r (cols b) lb j))) ∧
    (∀ m l, data m ≠ data t → holds s m l → holds s' m l)) s.
Proof.
  intros [M1 M2 M3 M4 M5 M6 M7 M8 M9 M10 M11 M12] Hr Hf Hwf Ha Hb Ht Nta Ntb Ra Rb Ca Cb Rt Ct Hs Hn.
  pose proof Ht as (fd & at0 & Dt & _ & _ & _ & Rp & Cp & Lt).
  eapply wp_mono; [by apply (multf_wp answer hw_mul hw_add J K nshift fuel M1 M2 M3 M4 M5 M6 M7 r p q
    ltac:(pose proof (gatherSz_pos K M2); lia) M8 M9 M10 M11 M12 Hf s t a b la lb lc)|].
  intros _ s' (W & S' & E & _). split_and!; try done.
  - exists (product hw_mul hw_add J K r p q la lb). split.
    + pose proof (E fd) as Ed. rewrite bool_decide_true in Ed by done.
      apply elems_Some in Ed as (x & Hx & Fx & Cx). exists fd, x. split_and!; try done.
      unfold product. rewrite length_fmap, length_seq. rewrite Rt, Ct, Ca, Cb. lia.
    + rewrite Rt, Ct, Ca, Cb. intros i j Hi Hj. by apply product_elt.
  - intros m l Hne (fd' & x & Dm & Mm & Fm & Cm & Dims).
    assert (Ed : elems s' fd' = Some (l, 1)).
    { rewrite E, bool_decide_false by congruence. apply elems_Some. by exists x. }
    apply elems_Some in Ed as (y & Hy & Fy & Cy). by exists fd', y.
Qed.

(** With fewer rows than the adder has lanes the multiplication never returns: the
    accelerator waits for partial sums that do not exist, and the program for its
    indication. *)
Lemma multf_few_rows hw_mul hw_add J K nshift fuel r p q s t a b la lb lc :
  mm_dims J K nshift r p q → (0 < r < gatherSz K)%nat → (p * (q * (r + J)) ≤ fuel)%nat →
  pm_wf answer s → holds s a la → holds s b lb → holds s t lc →
  data t ≠ data a → data t ≠ data b → rows a = r → rows b = r → cols a = (p * J)%nat →
  cols b = (q * K)%nat → rows t = cols a → cols t = cols b → mul_sem s = 0 →
  dma_next (dma s) + 3 ≤ 32 →
  (multf hw_mul hw_add J K nshift fuel t a b s).1 = OutOfFuel.
Proof.
  intros [M1 M2 M3 M4 M5 M6 M7 M8 M9 M10 M11 M12] [Hr0 Hr] Hf Hwf
    (fa & aa & Da & Ma & Fa & Ca' & _ & _ & La) (fb & ab & Db & Mb & Fb & Cb' & _ & _ & Lb)
    (ft & at0 & Dt & Mt & Ft & Ct' & _ & _ & Lt) Nta Ntb Ra Rb Ca Cb Rt Ct Hsem H32.
  assert (Ea : elems s fa = Some (la, 1)) by (apply elems_Some; eauto).
  assert (Eb : elems s fb = Some (lb, 1)) by (apply elems_Some; eauto).
  assert (Et : elems s ft = Some (lc, 1)) by (apply elems_Some; eauto).
  unfold multf. rewrite bool_decide_false by (intros E; apply E; congruence).
  unfold reference. rewrite Da, Db, Dt.
  destruct (references3 answer s fa fb ft _ _ _ Hwf Ea Eb Et H32) as
    (ra & rb & rt & s' & Erun & _ & X1 & X2 & X3 & Hel & Hs' & _).
  rewrite Erun. clear Erun. rewrite <-Hel in Ea, Eb, Et.
  apply elems_Some in Ea as (xa & Ma3 & Fa3 & _). apply elems_Some in Eb as (xb & Mb3 & Fb3 & _).
  apply elems_Some in Et as (xt & Mt3 & Ft3 & Rt3).
  unfold device_mmf. erewrite (bind_Done _ _ s'); [|
    erewrite bind_Done by reflexivity; rewrite X1, X2, X3;
    rewrite (bind_Done _ _ _ _ _ (with_array_eq fa xa s' Ma3));
    rewrite (bind_Done _ _ _ _ _ (with_array_eq fb xb s' Mb3));
    rewrite (bind_Done _ _ _ _ _ (with_array_eq ft xt s' Mt3));
    rewrite (bool_decide_false (ft = fa)), (bool_decide_false (ft = fb)) by congruence; cbn [orb];
    rewrite Ra, Rb, Ca, Cb, (mmf_stuck hw_mul hw_add J K nshift fuel M1 M2 M3 M4 M5 M6 M7 r p q
      Hr0 M8 M9 M10 M11 M12 Hf) by (done || (rewrite ?Fa3, ?Fb3, ?Ft3; nia));
    reflexivity].
  unfold sem_wait_mul, get, mbind, M_bind. cbn. by rewrite Hs', Hsem.
Qed.
End Claims.

(** ** Limits *)
Section Limits.
Context {D : Type} `{DmaRefs D} (answer : nat → Z) (junk : float).
Context `{!OpenCV (D := D) answer junk}.

(** C29.  Making matrices.  The allocator's invariant holds, it has room for another array and gets a
    descriptor from the kernel; the target has no array or is the only owner of its array, and the
    sources are not in it (a matrix may not be transposed into itself, see [transpose_itself]); descriptors are not
    given out twice.  Then a constructor that copies, copying,
    transposing and multiplying in software return; the new matrix has the right shape and elements
    (the sum of products in double precision, rounded once), the invariant holds, and every matrix
    other than the target keeps its elements. *)
Theorem making_matrices s t m l :
  (∀ n k, answer n = answer k → n = k) → (∀ n, 0 ≤ answer n → dma_fd (answer n)) →
  pm_wf answer s → numarrays s < 128 → 0 ≤ answer (nalloc s) →
  owned s t → src_holds s m l → apart m t →
  let keeps s' := ∀ m' l', data m' ≠ data t → holds s m' l' → holds s' m' l' in
  wp False (new_from answer junk m) (λ t' s', pm_wf answer s' ∧ (∀ m' l', holds s m' l' → holds s' m' l') ∧
    holds s' t' l ∧ rows t' = src_rows m ∧ cols t' = src_cols m) s ∧
  wp False (copy answer junk t m) (λ t' s', pm_wf answer s' ∧ keeps s' ∧ holds s' t' l ∧
    rows t' = src_rows m ∧ cols t' = src_cols m) s ∧
  wp False (transpose answer junk t m) (λ t' s', pm_wf answer s' ∧ keeps s' ∧
    rows t' = src_cols m ∧ cols t' = src_rows m ∧
    ∃ l', holds s' t' l' ∧ ∀ i j, 0 ≤ i < src_cols m → 0 ≤ j < src_rows m →
      elt (src_rows m) l' i j = elt (src_cols m) l j i) s ∧
  (∀ b lb, src_holds s b lb → apart b t → src_cols m = src_rows b →
    wp False (naive_mul answer junk t m b) (λ t' s', pm_wf answer s' ∧ keeps s' ∧
      rows t' = src_rows m ∧ cols t' = src_cols b ∧
      ∃ l', holds s' t' l' ∧ ∀ i j, 0 ≤ i < src_rows m → 0 ≤ j < src_cols b →
        elt (src_cols b) l' i j = naive_dot (src_cols m) (src_cols m) (src_cols b) l lb i j) s).
Proof.
  intros Hinj Hfd Hwf Hn Ha Ho Hs Ht keeps.
  destruct (src_holds_dims s m l Hs) as (Hr & Hc & Hl).
  assert (K : ∀ r c t' s', created answer t r c t' s s' → keeps s').
  { intros r c t' s' (_ & _ & _ & _ & Hoth & Hfr & _) m' l' Hne (fd & a & Hd & Hm & Hrest).
    exists fd, a. rewrite Hoth; [done|congruence|]. intros E. destruct (Hfr fd E); congruence. }
  split_and!.
  - eapply wp_mono; [by apply (new_from_wp answer junk Hinj Hfd s Hwf Hn Ha m l)|].
    intros t' s' [(E1 & E2 & W & _ & Hoth & Hfr & _) Hh]. split_and!; try done.
    intros m' l' (fd & a & Hd & Hm & Hrest). exists fd, a. rewrite Hoth; [done|done|]. intros E. destruct (Hfr fd E) as [?|?]; [done|congruence].
  - eapply wp_mono; [by eapply (copy_wp answer junk Hinj Hfd)|]. intros t' s' [C Hh].
    pose proof (K _ _ _ _ C). destruct C as (E1 & E2 & W & _). done.
  - eapply wp_mono; [by eapply (transpose_wp answer junk Hinj Hfd)|]. intros t' s' [C Hh].
    pose proof (K _ _ _ _ C). destruct C as (E1 & E2 & W & _). split_and!; try done.
    eexists. split; [done|]. intros i j Hi Hj. unfold transposed. by apply (elt_fill (λ i j, elt (src_cols m) l j i)).
  - intros b lb Hsb Htb E. destruct (src_holds_dims s b lb Hsb) as (Hr' & Hc' & Hl').
    eapply wp_mono; [by eapply (naive_mul_wp answer junk Hinj Hfd)|]. intros t' s' [C Hh].
    pose proof (K _ _ _ _ C). destruct C as (E1 & E2 & W & _). split_and!; try done.
    eexists. split; [done|]. intros i j Hi Hj. by apply (elt_fill (naive_dot (src_cols m) (src_cols m) (src_cols b) l lb)).
Qed.

(** Making an array and releasing it, [n] times. *)
Fixpoint churn (n : nat) : M (Pm D) () :=
  match n with
  | O => mret tt
  | S n => fd ← allocate answer junk 1 1; cv_release (mkMat 1 1 (Some fd));; churn n
  end.
(** The allocator's table is never cleared: 127 arrays can be made in the life of the
    program, even if each is released before the next is made, and the one after
    them is recorded outside the table. *)
Lemma allocator_limit s n :
  (∀ n k, answer n = answer k → n = k) → (∀ n, 0 ≤ answer n ∧ dma_fd (answer n)) →
  pm_wf answer s → numarrays s = 1 →
  if decide (n ≤ 127)%nat
  then wp False (churn n) (λ _ s', pm_wf answer s' ∧ mem s' = mem s) s
  else (churn n s).1 = Undefined.
Proof.
  intros Hinj Hfd Hwf Hn.
  assert (H0 : ∀ (n : nat) s, pm_wf answer s →
    if decide (numarrays s + n ≤ 128)
    then wp False (churn n) (λ _ s', pm_wf answer s' ∧ mem s' = mem s) s
    else (churn n s).1 = Undefined).
  { clear s n Hwf Hn. induction n as [|n IH]; intros s Hwf.
    { rewrite decide_True by (pose proof (wf_num _ s Hwf); lia). by apply wp_ret. }
    pose proof (wf_num _ s Hwf) as Hnum. cbn [churn].
    destruct (decide (numarrays s < 128)) as [Hlt|Hge].
    - pose proof (allocate_eq answer junk 1 1 s Hlt (proj1 (Hfd _))) as E.
      assert (Hwf1 : pm_wf answer (after_alloc answer junk 1 1 s))
        by (apply after_alloc_wf; [done|intros; by apply Hfd|done|done|by apply Hfd]).
      pose proof (release_eq answer _ (mkMat 1 1 (Some (answer (nalloc s)))) _ _ Hwf1 eq_refl
        (lookup_insert_eq _ _ _) eq_refl) as E1.
      set (s1 := drop_array _ _) in E1.
      assert (Hwf2 : pm_wf answer s1) by by apply drop_array_wf.
      assert (Hmem : mem s1 = mem s).
      { unfold s1, drop_array, after_alloc, set_mem. cbn [mem]. apply delete_insert_id.
        by apply (wf_fresh _ s Hwf). }
      assert (Hnu : numarrays s1 = numarrays s + 1)
        by (unfold s1, drop_array, after_alloc, set_mem; cbn [numarrays]; rewrite s32_small; lia).
      specialize (IH s1 Hwf2). rewrite Hnu in IH.
      destruct (decide (numarrays s + S n ≤ 128)).
      + rewrite decide_True in IH by lia. eapply wp_run; [|].
        { rewrite (bind_Done _ _ _ _ _ E), (bind_Done _ _ _ _ _ E1). reflexivity. }
        eapply wp_mono; [exact IH|]. intros _ s' [? ->]. done.
      + rewrite decide_False in IH by lia.
        by rewrite (bind_Done _ _ _ _ _ E), (bind_Done _ _ _ _ _ E1).
    - rewrite decide_False by lia. unfold allocate, get, mbind, M_bind.
      rewrite (bool_decide_false (numarrays s < 128)) by lia. done. }
  specialize (H0 n s Hwf). rewrite Hn in H0. destruct (decide (n ≤ 127)%nat);
    [by rewrite decide_True in H0 by lia|by rewrite decide_False in H0 by lia].
Qed.

(** The first array referenced gets handle 0, which stands for none: it is referenced
    again, under another handle, the next time. *)
Lemma reference_zero fd a s : pm_wf answer s → mem s !! fd = Some a → ref a = 0 →
  dma_next (dma s) = 0 →
  wp False (r1 ← alloc_reference fd; r2 ← alloc_reference fd; mret (r1, r2))
    (λ r _, r = (0, 1)) s.
Proof.
  intros Hwf Hm Hr Hn. pose proof Hwf as [_ _ Hd _ _ Ha]. destruct (Ha fd a Hm) as [A1 A2 A3 _].
  assert (R : ∀ s a, dma_ok (dma s) → arrayFds s !! Z.to_nat (arraynum a) = Some fd → 1 ≤ arraynum a →
    mem s !! fd = Some a → ref a = 0 → 0 ≤ dma_next (dma s) < 32 →
    wp False (alloc_reference fd) (λ r s', r = dma_next (dma s) ∧ dma_ok (dma s') ∧
      arrayFds s' = arrayFds s ∧ dma_next (dma s') = r + 1 ∧
      mem s' !! fd = Some (set_ref r a)) s).
  { clear -A3. intros s a Hd Hf Hnum Hm Hr Hn. unfold alloc_reference.
    apply wp_bind, (wp_with_array fd a); [done|]. rewrite bool_decide_true by done.
    apply wp_bind, (wp_array_fd _ fd); [lia|done|]. apply wp_bind, wp_on_dma.
    eapply wp_mono; [by apply dma_reference_wp|]. intros r d (-> & Hd' & Hn' & _).
    apply wp_bind. unfold put_array. wp_steps. cbn. split_and!; try done. apply lookup_insert_eq. }
  apply wp_bind. eapply wp_mono; [apply (R s a); try done; lia|].
  intros r s' (-> & Hd' & Hf' & Hn' & Hm'). apply wp_bind.
  eapply wp_mono; [apply (R s' (set_ref (dma_next (dma s)) a)); cbn; try done; try lia; by rewrite Hf'|].
  intros r' s'' (-> & _). apply wp_ret. f_equal; lia.
Qed.
End Limits.

(** NaN passes every comparison: a result that holds nothing else agrees with any
    matrix. *)
Lemma nan_agrees r c n l' epsilon : Z.of_nat n = r * c → 0 ≤ r → 0 ≤ c →
  agree r c (replicate n S754_nan) l' epsilon = true.
Proof.
  intros Hn Hr Hc. apply agree_spec. intros i j Hi Hj. unfold elt at 1.
  rewrite (nth_lookup_Some _ _ _ S754_nan).
  - unfold mismatch. generalize (elt c l' i j). intros ov. by destruct ov, epsilon.
  - apply lookup_replicate. split; [done|]. by apply (index_lt r).
Qed.

(** ** An example: three small matrices *)

(** A DMA manager that only counts. *)
#[refine] Instance plain_refs : DmaRefs (Z * gmap Z Z) := {|
  dma_reference fd d := (Done d.1, (d.1 + 1, <[d.1 := fd]> d.2));
  dma_next d := d.1;
  dma_resolve d id := d.2 !! id;
  dma_ok _ := True;
  dma_fd _ := True |}.
Proof.
  intros fd [n g] _ _ _. unfold wp. cbn [fst snd]. rewrite lookup_insert_eq.
  split_and!; try done. intros i Hi. by rewrite lookup_insert_ne.
Defined.

Definition demo_answer (n : nat) : Z := 10 + n.
Definition demo_list (n : nat) (k : Z) : list float := (λ i, f32_of_Z (k + i)) <$> seqZ 0 n.
(** [n] rows of 2 columns each; the result has 2 rows. *)
Definition demo_pm (n : nat) : Pm (Z * gmap Z Z) :=
  mkPm (0 :: 10 :: 11 :: 12 :: replicate 124 0) 4
    (<[10 := mkArray (demo_list (2 * n) 1) 1 1 0 4096]> (<[11 := mkArray (demo_list (2 * n) 5) 1 2 0 4096]>
      (<[12 := mkArray (demo_list 4 0) 1 3 0 4096]> ∅))) 3 (0, ∅) 0.
Lemma demo_wf n : pm_wf demo_answer (demo_pm n).
Proof.
  split; cbn [demo_pm arrayFds numarrays mem nalloc dma]; try done; try lia.
  - intros k Hk. unfold demo_answer. rewrite !lookup_insert_ne by lia. apply lookup_empty.
  - intros fd a Hm. rewrite !lookup_insert_Some, lookup_empty in Hm.
    destruct Hm as [[<- <-]|[_ [[<- <-]|[_ [[<- <-]|[_ ?]]]]]]; [..|done];
      (split; cbn; [lia|done|done|by left]).
Qed.
Definition demo_mat (n : nat) (fd : Z) : PortalMat := mkMat n 2 (Some fd).
Lemma demo_holds_a n : (0 < n)%nat → holds (demo_pm n) (demo_mat n 10) (demo_list (2 * n) 1).
Proof.
  intros. eexists 10, _. split_and!; [done|cbn [demo_pm mem]; apply lookup_insert_eq|done|done|..];
    cbn [demo_mat rows cols]; unfold demo_list; rewrite ?length_fmap, ?length_seqZ; lia.
Qed.
Lemma demo_holds_b n : (0 < n)%nat → holds (demo_pm n) (demo_mat n 11) (demo_list (2 * n) 5).
Proof.
  intros. eexists 11, _. split_and!; [done|cbn [demo_pm mem]; rewrite lookup_insert_ne by lia;
    apply lookup_insert_eq|done|done|..];
    cbn [demo_mat rows cols]; unfold demo_list; rewrite ?length_fmap, ?length_seqZ; lia.
Qed.
Lemma demo_holds_t n : holds (demo_pm n) (demo_mat 2 12) (demo_list 4 0).
Proof.
  eexists 12, _. split_and!; [done|cbn [demo_pm mem]; rewrite !lookup_insert_ne by lia;
    apply lookup_insert_eq|done|done|..];
    cbn [demo_mat rows cols]; unfold demo_list; rewrite ?length_fmap, ?length_seqZ; lia.
Qed.
Lemma demo_dims r : (0 < r ≤ 100)%nat → mm_dims 1 1 0 r 2 2.
Proof. intros. split; try lia; by exists 1. Qed.

Lemma multf_product_witness :
  wp False (multf f32_mul f32_add 1 1 0 1000 (demo_mat 2 12) (demo_mat 8 10) (demo_mat 8 11))
    (λ _ s', ∃ l, holds s' (demo_mat 2 12) l ∧
      elt 2 l 1 0 = dot f_zero f32_add 1 (zip_with f32_mul (column 8 2 (demo_list 16 1) 1)
        (column 8 2 (demo_list 16 5) 0))) (demo_pm 8).
Proof.
  eapply wp_mono; [refine (multf_product demo_answer f32_mul f32_add 1 1 0 1000 8 2 2 (demo_pm 8)
    (demo_mat 2 12) (demo_mat 8 10) (demo_mat 8 11) _ _ _ (demo_dims 8 ltac:(lia)) _ _ (demo_wf 8)
    (demo_holds_a 8 ltac:(lia)) (demo_holds_b 8 ltac:(lia)) (demo_holds_t 8) _ _ _ _ _ _ _ _ _ _);
    first [done | cbn; lia]|].
  intros _ s' (_ & _ & (l & Hl & He) & _). exists l. split; [done|]. apply (He 1 0); cbn; lia.
Defined.
(** Mat::create as documented. *)
#[refine] Instance documented_opencv {D} answer junk : OpenCV (D := D) answer junk := {|
  create m r c :=
    if decide (rows m = r ∧ cols m = c ∧ data m ≠ None) then mret m
    else cv_release m;; fd ← allocate answer junk r c; mret (mkMat r c (Some fd)) |}.
Proof.
  - intros m r c s _ _ E1 E2 E3. by rewrite decide_True.
  - intros m r c s _ _ Hne. by rewrite decide_False.
Defined.

Definition empty_pm : Pm (Z * gmap Z Z) := mkPm (replicate 128 0) 1 ∅ 0 (0, ∅) 0.
Lemma empty_wf : pm_wf demo_answer empty_pm.
Proof.
  split; cbn [empty_pm arrayFds numarrays mem nalloc dma]; try done; lia.
Qed.
Lemma demo_inj n k : demo_answer n = demo_answer k → n = k.
Proof. unfold demo_answer. lia. Qed.

Lemma making_matrices_witness :
  wp False (transpose demo_answer f_zero (demo_mat 2 12) (Ported (demo_mat 8 10)))
    (λ t' s', rows t' = 2 ∧ ∃ l', holds s' t' l' ∧ elt 8 l' 1 3 = elt 2 (demo_list 16 1) 3 1) (demo_pm 8).
Proof.
  destruct (making_matrices (H := plain_refs) demo_answer f_zero (demo_pm 8) (demo_mat 2 12) (Ported (demo_mat 8 10)) _
    demo_inj (λ _ _, I) (demo_wf 8) ltac:(cbn; lia) ltac:(unfold demo_answer; cbn; lia)
    ltac:(right; eexists; apply (demo_holds_t 8)) (demo_holds_a 8 ltac:(lia)) ltac:(intros fd [= <-]; done))
    as (_ & _ & H & _).
  eapply wp_mono; [exact H|]. intros t' s' (_ & _ & E & _ & l' & Hl & He). split; [exact E|].
  exists l'. split; [exact Hl|]. apply (He 1 3); cbn; lia.
Defined.
(** A matrix that is not square, transposed into itself: its array is released before it is read. *)
Lemma transpose_itself :
  (transpose (H0 := documented_opencv demo_answer f_zero) demo_answer f_zero (demo_mat 8 10) (Ported (demo_mat 8 10)) (demo_pm 8)).1 = Undefined.
Proof. vm_compute. reflexivity. Qed.
