(* ===== verification/TestMm.v ===== *)
(** * The matrix-multiplication test (src/examples/matmul/testmm.cpp)

    The program multiplies two matrices three times: with OpenCV, in software
    ([naive_mul]) and with the accelerator ([multf]), and exits with 0 if the other
    two agree with OpenCV's product up to a relative error.  OpenCV's product and
    transpose and rand() are arguments.  Timers, memory statistics, the clock, the
    printed numbers and the thread that asks for debug output are left out. *)
From stdpp Require Import base list gmap numbers.
From Stdlib Require Import SpecFloat.
From S2P Require Import Prelude DotProd MatrixTN PortalMat.
Local Open Scope Z_scope.

Section Main.
Context {D : Type} `{DmaRefs D} (answer : nat → Z) (junk : float).
Context `{!OpenCV (D := D) answer junk}.
Context (hw_mul hw_add : float → float → float) (J K : nat) (nshift : Z) (fuel : nat).
Context (rand : nat → Z) (cv_mul : CvMat → CvMat → CvMat) (cv_t : CvMat → CvMat).

(** [examples/matmul/testmm.cpp:135-146] main: the dimensions, for the simulator or not,
    and as asked for *)
Definition dimensions (bsim : bool) (arg : option Z) : Z * Z :=
  match arg with
  | None => if bsim then (64, 256) else (256, 2048)
  | Some b => (s32 (2 * s32 b), s32 b)
  end.
(** [examples/matmul/testmm.cpp:150-156] main: the matrices' elements *)
Definition rand_value (n : Z) : float := f32_of_Z (rand (Z.to_nat n) mod 10).
Definition gen_m1 (A B : Z) : CvMat := mkCvMat A B (rand_value <$> seqZ 0 (A * B)).
Definition gen_m2 (A B : Z) : CvMat :=
  mkCvMat B A ((λ n, f32_add (f32_of_Z (s32 (A * B))) (rand_value (n mod A * B + n / A))) <$>
    seqZ 0 (B * A)).

(** [examples/matmul/testmm.cpp:197-197] 0.0001, and the default of compare *)
Definition eps_sane : float := round32 (SFdiv 53 1024 (f32_of_Z 1) (f32_of_Z 10000)).
Definition eps_eq : float := round32 (SFdiv 53 1024 (f32_of_Z 1) (f32_of_Z 100)).

Definition empty : PortalMat := mkMat 0 0 None.
(** [examples/matmul/testmm.cpp:176-271] main, from the matrices on (MATRIX_TN) *)
Definition test_product (m1 m2 : CvMat) : M (Pm D) () :=
  let m3 := cv_mul m1 m2 in
  tm3 ← naive_mul answer junk empty (Plain m1) (Plain m2);
  sane ← compare tm3 (Plain m3) eps_sane;
  pm1t ← new_from answer junk (Plain (cv_t m1));
  pm2 ← new_from answer junk (Plain m2);
  _ ← reference pm1t;
  _ ← reference pm2;
  pm3 ← create answer junk empty (cv_rows m1) (cv_cols m2);
  _ ← reference pm3;
  multf hw_mul hw_add J K nshift fuel pm3 pm1t pm2;;
  eq ← compare pm3 (Plain m3) eps_eq;
  exit (if eq && sane then 0 else 1).
(** [examples/matmul/testmm.cpp:135-170] main, up to OpenCV's product *)
Definition testmm_main (bsim : bool) (arg : option Z) : M (Pm D) () :=
  let '(A, B) := dimensions bsim arg in
  test_product (gen_m1 A B) (gen_m2 A B).

(** ** What the exit status says *)
Context (answer_inj : ∀ n k, answer n = answer k → n = k).
Context (answer_fd : ∀ n, 0 ≤ answer n ∧ dma_fd (answer n)).

(** A matrix of the program, still intact. *)
Definition keeps (s s' : Pm D) (t : PortalMat) : Prop :=
  ∀ m l, data m ≠ data t → holds s m l → holds s' m l.
Lemma created_keeps t r c t' s s' : created answer t r c t' s s' → data t = None → keeps s s' t'.
Proof.
  intros (_ & _ & _ & _ & Hoth & _) Hd m l Hne (fd & a & Hm & Ha & Hrest). exists fd, a.
  rewrite Hoth; [done|congruence|congruence].
Qed.
Lemma created_apart t r c t' s s' m l : created answer t r c t' s s' → data t = None →
  holds s m l → data t' ≠ data m.
Proof.
  intros (_ & _ & _ & _ & _ & Hfr & _) Hd (fd & a & Hm & Ha & _) E. rewrite Hm in E.
  destruct (Hfr fd E); congruence.
Qed.

(** Taking a reference keeps the matrices. *)
Lemma reference_run s m l : pm_wf answer s → holds s m l → dma_next (dma s) < 32 →
  ∃ r s', reference m s = (Done r, s') ∧ pm_wf answer s' ∧ (∀ m' l', holds s m' l' → holds s' m' l') ∧
    mul_sem s' = mul_sem s ∧ dma_next (dma s') ≤ dma_next (dma s) + 1 ∧ nalloc s' = nalloc s ∧
    numarrays s' = numarrays s.
Proof.
  intros Hwf (fd & a & Hd & Hm & _) Hn. unfold reference. rewrite Hd.
  destruct (wp_ex _ _ _ (reference_wp answer fd a s Hwf Hm Hn)) as (r & s' & E & W & _ & _ & N & _ & El & S' & A' & N').
  exists r, s'. split_and!; try done; try lia.
  intros m' l' (fd' & a' & Hd' & Hm' & Hl' & Hc' & Hrest).
  assert (E' : elems s' fd' = Some (l', 1)) by (rewrite El; apply elems_Some; by exists a').
  apply elems_Some in E' as (x & Hx & Fx & Cx). by exists fd', x.
Qed.

(** Row [i] of a matrix of [c] columns. *)
Definition row (c : Z) (l : list float) (i : Z) : list float := elt c l i <$> seqZ 0 c.

(** Reaching the multiplication: the state in which it starts. *)
Lemma before_multf s m1t m2 l1t l2 r : pm_wf answer s → numarrays s ≤ 10 → dma_next (dma s) ≤ 10 →
  src_holds s (Plain m1t) l1t → src_holds s (Plain m2) l2 → cv_rows m1t = r → cv_rows m2 = r →
  ∃ pm1t pm2 pm3 l3 s',
    (∀ k : PortalMat → PortalMat → PortalMat → M (Pm D) (),
      (pm1t ← new_from answer junk (Plain m1t); pm2 ← new_from answer junk (Plain m2);
       _ ← reference pm1t; _ ← reference pm2;
       pm3 ← create answer junk empty (cv_cols m1t) (cv_cols m2);
       _ ← reference pm3; k pm1t pm2 pm3) s = k pm1t pm2 pm3 s') ∧
    pm_wf answer s' ∧ holds s' pm1t l1t ∧ holds s' pm2 l2 ∧ holds s' pm3 l3 ∧
    data pm3 ≠ data pm1t ∧ data pm3 ≠ data pm2 ∧ rows pm1t = r ∧ rows pm2 = r ∧
    cols pm1t = cv_cols m1t ∧ cols pm2 = cv_cols m2 ∧ rows pm3 = cv_cols m1t ∧
    cols pm3 = cv_cols m2 ∧ mul_sem s' = mul_sem s ∧ dma_next (dma s') ≤ dma_next (dma s) + 3.
Proof.
  intros Hwf Hn Hd H1 H2 R1 R2.
  assert (Hfd : ∀ n, 0 ≤ answer n → dma_fd (answer n)) by (intros; by apply answer_fd).
  assert (Hans : ∀ n, 0 ≤ answer n) by apply answer_fd.
  destruct (src_holds_dims _ _ _ H1) as (? & ? & _). destruct (src_holds_dims _ _ _ H2) as (? & ? & _).
  cbn in *.
  destruct (wp_ex _ _ _ (new_from_wp answer junk answer_inj Hfd s Hwf ltac:(lia) (Hans _) (Plain m1t) l1t H1))
    as (p1 & s1 & E1 & C1 & Hh1).
  pose proof C1 as (Ra & Ca & W1 & _ & _ & _ & D1 & S1 & N1 & _).
  destruct (wp_ex _ _ _ (new_from_wp answer junk answer_inj Hfd s1 W1 ltac:(lia) (Hans _) (Plain m2) l2 H2))
    as (p2 & s2 & E2 & C2 & Hh2).
  pose proof C2 as (Rb & Cb & W2 & _ & _ & _ & D2 & S2 & N2 & _).
  pose proof (created_keeps _ _ _ _ _ _ C2 eq_refl p1 l1t
    (λ E, created_apart _ _ _ _ _ _ _ _ C2 eq_refl Hh1 (eq_sym E)) Hh1) as Hh1'.
  destruct (reference_run s2 p1 l1t W2 Hh1') as (r1 & s3 & E3 & W3 & K3 & S3 & N3 & _ & M3);
    [rewrite D2, D1; lia|].
  destruct (reference_run s3 p2 l2 W3 (K3 _ _ Hh2)) as (r2 & s4 & E4 & W4 & K4 & S4 & N4 & _ & M4);
    [rewrite D2, D1 in N3; lia|].
  destruct (wp_ex _ _ _ (mat_create_wp answer junk answer_inj Hfd empty (cv_cols m1t) (cv_cols m2) s4 W4
    ltac:(by left) ltac:(done) ltac:(done) ltac:(lia) (Hans _))) as (p3 & s5 & E5 & C5).
  pose proof C5 as (Rc & Cc & W5 & (l3 & Hh3) & _ & _ & D5 & S5 & N5 & _).
  pose proof (K4 _ _ (K3 _ _ Hh1')) as Hh14. pose proof (K4 _ _ (K3 _ _ Hh2)) as Hh24.
  pose proof (created_apart _ _ _ _ _ _ _ _ C5 eq_refl Hh14) as N31.
  pose proof (created_apart _ _ _ _ _ _ _ _ C5 eq_refl Hh24) as N32.
  pose proof (created_keeps _ _ _ _ _ _ C5 eq_refl p1 l1t (λ E, N31 (eq_sym E)) Hh14) as Hh15.
  pose proof (created_keeps _ _ _ _ _ _ C5 eq_refl p2 l2 (λ E, N32 (eq_sym E)) Hh24) as Hh25.
  destruct (reference_run s5 p3 l3 W5 Hh3) as (r3 & s6 & E6 & W6 & K6 & S6 & N6 & _ & M6);
    [rewrite D5; rewrite D2, D1 in N3; lia|].
  exists p1, p2, p3, l3, s6. split.
  { intros k. rewrite (bind_Done _ _ _ _ _ E1), (bind_Done _ _ _ _ _ E2), (bind_Done _ _ _ _ _ E3),
      (bind_Done _ _ _ _ _ E4), (bind_Done _ _ _ _ _ E5), (bind_Done _ _ _ _ _ E6). done. }
  rewrite D5 in N6. rewrite D2, D1 in N3. cbn in Ra, Ca, Rb, Cb.
  split_and!; auto; try congruence; lia.
Qed.

(** The two comparisons, element by element: the software's product has [naive_dot] at
    each place, the accelerator's the dot product of a row and a column. *)
Lemma both_agree (r p q : nat) (c2 : Z) l1 l2 l3 : c2 = (q * K)%nat → (0 < K)%nat → (0 < r)%nat →
  let nl := (λ n, naive_dot r r c2 l1 l2 (n / c2) (n mod c2)) <$> seqZ 0 ((p * J)%nat * c2) in
  let pl := product hw_mul hw_add J K r p q (transposed (p * J)%nat r l1) l2 in
  agree (p * J)%nat c2 pl l3 eps_eq = true ∧ agree (p * J)%nat c2 nl l3 eps_sane = true ↔
  ∀ i j, 0 ≤ i < (p * J)%nat → 0 ≤ j < c2 →
    mismatch (naive_dot r r c2 l1 l2 i j) (elt c2 l3 i j) eps_sane = false ∧
    mismatch (dot f_zero hw_add K (zip_with hw_mul (row r l1 i) (column r c2 l2 j)))
      (elt c2 l3 i j) eps_eq = false.
Proof.
  intros C2 HK Hr nl pl. rewrite !agree_spec.
  assert (Hn1 : ∀ i j, 0 ≤ i < (p * J)%nat → 0 ≤ j < c2 → elt c2 nl i j = naive_dot r r c2 l1 l2 i j)
    by (intros i j Hi Hj; unfold nl; by apply (elt_fill (naive_dot r r c2 l1 l2))).
  assert (Hp1 : ∀ i j, 0 ≤ i < (p * J)%nat → 0 ≤ j < c2 → elt c2 pl i j =
    dot f_zero hw_add K (zip_with hw_mul (row r l1 i) (column r c2 l2 j))).
  { intros i j Hi Hj. unfold pl. rewrite C2 in *. rewrite product_elt by (done || lia).
    do 2 f_equal. unfold column, row. apply list_fmap_ext. intros n x Hx%lookup_seqZ.
    unfold transposed. by apply (elt_fill (λ i j, elt r l1 j i)); lia. }
  split.
  - intros [Ha1 Ha2] i j Hi Hj. rewrite <-Hn1, <-Hp1 by done. auto.
  - intros Hall. split; intros i j Hi Hj; [rewrite Hp1 by done|rewrite Hn1 by done]; by apply Hall.
Qed.

(** The verdict on two given matrices. *)
Lemma test_product_verdict s m1 m2 l1 l2 l3 r p q :
  pm_wf answer s → numarrays s = 1 → dma_next (dma s) = 0 → mul_sem s = 0 →
  src_holds s (Plain m1) l1 → src_holds s (Plain m2) l2 →
  cv_t m1 = mkCvMat (cv_cols m1) (cv_rows m1) (transposed (cv_rows m1) (cv_cols m1) l1) →
  cv_mul m1 m2 = mkCvMat (cv_rows m1) (cv_cols m2) l3 →
  Z.of_nat (length l3) = cv_rows m1 * cv_cols m2 →
  mm_dims J K nshift r p q → (gatherSz K ≤ r)%nat → (p * (q * (r + J)) ≤ fuel)%nat →
  cv_cols m1 = r → cv_rows m2 = r → cv_rows m1 = (p * J)%nat → cv_cols m2 = (q * K)%nat →
  ∃ code s', test_product m1 m2 s = (Exited code, s') ∧ (code = 0 ∨ code = 1) ∧
    (code = 0 ↔ ∀ i j, 0 ≤ i < cv_rows m1 → 0 ≤ j < cv_cols m2 →
      mismatch (naive_dot r r (cv_cols m2) l1 l2 i j) (elt (cv_cols m2) l3 i j) eps_sane = false ∧
      mismatch (dot f_zero hw_add K (zip_with hw_mul (row r l1 i) (column r (cv_cols m2) l2 j)))
        (elt (cv_cols m2) l3 i j) eps_eq = false).
Proof.
  intros Hwf Hn Hd Hs H1 H2 Ht Hm Hl3 Dims HG Hf C1 R2 R1 C2.
  assert (Hfd : ∀ n, 0 ≤ answer n → dma_fd (answer n)) by (intros; by apply answer_fd).
  destruct (src_holds_dims _ _ _ H1) as (P1 & P2 & P3). destruct (src_holds_dims _ _ _ H2) as (P4 & P5 & P6).
  cbn in P1, P2, P3, P4, P5, P6.
  destruct (wp_ex _ _ _ (naive_mul_wp answer junk answer_inj Hfd s Hwf ltac:(lia) (proj1 (answer_fd _)) empty
    (Plain m1) (Plain m2) l1 l2 ltac:(by left) H1 H2 ltac:(done) ltac:(done) ltac:(cbn; congruence)))
    as (tm & s1 & E1 & K1 & Hh1).
  pose proof K1 as (Ra & Ca & W1 & _ & _ & _ & D1 & S1 & N1 & _). cbn in Ra, Ca.
  set (nl := _ <$> seqZ 0 _) in Hh1.
  assert (H3 : ∀ s' : Pm D, src_holds s' (Plain (cv_mul m1 m2)) l3) by (intros; rewrite Hm; cbn; split_and!; lia || done).
  pose proof (compare_eq tm (Plain (cv_mul m1 m2)) nl l3 eps_sane s1 Hh1 (H3 s1)) as E2.
  destruct (before_multf s1 (cv_t m1) m2 (transposed (cv_rows m1) (cv_cols m1) l1) l2 r W1 ltac:(lia)
    ltac:(rewrite D1; lia)) as (pa & pb & pt & lt & s2 & E3 & W2 & Ha & Hb & Htt & X1 & X2 & X3 & X4 & X5 & X6
      & X7 & X8 & X9 & X10); try done; try (rewrite Ht; done); try (rewrite Ht; cbn; lia).
  { rewrite Ht. cbn. unfold transposed. rewrite length_fmap, length_seqZ. split_and!; try done; lia. }
  rewrite Ht in X5, X7. cbn in X5, X7.
  pose proof Dims as [M1 M2 M3 M4 M5 M6 M7 M8 M9 M10 M11 M12].
  destruct (wp_ex _ _ _ (multf_wp answer hw_mul hw_add J K nshift fuel M1 M2 M3 M4 M5 M6 M7 r p q
    ltac:(pose proof (gatherSz_pos K M2); lia) M8 M9 M10 M11 M12 Hf s2 pt pa pb _ _ _ HG W2 Ha Hb Htt X1 X2 X3 X4
    ltac:(congruence) ltac:(congruence) ltac:(congruence) ltac:(congruence) ltac:(congruence)
    ltac:(rewrite D1, Hd in X10; lia))) as ([] & s3 & E4 & W3 & S3 & El & _).
  set (pl := product _ _ _ _ _ _ _ _ _) in El.
  assert (Hpl : holds s3 pt pl).
  { destruct Htt as (fd & a & Hda & Hma & _ & _ & Hrp & Hcp & _). pose proof (El fd) as Ed.
    rewrite bool_decide_true in Ed by done. apply elems_Some in Ed as (x & Hx & Fx & Cx).
    exists fd, x. split_and!; try done. unfold pl, product. rewrite length_fmap, length_seq.
    rewrite X7, X8, R1, C2. lia. }
  pose proof (compare_eq pt (Plain (cv_mul m1 m2)) pl l3 eps_eq s3 Hpl (H3 s3)) as E5.
  eexists _, s3. unfold test_product. rewrite (bind_Done _ _ _ _ _ E1), (bind_Done _ _ _ _ _ E2).
  assert (Hct : cv_cols (cv_t m1) = cv_rows m1) by (by rewrite Ht). rewrite Hct in E3.
  rewrite (E3 (λ pm1t pm2 pm3, _)), (bind_Done _ _ _ _ _ E4), (bind_Done _ _ _ _ _ E5). split; [reflexivity|].
  rewrite Hm. cbn [src_rows src_cols cv_rows cv_cols].
  rewrite !bool_decide_true by (split; congruence). cbn [andb].
  split; [case (andb _ _); auto|].
  transitivity (agree (rows pt) (cols pt) pl l3 eps_eq = true ∧ agree (rows tm) (cols tm) nl l3 eps_sane = true).
  { rewrite <-andb_true_iff. by case (andb _ _). }
  rewrite X7, X8, Ra, Ca. unfold nl, pl. cbn [src_rows src_cols]. rewrite C1, R1.
  apply (both_agree r p q (cv_cols m2) l1 l2 l3 C2 M2). lia.
Qed.

Lemma gen_holds (s : Pm D) (A B : Z) : 0 < A → 0 < B →
  src_holds s (Plain (gen_m1 A B)) (cv_data (gen_m1 A B)) ∧
  src_holds s (Plain (gen_m2 A B)) (cv_data (gen_m2 A B)).
Proof.
  intros HA HB. assert (0 < A * B) by (by apply Z.mul_pos_pos).
  unfold src_holds, gen_m1, gen_m2. cbn [cv_rows cv_cols cv_data].
  rewrite !length_fmap, !length_seqZ. split_and!; lia || done.
Qed.

(** C10.  The matrix test's verdict, for the matrices main makes up: for dimensions the
    accelerator can handle, with OpenCV's transpose and a product of the right shape,
    the program ends, and exits with 0 exactly if every element computed in software
    and every element computed by the accelerator is within its tolerance of
    OpenCV's, and with 1 otherwise. *)
Theorem testmm_verdict s bsim arg l3 (r p q : nat) :
  let m1 := gen_m1 (p * J)%nat r in let m2 := gen_m2 (p * J)%nat r in
  pm_wf answer s → numarrays s = 1 → dma_next (dma s) = 0 → mul_sem s = 0 →
  dimensions bsim arg = ((p * J)%nat : Z, r : Z) → (p * J = q * K)%nat →
  cv_t m1 = mkCvMat r (p * J)%nat (transposed (p * J)%nat r (cv_data m1)) →
  cv_mul m1 m2 = mkCvMat (p * J)%nat (q * K)%nat l3 → (length l3 = p * J * (q * K))%nat →
  mm_dims J K nshift r p q → (gatherSz K ≤ r)%nat → (p * (q * (r + J)) ≤ fuel)%nat →
  ∃ code s', testmm_main bsim arg s = (Exited code, s') ∧ (code = 0 ∨ code = 1) ∧
    (code = 0 ↔ ∀ i j, 0 ≤ i < (p * J)%nat → 0 ≤ j < (q * K)%nat →
      mismatch (naive_dot r r (q * K)%nat (cv_data m1) (cv_data m2) i j)
        (elt (q * K)%nat l3 i j) eps_sane = false ∧
      mismatch (dot f_zero hw_add K (zip_with hw_mul (row r (cv_data m1) i)
        (column r (q * K)%nat (cv_data m2) j))) (elt (q * K)%nat l3 i j) eps_eq = false).
Proof.
  intros m1 m2 Hwf Hn Hd Hs Hdim Hsq Ht Hm Hl3 Dims HG Hf. unfold testmm_main. rewrite Hdim.
  rewrite <-Hsq in *.
  pose proof Dims as [? ? ? ? ? ? ? ? ? ? ? ?].
  assert (0 < (p * J)%nat) by (rewrite Nat2Z.inj_mul; apply Z.mul_pos_pos; lia). assert (0 < (r : Z)) by (pose proof (gatherSz_pos K); lia).
  eapply (test_product_verdict s m1 m2 (cv_data m1) (cv_data m2) l3 r p q); try done.
  - by apply gen_holds.
  - by apply gen_holds.
  - cbn. lia.
  - cbn. lia.
Qed.
End Main.

(** ** An instance: 16 by 8 and 8 by 16 matrices *)
Definition demo_rand (n : nat) : Z := 3 * n + 1.
Definition demo_t (m : CvMat) : CvMat :=
  mkCvMat (cv_cols m) (cv_rows m) (transposed (cv_rows m) (cv_cols m) (cv_data m)).
Definition demo_mul (a b : CvMat) : CvMat := mkCvMat (cv_rows a) (cv_cols b)
  ((λ n, naive_dot (cv_cols a) (cv_cols a) (cv_cols b) (cv_data a) (cv_data b)
     (n / cv_cols b) (n mod cv_cols b)) <$> seqZ 0 (cv_rows a * cv_cols b)).
Lemma demo_dims_main : mm_dims 1 1 0 8 16 16.
Proof. split; try lia; by exists 1. Qed.
Lemma testmm_verdict_witness :
  ∃ code s', testmm_main demo_answer f_zero f32_mul f32_add 1 1 0 3000 demo_rand demo_mul demo_t
    true (Some 8) empty_pm = (Exited code, s') ∧ (code = 0 ∨ code = 1).
Proof.
  destruct (testmm_verdict (H := plain_refs) demo_answer f_zero f32_mul f32_add 1 1 0 3000 demo_rand
    demo_mul demo_t demo_inj (λ n, conj (Z.add_nonneg_nonneg 10 n ltac:(lia) ltac:(lia)) I) empty_pm true
    (Some 8) (cv_data (demo_mul (gen_m1 demo_rand 16 8) (gen_m2 demo_rand 16 8))) 8 16 16
    empty_wf eq_refl eq_refl eq_refl eq_refl eq_refl eq_refl eq_refl
    ltac:(cbn [demo_mul cv_data]; rewrite length_fmap, length_seqZ; cbn; lia)
    demo_dims_main ltac:(cbn; lia) ltac:(lia)) as (code & s' & E & Hc & _).
  exists code, s'. exact (conj E Hc).
Defined.
