(* ===== verification/Rules.v ===== *)
(** * Machines made of rules

    Hardware as a set of atomic rules, each a function that returns [None] when it
    cannot fire.  A schedule picks the rule to fire; a program on the processor waits
    for a semaphore by letting the machine run.  [await_spec] is the rule for such a
    wait: an invariant, a cost that every step lowers, and progress. *)
From stdpp Require Import base numbers list.
From S2P Require Import Prelude.
Local Open Scope Z_scope.

Section Rules.
Context {W R : Type} (fire : R → W → option W).

(** A schedule that never idles while a rule can fire. *)
Definition work_conserving (choose : nat → W → R) : Prop :=
  ∀ n w, (∃ r w', fire r w = Some w') → ∃ w', fire (choose n w) w = Some w'.

(** sem_wait, while the machine runs: [take] lowers the semaphore *)
Fixpoint await (choose : nat → W → R) (sem : W → Z) (take : W → W) (fuel : nat) : M W () :=
  w ← get;
  if bool_decide (0 < sem w) then put (take w)
  else match fuel with
  | O => no_fuel
  | S fuel => put (default w (fire (choose fuel w) w));; await choose sem take fuel
  end.

(** The wait ends if every step lowers the cost and the machine is not stuck. *)
Lemma await_spec choose (I : W → Z → Prop) sem take fuel w c :
  work_conserving choose →
  (∀ w c, I w c → 0 ≤ c) →
  (∀ w c r w', I w c → sem w ≤ 0 → fire r w = Some w' → ∃ c', I w' c' ∧ c' < c) →
  (∀ w c, I w c → sem w ≤ 0 → ∃ r w', fire r w = Some w') →
  I w c → c ≤ Z.of_nat fuel →
  ∃ w' c', I w' c' ∧ c' ≤ c ∧ 0 < sem w' ∧ await choose sem take fuel w = (Done tt, take w').
Proof.
  intros Hch Hpos Hstep Hprog. revert w c. induction fuel as [|fuel IH]; intros w c HI Hc; cbn [await];
    rewrite (bind_Done _ _ _ w w) by done.
  all: destruct (decide (0 < sem w)) as [Hs|]; [rewrite bool_decide_true by done; exists w, c; by split_and!|].
  all: rewrite bool_decide_false by done.
  all: destruct (Hch fuel w (Hprog w c HI ltac:(lia))) as [w2 E2] || destruct (Hch 0%nat w (Hprog w c HI ltac:(lia))) as [w2 E2].
  all: destruct (Hstep w c _ w2 HI ltac:(lia) E2) as (c' & HI' & Hlt).
  - pose proof (Hpos _ _ HI'). lia.
  - rewrite (bind_Done _ _ _ tt w2) by (unfold put; by rewrite E2).
    destruct (IH w2 c' HI' ltac:(lia)) as (w' & c'' & ? & ? & ? & ?). exists w', c''. split_and!; try done; lia.
Qed.

(** The first rule of a list that can fire. *)
Definition first_of (rules : list R) (dflt : R) (n : nat) (w : W) : R :=
  default dflt (head (filter (λ r, is_Some (fire r w)) rules)).
Lemma first_of_conserving rules dflt : (∀ r, r ∈ rules) → work_conserving (first_of rules dflt).
Proof.
  intros Hall n w (r & w' & E). unfold first_of.
  assert (r ∈ filter (λ r, is_Some (fire r w)) rules) as Hr by (apply list_elem_of_filter; split; [by eexists|done]).
  destruct (filter _ rules) as [|r' l] eqn:Ef; [by apply not_elem_of_nil in Hr|]. simpl.
  assert (r' ∈ filter (λ r, is_Some (fire r w)) rules) as Hr' by (rewrite Ef; left).
  by apply list_elem_of_filter in Hr' as [[w1 E1] _]; exists w1.
Qed.
End Rules.
