(* ===== verification/MPEngine.v ===== *)
(** * The string-search accelerator (src/lib/bsv/MPEngine.bsv)

    One Morris-Pratt engine of the accelerator that examples/strstr drives: it reads
    the haystack from memory, looks the needle and the shift table up in block RAMs
    through a pipeline of two requests, and throws away with an epoch number what it
    had requested before a shift.  The rules are functions that return [None] when
    they cannot fire, and any order of them is a run.  The reference is the matcher
    of lib/cpp/mp.h ([mp_pass]): the engine reports what that one finds in all but
    the last character, whatever the order of the rules.  Memory answers in order;
    the queues between engine and memory have no bound.  The Bluespec compiler is run
    with -aggressive-conditions (Makefile.build), so a branch of a rule waits only for
    the queues it uses. *)
From stdpp Require Import base gmap numbers list.
From S2P Require Import Prelude MorrisPratt.
Local Open Scope Z_scope.

(** [lib/bsv/MPEngine.bsv:54-58] MaxNeedleLen, NeedleIdx, Stage *)
Definition idx10 (x : Z) : Z := x mod 1024.
Inductive Stage := Idle | Ready | Run.
#[export] Instance Stage_eq_dec : EqDecision Stage.
Proof. solve_decision. Defined.

(** A request under way: what efifo and the answers of the two block RAMs hold for it. *)
Record Entry := mkEntry { e_epoch : Z; e_i : Z; e_nv : Z; e_mp : Z }.

(** [lib/bsv/MPEngine.bsv:74-93] mkMPEngine: the registers that stay as they are during a
    search, with the block RAMs, and the others.  [loading] is a set-up under way,
    [reads] are the requests to memory that are not answered yet (object, offset,
    tag), [haystack] the gearbox. *)
Record Conf := mkConf { needle : Z → Z; mpNext : Z → Z; needleLenReg : Z; haystackLenReg : Z;
  haystackBase : Z; haystackPointer : Z }.
Record Eng := mkEng { stage : Stage; conf : Conf; loading : option (Z * Z * Z);
  jReg : Z; iReg : Z; epochReg : Z; dmaTag : Z; haystackOff : Z; reads : list (Z * Z * Z);
  haystack : list Z; efifo : list Entry; locf : list Z; compf : nat; conff : nat }.

(** The path to memory: the simulator's host reads at exactly the address asked for
    (BsimTop.bsv, BsimDma.cxx). *)
Inductive MemPath := Simulator | Pcie.
Existing Class MemPath.
(** [bsv/MemSlaveEngine.bsv:318-352] readReq: a PCIe read request carries the address
    without its two low bits and asks for whole words. *)
Definition granule (path : MemPath) : Z := match path with Simulator => 1 | Pcie => 4 end.
Definition aligned {path : MemPath} (a : Z) : Z := granule path * (a / granule path).

Section Rules.
Context {path : MemPath}.
(** The memory objects: byte by offset. *)
Context (mem : Z → Z → Z).
Definition word_at (p off : Z) : Z :=
  mem p off + 2 ^ 8 * mem p (off + 1) + 2 ^ 16 * mem p (off + 2) + 2 ^ 24 * mem p (off + 3).

(** [lib/bsv/Dma2BRAM.bsv:84-104] mkBRAMReadClient: load, from element 0 to [finish] *)
Definition load_bram (buf : Z → Z) (finish : Z) (m : Z → Z) : Z → Z :=
  λ k, if bool_decide (0 ≤ k ≤ finish) then buf k else m k.

Definition loaded (np mpp len : Z) (c : Conf) : Conf :=
  let '(mkConf nd mp m n b hp) := c in
  mkConf (load_bram (mem np) (idx10 len) nd)
    (load_bram (λ k, word_at mpp (4 * k)) (idx10 len) mp) m n b hp.
(** [lib/bsv/MPEngine.bsv:95-101] finish_setup *)
Definition finish_setup (s : Eng) : option Eng :=
  let '(mkEng st c ld j i e tag off rd hs q lf cp cn) := s in
  match ld with
  | Some (np, mpp, len) =>
    if bool_decide (cn < 2)%nat then
      Some (mkEng Ready (loaded np mpp len c) None j i e tag off rd hs q lf cp (S cn))
    else None
  | None => None
  end.
(** [lib/bsv/MPEngine.bsv:103-107] haystackReq *)
Definition haystackReq (s : Eng) : option Eng :=
  let '(mkEng st c ld j i e tag off rd hs q lf cp cn) := s in
  if bool_decide (st = Run ∧ off < haystackLenReg c) then
    Some (mkEng st c ld j i e tag (u32 (off + 8))
      (rd ++ [(haystackPointer c, u32 (haystackBase c + off), tag)]) hs q lf cp cn)
  else None.
(** The eight bytes one request reads. *)
Definition beat (p o : Z) : list Z := mem p <$> seqZ (aligned o) 8.
(** [lib/bsv/MPEngine.bsv:109-115] haystackResp *)
Definition haystackResp (s : Eng) : option Eng :=
  let '(mkEng st c ld j i e tag off rd hs q lf cp cn) := s in
  match rd with
  | (p, o, t) :: rd =>
    Some (mkEng st c ld j i e tag off rd
      (if bool_decide (t = tag) then hs ++ beat p o else hs) q lf cp cn)
  | [] => None
  end.
(** [lib/bsv/MPEngine.bsv:117-120] haystackDrain *)
Definition haystackDrain (s : Eng) : option Eng :=
  let '(mkEng st c ld j i e tag off rd hs q lf cp cn) := s in
  if bool_decide (st ≠ Run) then
    match hs with _ :: hs => Some (mkEng st c ld j i e tag off rd hs q lf cp cn) | [] => None end
  else None.
(** [lib/bsv/MPEngine.bsv:122-127] bramDrain *)
Definition bramDrain (s : Eng) : option Eng :=
  let '(mkEng st c ld j i e tag off rd hs q lf cp cn) := s in
  if bool_decide (st ≠ Run) then
    match q with _ :: q => Some (mkEng st c ld j i e tag off rd hs q lf cp cn) | [] => None end
  else None.
(** [lib/bsv/MPEngine.bsv:129-135] matchNeedleReq *)
Definition matchNeedleReq (s : Eng) : option Eng :=
  let '(mkEng st c ld j i e tag off rd hs q lf cp cn) := s in
  if bool_decide (st = Run ∧ length q < 2)%nat then
    Some (mkEng st c ld j (u32 (i + 1)) e tag off rd hs
      (q ++ [mkEntry e i (needle c (idx10 (i - 1))) (mpNext c (idx10 i))]) lf cp cn)
  else None.
(** [lib/bsv/MPEngine.bsv:137-180] matchNeedleResp *)
Definition matchNeedleResp (s : Eng) : option Eng :=
  let '(mkEng st c ld j i e tag off rd hs q lf cp cn) := s in
  if bool_decide (st = Run) then
    match q with
    | [] => None
    | mkEntry epoch i' nv mp :: q =>
      if bool_decide (epoch = e) then
        let n := haystackLenReg c in
        let m := needleLenReg c in
        if bool_decide (n < j) then
          if bool_decide (cp < 2)%nat then
            Some (mkEng Ready c ld j i e tag off rd hs q lf (S cp) cn)
          else None
        else if bool_decide (i' = u32 (m + 1)) then
          if bool_decide (length lf < 2)%nat then
            Some (mkEng st c ld j 1 ((e + 1) mod 4) tag off rd hs q
              (lf ++ [s32 (haystackBase c + j - i')]) cp cn)
          else None
        else match hs with
        | [] => None
        | hv :: hs' =>
          if bool_decide (0 < i') && bool_decide (nv ≠ hv) then
            Some (mkEng st c ld j mp ((e + 1) mod 4) tag off rd hs q lf cp cn)
          else
            Some (mkEng st c ld (u32 (j + 1)) i e tag off rd hs' q lf cp cn)
        end
      else Some (mkEng st c ld j i e tag off rd hs q lf cp cn)
    end
  else None.

(** The rules of an engine. *)
Inductive Rule := FinishSetup | HaystackReq | HaystackResp | HaystackDrain | BramDrain |
  NeedleReq | NeedleResp.
Definition fire (r : Rule) : Eng → option Eng :=
  match r with
  | FinishSetup => finish_setup | HaystackReq => haystackReq | HaystackResp => haystackResp
  | HaystackDrain => haystackDrain | BramDrain => bramDrain
  | NeedleReq => matchNeedleReq | NeedleResp => matchNeedleResp
  end.

(** [lib/bsv/MPEngine.bsv:182-188] setup *)
Definition setup (np mpp len : Z) (s : Eng) : Eng :=
  let '(mkEng st (mkConf nd mp m n b hp) ld j i e tag off rd hs q lf cp cn) := s in
  mkEng st (mkConf nd mp (u32 len) n b hp) (Some (np, mpp, len)) 0 0 e tag off rd hs q lf cp cn.
(** [lib/bsv/MPEngine.bsv:190-202] search: what it waits for, and what it does *)
Definition search_ready (s : Eng) : bool :=
  bool_decide (stage s = Ready ∧ efifo s = [] ∧ haystack s = []).
Definition search (hp len b : Z) (s : Eng) : Eng :=
  let '(mkEng st (mkConf nd mp m _ _ _) ld j i e tag off rd hs q lf cp cn) := s in
  mkEng Run (mkConf nd mp m (u32 len) (u32 b) hp) ld 1 1 0 ((tag + 1) mod 64) 0 rd hs [] lf cp cn.
End Rules.

(** ** The search, one comparison at a time

    [X] is the needle and [Y] the haystack, counted from 1, [N] the shift table. *)
Section Sequential.
Context (X N Y : Z → Z) (m n : Z).
Context (m_pos : 1 ≤ m) (N_lt : ∀ i, 1 ≤ i ≤ m → 0 ≤ N i < i).

(** Every comparison lowers this. *)
Definition pot (i j : Z) : Z := 2 * (n + 1 - j) + i.
Fixpoint hits_from (fuel : nat) (i j : Z) : list Z :=
  match fuel with
  | O => []
  | S fuel =>
    if bool_decide (n < j) then []
    else if bool_decide (i = m + 1) then (j - i) :: hits_from fuel 1 j
    else if bool_decide (0 < i) && bool_decide (X i ≠ Y j) then hits_from fuel (N i) j
    else hits_from fuel (i + 1) (j + 1)
  end.
(** The positions reported from needle position [i] and haystack position [j] on. *)
Definition hits (i j : Z) : list Z := hits_from (Z.to_nat (pot i j)) i j.

Lemma hits_end i j : n < j → hits i j = [].
Proof. intros. unfold hits. destruct (Z.to_nat _); [done|]. simpl. by rewrite bool_decide_true. Qed.
Lemma hits_fuel (f f' : nat) i j : 0 ≤ i ≤ m + 1 → pot i j ≤ f → pot i j ≤ f' →
  hits_from f i j = hits_from f' i j.
Proof.
  revert f' i j; induction f as [|f IH]; intros f' i j Hi Hf Hf'; unfold pot in *.
  { destruct f'; [done|]. simpl. by rewrite bool_decide_true by lia. }
  destruct f' as [|f']; simpl; [by rewrite bool_decide_true by lia|].
  case_bool_decide; [done|]. case_bool_decide; [f_equal; apply IH; unfold pot; lia|].
  destruct (decide (0 < i)) as [|]; [|rewrite bool_decide_false by lia; apply IH; unfold pot; lia].
  rewrite bool_decide_true by done. simpl. pose proof (N_lt i).
  case_bool_decide; apply IH; unfold pot; lia.
Qed.
Lemma hits_S i j : 0 ≤ i ≤ m + 1 → j ≤ n → hits i j =
  if bool_decide (i = m + 1) then (j - i) :: hits 1 j
  else if bool_decide (0 < i) && bool_decide (X i ≠ Y j) then hits (N i) j
  else hits (i + 1) (j + 1).
Proof.
  intros Hi Hj. unfold hits at 1. destruct (Z.to_nat (pot i j)) as [|f] eqn:Ef; [unfold pot in *; lia|].
  cbn [hits_from]. rewrite (bool_decide_false (n < j)) by lia. unfold hits.
  case_bool_decide; [f_equal; apply hits_fuel; unfold pot in *; lia|].
  destruct (decide (0 < i)); [|rewrite bool_decide_false by lia; apply hits_fuel; unfold pot in *; lia].
  rewrite bool_decide_true by done. simpl. pose proof (N_lt i).
  case_bool_decide; apply hits_fuel; unfold pot in *; lia.
Qed.
Lemma hits_match j : j ≤ n → hits (m + 1) j = (j - (m + 1)) :: hits 1 j.
Proof. intros. rewrite hits_S by lia. by rewrite bool_decide_true. Qed.
Lemma hits_shift i j : 1 ≤ i ≤ m → j ≤ n → X i ≠ Y j → hits i j = hits (N i) j.
Proof.
  intros. rewrite hits_S by lia.
  by rewrite bool_decide_false, !bool_decide_true by (done || lia).
Qed.
Lemma hits_next i j : 0 ≤ i ≤ m → j ≤ n → (0 < i → X i = Y j) → hits i j = hits (i + 1) (j + 1).
Proof.
  intros Hi Hj E. rewrite hits_S, bool_decide_false by lia.
  destruct (decide (0 < i)) as [|].
  - rewrite (bool_decide_false (X i ≠ Y j)) by auto. by rewrite andb_false_r.
  - by rewrite bool_decide_false.
Qed.

Lemma hits_range i j : 0 ≤ i ≤ m + 1 → i ≤ j → Forall (λ p, 0 ≤ p < n) (hits i j).
Proof.
  remember (Z.to_nat (pot i j)) as f eqn:Ef. revert i j Ef.
  induction (lt_wf f) as [f _ IH]. intros i j -> Hi Hij.
  destruct (decide (n < j)); [by rewrite hits_end|]. rewrite hits_S by lia.
  case_bool_decide.
  { constructor; [lia|]. eapply (IH _); [|done|lia|lia]. unfold pot in *. lia. }
  destruct (decide (0 < i)).
  - rewrite (bool_decide_true (0 < i)) by done. pose proof (N_lt i ltac:(lia)). cbn [andb].
    case_bool_decide; (eapply (IH _); [|done|lia|lia]); unfold pot in *; lia.
  - rewrite (bool_decide_false (0 < i)) by done. cbn [andb].
    eapply (IH _); [|done|lia|lia]. unfold pot in *. lia.
Qed.

Lemma hits_length i j : Z.of_nat (length (hits i j)) ≤ Z.max 0 (pot i j).
Proof.
  unfold hits. cut (∀ f i j, (length (hits_from f i j) ≤ f)%nat).
  { intros H. specialize (H (Z.to_nat (pot i j)) i j). lia. }
  induction f as [|f IH]; intros i' j'; simpl; [lia|].
  repeat case_bool_decide; simpl; try lia; match goal with |- context [hits_from f ?a ?b] => specialize (IH a b) end; lia.
Qed.

(** *** The matcher in software, on one character less *)
Context (x t : list Z) (a : gmap Z Z).
Context (Hx : m ≤ length x) (HX : ∀ i, 1 ≤ i ≤ m → X i = ch x (i - 1)).
Context (Ht : n - 1 ≤ length t) (HY : ∀ j, 1 ≤ j < n → Y j = ch t (j - 1)).
Context (Ha : ∀ i, 1 ≤ i ≤ m → a !! i = Some (N i)).

Lemma char_at_ch (l : list Z) i : 0 ≤ i < length l → char_at l i a = (Done (ch l i), a).
Proof.
  intros Hi. unfold char_at, ch. rewrite bool_decide_false by lia.
  destruct (lookup_lt_is_Some_2 l (Z.to_nat i)) as [c Hc]; [lia|]. rewrite Hc.
  by rewrite (nth_lookup_Some l _ 0 c Hc).
Qed.
Lemma mp_while_hits (fuel : nat) i j : 0 ≤ i ≤ m → i ≤ fuel → 1 ≤ j < n →
  ∃ i', mp_while fuel x t m i j a = (Done i', a) ∧ 0 ≤ i' ≤ i ∧ hits i j = hits (i' + 1) (j + 1).
Proof.
  revert i; induction fuel as [|fuel IH]; intros i Hi Hf Hj; cbn [mp_while];
    rewrite (bool_decide_false (i = m + 1)) by lia.
  { assert (i = 0) as -> by lia. exists 0. split_and!; try lia; [done|]. apply hits_next; lia. }
  destruct (decide (0 < i)) as [Hp|].
  - rewrite (bool_decide_true (0 < i)) by done. rewrite (bind_Done _ _ _ (bool_decide (X i ≠ Y j)) a).
    2: { rewrite (bind_Done _ _ _ _ _ (char_at_ch x (i - 1) ltac:(lia))).
         rewrite (bind_Done _ _ _ _ _ (char_at_ch t (j - 1) ltac:(lia))). by rewrite HX, HY by lia. }
    case_bool_decide as E.
    + rewrite (bind_Done _ _ _ (N i) a); [|unfold elem, get, mbind, M_bind; by rewrite Ha by lia].
      pose proof (N_lt i ltac:(lia)). destruct (IH (N i)) as (i' & -> & Hi' & E'); [lia..|].
      exists i'. split_and!; try done; try lia. by rewrite hits_shift by (lia || done).
    + exists i. split_and!; try done; try lia. apply hits_next; [lia..|].
      intros _. destruct (decide (X i = Y j)); [done|]. by destruct E.
  - assert (i = 0) as -> by lia. exists 0. split_and!; try lia; [done|]. apply hits_next; lia.
Qed.
Lemma hits_last i : 0 ≤ i ≤ m → hits i n = [].
Proof.
  remember (Z.to_nat i) as k eqn:Ek. revert i Ek.
  induction (lt_wf k) as [k _ IH]. intros i -> Hi.
  destruct (decide (0 < i)) as [|]; [|rewrite hits_next, hits_end by lia; done].
  destruct (decide (X i = Y n)); [by rewrite hits_next, hits_end by (lia || done)|].
  rewrite hits_shift by (lia || done). pose proof (N_lt i ltac:(lia)).
  apply (IH (Z.to_nat (N i))); lia.
Qed.
(** The hits are the positions the software reports for the first [n - 1] characters. *)
Lemma mp_pass_hits (fuel : nat) i j : 1 ≤ i ≤ m → 1 ≤ j ≤ n → n ≤ j + fuel →
  mp_pass fuel x t m (n - 1) i j a = (Done (hits i j), a).
Proof.
  revert i j; induction fuel as [|fuel IH]; intros i j Hi Hj Hf; cbn [mp_pass].
  { rewrite bool_decide_false by lia. assert (j = n) as -> by lia. by rewrite hits_last by lia. }
  destruct (decide (j = n)) as [->|].
  { rewrite bool_decide_false by lia. by rewrite hits_last by lia. }
  rewrite bool_decide_true by lia.
  destruct (mp_while_hits (Z.to_nat (m + 2)) i j) as (i' & E & Hi' & Eh); [lia..|].
  rewrite (bind_Done _ _ _ _ _ E), Eh. case_bool_decide as Em.
  - rewrite (bind_Done _ _ _ _ _ (IH 1 (j + 1) ltac:(lia) ltac:(lia) ltac:(lia))).
    rewrite Em, hits_match by lia. done.
  - apply IH; lia.
Qed.
End Sequential.

(** ** The pipeline implements the search *)
Section Pipeline.
Context {path : MemPath} (mem : Z → Z → Z) (c : Conf).
Abbreviation m := (needleLenReg c).
Abbreviation n := (haystackLenReg c).
Abbreviation Xc := (λ i, needle c (i - 1)).
Abbreviation Nc := (mpNext c).
Abbreviation Yc := (λ j, mem (haystackPointer c) (aligned (haystackBase c) + j - 1)).

(** The engine is set up for a search. *)
Record searchable : Prop := {
  s_m : 1 ≤ m ≤ 1022; s_n : 1 ≤ n; s_base : 0 ≤ haystackBase c;
  s_len : haystackBase c + n < 2 ^ 30; s_next : ∀ i, 1 ≤ i ≤ m → 0 ≤ Nc i < i }.
Context (Hc : searchable).
Abbreviation hits_c := (hits Xc Nc Yc m n).

(** Requests under way for needle positions from [i] on, and for the haystack from
    offset [o] on. *)
Definition entries (e i : Z) (k : nat) : list Entry :=
  (λ d, mkEntry e (i + d) (needle c (idx10 (i + d - 1))) (mpNext c (idx10 (i + d)))) <$> seqZ 0 k.
Definition requests (tag o : Z) (k : nat) : list (Z * Z * Z) :=
  (λ d, (haystackPointer c, haystackBase c + (o + 8 * d), tag)) <$> seqZ 0 k.

Lemma entries_snoc e i k : entries e i (S k) = entries e i k ++
  [mkEntry e (i + k) (needle c (idx10 (i + k - 1))) (mpNext c (idx10 (i + k)))].
Proof. unfold entries. rewrite seqZ_S, fmap_app. done. Qed.
Lemma entries_cons e i k : entries e i (S k) =
  mkEntry e i (needle c (idx10 (i - 1))) (mpNext c (idx10 i)) :: entries e (i + 1) k.
Proof.
  unfold entries. rewrite Nat2Z.inj_succ, seqZ_cons, Z.pred_succ by lia.
  change (Z.succ 0) with (1 + 0). rewrite <-fmap_add_seqZ.
  rewrite fmap_cons, !Z.add_0_r. f_equal. rewrite <-list_fmap_compose.
  apply list_fmap_ext. intros. cbn -[Z.mul Z.add]. by rewrite !Z.add_assoc.
Qed.
Lemma requests_snoc tag o k : requests tag o (S k) = requests tag o k ++
  [(haystackPointer c, haystackBase c + (o + 8 * k), tag)].
Proof. unfold requests. rewrite seqZ_S, fmap_app. done. Qed.
Lemma requests_cons tag o k : requests tag o (S k) =
  (haystackPointer c, haystackBase c + o, tag) :: requests tag (o + 8) k.
Proof.
  unfold requests. rewrite Nat2Z.inj_succ, seqZ_cons, Z.pred_succ by lia.
  change (Z.succ 0) with (1 + 0). rewrite <-fmap_add_seqZ.
  rewrite fmap_cons, !Z.add_0_r. f_equal. rewrite <-list_fmap_compose.
  apply list_fmap_ext. intros. cbn -[Z.mul Z.add]. do 3 f_equal; lia.
Qed.

(** Whole beats on from the base. *)
Lemma aligned_beat b o : o mod 8 = 0 → aligned (b + o) = aligned b + o.
Proof.
  intros Ho. unfold aligned. destruct path; simpl; [rewrite !Z.div_1_r; lia|]. revert Ho. div_lia.
Qed.

(** During a search, with needle position [i] and haystack position [j] to be compared
    next: [o] answers are to be thrown away. *)
Record running (i j : Z) (o : nat) (s : Eng) : Prop := {
  r_stage : stage s = Run; r_conf : conf s = c; r_load : loading s = None;
  r_j : jReg s = j; r_i : 0 ≤ i ≤ m + 1 ∧ i ≤ j; r_jn : 1 ≤ j ≤ n + 1;
  r_epoch : 0 ≤ epochReg s < 4; r_tag : 0 ≤ dmaTag s < 64;
  r_q : ∃ old k, efifo s = old ++ entries (epochReg s) i k ∧ length old = o ∧
    Forall (λ e, e_epoch e = (epochReg s - 1) mod 4) old ∧ iReg s = i + k ∧ (o + k ≤ 2)%nat;
  r_reads : ∃ stale k, reads s = stale ++ requests (dmaTag s) (j - 1 + length (haystack s)) k ∧
    Forall (λ r, r.2 ≠ dmaTag s) stale ∧ (stale = [] ∨ haystack s = [] ∧ j = 1) ∧
    haystackOff s = j - 1 + length (haystack s) + 8 * k;
  r_off : 0 ≤ haystackOff s ≤ n + 7 ∧ haystackOff s mod 8 = 0;
  r_hay : haystack s = Yc <$> seqZ j (length (haystack s)) }.
(** What is left to do, an upper bound on the number of steps. *)
Definition cost (i j : Z) (o : nat) (s : Eng) : Z :=
  12 * ((n + 7 - haystackOff s) / 8) + 10 * length (reads s) + length (haystack s) +
  8 * pot n i j + 3 * o + (2 - length (efifo s)) + 4.

(** Between searches. *)
Record resting (s : Eng) : Prop := {
  t_stage : stage s ≠ Run; t_tag : 0 ≤ dmaTag s < 64;
  t_reads : Forall (λ r, r.2 = dmaTag s) (reads s) }.
Definition rest_cost (s : Eng) : Z :=
  10 * length (reads s) + length (haystack s) + length (efifo s) + (if loading s is Some _ then 3 else 0).

(** What a step of the running engine does. *)
Definition advances (i j : Z) (o : nat) (s s' : Eng) : Prop :=
  ∃ i' j' o', running i' j' o' s' ∧
    (∃ l, locf s' = locf s ++ ((λ p, s32 (haystackBase c + p)) <$> l) ∧ hits_c i j = l ++ hits_c i' j') ∧
    compf s' = compf s ∧ conff s' = conff s ∧
    cost i' j' o' s' + length (locf s') < cost i j o s + length (locf s).
Definition finishes (i j : Z) (o : nat) (s s' : Eng) : Prop :=
  resting s' ∧ stage s' = Ready ∧ conf s' = c ∧ loading s' = None ∧ hits_c i j = [] ∧
  locf s' = locf s ∧ compf s' = S (compf s) ∧ conff s' = conff s ∧ rest_cost s' + 2 < cost i j o s.

Lemma advances_same i j o s s' : running i j o s' → locf s' = locf s → compf s' = compf s →
  conff s' = conff s → cost i j o s' < cost i j o s → advances i j o s s'.
Proof.
  intros H E ? ? ?. exists i, j, o. split_and!; try done; [|by rewrite E; lia].
  exists []. by rewrite app_nil_r.
Qed.

Lemma step_haystackReq i j o s s' : running i j o s → haystackReq s = Some s' → advances i j o s s'.
Proof.
  intros [R1 R2 R3 R4 R5 R6 R7 R8 R9 R10 R11 R12] E.
  destruct s as [st cf ld j' ir e tag off rd hs q lf cp cn]; simpl in *. subst.
  destruct (decide (off < n)) as [Hlt|]; [|by rewrite bool_decide_false in E by (by intros [_ ?])].
  rewrite bool_decide_true in E by done. injection E as <-. pose proof Hc as [].
  destruct R10 as (stale & k & -> & Hst & Hs & Eo).
  apply advances_same; simpl; try done.
  - split; simpl; try done; rewrite ?u32_small by lia; try lia;
      [|split; [lia|destruct R11 as [_ R11]; revert R11; div_lia]].
    exists stale, (S k). rewrite requests_snoc, app_assoc.
    rewrite Eo. split_and!; try done. lia.
  - unfold cost. simpl. rewrite u32_small, length_app by lia. simpl.
    assert ((n + 7 - off) / 8 = (n + 7 - (off + 8)) / 8 + 1); [|lia].
    replace (n + 7 - off) with (n + 7 - (off + 8) + 1 * 8) by lia. by rewrite Z.div_add.
Qed.
Lemma step_haystackResp i j o s s' : running i j o s → haystackResp mem s = Some s' → advances i j o s s'.
Proof.
  intros [R1 R2 R3 R4 R5 R6 R7 R8 R9 R10 R11 R12] E.
  destruct s as [st cf ld j' ir e tag off rd hs q lf cp cn]; simpl in *. subst.
  destruct R10 as (stale & k & -> & Hst & Hs & Eo).
  destruct stale as [|[[sp so] stag] stale].
  - destruct k as [|k]; [done|]. rewrite requests_cons in E. simpl in E.
    rewrite bool_decide_true in E by done. injection E as <-.
    apply advances_same; simpl; try done.
    + split; simpl; try done.
      * exists [], k. rewrite length_app. change (length (beat _ _ _)) with 8%nat. split_and!; try done; [|by left|lia].
        simpl. f_equal. lia.
      * rewrite length_app. change (length (beat _ _ _)) with 8%nat.
        rewrite Nat2Z.inj_add, seqZ_app, fmap_app by lia. f_equal; [done|]. unfold beat.
        rewrite aligned_beat by (destruct R11 as [_ R11]; revert R11; div_lia).
        replace (aligned (haystackBase c) + (j - 1 + length hs)) with
          (aligned (haystackBase c) - 1 + (j + length hs)) by lia.
        rewrite <-fmap_add_seqZ, <-list_fmap_compose. apply list_fmap_ext. intros ? p _. simpl. f_equal. lia.
    + unfold cost. simpl. rewrite length_app. change (length (beat _ _ _)) with 8%nat.
      unfold requests. rewrite !length_fmap, !length_seqZ. lia.
  - simpl in E. apply Forall_cons in Hst as [Htag Hst]. simpl in Htag.
    rewrite bool_decide_false in E by done. injection E as <-. apply advances_same; simpl; try done.
    + split; simpl; try done. exists stale, k. split_and!; try done.
      destruct Hs as [Hs|Hs]; [done|by right].
    + unfold cost. simpl. lia.
Qed.
Lemma step_needleReq i j o s s' : running i j o s → matchNeedleReq s = Some s' → advances i j o s s'.
Proof.
  intros [R1 R2 R3 R4 R5 R6 R7 R8 R9 R10 R11 R12] E.
  destruct s as [st cf ld j' ir e tag off rd hs q lf cp cn]; simpl in *. subst.
  destruct (decide (length q < 2)%nat) as [Hlt|]; [|by rewrite bool_decide_false in E by (by intros [_ ?])].
  rewrite bool_decide_true in E by done. injection E as <-. pose proof Hc as [].
  destruct R9 as (old & k & -> & <- & Hold & -> & Hk). rewrite length_app in Hlt.
  assert (length (entries e i k) = k) as Hle by (unfold entries; rewrite length_fmap, length_seqZ; lia).
  apply advances_same; simpl; try done.
  - split; simpl; try done. exists old, (S k). rewrite entries_snoc, app_assoc, u32_small by lia.
    split_and!; try done; lia.
  - unfold cost. simpl. rewrite !length_app. simpl. lia.
Qed.

(** An answer of an earlier epoch is thrown away. *)
Lemma resp_old i j o s s' : running i j (S o) s → matchNeedleResp s = Some s' → advances i j (S o) s s'.
Proof.
  intros [R1 R2 R3 R4 R5 R6 R7 R8 R9 R10 R11 R12] E.
  destruct s as [st cf ld j' ir e tag off rd hs q lf cp cn]; simpl in *. subst.
  destruct R9 as (old & k & -> & Ho & Hold & -> & Hk). destruct old as [|[ep i' nv mp] old]; [done|].
  simpl in *. apply Forall_cons in Hold as [He Hold]. simpl in He.
  rewrite bool_decide_false in E by (intros ->; revert R7 He; div_lia). injection E as <-.
  exists i, j, o. split_and!; try done; [|by exists []; rewrite app_nil_r|].
  - split; simpl; try done. exists old, k. split_and!; try done; lia.
  - unfold cost. simpl. lia.
Qed.
(** A shift starts an epoch: all that is under way is old. *)
Lemma new_epoch i i' j ir e tag off rd hs q lf lf' cp cn en ld :
  running i j 0 (mkEng Run c ld j ir e tag off rd hs (en :: q) lf cp cn) → 0 ≤ i' ≤ m + 1 → i' ≤ j →
  running i' j (length q) (mkEng Run c None j i' ((e + 1) mod 4) tag off rd hs q lf' cp cn) ∧
  ld = None ∧ (length q ≤ 1)%nat ∧ en = mkEntry e i (needle c (idx10 (i - 1))) (mpNext c (idx10 i)).
Proof.
  intros [R1 R2 R3 R4 R5 R6 R7 R8 R9 R10 R11 R12] Hi' Hij'. simpl in *.
  destruct R9 as (old & k & Eq & Ho & _ & -> & Hk). destruct old as [|]; [|done]. simpl in Eq.
  destruct k as [|k]; [done|]. rewrite entries_cons in Eq. injection Eq as -> ->.
  assert (length (entries e (i + 1) k) = k) as Hle by (unfold entries; rewrite length_fmap, length_seqZ; lia).
  split_and!; try done; [|lia]. split; simpl; try done; [apply Z.mod_pos_bound; lia|].
  exists (entries e (i + 1) k), 0%nat. rewrite Hle. split_and!; try done; [by rewrite app_nil_r| |lia|lia].
  unfold entries. apply Forall_fmap, Forall_forall. intros d _. simpl. revert R7. div_lia.
Qed.
(** Equal characters move both positions. *)
Lemma resp_next i j ir e tag off rd hv hs q lf cp cn en :
  running i j 0 (mkEng Run c None j ir e tag off rd (hv :: hs) (en :: q) lf cp cn) →
  i ≤ m → j ≤ n → (0 < i → needle c (i - 1) = hv) →
  advances i j 0 (mkEng Run c None j ir e tag off rd (hv :: hs) (en :: q) lf cp cn)
    (mkEng Run c None (u32 (j + 1)) ir e tag off rd hs q lf cp cn).
Proof.
  intros [R1 R2 R3 R4 R5 R6 R7 R8 R9 R10 R11 R12] Hi Hj Heq. simpl in *. pose proof Hc as [].
  rewrite seqZ_cons in R12 by lia. rewrite fmap_cons in R12. injection R12 as Ehv Ehs.
  replace (Z.pred (S (length hs))) with (Z.of_nat (length hs)) in Ehs by lia.
  destruct R9 as (old & k & Eq & Ho & _ & -> & Hk). destruct old as [|]; [|done]. simpl in Eq.
  destruct k as [|k]; [done|]. rewrite entries_cons in Eq. injection Eq as -> ->.
  destruct R10 as (stale & kr & -> & Hst & Hs & Eo).
  assert (stale = []) as -> by (by destruct Hs as [|[]]).
  rewrite u32_small by lia. exists (i + 1), (j + 1), 0%nat. split_and!; try done.
  - split; simpl; try done; try lia.
    + exists [], k. split_and!; try done; lia.
    + exists [], kr. split_and!; try done; [|by left|lia]. simpl. f_equal. lia.
  - exists []. rewrite app_nil_r. split; [done|]. simpl. apply hits_next; try done; lia.
  - unfold cost. simpl. unfold pot. lia.
Qed.
Lemma resp_cur i j s s' : running i j 0 s → matchNeedleResp s = Some s' →
  advances i j 0 s s' ∨ finishes i j 0 s s'.
Proof.
  intros HR E. pose proof HR as [R1 R2 R3 R4 R5 R6 R7 R8 R9 R10 R11 R12]. pose proof Hc as [].
  destruct s as [st cf ld j' ir e tag off rd hs q lf cp cn]; simpl in *. subst.
  destruct q as [|en q]; [done|]. simpl in E.
  destruct (new_epoch i 1 j ir e tag off rd hs q lf (lf ++ [s32 (haystackBase c + j - i)]) cp cn en None HR ltac:(lia) ltac:(lia))
    as (HR1 & _ & Hq & ->).
  simpl in E. rewrite (bool_decide_true (e = e)) in E by done.
  case_bool_decide as Hj.
  { right. case_bool_decide; [|done]. injection E as <-.
    destruct R10 as (stale & k & -> & Hst & Hs & Eo).
    assert (stale = []) as -> by (destruct Hs as [|[]]; [done|lia]).
    unfold finishes, rest_cost, cost. simpl. rewrite hits_end by lia.
    assert (0 ≤ (n + 7 - off) / 8) by (apply Z.div_pos; lia). unfold pot.
    split_and!; try done; [|lia]. split; simpl; try done. unfold requests. by apply Forall_fmap, Forall_forall. }
  left. rewrite u32_small in E by lia. case_bool_decide as Hi.
  { case_bool_decide; [|done]. injection E as <-. exists 1, j, (length q). subst i.
    split_and!; try done.
    - exists [j - (m + 1)]. rewrite hits_match by (done || lia). split; [|done]. simpl.
      by rewrite <-Z.add_sub_assoc.
    - unfold cost. simpl. rewrite length_app. unfold pot. simpl. lia. }
  destruct hs as [|hv hs]; [done|]. pose proof R12 as Rh. simpl in Rh. rewrite seqZ_cons in Rh by lia.
  rewrite fmap_cons in Rh. injection Rh as Ehv Ehs. unfold idx10 in E.
  destruct (decide (0 < i ∧ needle c (i - 1) ≠ hv)) as [[Hpos Hne]|Hno].
  - rewrite (Z.mod_small (i - 1)), (Z.mod_small i), !bool_decide_true in E by (done || lia). injection E as <-.
    pose proof (s_next0 i ltac:(lia)).
    destruct (new_epoch i (Nc i) j ir e tag off rd (hv :: hs) q lf lf cp cn _ None HR ltac:(lia) ltac:(lia)) as (HR2 & _).
    exists (Nc i), j, (length q). split_and!; try done.
    + exists []. rewrite app_nil_r. split; [done|]. apply hits_shift; try done; lia.
    + unfold cost. simpl. unfold pot. lia.
  - destruct (bool_decide (0 < i) && _) eqn:Eb.
    { exfalso. apply Hno. apply andb_true_iff in Eb as [Eb1%bool_decide_eq_true Eb2%bool_decide_eq_true].
      by rewrite Z.mod_small in Eb2 by lia. }
    injection E as <-. apply (resp_next i j ir e tag off rd hv hs q lf cp cn _ HR); try done; [lia|lia|].
    intros Hp. destruct (decide (needle c (i - 1) = hv)); [done|by destruct Hno].
Qed.

Lemma run_step r i j o s s' : running i j o s → fire mem r s = Some s' →
  advances i j o s s' ∨ finishes i j o s s'.
Proof.
  intros HR E. destruct r; simpl in E.
  - destruct HR as [? ? Hl]. destruct s as [? ? []]; [done|]. done.
  - left. by apply step_haystackReq.
  - left. by apply step_haystackResp.
  - destruct HR as [Hs]. destruct s; simpl in *. by subst.
  - destruct HR as [Hs]. destruct s; simpl in *. by subst.
  - left. by apply step_needleReq.
  - destruct o; [by apply resp_cur|]. left. by apply resp_old.
Qed.
(** A running engine can only wait for the reader of its results. *)
Lemma run_progress i j o s : running i j o s → (length (locf s) < 2)%nat → (compf s < 2)%nat →
  ∃ r s', fire mem r s = Some s'.
Proof.
  intros [R1 R2 R3 R4 R5 R6 R7 R8 R9 R10 R11 R12] Hl Hcp.
  destruct s as [st cf ld j' ir e tag off rd hs q lf cp cn]; simpl in *. subst.
  destruct q as [|[ep i' nv mp] q].
  { exists NeedleReq. by eexists. }
  destruct hs as [|hv hs].
  - destruct rd as [|[[p o'] t] rd]; [|by exists HaystackResp; eexists].
    destruct (decide (off < n)) as [Hlt|].
    { exists HaystackReq. eexists. simpl. by rewrite bool_decide_true by done. }
    destruct R10 as (stale & k & Er & _ & _ & Eo). symmetry in Er. apply app_nil in Er as [_ Er].
    destruct k; [|by rewrite requests_cons in Er]. simpl in Eo.
    exists NeedleResp. simpl. repeat case_bool_decide; eauto; lia.
  - exists NeedleResp. simpl. repeat case_bool_decide; simpl; eauto; lia.
Qed.
End Pipeline.

(** *** Between searches *)
Section Rest.
Context {path : MemPath} (mem : Z → Z → Z).

Lemma rest_step r s s' : resting s → fire mem r s = Some s' →
  resting s' ∧ rest_cost s' < rest_cost s ∧ locf s' = locf s ∧ compf s' = compf s ∧
  (stage s' = stage s ∧ conf s' = conf s ∧ loading s' = loading s ∧ conff s' = conff s ∨
   loading s' = None ∧ stage s' = Ready ∧ conff s' = S (conff s) ∧ rest_cost s' + 3 = rest_cost s ∧
   ∃ np mpp len, loading s = Some (np, mpp, len) ∧ conf s' = loaded mem np mpp len (conf s)).
Proof.
  intros [T1 T2 T3] E. destruct s as [st cf ld j ir e tag off rd hs q lf cp cn]; simpl in *.
  destruct r; simpl in E.
  - destruct ld as [[[np mpp] len]|]; [|done]. case_bool_decide; [|done]. injection E as <-.
    split_and!; try done; [unfold rest_cost; simpl; lia|]. right.
    split_and!; try done; [unfold rest_cost; simpl; lia|]. by eexists _, _, _.
  - rewrite bool_decide_false in E by (by intros [-> _]). done.
  - destruct rd as [|[[p o] t] rd]; [done|]. injection E as <-.
    apply Forall_cons in T3 as [Ht T3]. simpl in Ht. subst. rewrite bool_decide_true by done.
    split_and!; try done; [|by left]. unfold rest_cost. simpl. rewrite length_app.
    change (length (beat _ _ _)) with 8%nat. destruct ld; lia.
  - rewrite bool_decide_true in E by done. destruct hs as [|h hs]; [done|]. injection E as <-.
    split_and!; try done; [|by left]. unfold rest_cost. simpl. destruct ld; lia.
  - rewrite bool_decide_true in E by done. destruct q as [|en q]; [done|]. injection E as <-.
    split_and!; try done; [|by left]. unfold rest_cost. simpl. destruct ld; lia.
  - by rewrite bool_decide_false in E by (by intros [-> _]).
  - by rewrite bool_decide_false in E by done.
Qed.
Lemma rest_progress s : resting s → stage s = Ready → search_ready s = true ∨ ∃ r s', fire mem r s = Some s'.
Proof.
  intros [T1 T2 T3] E. destruct s as [st cf ld j ir e tag off rd hs q lf cp cn]; simpl in *. subst.
  destruct hs as [|h hs]; [destruct q as [|en q]|].
  - left. by apply bool_decide_eq_true.
  - right. exists BramDrain. by eexists.
  - right. exists HaystackDrain. by eexists.
Qed.
(** What a search may cost. *)
Definition search_cost (n : Z) : Z := 12 * ((n + 7) / 8) + 8 * (2 * n + 1) + 6.
Lemma search_start hp len b s : resting s → search_ready s = true → loading s = None →
  searchable (conf (search hp len b s)) →
  running mem (conf (search hp len b s)) 1 1 0 (search hp len b s) ∧
  cost (conf (search hp len b s)) 1 1 0 (search hp len b s) ≤ rest_cost s + search_cost (u32 len).
Proof.
  intros [T1 T2 T3] Hr Hld Hs. apply bool_decide_eq_true in Hr as (E1 & E2 & E3).
  destruct s as [st [nd mp m n b' hp'] ld j ir e tag off rd hs q lf cp cn]; simpl in *. subst.
  destruct Hs as [Hm Hn Hb Hl Hnx]. simpl in *. split.
  - split; simpl; try done; try lia; [apply Z.mod_pos_bound; lia|..].
    + exists [], 0%nat. split_and!; try done. lia.
    + exists rd, 0%nat. split_and!; try done; [by rewrite app_nil_r| |by right].
      eapply Forall_impl; [exact T3|]. intros r ->. revert T2. div_lia.
    + split; [lia|done].
  - unfold cost, rest_cost, search_cost, pot. cbn -[Z.mul Z.add Z.sub Z.div]. rewrite Z.sub_0_r. lia.
Qed.
End Rest.
