(* ===== verification/Strstr.v ===== *)
(** * The string-search device (src/examples/strstr)

    The accelerator's request unit (Strstr.bsv) with the two engines of Top.bsv, the
    callbacks of the program that drives it, and what a search by the device counts.
    Requests wait in the portal; indications run the callbacks of the program's event
    thread.  Any schedule that fires a rule whenever one can fire is a run: [choose]
    picks it, and the program waits for its semaphores by letting it run. *)
From stdpp Require Import base gmap numbers list strings.
From S2P Require Import Prelude Rules MorrisPratt MPEngine.
Local Open Scope Z_scope.

(** ** The device and the callbacks *)

(** [examples/strstr/Strstr.bsv:34-37] StrstrRequest, as they wait in the portal *)
Inductive Request := Setup (needle_pointer mpNext_pointer needle_len : Z)
  | Search (haystack_pointer haystack_len iter_cnt : Z).

(** [examples/strstr/Strstr.bsv:60-75] mkStrstrRequest: its registers and engines; the
    queues confs, comps and locs belong to the engines.
    With [setup_sem], [test_sem] and [hw_match_cnt] of the program and the bytes of the
    shared buffers. *)
Record World := mkWorld { e0 : Eng; e1 : Eng; needleLen : Z; iterCnt : Z; hayPtr : Z; hayLen : Z;
  restartf : bool; portal : list Request; setup_sem : Z; test_sem : Z; hw_match_cnt : Z;
  objs : Z → Z → Z }.

Definition set_engines (a b : Eng) (w : World) : World :=
  let '(mkWorld _ _ nl ic hp hl rf po ss ts hm ob) := w in mkWorld a b nl ic hp hl rf po ss ts hm ob.

(** [examples/strstr/teststrstr.cpp:55-61] searchResult *)
Definition searchResult (v : Z) (w : World) : World :=
  let '(mkWorld a b nl ic hp hl rf po ss ts hm ob) := w in
  if bool_decide (v = -1) then mkWorld a b nl ic hp hl rf po ss (ts + 1) hm ob
  else mkWorld a b nl ic hp hl rf po ss ts (s32 (hm + 1)) ob.
(** [examples/strstr/teststrstr.cpp:51-53] setupComplete *)
Definition setupComplete (w : World) : World :=
  let '(mkWorld a b nl ic hp hl rf po ss ts hm ob) := w in
  mkWorld a b nl ic hp hl rf po (ss + 1) ts hm ob.

(** Taking an element of a queue of an engine. *)
Definition pop_conf (e : Eng) : option Eng :=
  let '(mkEng st c ld j i ep tag off rd hs q lf cp cn) := e in
  match cn with S cn => Some (mkEng st c ld j i ep tag off rd hs q lf cp cn) | O => None end.
Definition pop_comp (e : Eng) : option Eng :=
  let '(mkEng st c ld j i ep tag off rd hs q lf cp cn) := e in
  match cp with S cp => Some (mkEng st c ld j i ep tag off rd hs q lf cp cn) | O => None end.
Definition pop_loc (e : Eng) : option (Z * Eng) :=
  let '(mkEng st c ld j i ep tag off rd hs q lf cp cn) := e in
  match lf with v :: lf => Some (v, mkEng st c ld j i ep tag off rd hs q lf cp cn) | [] => None end.

(** [examples/strstr/Strstr.bsv:77-81] confr *)
Definition confr (w : World) : option World :=
  a ← pop_conf (e0 w); b ← pop_conf (e1 w); Some (setupComplete (set_engines a b w)).
(** [examples/strstr/Strstr.bsv:83-88] resr, for each engine *)
Definition resr (second : bool) (w : World) : option World :=
  if second then '(v, b) ← pop_loc (e1 w); Some (searchResult v (set_engines (e0 w) b w))
  else '(v, a) ← pop_loc (e0 w); Some (searchResult v (set_engines a (e1 w) w)).
(** [examples/strstr/Strstr.bsv:90-101] restartr: the first engine also searches the
    beginning of the second half *)
Definition restartr (w : World) : option World :=
  let '(mkWorld a b nl ic hp hl rf po ss ts hm ob) := w in
  if bool_decide (0 < ic) && rf && search_ready a && search_ready b then
    Some (mkWorld (search hp (u32 (Z.shiftr hl 1 + nl)) 0 a) (search hp (Z.shiftr hl 1) (Z.shiftr hl 1) b)
      nl (ic - 1) hp hl false po ss ts hm ob)
  else None.
(** [examples/strstr/Strstr.bsv:103-113] compr *)
Definition compr (w : World) : option World :=
  a ← pop_comp (e0 w); b ← pop_comp (e1 w);
  let locs_empty := bool_decide (locf (e0 w) = [] ∧ locf (e1 w) = []) in
  if bool_decide (iterCnt w = 0) then
    if locs_empty then Some (searchResult (-1) (set_engines a b w)) else None
  else if restartf w then None
  else let '(mkWorld _ _ nl ic hp hl _ po ss ts hm ob) := w in
    Some (mkWorld a b nl ic hp hl true po ss ts hm ob).
(** [examples/strstr/Strstr.bsv:120-134] setup and search, taken from the portal *)
Definition request (w : World) : option World :=
  let '(mkWorld a b nl ic hp hl rf po ss ts hm ob) := w in
  match po with
  | Setup np mpp len :: po =>
    Some (mkWorld (setup np mpp len a) (setup np mpp len b) (u32 len) ic hp hl rf po ss ts hm ob)
  | Search hp len ic :: po =>
    if rf then None else Some (mkWorld a b nl (u32 ic) hp (u32 len) true po ss ts hm ob)
  | [] => None
  end.

Section Device.
Context {path : MemPath}.

Inductive TRule := TReq | TConf | TRes (second : bool) | TRestart | TComp | TEng (second : bool) (r : Rule).
Definition tfire (r : TRule) (w : World) : option World :=
  match r with
  | TReq => request w | TConf => confr w | TRes k => resr k w | TRestart => restartr w
  | TComp => compr w
  | TEng false r => a ← fire (objs w) r (e0 w); Some (set_engines a (e1 w) w)
  | TEng true r => b ← fire (objs w) r (e1 w); Some (set_engines (e0 w) b w)
  end.

(** ** A search *)

(** An engine is searching, or has finished ([Over 1]) and been acknowledged ([Over 0]). *)
Inductive phase := Going (i j : Z) (o : nat) | Over (k : nat).
Definition busy (ph : phase) : Prop := match ph with Going _ _ _ => True | Over k => k = 1%nat end.

Section Searching.
Context (mem : Z → Z → Z) (nd0 mp0 nd1 mp1 : Z → Z) (m hp hl : Z).
Definition half : Z := Z.shiftr hl 1.
(** What the two engines are set to. *)
Definition c0 : Conf := mkConf nd0 mp0 m (half + m) 0 hp.
Definition c1 : Conf := mkConf nd1 mp1 m half half hp.
Context (S0 : searchable c0) (S1 : searchable c1).

(** The positions engine [c] finds, from [i] and [j] on. *)
Definition finds (c : Conf) (i j : Z) : list Z :=
  hits (λ i, needle c (i - 1)) (mpNext c) (λ j, mem (haystackPointer c) (aligned (haystackBase c) + j - 1))
    (needleLenReg c) (haystackLenReg c) i j.

Definition in_phase (c : Conf) (ph : phase) (e : Eng) : Prop :=
  Forall (λ v, 0 ≤ v) (locf e) ∧ conff e = 0%nat ∧
  match ph with
  | Going i j o => running mem c i j o e ∧ compf e = 0%nat
  | Over k => resting e ∧ stage e = Ready ∧ loading e = None ∧ compf e = k ∧
      ∃ n b h, conf e = mkConf (needle c) (mpNext c) (needleLenReg c) n b h
  end.
(** Hits still to come, and steps. *)
Definition left (c : Conf) (ph : phase) : Z :=
  match ph with Going i j _ => length (finds c i j) | Over _ => 0 end.
Definition ecost (c : Conf) (ph : phase) (e : Eng) : Z :=
  length (locf e) + 2 * compf e +
  match ph with Going i j o => cost c i j o e | Over _ => rest_cost e end.

Lemma ecost_nonneg c ph e : in_phase c ph e → 0 ≤ ecost c ph e.
Proof.
  intros (_ & _ & H). unfold ecost. destruct ph as [i j o|].
  - destruct H as [[R1 R2 R3 R4 R5 R6 R7 R8 R9 R10 R11 R12] _].
    unfold cost, pot. destruct R9 as (old & k & -> & <- & _ & _ & Hk). unfold entries.
    rewrite length_app, length_fmap, length_seqZ.
    assert (0 ≤ (haystackLenReg c + 7 - haystackOff e) / 8) by (apply Z.div_pos; lia). lia.
  - unfold rest_cost. destruct (loading e); lia.
Qed.
Lemma engine_step c ph e r e' : searchable c →
  in_phase c ph e → fire mem r e = Some e' →
  ∃ ph', in_phase c ph' e' ∧ length (locf e') + left c ph' = length (locf e) + left c ph ∧
    ecost c ph' e' < ecost c ph e ∧ (busy ph → busy ph') ∧ (ph = Over 0 → ph' = Over 0).
Proof.
  intros Hs (Hl & Hcn & H) E. destruct ph as [i j o|k].
  - destruct H as [HR Hcp]. destruct (run_step mem c Hs r i j o e e' HR E) as
      [(i' & j' & o' & HR' & (l & El & Eh) & Ecp & Ecn & Ec)|(Ht & Hst & Ecf & Hld & Eh & El & Ecp & Ecn & Ec)].
    + pose proof HR as [_ _ _ _ [Hi Hij] _ _ _ _ _ _ _]. pose proof Hs as [Hm Hn Hb Hln Hnx].
      assert (Hr := hits_range (λ i, needle c (i - 1)) (mpNext c)
        (λ j, mem (haystackPointer c) (aligned (haystackBase c) + j - 1)) (needleLenReg c) (haystackLenReg c) ltac:(lia) Hnx i j Hi Hij).
      rewrite Eh in Hr. apply Forall_app in Hr as [Hr _].
      exists (Going i' j' o'). unfold in_phase. split_and!; try done.
      * rewrite El. apply Forall_app. split; [done|]. apply Forall_fmap. eapply Forall_impl; [exact Hr|].
        intros p Hp. simpl in *. rewrite s32_small by lia. lia.
      * congruence.
      * congruence.
      * unfold left, finds. rewrite Eh, El, !length_app, length_fmap. lia.
      * unfold ecost. lia.
    + exists (Over 1). unfold in_phase. split_and!; try done.
      * by rewrite El.
      * congruence.
      * congruence.
      * rewrite Ecf. destruct c. by eexists _, _, _.
      * unfold left, finds. rewrite Eh, El. simpl. lia.
      * unfold ecost. rewrite El. lia.
  - destruct H as (Ht & Hst & Hld & Hcp & n & b & h & Ecf).
    destruct (rest_step mem r e e' Ht E) as (Ht' & Ec & El & Ecp & [(E1 & E2 & E3 & E4)|(_ & _ & _ & _ & (? & ? & ? & E1 & _))]);
      [|congruence].
    exists (Over k). unfold in_phase. rewrite El. split_and!; try done; try congruence.
    + exists n, b, h. congruence.
    + unfold ecost. rewrite El, Ecp. lia.
Qed.

(** Hits and steps of one round. *)
Definition round_hits : Z := length (finds c0 1 1) + length (finds c1 1 1).
Definition round_cost : Z := search_cost (half + m) + search_cost half.

(** During a search: [total] is what hw_match_cnt will be. *)
Record searching (p0 p1 : phase) (total : Z) (w : World) : Prop := {
  g_0 : in_phase c0 p0 (e0 w); g_1 : in_phase c1 p1 (e1 w);
  g_nl : needleLen w = m; g_hp : hayPtr w = hp; g_hl : hayLen w = hl; g_portal : portal w = [];
  g_setup : setup_sem w = 0; g_objs : objs w = mem; g_iter : 0 ≤ iterCnt w;
  g_stage : busy p0 ∧ busy p1 ∧ restartf w = false ∧ test_sem w = 0 ∨
    p0 = Over 0 ∧ p1 = Over 0 ∧ restartf w = true ∧ 0 < iterCnt w ∧ test_sem w = 0 ∨
    p0 = Over 0 ∧ p1 = Over 0 ∧ restartf w = false ∧ iterCnt w = 0 ∧ test_sem w = 1 ∧
      locf (e0 w) = [] ∧ locf (e1 w) = [];
  g_count : hw_match_cnt w + length (locf (e0 w)) + length (locf (e1 w)) + left c0 p0 + left c1 p1 +
    iterCnt w * round_hits = total;
  g_range : 0 ≤ hw_match_cnt w ∧ total < 2 ^ 31 }.
Definition wcost (p0 p1 : phase) (w : World) : Z :=
  ecost c0 p0 (e0 w) + ecost c1 p1 (e1 w) + (if restartf w then 1 else 0) + iterCnt w * round_cost.

Lemma left_nonneg c ph : 0 ≤ left c ph.
Proof. destruct ph; simpl; lia. Qed.
Lemma round_cost_nonneg : 0 ≤ round_cost.
Proof.
  pose proof (s_n _ S0). pose proof (s_n _ S1). simpl in *. unfold round_cost, search_cost.
  assert (0 ≤ (half + m + 7) / 8) by (apply Z.div_pos; lia).
  assert (0 ≤ (half + 7) / 8) by (apply Z.div_pos; lia). lia.
Qed.
Lemma wcost_nonneg p0 p1 total w : searching p0 p1 total w → 0 ≤ wcost p0 p1 w.
Proof.
  intros H. pose proof round_cost_nonneg. destruct H. unfold wcost.
  pose proof (ecost_nonneg _ _ _ g_2). pose proof (ecost_nonneg _ _ _ g_3).
  assert (0 ≤ iterCnt w * round_cost) by (by apply Z.mul_nonneg_nonneg). destruct (restartf w); lia.
Qed.

(** *** The steps of a search *)
Lemma pop_loc_phase c ph e v e' : in_phase c ph e → pop_loc e = Some (v, e') →
  in_phase c ph e' ∧ 0 ≤ v ∧ Z.of_nat (length (locf e)) = length (locf e') + 1 ∧
  ecost c ph e' = ecost c ph e - 1.
Proof.
  destruct e as [st cf ld j ir ep tag off rd hs q lf cp cn]. destruct lf as [|v' lf]; [done|].
  intros (Hl & Hcn & H) [= <- <-]. apply Forall_cons in Hl as [Hv Hl]. simpl in *.
  split_and!; try done; [|lia|].
  - destruct ph as [i j' o|k]; simpl in *.
    + destruct H as [[R1 R2 R3 R4 R5 R6 R7 R8 R9 R10 R11 R12] ->]. split_and!; try done; by split.
    + destruct H as ([T1 T2 T3] & ? & ? & ? & ?). split_and!; try done.
  - unfold ecost. simpl. destruct ph; unfold cost, rest_cost; simpl; lia.
Qed.
Lemma step_res k p0 p1 total w w' : searching p0 p1 total w → resr k w = Some w' →
  searching p0 p1 total w' ∧ wcost p0 p1 w' < wcost p0 p1 w.
Proof.
  intros [G0 G1 G2 G3 G4 G5 G6 G7 G8 G9 G10 G11] E.
  pose proof (left_nonneg c0 p0). pose proof (left_nonneg c1 p1).
  assert (0 ≤ iterCnt w * round_hits) by (apply Z.mul_nonneg_nonneg; unfold round_hits; lia).
  destruct w as [a b nl ic hp' hl' rf po ss ts hm ob]. simpl in *.
  destruct k; unfold resr in E; simpl in E;
    [destruct (pop_loc b) as [[v e']|] eqn:Ep|destruct (pop_loc a) as [[v e']|] eqn:Ep];
    try done; injection E as <-.
  - destruct (pop_loc_phase c1 p1 b v e' G1 Ep) as (G1' & Hv & El & Ec).
    unfold searchResult. rewrite bool_decide_false by lia. rewrite s32_small by lia. split.
    + split; simpl; try done; try lia. destruct G9 as [?|[?|(? & ? & ? & ? & ? & ? & Hn)]]; auto.
      rewrite Hn in El. simpl in El. lia.
    + unfold wcost. simpl. lia.
  - destruct (pop_loc_phase c0 p0 a v e' G0 Ep) as (G0' & Hv & El & Ec).
    unfold searchResult. rewrite bool_decide_false by lia. rewrite s32_small by lia. split.
    + split; simpl; try done; try lia. destruct G9 as [?|[?|(? & ? & ? & ? & ? & Hn & ?)]]; auto.
      rewrite Hn in El. simpl in El. lia.
    + unfold wcost. simpl. lia.
Qed.
Lemma step_eng k r p0 p1 total w w' : searching p0 p1 total w → tfire (TEng k r) w = Some w' →
  ∃ p0' p1', searching p0' p1' total w' ∧ wcost p0' p1' w' < wcost p0 p1 w.
Proof.
  intros [G0 G1 G2 G3 G4 G5 G6 G7 G8 G9 G10 G11] E.
  destruct w as [a b nl ic hp' hl' rf po ss ts hm ob]. simpl in *. subst ob.
  destruct k; simpl in E; [destruct (fire mem r b) as [b'|] eqn:Ef|destruct (fire mem r a) as [a'|] eqn:Ef];
    try done; injection E as <-.
  - destruct (engine_step c1 p1 b r b' S1 G1 Ef) as (p1' & G1' & El & Ec & Hb & Ho).
    exists p0, p1'. split; [|unfold wcost; simpl; lia]. split; simpl; try done; try lia.
    destruct G9 as [(? & ? & ? & ?)|[(? & ? & ? & ? & ?)|(? & E1 & ? & ? & ? & ? & Hn)]]; auto 12.
    right. right. split_and!; auto. rewrite E1, Ho, Hn in El by done. simpl in El.
    apply nil_length_inv. lia.
  - destruct (engine_step c0 p0 a r a' S0 G0 Ef) as (p0' & G0' & El & Ec & Hb & Ho).
    exists p0', p1. split; [|unfold wcost; simpl; lia]. split; simpl; try done; try lia.
    destruct G9 as [(? & ? & ? & ?)|[(? & ? & ? & ? & ?)|(E1 & ? & ? & ? & ? & Hn & ?)]]; auto 12.
    right. right. split_and!; auto. rewrite E1, Ho, Hn in El by done. simpl in El.
    apply nil_length_inv. lia.
Qed.

(** Starting an engine, and acknowledging that it has finished. *)
Lemma start_phase c e len b : searchable c → c = mkConf (needle c) (mpNext c) (needleLenReg c) (u32 len) (u32 b) hp →
  in_phase c (Over 0) e → search_ready e = true →
  in_phase c (Going 1 1 0) (search hp len b e) ∧ locf (search hp len b e) = locf e ∧
  ecost c (Going 1 1 0) (search hp len b e) ≤ ecost c (Over 0) e + search_cost (u32 len).
Proof.
  intros Hs Hc (Hl & Hcn & Ht & Hst & Hld & Hcp & n & b' & h & Ecf) Hr.
  assert (Ec : conf (search hp len b e) = c)
    by (rewrite Hc; destruct e; simpl in *; by subst).
  destruct (search_start mem hp len b e Ht Hr Hld ltac:(by rewrite Ec)) as [HR HC]. rewrite Ec in HR, HC.
  destruct e as [st cf ld j ir ep tag off rd hs q lf cp cn]. simpl in *. subst.
  unfold in_phase, ecost. simpl in *. split_and!; try done; lia.
Qed.
Lemma pop_comp_phase c ph e e' : in_phase c ph e → busy ph → pop_comp e = Some e' →
  ph = Over 1 ∧ in_phase c (Over 0) e' ∧ locf e' = locf e ∧ ecost c (Over 0) e' = ecost c ph e - 2.
Proof.
  destruct e as [st cf ld j ir ep tag off rd hs q lf cp cn]. intros (Hl & Hcn & H) Hb Hp. simpl in *.
  destruct ph as [i j' o|k]; simpl in *; [destruct H as [_ ->]; done|]. subst k.
  destruct H as ([T1 T2 T3] & ? & ? & -> & Hcf). injection Hp as <-. simpl in *.
  split_and!; try done. unfold ecost, rest_cost. simpl. lia.
Qed.
Lemma step_restart p0 p1 total w w' : searching p0 p1 total w → restartr w = Some w' →
  ∃ p0' p1', searching p0' p1' total w' ∧ wcost p0' p1' w' < wcost p0 p1 w.
Proof.
  intros [G0 G1 G2 G3 G4 G5 G6 G7 G8 G9 G10 G11] E.
  destruct w as [a b nl ic hp' hl' rf po ss ts hm ob]. simpl in *. subst.
  destruct (bool_decide _ && rf && _ && _) eqn:Eb; [|done]. injection E as <-.
  rewrite !andb_true_iff in Eb. destruct Eb as [[[Hic%bool_decide_eq_true ->] Ra] Rb].
  destruct G9 as [(? & ? & ? & ?)|[(-> & -> & _ & _ & ->)|(? & ? & ? & ?)]]; try done.
  pose proof (s_len _ S0). pose proof (s_len _ S1). pose proof (s_n _ S0). pose proof (s_n _ S1).
  pose proof (s_m _ S1). simpl in *. fold half.
  assert (E1 : u32 (u32 (half + m)) = half + m) by (rewrite !u32_small; rewrite ?u32_small; lia).
  destruct (start_phase c0 a (u32 (half + m)) 0 S0 ltac:(by rewrite E1) G0 Ra) as (G0' & El0 & Ec0).
  assert (E2 : u32 half = half) by (apply u32_small; lia).
  destruct (start_phase c1 b half half S1 ltac:(by rewrite E2) G1 Rb) as (G1' & El1 & Ec1).
  rewrite E1 in Ec0. rewrite E2 in Ec1.
  exists (Going 1 1 0), (Going 1 1 0). split.
  - split; simpl; try done; try lia. rewrite El0, El1. unfold round_hits. lia.
  - unfold wcost. simpl. unfold round_cost. lia.
Qed.
Lemma step_comp p0 p1 total w w' : searching p0 p1 total w → compr w = Some w' →
  ∃ p0' p1', searching p0' p1' total w' ∧ wcost p0' p1' w' < wcost p0 p1 w.
Proof.
  intros [G0 G1 G2 G3 G4 G5 G6 G7 G8 G9 G10 G11] E.
  destruct w as [a b nl ic hp' hl' rf po ss ts hm ob]. unfold compr in E. simpl in *. subst.
  destruct (pop_comp a) as [a'|] eqn:Ea; [|done]. destruct (pop_comp b) as [b'|] eqn:Eb; [|done]. simpl in E.
  destruct G9 as [(B0 & B1 & -> & ->)|G9].
  2: { assert (p0 = Over 0) as -> by (destruct G9 as [G9|G9]; apply G9).
       destruct G0 as (_ & _ & _ & _ & _ & Hcp & _). destruct a; simpl in *. by subst. }
  destruct (pop_comp_phase _ _ _ _ G0 B0 Ea) as (-> & G0' & El0 & Ec0).
  destruct (pop_comp_phase _ _ _ _ G1 B1 Eb) as (-> & G1' & El1 & Ec1).
  exists (Over 0), (Over 0). case_bool_decide as Hic.
  - case_bool_decide as Hl; [|done]. injection E as <-. split; [|unfold wcost; simpl; lia].
    split; simpl; try done; rewrite ?El0, ?El1; try done.
    right. right. destruct Hl as [-> ->]. by rewrite Hic.
  - injection E as <-. split; [|unfold wcost; simpl; lia].
    split; simpl; try done; rewrite ?El0, ?El1; try done. right. left. split_and!; try done. lia.
Qed.
Lemma search_step r p0 p1 total w w' : searching p0 p1 total w → tfire r w = Some w' →
  ∃ p0' p1', searching p0' p1' total w' ∧ wcost p0' p1' w' < wcost p0 p1 w.
Proof.
  intros G E. destruct r as [| |k| | |k r].
  - destruct G as [_ _ _ _ _ Hp]. destruct w; simpl in *. by subst.
  - destruct G as [(_ & Hcn & _)]. destruct w as [[]]; unfold tfire, confr in E; simpl in *. by subst.
  - exists p0, p1. by apply (step_res k).
  - by apply step_restart.
  - by apply step_comp.
  - by eapply step_eng.
Qed.

Lemma phase_progress c ph e : searchable c → in_phase c ph e → locf e = [] →
  (∃ r e', fire mem r e = Some e') ∨ ∃ k, ph = Over k ∧ search_ready e = true.
Proof.
  intros Hs (_ & _ & H) El. destruct ph as [i j o|k].
  - destruct H as [HR Hcp]. left. eapply run_progress; [exact HR|rewrite El; simpl; lia|lia].
  - destruct H as (Ht & Hst & _). destruct (rest_progress mem e Ht Hst); eauto.
Qed.
Lemma pop_comp_over c e : in_phase c (Over 1) e → ∃ e', pop_comp e = Some e'.
Proof. intros (_ & _ & _ & _ & _ & Hcp & _). destruct e; simpl in *. subst. eauto. Qed.
(** Until it has announced the end, the device can do something. *)
Lemma search_progress p0 p1 total w : searching p0 p1 total w → test_sem w = 0 →
  ∃ r w', tfire r w = Some w'.
Proof.
  intros [G0 G1 G2 G3 G4 G5 G6 G7 G8 G9 G10 G11] Ht.
  destruct w as [a b nl ic hp' hl' rf po ss ts hm ob]. simpl in *. subst ob.
  destruct (locf a) as [|v l] eqn:Ea; [|exists (TRes false); destruct a; simpl in *; subst; by eexists].
  destruct (locf b) as [|v l] eqn:Eb; [|exists (TRes true); destruct b; simpl in *; subst; by eexists].
  destruct (phase_progress c0 p0 a S0 G0 Ea) as [(r & e' & E)|(k0 & -> & R0)];
    [exists (TEng false r); simpl; rewrite E; by eexists|].
  destruct (phase_progress c1 p1 b S1 G1 Eb) as [(r & e' & E)|(k1 & -> & R1)];
    [exists (TEng true r); simpl; rewrite E; by eexists|].
  destruct G9 as [(B0 & B1 & -> & _)|[(_ & _ & -> & Hic & _)|(_ & _ & _ & _ & Hts & _)]]; [| |lia].
  - simpl in B0, B1. subst. destruct (pop_comp_over _ _ G0) as [a' E0]. destruct (pop_comp_over _ _ G1) as [b' E1].
    exists TComp. simpl. unfold compr. simpl. rewrite E0, E1, Ea, Eb. simpl.
    case_bool_decide; by eexists.
  - exists TRestart. simpl. rewrite bool_decide_true, R0, R1 by done. by eexists.
Qed.
End Searching.

(** ** The program's side *)
Section Program.
(** The schedule. *)
Context (choose : nat → World → TRule) (fuel : nat).

(** sem_wait on the two semaphores takes one *)
Definition take_setup (w : World) : World :=
  let '(mkWorld a b nl ic hp hl rf po ss ts hm ob) := w in mkWorld a b nl ic hp hl rf po (ss - 1) ts hm ob.
Definition take_test (w : World) : World :=
  let '(mkWorld a b nl ic hp hl rf po ss ts hm ob) := w in mkWorld a b nl ic hp hl rf po ss (ts - 1) hm ob.
(** A request is put into the portal. *)
Definition send (r : Request) : M World () :=
  modify (λ '(mkWorld a b nl ic hp hl rf po ss ts hm ob), mkWorld a b nl ic hp hl rf (po ++ [r]) ss ts hm ob).
(** The contents of a shared buffer. *)
Definition store (p : Z) (bytes : Z → Z) : M World () :=
  modify (λ '(mkWorld a b nl ic hp hl rf po ss ts hm ob),
    mkWorld a b nl ic hp hl rf po ss ts hm (λ q, if bool_decide (q = p) then bytes else ob q)).
Definition table_bytes (a : gmap Z Z) (off : Z) : Z :=
  u32 (default 0 (a !! (off / 4))) / 2 ^ (8 * (off mod 4)) mod 256.

(** [examples/strstr/teststrstr.cpp:145-149] main: the search by the device (the
    same in lines 217 to 221) *)
Definition hw_search (needleRef mpNextRef haystackRef needle_len haystack_len iter_cnt : Z) : M World () :=
  send (Setup needleRef mpNextRef needle_len);;
  await tfire choose setup_sem take_setup fuel;;
  send (Search haystackRef haystack_len iter_cnt);;
  await tfire choose test_sem take_test fuel.

End Program.

(** ** Waiting for the device *)

Section Waiting.
Context (choose : nat → World → TRule) (Hch : work_conserving tfire choose).

(** An engine with nothing to do but empty its queues. *)
Definition quiet (e : Eng) : Prop :=
  resting e ∧ loading e = None ∧ locf e = [] ∧ compf e = 0%nat ∧ conff e = 0%nat.
(** The device, with requests [q] in the portal. *)
Record quiet_world (q : list Request) (w : World) : Prop := {
  q_0 : quiet (e0 w); q_1 : quiet (e1 w); q_restart : restartf w = false; q_portal : portal w = q;
  q_setup : setup_sem w = 0; q_test : test_sem w = 0 }.
Definition qcost (w : World) : Z := rest_cost (e0 w) + rest_cost (e1 w).
(** What emptying the queues leaves as it was. *)
Definition kept (w w' : World) : Prop :=
  stage (e0 w') = stage (e0 w) ∧ conf (e0 w') = conf (e0 w) ∧
  stage (e1 w') = stage (e1 w) ∧ conf (e1 w') = conf (e1 w) ∧ needleLen w' = needleLen w ∧
  hw_match_cnt w' = hw_match_cnt w ∧ objs w' = objs w.

Lemma qcost_nonneg w : 0 ≤ qcost w.
Proof. unfold qcost, rest_cost. destruct (loading (e0 w)), (loading (e1 w)); lia. Qed.
Lemma quiet_step mem r e e' : quiet e → fire mem r e = Some e' →
  quiet e' ∧ rest_cost e' < rest_cost e ∧ stage e' = stage e ∧ conf e' = conf e.
Proof.
  intros (Ht & Hl & Hlf & Hcp & Hcn) E.
  destruct (rest_step mem r e e' Ht E) as (Ht' & Ec & El & Ecp & [(E1 & E2 & E3 & E4)|(_ & _ & _ & _ & (? & ? & ? & E1 & _))]);
    [|congruence].
  split; [|done]. unfold quiet. split_and!; congruence || done.
Qed.
Lemma quiet_world_step q r w w' : quiet_world q w → tfire r w = Some w' →
  request w = Some w' ∨ quiet_world q w' ∧ kept w w' ∧ qcost w' < qcost w.
Proof.
  intros [Q0 Q1 Q2 Q3 Q4 Q5] E. pose proof Q0 as (_ & _ & L0 & P0 & N0). pose proof Q1 as (_ & _ & L1 & P1 & N1).
  destruct w as [a b nl ic hp hl rf po ss ts hm ob]. simpl in *. subst.
  destruct r as [| |[]| | |[] r]; unfold tfire in E.
  - by left.
  - unfold confr in E. destruct a; simpl in *. by subst.
  - unfold resr in E. destruct b; simpl in *. by subst.
  - unfold resr in E. destruct a; simpl in *. by subst.
  - simpl in E. by rewrite andb_false_r in E.
  - unfold compr in E. destruct a; simpl in *. by subst.
  - right. simpl in E. destruct (fire ob r b) as [b'|] eqn:Ef; [|done]. injection E as <-.
    destruct (quiet_step _ _ _ _ Q1 Ef) as (Q' & Hc & ? & ?). unfold kept, qcost. simpl.
    split_and!; try done; lia.
  - right. simpl in E. destruct (fire ob r a) as [b'|] eqn:Ef; [|done]. injection E as <-.
    destruct (quiet_step _ _ _ _ Q0 Ef) as (Q' & Hc & ? & ?). unfold kept, qcost. simpl.
    split_and!; try done; lia.
Qed.
Lemma kept_trans w1 w2 w3 : kept w1 w2 → kept w2 w3 → kept w1 w3.
Proof.
  intros (A1 & A2 & A3 & A4 & A5 & A6 & A7) (B1 & B2 & B3 & B4 & B5 & B6 & B7). split_and!; congruence.
Qed.

(** *** Setting up *)
Definition set_len (len : Z) (c : Conf) : Conf :=
  let '(mkConf nd mp _ n b hp) := c in mkConf nd mp (u32 len) n b hp.
Definition setting_eng (mem : Z → Z → Z) (np mpp len : Z) (c : Conf) (e : Eng) : Prop :=
  resting e ∧ locf e = [] ∧ compf e = 0%nat ∧
  (loading e = Some (np, mpp, len) ∧ conff e = 0%nat ∧ conf e = set_len len c ∨
   loading e = None ∧ conff e = 1%nat ∧ stage e = Ready ∧ conf e = loaded mem np mpp len (set_len len c)).
Lemma setting_step mem np mpp len c r e e' : setting_eng mem np mpp len c e → fire mem r e = Some e' →
  setting_eng mem np mpp len c e' ∧ rest_cost e' + conff e' < rest_cost e + conff e.
Proof.
  intros (Ht & Hl & Hcp & H) E.
  destruct (rest_step mem r e e' Ht E) as
    (Ht' & Ec & El & Ecp & [(E1 & E2 & E3 & E4)|(E1 & E2 & E3 & Ec' & np' & mpp' & len' & E4 & E5)]).
  - split; [|rewrite E4; lia]. split_and!; try done; try congruence.
  - destruct H as [(H1 & H2 & H3)|(H1 & _)]; [|congruence]. rewrite H1 in E4. injection E4 as <- <- <-.
    split; [|lia]. split_and!; try done; try congruence. right. split_and!; congruence.
Qed.
Lemma setting_setup mem np mpp len e : quiet e →
  setting_eng mem np mpp len (conf e) (setup np mpp len e) ∧
  rest_cost (setup np mpp len e) + conff (setup np mpp len e) = rest_cost e + 3.
Proof.
  intros ([T1 T2 T3] & Hl & Hlf & Hcp & Hcn).
  destruct e as [st [nd mp m n b hp] ld j i ep tag off rd hs q lf cp cn]. simpl in *. subst.
  unfold setting_eng, rest_cost. simpl. split_and!; try done; [by left|lia].
Qed.
Lemma setting_confirmed mem np mpp len c e e' : setting_eng mem np mpp len c e → pop_conf e = Some e' →
  quiet e' ∧ stage e' = Ready ∧ conf e' = loaded mem np mpp len (set_len len c) ∧
  rest_cost e' + 1 = rest_cost e + conff e.
Proof.
  intros ([T1 T2 T3] & Hl & Hcp & H) Ep.
  destruct e as [st cf ld j i ep tag off rd hs q lf cp cn]. simpl in *. subst.
  destruct H as [(-> & -> & ->)|(-> & -> & -> & ->)]; [done|]. injection Ep as <-.
  unfold quiet, rest_cost. simpl. split_and!; done || lia.
Qed.

(** While the set-up is under way. *)
Record setting (np mpp len : Z) (ca cb : Conf) (hw : Z) (mem : Z → Z → Z) (w : World) : Prop := {
  u_0 : setting_eng mem np mpp len ca (e0 w); u_1 : setting_eng mem np mpp len cb (e1 w);
  u_restart : restartf w = false; u_portal : portal w = []; u_setup : setup_sem w = 0; u_test : test_sem w = 0;
  u_len : needleLen w = u32 len; u_hw : hw_match_cnt w = hw; u_objs : objs w = mem }.
(** The engines are set up. *)
Definition set_up (np mpp len : Z) (ca cb : Conf) (hw : Z) (mem : Z → Z → Z) (w : World) : Prop :=
  quiet_world [] w ∧ stage (e0 w) = Ready ∧ stage (e1 w) = Ready ∧
  conf (e0 w) = loaded mem np mpp len (set_len len ca) ∧ conf (e1 w) = loaded mem np mpp len (set_len len cb) ∧
  needleLen w = u32 len ∧ hw_match_cnt w = hw ∧ objs w = mem.

Lemma setting_world_step np mpp len ca cb hw mem r w w' : setting np mpp len ca cb hw mem w →
  tfire r w = Some w' →
  setting np mpp len ca cb hw mem w' ∧ qcost w' + conff (e0 w') + conff (e1 w') <
    qcost w + conff (e0 w) + conff (e1 w) ∨
  setup_sem w' = 1 ∧ set_up np mpp len ca cb hw mem (take_setup w') ∧
    qcost w' < qcost w + conff (e0 w) + conff (e1 w).
Proof.
  intros [U0 U1 U2 U3 U4 U5 U6 U7 U8] E. pose proof U0 as (_ & L0 & P0 & _). pose proof U1 as (_ & L1 & P1 & _).
  destruct w as [a b nl ic hp hl rf po ss ts hm ob]. simpl in *. subst.
  destruct r as [| |[]| | |[] r]; unfold tfire in E.
  - done.
  - right. unfold confr in E. simpl in E. destruct (pop_conf a) as [a'|] eqn:Ea; [|done].
    destruct (pop_conf b) as [b'|] eqn:Eb; [|done]. injection E as <-.
    destruct (setting_confirmed _ _ _ _ _ _ _ U0 Ea) as (Q0 & R0 & C0 & K0).
    destruct (setting_confirmed _ _ _ _ _ _ _ U1 Eb) as (Q1 & R1 & C1 & K1).
    unfold set_up, qcost. simpl. split_and!; try done; lia.
  - unfold resr in E. destruct b; simpl in *. by subst.
  - unfold resr in E. destruct a; simpl in *. by subst.
  - simpl in E. by rewrite andb_false_r in E.
  - unfold compr in E. destruct a; simpl in *. by subst.
  - left. simpl in E. destruct (fire mem r b) as [b'|] eqn:Ef; [|done]. injection E as <-.
    destruct (setting_step _ _ _ _ _ _ _ _ U1 Ef) as [U1' K]. split; [done|unfold qcost; simpl; lia].
  - left. simpl in E. destruct (fire mem r a) as [a'|] eqn:Ef; [|done]. injection E as <-.
    destruct (setting_step _ _ _ _ _ _ _ _ U0 Ef) as [U0' K]. split; [done|unfold qcost; simpl; lia].
Qed.
Lemma setting_progress np mpp len ca cb hw mem w : setting np mpp len ca cb hw mem w →
  ∃ r w', tfire r w = Some w'.
Proof.
  intros [(_ & _ & _ & H0) (_ & _ & _ & H1)].
  destruct w as [a b nl ic hp hl rf po ss ts hm ob]. simpl in *.
  destruct H0 as [(L0 & N0 & _)|(_ & N0 & _)].
  { exists (TEng false FinishSetup). destruct a; simpl in *. subst. by eexists. }
  destruct H1 as [(L1 & N1 & _)|(_ & N1 & _)].
  { exists (TEng true FinishSetup). destruct b; simpl in *. subst. by eexists. }
  exists TConf. destruct a, b; simpl in *. subst. by eexists.
Qed.

(** A request is accepted, after some steps that empty queues. *)
Definition waiting (q : Request) (w0 : World) (B : Z) (w : World) (c : Z) : Prop :=
  quiet_world [q] w ∧ kept w0 w ∧ c = qcost w + B.
Lemma kept_refl w : kept w w.
Proof. by split_and!. Qed.
Lemma send_quiet q w : quiet_world [] w → ∃ w', send q w = (Done tt, w') ∧ quiet_world [q] w' ∧ kept w w' ∧
  qcost w' = qcost w.
Proof.
  intros [Q0 Q1 Q2 Q3 Q4 Q5]. destruct w as [a b nl ic hp hl rf po ss ts hm ob]. simpl in *. subst.
  eexists. split; [done|]. split_and!; try done.
Qed.

Lemma device_setup_spec np mpp len fuel w : quiet_world [] w → qcost w + 7 ≤ Z.of_nat fuel →
  ∃ w', (send (Setup np mpp len);; await tfire choose setup_sem take_setup fuel) w = (Done tt, w') ∧
    set_up np mpp len (conf (e0 w)) (conf (e1 w)) (hw_match_cnt w) (objs w) w' ∧ qcost w' ≤ qcost w + 7.
Proof.
  intros Hq Hf. destruct (send_quiet (Setup np mpp len) w Hq) as (w1 & E1 & Hq1 & Hk1 & Hc1).
  set (J := setting np mpp len (conf (e0 w)) (conf (e1 w)) (hw_match_cnt w) (objs w)).
  set (F := set_up np mpp len (conf (e0 w)) (conf (e1 w)) (hw_match_cnt w) (objs w)).
  destruct (await_spec tfire choose (λ v c, waiting (Setup np mpp len) w 7 v c ∨
      J v ∧ c = qcost v + conff (e0 v) + conff (e1 v) ∨ setup_sem v = 1 ∧ F (take_setup v) ∧ c = qcost v)
    setup_sem take_setup fuel w1 (qcost w1 + 7) Hch) as (w2 & c2 & HI & Hc & Hs & E2).
  - intros v c H. pose proof (qcost_nonneg v). destruct H as [(_ & _ & ->)|[(_ & ->)|(_ & _ & ->)]]; lia.
  - intros v c r v' H Hs E. destruct H as [(Hv & Hk & ->)|[(Hv & ->)|(? & _)]]; [| |lia].
    + destruct (quiet_world_step _ _ _ _ Hv E) as [Er|(Hv' & Hk' & Hc')].
      * exists (qcost v' + conff (e0 v') + conff (e1 v')).
        destruct Hv as [Q0 Q1 Q2 Q3 Q4 Q5]. destruct Hk as (K1 & K2 & K3 & K4 & K5 & K6 & K7).
        destruct v as [a b nl ic hp hl rf po ss ts hm ob]. simpl in *. subst. injection Er as <-.
        destruct (setting_setup (objs w) np mpp len a Q0) as [U0 C0].
        destruct (setting_setup (objs w) np mpp len b Q1) as [U1 C1]. rewrite K2 in U0. rewrite K4 in U1.
        split; [right; left; split; [by split|done]|]. unfold qcost. simpl. lia.
      * exists (qcost v' + 7). split; [left; split_and!; try done; by eapply kept_trans|lia].
    + destruct (setting_world_step _ _ _ _ _ _ _ _ _ _ Hv E) as [[Hv' Hc']|(Hs' & Hv' & Hc')]; eauto 8.
  - intros v c H Hs. destruct H as [(Hv & _ & _)|[(Hv & _)|(? & _)]]; [| |lia].
    + exists TReq. destruct Hv as [_ _ _ Hp _ _]. destruct v; simpl in *. subst. by eexists.
    + by eapply setting_progress.
  - left. split_and!; done.
  - lia.
  - destruct HI as [(Hv & _ & _)|[(Hv & _)|(Hs1 & HF & ->)]];
      [destruct Hv; lia|destruct Hv; lia|].
    exists (take_setup w2). rewrite (bind_Done _ _ _ _ _ E1). split_and!; [done..|].
    destruct w2; simpl in *. unfold qcost in *. simpl in *. lia.
Qed.

(** *** Searching *)
Lemma quiet_phase mem c e : quiet e → stage e = Ready →
  (∃ n b h, conf e = mkConf (needle c) (mpNext c) (needleLenReg c) n b h) →
  in_phase mem c (Over 0) e ∧ ecost c (Over 0) e = rest_cost e ∧ locf e = [].
Proof.
  intros (Ht & Hl & Hlf & Hcp & Hcn) Hst Hcf. unfold in_phase, ecost. rewrite Hlf, Hcp. split_and!; try done.
Qed.
Lemma phase_quiet mem c e : in_phase mem c (Over 0) e → locf e = [] → quiet e ∧ ecost c (Over 0) e = rest_cost e.
Proof.
  intros (Hl & Hcn & Ht & Hst & Hld & Hcp & _) Hlf. unfold quiet, ecost. rewrite Hlf, Hcp. by split_and!.
Qed.

(** The device takes the search from the portal, and has announced its end. *)
Lemma search_accepted nd0 mp0 nd1 mp1 m hp len ic w v v' :
  let hl := u32 len in
  let total := hw_match_cnt w + ic * round_hits (objs w) nd0 mp0 nd1 mp1 m hp hl in
  quiet_world [Search hp len ic] v → kept w v → request v = Some v' →
  stage (e0 w) = Ready → stage (e1 w) = Ready → needleLen w = m →
  (∃ n b h, conf (e0 w) = mkConf nd0 mp0 m n b h) → (∃ n b h, conf (e1 w) = mkConf nd1 mp1 m n b h) →
  0 < ic < 2 ^ 32 → 0 ≤ hw_match_cnt w → total < 2 ^ 31 →
  searching (objs w) nd0 mp0 nd1 mp1 m hp hl (Over 0) (Over 0) total v' ∧
  wcost nd0 mp0 nd1 mp1 m hp hl (Over 0) (Over 0) v' = qcost v + 1 + ic * round_cost m hl.
Proof.
  intros hl total [Q0 Q1 Q2 Q3 Q4 Q5] (K1 & K2 & K3 & K4 & K5 & K6 & K7) Er St0 St1 Hnl Hc0 Hc1 Hic Hhw Htot.
  destruct v as [a b nl ic' hp' hl' rf po ss ts hm ob]. simpl in *. subst. injection Er as <-.
  destruct (quiet_phase (objs w) (c0 nd0 mp0 (needleLen w) hp hl) a Q0 ltac:(congruence) ltac:(by rewrite K2))
    as (G0 & C0 & L0).
  destruct (quiet_phase (objs w) (c1 nd1 mp1 (needleLen w) hp hl) b Q1 ltac:(congruence) ltac:(by rewrite K4))
    as (G1 & C1 & L1).
  rewrite u32_small by lia. split.
  - split; simpl; try done; try lia; [right; left; split_and!; done || lia|]. rewrite L0, L1. simpl. lia.
  - unfold wcost, qcost. simpl. rewrite C0, C1. fold hl. lia.
Qed.
Lemma search_over mem nd0 mp0 nd1 mp1 m hp hl p0 p1 total w :
  searching mem nd0 mp0 nd1 mp1 m hp hl p0 p1 total w → 0 < test_sem w →
  quiet_world [] (take_test w) ∧ hw_match_cnt (take_test w) = total ∧ objs (take_test w) = mem ∧
  qcost (take_test w) = wcost nd0 mp0 nd1 mp1 m hp hl p0 p1 w.
Proof.
  intros [G0 G1 G2 G3 G4 G5 G6 G7 G8 G9 G10 G11] Hs.
  destruct G9 as [(_ & _ & _ & ?)|[(_ & _ & _ & _ & ?)|(-> & -> & Hr & Hi & Ht & L0 & L1)]]; [lia|lia|].
  destruct (phase_quiet _ _ _ G0 L0) as [Q0 C0']. destruct (phase_quiet _ _ _ G1 L1) as [Q1 C1'].
  unfold wcost, qcost. rewrite C0', C1', Hi, Hr. rewrite L0, L1, Hi in G10. simpl in G10.
  destruct w as [a b nl ic' hp' hl' rf po ss ts hm ob]. simpl in *. subst.
  split_and!; done || lia.
Qed.
Lemma search_spec nd0 mp0 nd1 mp1 m hp len ic fuel w :
  let hl := u32 len in
  let total := hw_match_cnt w + ic * round_hits (objs w) nd0 mp0 nd1 mp1 m hp hl in
  searchable (c0 nd0 mp0 m hp hl) → searchable (c1 nd1 mp1 m hp hl) →
  quiet_world [] w → stage (e0 w) = Ready → stage (e1 w) = Ready → needleLen w = m →
  (∃ n b h, conf (e0 w) = mkConf nd0 mp0 m n b h) → (∃ n b h, conf (e1 w) = mkConf nd1 mp1 m n b h) →
  0 < ic < 2 ^ 32 → 0 ≤ hw_match_cnt w → total < 2 ^ 31 →
  qcost w + 2 + ic * round_cost m hl ≤ Z.of_nat fuel →
  ∃ w', (send (Search hp len ic);; await tfire choose test_sem take_test fuel) w = (Done tt, w') ∧
    quiet_world [] w' ∧ hw_match_cnt w' = total ∧ objs w' = objs w ∧
    qcost w' ≤ qcost w + 2 + ic * round_cost m hl.
Proof.
  intros hl total S0 S1 Hq St0 St1 Hnl Hc0 Hc1 Hic Hhw Htot Hf.
  destruct (send_quiet (Search hp len ic) w Hq) as (wq & E1 & Hq1 & Hk1 & Hqc).
  set (B := 2 + ic * round_cost m hl).
  destruct (await_spec tfire choose (λ v c, waiting (Search hp len ic) w B v c ∨
      ∃ p0 p1, searching (objs w) nd0 mp0 nd1 mp1 m hp hl p0 p1 total v ∧
        c = wcost nd0 mp0 nd1 mp1 m hp hl p0 p1 v)
    test_sem take_test fuel wq (qcost wq + B) Hch) as (w2 & c2 & HI & Hc & Hs & E2).
  - pose proof (round_cost_nonneg _ _ _ _ _ _ _ S0 S1).
    assert (0 ≤ ic * round_cost m hl) by (apply Z.mul_nonneg_nonneg; lia).
    intros v c H'. pose proof (qcost_nonneg v). destruct H' as [(_ & _ & ->)|(p0 & p1 & Hv & ->)]; [lia|].
    by eapply wcost_nonneg.
  - intros v c r v' H' Hs E. destruct H' as [(Hv & Hk & ->)|(p0 & p1 & Hv & ->)].
    2: { destruct (search_step _ _ _ _ _ _ _ _ S0 S1 _ _ _ _ _ _ Hv E) as (p0' & p1' & Hv' & Hc'). eauto 8. }
    destruct (quiet_world_step _ _ _ _ Hv E) as [Er|(Hv' & Hk' & Hc')].
    2: { exists (qcost v' + B). split; [left; split_and!; try done; by eapply kept_trans|lia]. }
    destruct (search_accepted nd0 mp0 nd1 mp1 m hp len ic w v v' Hv Hk) as [Hv' Hc']; try done.
    exists (wcost nd0 mp0 nd1 mp1 m hp hl (Over 0) (Over 0) v'). split; [eauto 6|]. unfold B. fold hl in Hc'. lia.
  - intros v c H' Hs. destruct H' as [(Hv & _ & _)|(p0 & p1 & Hv & _)].
    + exists TReq. destruct Hv as [_ _ R P _ _]. destruct v; simpl in *. subst. by eexists.
    + eapply (search_progress _ _ _ _ _ _ _ _ S0 S1 _ _ _ _ Hv). destruct Hv as [_ _ _ _ _ _ _ _ _ G9 _ _].
      destruct G9 as [(_ & _ & _ & ->)|[(_ & _ & _ & _ & ->)|(_ & _ & _ & _ & Ht & _)]]; lia.
  - left. by split_and!.
  - lia.
  - destruct HI as [(Hv & _ & _)|(p0 & p1 & Hv & ->)]; [destruct Hv; lia|].
    destruct (search_over _ _ _ _ _ _ _ _ _ _ _ _ Hv Hs) as (Hq' & Hh & Ho & Hc').
    exists (take_test w2). rewrite (bind_Done _ _ _ _ _ E1). split_and!; try done. unfold B in Hc. lia.
Qed.
End Waiting.

(** ** The device against the matcher in software *)

(** A shift table in memory. *)
Definition table_ok (m : Z) (a : gmap Z Z) (N : Z → Z) : Prop :=
  ∀ i, 1 ≤ i ≤ m → a !! i = Some (N i) ∧ 0 ≤ N i < i.
Lemma word_of_bytes v : 0 ≤ v < 2 ^ 32 →
  v / 2 ^ 0 mod 256 + 2 ^ 8 * (v / 2 ^ 8 mod 256) + 2 ^ 16 * (v / 2 ^ 16 mod 256) +
    2 ^ 24 * (v / 2 ^ 24 mod 256) = v.
Proof.
  intros Hv. rewrite Z.div_1_r.
  replace (v / 2 ^ 24) with (v / 2 ^ 8 / 2 ^ 8 / 2 ^ 8) by (rewrite !Z.div_div by lia; done).
  replace (v / 2 ^ 16) with (v / 2 ^ 8 / 2 ^ 8) by (rewrite Z.div_div by lia; done).
  div_lia.
Qed.
Lemma table_word mem p m a N i : mem p = table_bytes a → table_ok m a N → 1 ≤ i ≤ m → m ≤ 1022 →
  word_at mem p (4 * i) = N i.
Proof.
  intros Hp Ha Hi Hm. destruct (Ha i Hi) as [Ei Hn]. unfold word_at. rewrite Hp. unfold table_bytes.
  assert (∀ k, 0 ≤ k < 4 → (4 * i + k) / 4 = i ∧ (4 * i + k) mod 4 = k) as Hk.
  { intros k Hk. replace (4 * i + k) with (k + i * 4) by lia.
    rewrite Z.div_add, Z.div_small, Z.mod_add, Z.mod_small by lia. lia. }
  destruct (Hk 0) as [D0 M0]; [lia|]. rewrite Z.add_0_r in D0, M0.
  destruct (Hk 1) as [D1 M1]; [lia|]. destruct (Hk 2) as [D2 M2]; [lia|]. destruct (Hk 3) as [D3 M3]; [lia|].
  rewrite D0, M0, D1, M1, D2, M2, D3, M3, Ei. change (default 0 (Some (N i))) with (N i). rewrite u32_small by lia.
  apply word_of_bytes. lia.
Qed.

Lemma aligned_0 : aligned 0 = 0.
Proof. by destruct path. Qed.
Lemma aligned_le a : 0 ≤ a → 0 ≤ aligned a ≤ a.
Proof. intros Ha. unfold aligned. destruct path; simpl; [rewrite Z.div_1_r; lia|]. div_lia. Qed.

(** One engine finds what the software finds in all but its last character. *)
Lemma finds_software mem c x t a N : let m := needleLenReg c in let n := haystackLenReg c in
  1 ≤ m ≤ length x → 1 ≤ n → n - 1 ≤ length t → table_ok m a N →
  (∀ k, 0 ≤ k < m → needle c k = ch x k) → (∀ i, 1 ≤ i ≤ m → mpNext c i = N i) →
  (∀ j, 0 ≤ j < n - 1 → mem (haystackPointer c) (aligned (haystackBase c) + j) = ch t j) →
  mp_pass (Z.to_nat (n - 1)) x t m (n - 1) 1 1 a = (Done (finds mem c 1 1), a).
Proof.
  intros m n Hm Hn Ht Ha Hx HN Hy. apply mp_pass_hits; try lia.
  - intros i Hi. rewrite HN by done. by apply Ha.
  - intros i Hi. apply Hx. lia.
  - intros j Hj. rewrite <-Hy by lia. f_equal. lia.
  - intros i Hi. rewrite HN by done. by apply Ha.
Qed.

(** What the engines hold once they are set up. *)
Lemma loaded_conf mem np mpp x a N m c : 1 ≤ m ≤ 1022 → mem np = ch x → mem mpp = table_bytes a →
  table_ok m a N → ∃ nd mp n b h, loaded mem np mpp m (set_len m c) = mkConf nd mp m n b h ∧
    (∀ k, 0 ≤ k < m → nd k = ch x k) ∧ (∀ i, 1 ≤ i ≤ m → mp i = N i).
Proof.
  intros Hm Hx Ht Ha. destruct c as [nd mp m' n b h]. simpl. rewrite u32_small by lia.
  eexists _, _, n, b, h. split; [done|]. unfold load_bram, idx10. rewrite Z.mod_small by lia. split.
  - intros k Hk. rewrite bool_decide_true by lia. by rewrite Hx.
  - intros i Hi. rewrite bool_decide_true by lia. eapply table_word; eauto; lia.
Qed.
Lemma ch_drop (t : list Z) k j : 0 ≤ k → 0 ≤ j → ch t (k + j) = ch (drop (Z.to_nat k) t) j.
Proof. intros Hk Hj. unfold ch. rewrite !nth_lookup, lookup_drop. do 2 f_equal. lia. Qed.
Lemma finds_length mem c : 0 ≤ haystackLenReg c →
  Z.of_nat (length (finds mem c 1 1)) ≤ 2 * haystackLenReg c + 1.
Proof. intros Hn. unfold finds. etransitivity; [apply hits_length|]. unfold pot. lia. Qed.
Lemma round_hits_le mem nd0 mp0 nd1 mp1 m hp hl : 0 ≤ m → 0 ≤ hl →
  round_hits mem nd0 mp0 nd1 mp1 m hp hl ≤ 2 * hl + 2 * m + 4.
Proof.
  intros Hm Hl. unfold round_hits. pose proof (finds_length mem (c0 nd0 mp0 m hp hl)) as H0.
  pose proof (finds_length mem (c1 nd1 mp1 m hp hl)) as H1. simpl in H0, H1.
  assert (2 * half hl ≤ hl) by (unfold half; rewrite shiftr_div by lia; apply Z.mul_div_le; lia).
  assert (0 ≤ half hl) by (unfold half; rewrite shiftr_div by lia; apply Z.div_pos; lia). lia.
Qed.
Lemma round_cost_pos m n : 1 ≤ m → m ≤ n / 2 → 0 ≤ round_cost m n.
Proof.
  intros Hm Hn. unfold round_cost, search_cost, half. rewrite shiftr_div by lia. change (2 ^ 1) with 2.
  assert (0 ≤ (n / 2 + m + 7) / 8) by (apply Z.div_pos; lia).
  assert (0 ≤ (n / 2 + 7) / 8) by (apply Z.div_pos; lia). lia.
Qed.
Definition search_budget (m n ic : Z) : Z := 9 + ic * round_cost m n.

Lemma hw_search_seq choose fuel nref mref href m n ic w w1 w2 :
  (send (Setup nref mref m);; await tfire choose setup_sem take_setup fuel) w = (Done tt, w1) →
  (send (Search href n ic);; await tfire choose test_sem take_test fuel) w1 = (Done tt, w2) →
  hw_search choose fuel nref mref href m n ic w = (Done tt, w2).
Proof.
  intros ([] & s1 & H1 & H2)%bind_inv E2. unfold hw_search.
  by rewrite (bind_Done _ _ _ _ _ H1), (bind_Done _ _ _ _ _ H2).
Qed.
Lemma hw_search_spec choose fuel nref mref href m n ic x t a N w :
  work_conserving tfire choose → quiet_world [] w →
  objs w nref = ch x → objs w mref = table_bytes a → objs w href = ch t →
  1 ≤ m ≤ 1022 → m ≤ length x → table_ok m a N → m ≤ n / 2 → n ≤ length t → n < 2 ^ 29 → 0 < ic < 2 ^ 32 →
  0 ≤ hw_match_cnt w → hw_match_cnt w + ic * (2 * n + 2 * m + 4) < 2 ^ 31 →
  qcost w + search_budget m n ic ≤ Z.of_nat fuel →
  ∃ l0 l1 w', hw_search choose fuel nref mref href m n ic w = (Done tt, w') ∧
    mp_pass (Z.to_nat (n / 2 + m - 1)) x t m (n / 2 + m - 1) 1 1 a = (Done l0, a) ∧
    mp_pass (Z.to_nat (n / 2 - 1)) x (drop (Z.to_nat (aligned (n / 2))) t) m (n / 2 - 1) 1 1 a = (Done l1, a) ∧
    hw_match_cnt w' = hw_match_cnt w + ic * (length l0 + length l1) ∧
    quiet_world [] w' ∧ objs w' = objs w ∧ qcost w' ≤ qcost w + search_budget m n ic.
Proof.
  intros Hch Hq Ox Oa Ot Hm Hx Ha Hmn Hn Hn2 Hic Hhw Htot Hf.
  assert (2 * (n / 2) ≤ n) by (apply Z.mul_div_le; lia).
  assert (Hrc : 0 ≤ ic * round_cost m n) by (apply Z.mul_nonneg_nonneg; [lia|apply round_cost_pos; lia]).
  destruct (device_setup_spec choose Hch nref mref m fuel w Hq) as (w1 & E1 & U & Hc1); [unfold search_budget in Hf; lia|].
  destruct U as (Hq1 & St0 & St1 & C0 & C1 & Nl & Hw1 & Ob1).
  destruct (loaded_conf (objs w) nref mref x a N m (conf (e0 w)) Hm Ox Oa Ha) as (nd0 & mp0 & n0 & b0 & h0 & L0 & X0 & N0).
  destruct (loaded_conf (objs w) nref mref x a N m (conf (e1 w)) Hm Ox Oa Ha) as (nd1 & mp1 & n1 & b1 & h1 & L1 & X1 & N1).
  assert (Eh : half (u32 n) = n / 2) by (unfold half; rewrite u32_small, shiftr_div by lia; done).
  assert (T0 : searchable (c0 nd0 mp0 m href (u32 n))).
  { split; simpl; rewrite ?Eh; try lia. intros i Hi. rewrite N0 by done. by apply Ha. }
  assert (T1 : searchable (c1 nd1 mp1 m href (u32 n))).
  { split; simpl; rewrite ?Eh; try lia. intros i Hi. rewrite N1 by done. by apply Ha. }
  pose proof (finds_software (objs w) (c0 nd0 mp0 m href (u32 n)) x t a N) as F0.
  pose proof (finds_software (objs w) (c1 nd1 mp1 m href (u32 n)) x (drop (Z.to_nat (aligned (n / 2))) t) a N) as F1.
  pose proof (aligned_le (n / 2) ltac:(lia)) as Hal.
  simpl in F0, F1. rewrite Eh in F0, F1. rewrite length_drop in F1.
  specialize (F0 ltac:(lia) ltac:(lia) ltac:(lia) Ha X0 N0 ltac:(intros j Hj; rewrite Ot, aligned_0; f_equal; lia)).
  specialize (F1 ltac:(lia) ltac:(lia) ltac:(lia) Ha X1 N1 ltac:(intros j Hj; rewrite Ot; apply ch_drop; lia)).
  eexists _, _. rewrite F0, F1.
  assert (Hrh : round_hits (objs w) nd0 mp0 nd1 mp1 m href (u32 n) ≤ 2 * n + 2 * m + 4)
    by (rewrite <-(u32_small n) at 2 by lia; apply round_hits_le; [lia|apply u32_range]).
  destruct (search_spec choose Hch nd0 mp0 nd1 mp1 m href n ic fuel w1 T0 T1 Hq1 St0 St1)
    as (w2 & E2 & Hq2 & Hw2 & Ob2 & Hc2); try done; rewrite ?Hw1, ?Ob1, ?C0, ?C1, ?L0, ?L1; eauto; try lia.
  - by rewrite Nl, u32_small by lia.
  - assert (ic * round_hits (objs w) nd0 mp0 nd1 mp1 m href (u32 n) ≤ ic * (2 * n + 2 * m + 4))
      by (apply Z.mul_le_mono_nonneg_l; lia). lia.
  - unfold search_budget in Hf. rewrite u32_small by lia. lia.
  - exists w2. rewrite (hw_search_seq _ _ _ _ _ _ _ _ _ _ _ E1 E2), Hw2, Hw1, Ob1. unfold round_hits.
    rewrite u32_small in Hc2 by lia. unfold search_budget. split_and!; try done; [congruence|lia].
Qed.
End Device.
