(* ===== verification/TestStrstr.v ===== *)
(** * The string-search program (src/examples/strstr/teststrstr.cpp)

    The program builds the shift table, counts the occurrences of a needle with the
    matcher of lib/cpp/mp.h and with the accelerator, on a fixed text and on random
    bytes, and returns whether the counts differ.  The handles of shared buffers are
    those of the DMA manager, whose references are distinct.  Buffers have the size of
    a page, to which allocations are rounded up, and start out as zeros.  Timers,
    statistics and printing are left out. *)
From stdpp Require Import base gmap numbers list strings.
From S2P Require Import Prelude Rules MorrisPratt MPEngine Strstr.
Local Open Scope Z_scope.

(** The path to memory is that of the simulator or of a PCIe board. *)
Section Test.
Context {path : MemPath}.

(** ** The program *)
Section Main.
(** The schedule, and the handles of the buffers in the order of their references. *)
Context (choose : nat → World → TRule) (ref : nat → Z) (fuel : nat).

(** A function on an int array. *)
Definition on_array {A} (a : gmap Z Z) (f : M (gmap Z Z) A) : M World (A * gmap Z Z) := λ w,
  match f a with
  | (Done x, a') => (Done (x, a'), w)
  | (Exited c, _) => (Exited c, w)
  | (Aborted, _) => (Aborted, w)
  | (Undefined, _) => (Undefined, w)
  | (OutOfFuel, _) => (OutOfFuel, w)
  end.
Definition at_index (a : gmap Z Z) (i : Z) : M World Z :=
  match a !! i with Some v => mret v | None => undefined end.

Definition bytes (s : string) : list Z := (λ c, Z.of_N (Ascii.N_of_ascii c)) <$> String.list_ascii_of_string s.
(** strncpy into a fresh page; strlen *)
Definition page (text : list Z) : list Z := text ++ replicate (4096 - length text) 0.
Fixpoint strlen (l : list Z) : Z :=
  match l with [] => 0 | c :: l => if bool_decide (c = 0) then 0 else 1 + strlen l end.

(** [examples/strstr/teststrstr.cpp:119-127] main: the tables, and what they must satisfy
    (the same in lines 193 to 201) *)
Definition tables (needle : list Z) (needle_len : Z) : M World (gmap Z Z) :=
  '(_, border) ← on_array ∅ (compute_borders (needle_len + 1) needle needle_len);
  '(_, mpNext) ← on_array ∅ (compute_MP_next 1024 needle needle_len);
  v ← at_index mpNext 1; assert (bool_decide (v = 0));;
  v ← at_index border 1; assert (bool_decide (v = 0));;
  for_each (seqZ 2 (needle_len - 1)) (λ i,
    v ← at_index mpNext i; w ← at_index border (i - 1); assert (bool_decide (v = w + 1)));;
  mret mpNext.
(** [examples/strstr/teststrstr.cpp:93-157] main: the simple test; the new sw_match_cnt *)
Definition needle_text : list Z := bytes "ababab".
Definition haystack_text : list Z := bytes "acabcabacababacababababababcacabcabacababacabababc".
Definition simple_test (sw_match_cnt : Z) : M World Z :=
  let alloc_len := 64 in
  assert (bool_decide (strlen haystack_text < alloc_len));;
  assert (bool_decide (strlen needle_text * 4 < alloc_len));;
  let needle := page needle_text in
  let haystack := page haystack_text in
  let needle_len := strlen needle in
  let haystack_len := strlen haystack in
  mpNext ← tables needle needle_len;
  '(_, sw_match_cnt, mpNext) ← on_array mpNext (MP needle haystack needle_len haystack_len 2 sw_match_cnt);
  store (ref 0) (ch needle);; store (ref 1) (table_bytes mpNext);; store (ref 2) (ch haystack);;
  hw_search choose fuel (ref 0) (ref 1) (ref 2) needle_len haystack_len 2;;
  mret sw_match_cnt.

(** [examples/strstr/teststrstr.cpp:160-238] main: the benchmark on random bytes; for the
    simulator it is smaller *)
Definition benchmark_text : list Z := bytes "I have control" ++ [10].
Definition benchmark_size (bsim : bool) : Z := if bsim then 16 * 2 ^ 4 else 16 * 2 ^ 18.
Definition benchmark_iters (bsim : bool) : nat := if bsim then 2 else 8.
Definition benchmark (bsim : bool) (random : list Z) (sw_match_cnt : Z) : M World Z :=
  let needle := page benchmark_text in
  let needle_len := strlen needle in
  let haystack_len := benchmark_size bsim in
  mpNext ← tables needle needle_len;
  '(_, sw_match_cnt, mpNext) ← on_array mpNext
    (MP needle random needle_len haystack_len (benchmark_iters bsim) sw_match_cnt);
  store (ref 3) (ch needle);; store (ref 4) (ch random);; store (ref 5) (table_bytes mpNext);;
  hw_search choose fuel (ref 3) (ref 5) (ref 4) needle_len haystack_len (benchmark_iters bsim);;
  mret sw_match_cnt.
(** [examples/strstr/teststrstr.cpp:240-242] main *)
Definition teststrstr_main (bsim : bool) (random : list Z) : M World Z :=
  sw ← simple_test 0;
  sw ← benchmark bsim random sw;
  hw ← gets hw_match_cnt;
  mret (if bool_decide (sw ≠ hw) then 1 else 0).
End Main.

(** ** Counting occurrences

    A needle whose first character is nowhere else in it cannot overlap itself. *)
Section Unique.
Context (x : list Z) (c : Z) (Hx : head x = Some c) (Hu : ∀ k, (1 ≤ k < length x)%nat → x !! k ≠ Some c).

Lemma occurs_lookup t s : occurs x t s = true ↔ ∀ k, (k < length x)%nat → t !! (s + k)%nat = x !! k.
Proof.
  unfold occurs. rewrite bool_decide_eq_true. split.
  - intros E k Hk. transitivity (take (length x) (drop s t) !! k); [|by rewrite E].
    by rewrite lookup_take_lt, lookup_drop by done.
  - intros H. apply list_eq. intros k. destruct (decide (k < length x)%nat).
    + by rewrite lookup_take_lt, lookup_drop, H by done.
    + rewrite lookup_take_ge, lookup_ge_None_2 by lia. done.
Qed.
Lemma occurs_apart t s k : occurs x t s = true → (0 < k < length x)%nat → occurs x t (s + k) = false.
Proof.
  intros H Hk. apply not_true_is_false. intros H'. rewrite occurs_lookup in H, H'.
  apply (Hu k); [lia|]. rewrite <-(H k) by lia. specialize (H' 0%nat ltac:(lia)). rewrite Nat.add_0_r in H'.
  by rewrite H', <-head_lookup.
Qed.
(** All positions where the needle stands. *)
Definition places (t : list Z) (s n : nat) : list nat := filter (λ k, occurs x t k = true) (seq s n).
Lemma places_app t s n k : places t s (n + k) = places t s n ++ places t (s + n) k.
Proof. unfold places. by rewrite seq_app, filter_app. Qed.
Lemma places_none t s n : (∀ k, (s ≤ k < s + n)%nat → occurs x t k = false) → places t s n = [].
Proof.
  intros H. unfold places.
  revert s H; induction n as [|n IH]; intros s H; [done|]. simpl.
  rewrite filter_cons_False by (rewrite H by lia; done). apply IH. intros. apply H. lia.
Qed.
Lemma naive_places t s fuel : (length t < s + fuel)%nat →
  naive x t s fuel = Z.of_nat <$> places t s (length t + 1 - length x - s).
Proof.
  revert s. induction fuel as [|fuel IH]; intros s Hf; simpl.
  { by replace (length t + 1 - length x - s)%nat with 0%nat by lia. }
  assert (Hx0 : (0 < length x)%nat) by (destruct x; simpl; [done|lia]).
  case_bool_decide as Hs; [|by replace (length t + 1 - length x - s)%nat with 0%nat by lia].
  destruct (occurs x t s) eqn:Eo.
  - rewrite IH by lia. destruct (decide (length t + 1 - length x - s ≤ length x)%nat) as [Hle|Hgt].
    + replace (length t + 1 - length x - (s + length x))%nat with 0%nat by lia.
      replace (length t + 1 - length x - s)%nat with (1 + (length t - length x - s))%nat by lia.
      rewrite places_app. unfold places at 2. simpl seq. rewrite filter_cons_True by done. simpl.
      rewrite places_none; [done|]. intros k Hk. replace k with (s + (k - s))%nat by lia. apply occurs_apart; [done|lia].
    + replace (length t + 1 - length x - s)%nat
        with (1 + (length x - 1) + (length t + 1 - length x - (s + length x)))%nat by lia.
      rewrite !places_app. unfold places at 2. simpl seq. rewrite filter_cons_True by done.
      rewrite (places_none t (s + 1)).
      * simpl. do 2 f_equal. f_equal. lia.
      * intros k Hk. replace k with (s + (k - s))%nat by lia. apply occurs_apart; [done|lia].
  - rewrite IH by lia. replace (length t + 1 - length x - s)%nat with (1 + (length t + 1 - length x - (s + 1)))%nat by lia.
    rewrite places_app. unfold places at 2. simpl seq. rewrite filter_cons_False by (by rewrite Eo). done.
Qed.
Lemma places_ext t t' s s' n : (∀ k, (k < n)%nat → occurs x t (s + k) = occurs x t' (s' + k)) →
  length (places t s n) = length (places t' s' n).
Proof.
  revert s s'; induction n as [|n IH]; intros s s' H; [done|]. unfold places in *. simpl.
  pose proof (H 0%nat ltac:(lia)) as H0. rewrite !Nat.add_0_r in H0.
  rewrite !filter_cons, <-H0.
  assert (E : length (filter (λ k, occurs x t k = true) (seq (S s) n)) =
    length (filter (λ k, occurs x t' k = true) (seq (S s') n))).
  { apply IH. intros k Hk. specialize (H (S k) ltac:(lia)). by rewrite <-!plus_n_Sm in H. }
  case_decide; simpl; congruence.
Qed.

(** A haystack cut in two halves, of which the first is continued by the length of the
    needle and both are searched but for their last character. *)
Lemma halves t h : length t = (2 * h)%nat → (length x ≤ h)%nat →
  (length (occurrences x t) = length (occurrences x (take (h + length x - 1) t)) +
    length (occurrences x (take (h - 1) (drop h t))) +
    (if occurs x t (2 * h - length x) then 1 else 0))%nat.
Proof.
  intros Hl Hh. assert (Hx0 : (0 < length x)%nat) by (destruct x; simpl; [done|lia]).
  unfold occurrences. rewrite !naive_places by lia. rewrite !length_fmap, !Nat.sub_0_r, Hl.
  rewrite !length_take, length_drop, Hl.
  replace (2 * h + 1 - length x)%nat with (h + (h - length x) + 1)%nat by lia. rewrite !places_app, !length_app.
  replace ((h + length x - 1) `min` (2 * h) + 1 - length x)%nat with h by lia.
  replace ((h - 1) `min` (2 * h - h) + 1 - length x)%nat with (h - length x)%nat by lia.
  f_equal; [f_equal|].
  - apply places_ext. intros k Hk. apply eq_true_iff_eq. rewrite !occurs_lookup.
    split; intros H i Hi; rewrite <-(H i Hi); by rewrite lookup_take_lt by lia.
  - apply places_ext. intros k Hk. apply eq_true_iff_eq. rewrite !occurs_lookup.
    split; intros H i Hi; rewrite <-(H i Hi), lookup_take_lt, lookup_drop by lia; f_equal; lia.
  - unfold places. simpl seq. replace (h + (h - length x))%nat with (2 * h - length x)%nat by lia.
    rewrite filter_cons. destruct (occurs x t (2 * h - length x)); done.
Qed.
Lemma occurs_suffix t : (length x ≤ length t)%nat →
  occurs x t (length t - length x) = true ↔ x `suffix_of` t.
Proof.
  intros Hl. unfold occurs. rewrite bool_decide_eq_true. split.
  - intros E. rewrite firstn_all2 in E by (rewrite length_drop; lia).
    exists (take (length t - length x) t). rewrite <-(take_drop (length t - length x) t) at 1. by rewrite E.
  - intros [k ->]. rewrite length_app. replace (length k + length x - length x)%nat with (length k) by lia.
    by rewrite drop_app_length, firstn_all.
Qed.
End Unique.

(** ** The program's verdict *)
Lemma on_array_Done {A} a (f : M (gmap Z Z) A) v a' w : f a = (Done v, a') → on_array a f w = (Done (v, a'), w).
Proof. unfold on_array. by intros ->. Qed.
Lemma at_index_Some a i v w : a !! i = Some v → at_index a i w = (Done v, w).
Proof. unfold at_index. by intros ->. Qed.
Lemma for_each_pass {A} (l : list A) (f : A → M World ()) w :
  (∀ x, x ∈ l → f x w = (Done tt, w)) → for_each l f w = (Done tt, w).
Proof.
  induction l as [|x l IH]; intros H; [done|]. cbn [for_each].
  rewrite (bind_Done _ _ _ _ _ (H x ltac:(left))). apply IH. intros. apply H. by right.
Qed.

(** The assertions about the tables hold. *)
Lemma tables_run x m w : 1 ≤ m < length x → m + 1 < 1024 →
  ∃ a, compute_MP_next 1024 x m ∅ = (Done tt, a) ∧ tables x m w = (Done a, w) ∧ next_ok (ch x) (m + 1) a.
Proof.
  intros Hm Hm'. pose proof (wp_compute_MP_next 1024 x m ∅ ltac:(lia) ltac:(lia)) as Ha.
  pose proof (wp_compute_borders (m + 1) x m ∅ ltac:(lia) ltac:(lia)) as Hb. unfold wp in Ha, Hb.
  destruct (compute_MP_next 1024 x m ∅) as [[[]| | | |] a] eqn:Ea; try done.
  destruct (compute_borders (m + 1) x m ∅) as [[[]| | | |] b] eqn:Eb; try done.
  exists a. split_and!; try done. unfold tables.
  rewrite (bind_Done _ _ _ _ _ (on_array_Done _ _ _ _ _ Eb)), (bind_Done _ _ _ _ _ (on_array_Done _ _ _ _ _ Ea)).
  rewrite (bind_Done _ _ _ _ _ (at_index_Some _ _ _ _ (proj1 Ha))). rewrite (bind_Done _ _ _ tt w) by done.
  destruct (proj2 Hb 1 ltac:(lia)) as (v & Ev & [[Hv _] _]). assert (v = 0) as -> by lia.
  rewrite (bind_Done _ _ _ _ _ (at_index_Some _ _ _ _ Ev)). rewrite (bind_Done _ _ _ tt w) by done.
  rewrite (bind_Done _ _ _ tt w); [done|]. apply for_each_pass. intros i Hi%elem_of_seqZ.
  pose proof (tables_agree _ _ _ _ i Ha Hb ltac:(lia)) as Et.
  destruct (proj2 Hb (i - 1) ltac:(lia)) as (u & Eu & _). rewrite Eu in Et. simpl in Et.
  rewrite (bind_Done _ _ _ _ _ (at_index_Some _ _ _ _ Et)), (bind_Done _ _ _ _ _ (at_index_Some _ _ _ _ Eu)).
  unfold assert. by rewrite bool_decide_true by lia.
Qed.
Lemma next_table_ok Y m a : next_ok Y (m + 1) a → table_ok m a (λ i, default 0 (a !! i)).
Proof.
  intros [H1 H2] i Hi. destruct (decide (i = 1)) as [->|]; [rewrite H1; simpl; split; [done|lia]|].
  destruct (H2 i ltac:(lia)) as (v & -> & [[Hv _] _]). simpl. split; [done|lia].
Qed.
Lemma mp_pass_length (fuel : nat) x t m n i j a ps a' :
  mp_pass fuel x t m n i j a = (Done ps, a') → (length ps ≤ fuel)%nat.
Proof.
  revert i j ps a a'; induction fuel as [|fuel IH]; intros i j ps a a'; cbn [mp_pass].
  - case_bool_decide; [done|]. intros E. by injection E as <- <-.
  - case_bool_decide; [|intros E; injection E as <- <-; simpl; lia].
    intros (i' & s1 & _ & E)%bind_inv. revert E. case_bool_decide.
    + intros (qs & s2 & E & E')%bind_inv. injection E' as <- <-. apply IH in E. simpl. lia.
    + intros E. apply IH in E. lia.
Qed.
Lemma MP_run x t m n ps (iter : nat) cnt a : mp_pass (Z.to_nat n) x t m n 1 1 a = (Done ps, a) →
  cnt + iter * length ps < 2 ^ 31 →
  MP x t m n iter cnt a = (Done (concat (replicate iter ps), cnt + iter * length ps), a).
Proof.
  intros Hp. revert cnt; induction iter as [|iter IH]; intros cnt Hc; cbn [MP].
  { unfold mret, M_ret. do 3 f_equal. lia. }
  rewrite Nat2Z.inj_succ, Z.mul_succ_l in *. assert (0 ≤ iter * length ps) by (apply Z.mul_nonneg_nonneg; lia).
  rewrite (bind_Done _ _ _ _ _ Hp). rewrite bool_decide_true by lia.
  rewrite (bind_Done _ _ _ _ _ (IH (cnt + length ps) ltac:(lia))).
  unfold mret, M_ret. simpl. do 3 f_equal. lia.
Qed.

(** C12.  The accelerator implements the matcher of lib/cpp/mp.h: for any needle,
    haystack and number of passes, with the shift table the software computes, and
    for every schedule of its rules that does not idle, a set-up and a search by the
    two pipelined engines end, and the hits they report are as many as the software
    finds in the first half continued by the needle's length and in the second half,
    each without its last character.  On a PCIe board the second half starts at the
    word its first byte is in, where the simulator starts at that byte ([aligned]).
    The needle has at most 1022 characters and is not longer than half of the haystack,
    which is shorter than 2^29 bytes; the counts fit an int, and the time allowed for
    waiting is at least [search_budget]. *)
Theorem device_refines_software choose fuel nref mref href m n ic x t a w :
  work_conserving tfire choose → quiet_world [] w → compute_MP_next 1024 x m ∅ = (Done tt, a) →
  objs w nref = ch x → objs w mref = table_bytes a → objs w href = ch t →
  1 ≤ m ≤ 1022 → m < length x → m ≤ n / 2 → n ≤ length t → n < 2 ^ 29 → 0 < ic < 2 ^ 32 →
  0 ≤ hw_match_cnt w → hw_match_cnt w + ic * (2 * n + 2 * m + 4) < 2 ^ 31 →
  qcost w + search_budget m n ic ≤ Z.of_nat fuel →
  ∃ l0 l1 w', hw_search choose fuel nref mref href m n ic w = (Done tt, w') ∧
    MP x t m (n / 2 + m - 1) 1 0 a = (Done (l0, Z.of_nat (length l0)), a) ∧
    MP x (drop (Z.to_nat (aligned (n / 2))) t) m (n / 2 - 1) 1 0 a = (Done (l1, Z.of_nat (length l1)), a) ∧
    hw_match_cnt w' = hw_match_cnt w + ic * (length l0 + length l1) ∧ quiet_world [] w'.
Proof.
  intros Hch Hq Ea Ox Oa Ot Hm Hx Hmn Hn Hn2 Hic Hhw Htot Hf.
  pose proof (wp_compute_MP_next 1024 x m ∅ ltac:(lia)) as Hok. unfold wp in Hok. rewrite Ea in Hok.
  destruct (hw_search_spec choose fuel nref mref href m n ic x t a _ w Hch Hq Ox Oa Ot Hm ltac:(lia)
    (next_table_ok _ _ _ (Hok ltac:(lia)))) as (l0 & l1 & w' & E & P0 & P1 & Hw & Hq' & _); try done.
  pose proof (mp_pass_length _ _ _ _ _ _ _ _ _ _ P0). pose proof (mp_pass_length _ _ _ _ _ _ _ _ _ _ P1).
  assert (2 * (n / 2) ≤ n) by (apply Z.mul_div_le; lia).
  exists l0, l1, w'. rewrite (MP_run _ _ _ _ _ 1 0 a P0), (MP_run _ _ _ _ _ 1 0 a P1) by lia.
  cbn [replicate concat]. rewrite !app_nil_r, !Z.mul_1_l, !Z.add_0_l. by split_and!.
Qed.

Section Verdict.
Context (choose : nat → World → TRule) (Hch : work_conserving tfire choose).
Context (ref : nat → Z) (ref_inj : ∀ i j, ref i = ref j → i = j) (fuel : nat).

Lemma stores3 k1 k2 k3 f1 f2 f3 w : k1 ≠ k2 → k1 ≠ k3 → k2 ≠ k3 → quiet_world [] w →
  ∃ w', (∀ (A : Type) (g : M World A),
      (store (ref k1) f1;; store (ref k2) f2;; store (ref k3) f3;; g) w = g w') ∧
    quiet_world [] w' ∧ hw_match_cnt w' = hw_match_cnt w ∧ qcost w' = qcost w ∧
    objs w' (ref k1) = f1 ∧ objs w' (ref k2) = f2 ∧ objs w' (ref k3) = f3.
Proof.
  intros H12 H13 H23 [Q0 Q1 Q2 Q3 Q4 Q5].
  destruct w as [a b nl ic hp hl rf po ss ts hm ob]. simpl in *. subst.
  eexists. split; [done|]. simpl.
  rewrite (bool_decide_true (ref k1 = ref k1)), (bool_decide_true (ref k2 = ref k2)),
    (bool_decide_true (ref k3 = ref k3)) by done.
  rewrite (bool_decide_false (ref k1 = ref k2)), (bool_decide_false (ref k1 = ref k3)),
    (bool_decide_false (ref k2 = ref k3)) by (intros E%ref_inj; congruence).
  split_and!; try done.
Qed.

Lemma simple_lengths : strlen (page needle_text) = 6 ∧ strlen (page haystack_text) = 50 ∧
  strlen haystack_text = 50 ∧ strlen needle_text = 6 ∧ length (page needle_text) = 4096%nat ∧
  length (page haystack_text) = 4096%nat.
Proof. vm_compute. done. Qed.
(** In the simple test the software finds three occurrences per pass; one of them is
    found by the second engine, unless it starts a byte early and thus ends a byte
    before the occurrence does. *)
Definition second_half : Z := match path with Simulator => 1 | Pcie => 0 end.
Lemma simple_counts a : compute_MP_next 1024 (page needle_text) 6 ∅ = (Done tt, a) →
  ∃ l l0 l1, mp_pass (Z.to_nat 50) (page needle_text) (page haystack_text) 6 50 1 1 a = (Done l, a) ∧
    mp_pass (Z.to_nat (50 / 2 + 6 - 1)) (page needle_text) (page haystack_text) 6 (50 / 2 + 6 - 1) 1 1 a
      = (Done l0, a) ∧
    mp_pass (Z.to_nat (50 / 2 - 1)) (page needle_text) (drop (Z.to_nat (aligned (50 / 2))) (page haystack_text)) 6
      (50 / 2 - 1) 1 1 a = (Done l1, a) ∧
    length l = 3%nat ∧ length l0 = 2%nat ∧ Z.of_nat (length l1) = second_half.
Proof.
  intros E. assert (a = snd (compute_MP_next 1024 (page needle_text) 6 ∅)) as -> by (by rewrite E).
  clear E. unfold second_half. destruct path; vm_compute; eexists _, _, _; split_and!; reflexivity.
Qed.
Lemma simple_test_spec w : quiet_world [] w → hw_match_cnt w = 0 →
  qcost w + search_budget 6 50 2 ≤ Z.of_nat fuel →
  ∃ w', simple_test choose ref fuel 0 w = (Done 6, w') ∧ quiet_world [] w' ∧
    hw_match_cnt w' = 2 * (2 + second_half) ∧ qcost w' ≤ qcost w + search_budget 6 50 2.
Proof.
  intros Hq Hhw Hf. destruct simple_lengths as (L1 & L2 & L3 & L4 & L5 & L6). unfold simple_test.
  rewrite L1, L2, L3, L4. rewrite !(bind_Done _ _ _ tt w) by done.
  destruct (tables_run (page needle_text) 6 w) as (a & Ea & Et & Hn); [rewrite L5; lia|lia|].
  rewrite (bind_Done _ _ _ _ _ Et). destruct (simple_counts a Ea) as (l & l0 & l1 & P & P0 & P1 & N & N0 & N1).
  rewrite (bind_Done _ _ _ _ _ (on_array_Done _ _ _ _ _ (MP_run _ _ _ _ _ 2 0 a P ltac:(rewrite N; lia)))).
  destruct (stores3 0 1 2 (ch (page needle_text)) (table_bytes a) (ch (page haystack_text)) w)
    as (w1 & E1 & Hq1 & Hw1 & Hc1 & O1 & O2 & O3); try done.
  rewrite E1. pose proof (next_table_ok _ _ _ Hn) as Ht.
  destruct (hw_search_spec choose fuel (ref 0) (ref 1) (ref 2) 6 50 2 _ _ _ _ w1 Hch Hq1 O1 O2 O3
    ltac:(lia) ltac:(rewrite L5; lia) Ht)
    as (m0 & m1 & w2 & E2 & P0' & P1' & Hw2 & Hq2 & _ & Hc2); rewrite ?L6, ?Hw1, ?Hhw; try done; try lia.
  rewrite P0 in P0'. rewrite P1 in P1'. injection P0' as <-. injection P1' as <-.
  exists w2. rewrite (bind_Done _ _ _ _ _ E2), Hw2, Hw1, Hhw, N, N0, N1. split_and!; try done; lia.
Qed.

(** *** The benchmark *)
Definition size (bsim : bool) : nat := Z.to_nat (benchmark_size bsim).
Lemma benchmark_needle : strlen (page benchmark_text) = 15 ∧ length benchmark_text = 15%nat ∧
  page benchmark_text = benchmark_text ++ replicate 4081 0 ∧ head benchmark_text = Some 73 ∧
  (∀ k, (1 ≤ k < 15)%nat → benchmark_text !! k ≠ Some 73).
Proof.
  split_and!; try (vm_compute; done). intros k Hk.
  assert (Forall (λ k, benchmark_text !! k ≠ Some 73) (seq 1 14)) as H by (vm_compute; repeat constructor; done).
  rewrite Forall_forall in H. apply H, elem_of_seq. lia.
Qed.
(** The matcher in software on a prefix of the bytes. *)
Lemma benchmark_pass a t k : next_ok (ch (page benchmark_text)) (15 + 1) a → 0 ≤ k ≤ length t →
  mp_pass (Z.to_nat k) (page benchmark_text) t 15 k 1 1 a =
    (Done (occurrences benchmark_text (take (Z.to_nat k) t)), a).
Proof.
  intros Ha Hk. destruct benchmark_needle as (_ & Hl & Hp & Hh & Hu). rewrite Hp in *.
  assert (Hlt : length (take (Z.to_nat k) t) = Z.to_nat k) by (rewrite length_take; lia).
  pose proof (wp_mp_pass_unique benchmark_text (take (Z.to_nat k) t) (replicate 4081 0) (drop (Z.to_nat k) t)
    ltac:(lia) (Z.to_nat k) 1 1 a) as W. rewrite Hl, Hlt, take_drop, Z2Nat.id in W by lia.
  assert (Hne : ∀ p, 2 ≤ p ≤ 15%nat → ch (benchmark_text ++ replicate 4081 0) (p - 1) ≠
    ch (benchmark_text ++ replicate 4081 0) (1 - 1)).
  { intros p Hp' E. apply (Hu (Z.to_nat (p - 1))); [lia|]. unfold ch in E. rewrite !app_nth1 in E by lia.
    destruct (lookup_lt_is_Some_2 benchmark_text (Z.to_nat (p - 1))) as [v Hv]; [lia|].
    rewrite (nth_lookup_Some _ _ 0 v Hv) in E. by rewrite Hv, E. }
  specialize (W Hne ltac:(lia) ltac:(lia) ltac:(lia) ltac:(lia)).
  specialize (W ltac:(eapply next_ok_ext; [|..|exact Ha]; [done|lia]) ltac:(intros p Hp'; lia)).
  unfold wp in W. change (Z.of_nat 15) with 15 in W.
  destruct (mp_pass _ _ _ _ _ _ _ _) as [[ps| | | |] a']; try done. by destruct W as [-> ->].
Qed.
Lemma benchmark_sizes bsim : let B := benchmark_size bsim in
  B = 2 * (B / 2) ∧ 30 ≤ B < 2 ^ 23 ∧ 0 < Z.of_nat (benchmark_iters bsim) ≤ 8.
Proof. destruct bsim; vm_compute; repeat split; done. Qed.
Lemma benchmark_aligned bsim : aligned (benchmark_size bsim / 2) = benchmark_size bsim / 2.
Proof. destruct path, bsim; vm_compute; done. Qed.
Lemma benchmark_spec bsim random w : quiet_world [] w → length random = size bsim → 0 ≤ hw_match_cnt w ≤ 6 →
  qcost w + search_budget 15 (benchmark_size bsim) (benchmark_iters bsim) ≤ Z.of_nat fuel →
  ∃ w', benchmark choose ref fuel bsim random 6 w =
      (Done (6 + benchmark_iters bsim * length (occurrences benchmark_text random)), w') ∧
    hw_match_cnt w' = hw_match_cnt w + benchmark_iters bsim * (length (occurrences benchmark_text random) -
      if bool_decide (benchmark_text `suffix_of` random) then 1 else 0).
Proof.
  intros Hq Hl Hhw Hf. destruct benchmark_needle as (L1 & L2 & L3 & Hh & Hu). unfold benchmark. rewrite L1.
  destruct (benchmark_sizes bsim) as (B1 & B2 & B3). unfold size in Hl.
  set (B := benchmark_size bsim) in *. set (k := benchmark_iters bsim) in *.
  destruct (tables_run (page benchmark_text) 15 w) as (a & Ea & Et & Hn);
    [rewrite L3, length_app, length_replicate; lia|lia|].
  rewrite (bind_Done _ _ _ _ _ Et).
  pose proof (benchmark_pass a random B Hn ltac:(lia)) as P.
  pose proof (mp_pass_length _ _ _ _ _ _ _ _ _ _ P) as Hpl.
  assert (k * length (occurrences benchmark_text (take (Z.to_nat B) random)) ≤ 8 * B)
    by (apply Z.mul_le_mono_nonneg; lia).
  rewrite (bind_Done _ _ _ _ _ (on_array_Done _ _ _ _ _ (MP_run _ _ _ _ _ k 6 a P ltac:(lia)))).
  rewrite firstn_all2 by lia.
  destruct (stores3 3 4 5 (ch (page benchmark_text)) (ch random) (table_bytes a) w)
    as (w1 & E1 & Hq1 & Hw1 & Hc1 & O1 & O2 & O3); try done.
  rewrite E1. pose proof (next_table_ok _ _ _ Hn) as Ht.
  assert (k * (2 * B + 2 * 15 + 4) ≤ 8 * (2 * B + 2 * 15 + 4)) by (apply Z.mul_le_mono_nonneg_r; lia).
  assert (Hlp : 15 ≤ length (page benchmark_text)) by (rewrite L3, length_app, length_replicate; lia).
  destruct (hw_search_spec choose fuel (ref 3) (ref 5) (ref 4) 15 B k _ _ _ _ w1 Hch Hq1 O1 O3 O2
    ltac:(lia) Hlp Ht) as (m0 & m1 & w2 & E2 & P0 & P1 & Hw2 & _); rewrite ?Hw1; try lia.
  rewrite benchmark_pass in P0 by (done || lia). injection P0 as <-.
  unfold B in P1. rewrite benchmark_aligned in P1. fold B in P1.
  rewrite benchmark_pass in P1 by (done || (rewrite length_drop; lia)). injection P1 as <-.
  exists w2. rewrite (bind_Done _ _ _ _ _ E2), Hw2, Hw1. split; [done|].
  pose proof (halves benchmark_text 73 Hh ltac:(by rewrite L2) random (Z.to_nat (B / 2)) ltac:(lia) ltac:(lia)) as Hv.
  rewrite L2 in Hv. replace (Z.to_nat (B / 2 + 15 - 1)) with (Z.to_nat (B / 2) + 15 - 1)%nat by lia.
  replace (Z.to_nat (B / 2 - 1)) with (Z.to_nat (B / 2) - 1)%nat by lia. rewrite Hv.
  pose proof (occurs_suffix benchmark_text random ltac:(lia)) as Hs. rewrite L2, Hl in Hs.
  replace (Z.to_nat B - 15)%nat with (2 * Z.to_nat (B / 2) - 15)%nat in Hs by lia.
  f_equal. f_equal. destruct (occurs benchmark_text random _) eqn:Eo.
  - rewrite bool_decide_true by (by apply Hs). lia.
  - rewrite bool_decide_false by (intros Hf'%Hs; congruence). lia.
Qed.

(** C11.  The string-search test's verdict.  For every schedule of the device that
    fires a rule whenever one can fire, and enough time, the program ends.  In the
    simulator, which reads memory at any byte, it returns 0 exactly if the random bytes
    do not end with the needle: the engines find everything the software finds but an
    occurrence at the very end.  On a PCIe board, whose reads start at whole words, the
    simple test already loses an occurrence in the second half, which starts at byte
    25, and the program always returns 1. *)
Theorem strstr_verdict bsim random w : quiet_world [] w → hw_match_cnt w = 0 →
  length random = Z.to_nat (benchmark_size bsim) →
  qcost w + search_budget 6 50 2 + search_budget 15 (benchmark_size bsim) (benchmark_iters bsim) ≤ Z.of_nat fuel →
  ∃ w', teststrstr_main choose ref fuel bsim random w =
    (Done (match path with
           | Simulator => if bool_decide (benchmark_text `suffix_of` random) then 1 else 0
           | Pcie => 1 end), w').
Proof.
  intros Hq Hw Hl Hf. unfold teststrstr_main. destruct (benchmark_sizes bsim) as (B1 & B2 & B3).
  assert (0 ≤ search_budget 15 (benchmark_size bsim) (benchmark_iters bsim)).
  { unfold search_budget. assert (0 ≤ benchmark_iters bsim * round_cost 15 (benchmark_size bsim)); [|lia].
    apply Z.mul_nonneg_nonneg; [lia|]. apply round_cost_pos; lia. }
  assert (0 ≤ second_half ≤ 1) by (unfold second_half; destruct path; lia).
  destruct (simple_test_spec w Hq Hw ltac:(lia)) as (w1 & E1 & Hq1 & Hw1 & Hc1).
  rewrite (bind_Done _ _ _ _ _ E1).
  destruct (benchmark_spec bsim random w1 Hq1 Hl ltac:(lia) ltac:(lia)) as (w2 & E2 & Hw2).
  rewrite (bind_Done _ _ _ _ _ E2). exists w2. unfold gets, mbind, M_bind, mret, M_ret. rewrite Hw2, Hw1.
  do 2 f_equal. set (k := benchmark_iters bsim) in *. set (L := length _).
  unfold second_half. destruct path; case_bool_decide as Hs;
    [rewrite bool_decide_true|rewrite bool_decide_false|rewrite bool_decide_true..]; try done; try lia.
  all: rewrite Z.mul_sub_distr_l; lia.
Qed.
End Verdict.
End Test.

(** *** An instance: the first rule that can fire *)
Definition all_rules : list TRule := [TReq; TConf; TRes false; TRes true; TRestart; TComp] ++
  (TEng false <$> [FinishSetup; HaystackReq; HaystackResp; HaystackDrain; BramDrain; NeedleReq; NeedleResp]) ++
  (TEng true <$> [FinishSetup; HaystackReq; HaystackResp; HaystackDrain; BramDrain; NeedleReq; NeedleResp]).
Definition first_rule {path : MemPath} : nat → World → TRule := first_of tfire all_rules TReq.
Lemma all_rules_all r : r ∈ all_rules.
Proof. destruct r as [| |[]| | |[] []]; vm_compute; repeat constructor. Qed.
Lemma first_rule_conserving {path : MemPath} : work_conserving tfire first_rule.
Proof. apply first_of_conserving, all_rules_all. Qed.
Definition demo_eng : Eng := mkEng Idle (mkConf (λ _, 0) (λ _, 0) 0 0 0 0) None 0 0 0 0 0 [] [] [] [] 0 0.
Definition demo_world : World := mkWorld demo_eng demo_eng 0 0 0 0 false [] 0 0 0 (λ _ _, 0).
Lemma demo_quiet_world : quiet_world [] demo_world.
Proof. by repeat split. Qed.
Definition demo_table : gmap Z Z := (compute_MP_next 1024 [97; 98; 0] 2 ∅).2.
Definition demo_search : World := mkWorld demo_eng demo_eng 0 0 0 0 false [] 0 0 0
  (λ p, if bool_decide (p = 0) then ch [97; 98; 0] else if bool_decide (p = 1) then table_bytes demo_table
        else ch [97; 98; 97; 98; 97; 97; 98; 98; 97; 98; 97]).
(** "ab" in "ababaabbaba": in the simulator the second half is "abbab", on a board the
    word "aabba". *)
Lemma device_refines_software_witness :
  (∃ w', hw_search (path := Simulator) (first_rule (path := Simulator)) 1000 0 1 2 2 11 3 demo_search = (Done tt, w') ∧
     hw_match_cnt w' = 3 * (2 + 1)) ∧
  (∃ w', hw_search (path := Pcie) (first_rule (path := Pcie)) 1000 0 1 2 2 11 3 demo_search = (Done tt, w') ∧
     hw_match_cnt w' = 3 * (2 + 1)).
Proof.
  pose proof (λ path : MemPath, device_refines_software first_rule 1000 0 1 2 2 11 3 [97; 98; 0]
    [97; 98; 97; 98; 97; 97; 98; 98; 97; 98; 97]
    demo_table demo_search first_rule_conserving ltac:(by repeat split) ltac:(vm_compute; reflexivity) eq_refl
    eq_refl eq_refl ltac:(lia) ltac:(simpl; lia) ltac:(vm_compute; done) ltac:(simpl; lia) ltac:(lia) ltac:(lia)
    ltac:(simpl; lia) ltac:(simpl; lia) ltac:(apply Z.leb_le; vm_compute; done)) as H.
  split; [destruct (H Simulator) as (l0 & l1 & w' & E & P0 & P1 & Hw & _)
         |destruct (H Pcie) as (l0 & l1 & w' & E & P0 & P1 & Hw & _)];
  exists w'; (split; [exact E|]); rewrite Hw; vm_compute in P0, P1;
  injection P0 as <-; injection P1 as <-; vm_compute; done.
Defined.
Lemma strstr_verdict_witness :
  (@teststrstr_main Simulator (first_rule (path := Simulator)) Z.of_nat (Z.to_nat 100000) true (replicate 256 0) demo_world).1 = Done 0 ∧
  (@teststrstr_main Pcie (first_rule (path := Pcie)) Z.of_nat (Z.to_nat 100000) true (replicate 256 0) demo_world).1 = Done 1.
Proof.
  split.
  - destruct (strstr_verdict (path := Simulator) _ first_rule_conserving Z.of_nat ltac:(lia) (Z.to_nat 100000)
      true (replicate 256 0) demo_world
      demo_quiet_world eq_refl eq_refl ltac:(apply Z.leb_le; vm_compute; done)) as [w' ->].
    vm_compute. done.
  - destruct (strstr_verdict (path := Pcie) _ first_rule_conserving Z.of_nat ltac:(lia) (Z.to_nat 100000)
      true (replicate 256 0) demo_world
      demo_quiet_world eq_refl eq_refl ltac:(apply Z.leb_le; vm_compute; done)) as [w' ->].
    vm_compute. done.
Defined.
