(* ===== verification/MemEngines.v ===== *)
(** * The memory engines (src/lib/bsv/MemreadEngine.bsv, MemwriteEngine.bsv)

    Engines that stream ranges of a shared buffer to or from the logic that uses them,
    with one server and a 64-bit bus.  Both have the same front: commands wait in a
    queue, are cut into bursts while there is room (or data) for a burst, and the
    bursts are requested from memory, which serves them beat by beat.  The three
    rules that load a command (load_ctxt_a, b and c) are one step, a command goes into
    the queue at once (store_cmd), and the buffer of a pipe is one queue with the stages
    it feeds.  The result is that the engines are stream servers: [addrs] is the sequence
    of addresses still to be served, which every internal step leaves as it is.
    Lengths are multiples of the burst length: the engines reserve a whole burst
    also for a shorter one. *)
From stdpp Require Import base numbers list.
From S2P Require Import Prelude.
Local Open Scope Z_scope.

(** A beat: two words, the lower first; memory is objects of words. *)
Abbreviation Beat := (Z * Z)%type.
Definition beat_at (mem : Z → Z → Z) (p off : Z) : Beat := (mem p (off / 4), mem p (off / 4 + 1)).
Definition store_beat (mem : Z → Z → Z) (p off : Z) (v : Beat) : Z → Z → Z :=
  λ q i, if bool_decide (q = p ∧ i = off / 4) then v.1
         else if bool_decide (q = p ∧ i = off / 4 + 1) then v.2 else mem q i.

Lemma store_beat_at mem p i v q j :
  beat_at (store_beat mem p (8 * i) v) q (8 * j) = if bool_decide (q = p ∧ j = i) then v else beat_at mem q (8 * j).
Proof.
  unfold beat_at, store_beat. replace (8 * j / 4) with (2 * j) by div_lia. replace (8 * i / 4) with (2 * i) by div_lia.
  destruct v as [x y]. simpl. destruct (decide (q = p)) as [->|]; [destruct (decide (j = i)) as [->|]|].
  - rewrite bool_decide_true, bool_decide_false, bool_decide_true, bool_decide_true by lia. done.
  - by rewrite !bool_decide_false by lia.
  - by rewrite !bool_decide_false by tauto.
Qed.
Lemma store_beat_other mem p o v q o' : q ≠ p → beat_at (store_beat mem p o v) q o' = beat_at mem q o'.
Proof. intros H. unfold beat_at, store_beat. by rewrite !bool_decide_false by tauto. Qed.

(** [bsv/MemTypes.bsv:64-68] MemengineCmd *)
Record Cmd := mkCmd { c_pointer : Z; c_base : Z; c_burst : Z; c_len : Z }.
(** A request to memory under way: beats, and whether it ends its command *)
Record Burst := mkBurst { b_pointer : Z; b_base : Z; b_beats : Z; b_last : bool }.

(** ** The front *)

(** [lib/bsv/MemreadEngine.bsv:67-80] the queues outs0, cmdBuf, loadf_c, workf with the
    requests, respCnt, buffCap and outfs *)
Record Front := mkFront { f_outs : nat; f_cmds : list Cmd; f_load : list Cmd; f_work : list Burst;
  f_resp : Z; f_cap : Z; f_outf : nat }.

(** [lib/bsv/MemreadEngine.bsv:157-163] request.put, with a queue of [depth] commands *)
Definition f_put (depth : nat) (c : Cmd) (f : Front) : option Front :=
  let '(mkFront o cs ld wk rc cap out) := f in
  if bool_decide (o < depth)%nat then Some (mkFront (S o) (cs ++ [c]) ld wk rc cap out) else None.
(** [lib/bsv/MemreadEngine.bsv:117-151] load_ctxt *)
Definition f_load_ctxt (f : Front) : option Front :=
  let '(mkFront o cs ld wk rc cap out) := f in
  match cs, ld with
  | mkCmd p b bl len :: cs', [] =>
    if bool_decide (bl / 8 ≤ cap) then
      let cs := if bool_decide (len ≤ bl) then cs' else mkCmd p (b + bl) bl (len - bl) :: cs' in
      Some (mkFront o cs [mkCmd p b bl len] wk rc (cap - bl / 8) out)
    else None
  | _, _ => None
  end.
(** [lib/bsv/MemreadEngine.bsv:176-187] readReq.get *)
Definition first_burst (c : Cmd) : Burst :=
  let '(mkCmd p b bl len) := c in
  if bool_decide (len ≤ bl) then mkBurst p b (len / 8) true else mkBurst p b (bl / 8) false.
Definition f_req (f : Front) : option Front :=
  let '(mkFront o cs ld wk rc cap out) := f in
  match ld with
  | c :: ld =>
    if bool_decide (length wk < 32)%nat then Some (mkFront o cs ld (wk ++ [first_burst c]) rc cap out) else None
  | [] => None
  end.
(** [lib/bsv/MemreadEngine.bsv:190-205] readData.put: the next beat, its address and whether
    it ends its command *)
Definition f_next (f : Front) : option (Z * Z * bool * bool * Front) :=
  let '(mkFront o cs ld wk rc cap out) := f in
  match wk with
  | mkBurst p b n last :: wk' =>
    if bool_decide (rc + 1 = n) then Some (p, b + 8 * rc, last, true, mkFront o cs ld wk' 0 cap out)
    else Some (p, b + 8 * rc, false, false, mkFront o cs ld wk (rc + 1) cap out)
  | [] => None
  end.
(** [lib/bsv/MemreadEngine.bsv:166-170] response.get *)
Definition f_get (f : Front) : option Front :=
  let '(mkFront o cs ld wk rc cap out) := f in
  match out with S out => Some (mkFront (pred o) cs ld wk rc cap out) | O => None end.

(** *** The addresses still to be served *)
Definition burst_addrs (from : Z) (b : Burst) : list (Z * Z * bool) :=
  (λ k, (b_pointer b, b_base b + 8 * k, b_last b && bool_decide (k + 1 = b_beats b))) <$>
    seqZ from (b_beats b - from).
Definition cmd_addrs (c : Cmd) : list (Z * Z * bool) :=
  (λ k, (c_pointer c, c_base c + 8 * k, bool_decide (k + 1 = c_len c / 8))) <$> seqZ 0 (c_len c / 8).
Definition work_addrs (resp : Z) (wk : list Burst) : list (Z * Z * bool) :=
  match wk with [] => [] | b :: wk => burst_addrs resp b ++ (wk ≫= burst_addrs 0) end.
Definition addrs (f : Front) : list (Z * Z * bool) :=
  work_addrs (f_resp f) (f_work f) ++ (f_load f ≫= (λ c, burst_addrs 0 (first_burst c))) ++
  (f_cmds f ≫= cmd_addrs).

Section Front.
Context (bl : Z) (Hbl : 0 < bl) (Hbl8 : (8 | bl)).

Definition cmd_ok (c : Cmd) : Prop := c_burst c = bl ∧ 0 < c_len c ∧ (bl | c_len c).
Record front_ok (f : Front) : Prop := {
  fo_cmds : Forall cmd_ok (f_cmds f); fo_load : Forall cmd_ok (f_load f);
  fo_work : Forall (λ b, 0 < b_beats b) (f_work f);
  fo_resp : match f_work f with [] => f_resp f = 0 | b :: _ => 0 ≤ f_resp f < b_beats b end;
  fo_cap : 0 ≤ f_cap f }.

Lemma bl_beats : 1 ≤ bl / 8.
Proof. destruct Hbl8 as [k ->]. rewrite Z.div_mul by lia. lia. Qed.
Lemma cmd_short c : cmd_ok c → c_len c ≤ bl → c_len c = bl.
Proof. intros (_ & Hl & [k Hk]) Hle. assert (0 < k) by (destruct (decide (0 < k)); [done|nia]). nia. Qed.
Lemma burst_beats c : cmd_ok c → b_beats (first_burst c) = bl / 8.
Proof.
  intros Hc. pose proof (cmd_short c Hc) as Hs. destruct Hc as (E & Hl & Hd). destruct c as [p b bl' len].
  simpl in *. subst. case_bool_decide; simpl; [by rewrite Hs|done].
Qed.
(** A command that is longer than a burst is its first burst and the rest. *)
Lemma cmd_addrs_split c : cmd_ok c → cmd_addrs c = burst_addrs 0 (first_burst c) ++
  (if bool_decide (c_len c ≤ bl) then []
   else cmd_addrs (mkCmd (c_pointer c) (c_base c + bl) bl (c_len c - bl))).
Proof.
  intros Hc. pose proof (cmd_short c Hc) as Hs. destruct Hc as (E & Hl & Hd). destruct c as [p b bl' len].
  simpl in *. subst. destruct Hbl8 as [k ->]. unfold cmd_addrs, burst_addrs. simpl.
  case_bool_decide as Hle; simpl.
  - by rewrite app_nil_r, Z.sub_0_r.
  - destruct Hd as [j ->]. replace (j * (k * 8)) with (j * k * 8) by lia.
    replace (j * k * 8 - k * 8) with ((j * k - k) * 8) by lia. rewrite !Z.div_mul, Z.sub_0_r by lia.
    assert (0 ≤ k) by lia. assert (k < j * k) by lia.
    replace (seqZ 0 (j * k)) with (seqZ 0 (k + (j * k - k))) by (f_equal; lia).
    rewrite seqZ_app, fmap_app by lia. f_equal.
    + apply list_fmap_ext. intros n x [-> Hx]%lookup_seqZ. by rewrite bool_decide_false by lia.
    + replace (0 + k) with (k + 0) by lia. rewrite <-fmap_add_seqZ, <-list_fmap_compose.
      apply list_fmap_ext. intros n x _. simpl. f_equal; [f_equal; lia|]. apply bool_decide_ext. lia.
Qed.

Lemma put_addrs depth c f f' : front_ok f → cmd_ok c → f_put depth c f = Some f' →
  addrs f' = addrs f ++ cmd_addrs c ∧ front_ok f' ∧ f_cap f' = f_cap f ∧ f_outf f' = f_outf f ∧
  f_outs f' = S (f_outs f) ∧ (f_outs f < depth)%nat.
Proof.
  intros [F1 F2 F3 F4 F5] Hc E. destruct f as [o cs ld wk rc cap out]. simpl in *.
  case_bool_decide; [|done]. injection E as <-. unfold addrs. simpl.
  rewrite bind_app. simpl. rewrite app_nil_r, !app_assoc. split_and!; try done.
  split; simpl; try done. apply Forall_app. split; [done|]. by constructor.
Qed.
Lemma load_addrs f f' : front_ok f → f_load_ctxt f = Some f' →
  addrs f' = addrs f ∧ front_ok f' ∧ f_cap f' = f_cap f - bl / 8 ∧ f_outf f' = f_outf f ∧ f_outs f' = f_outs f ∧
  f_work f' = f_work f ∧ f_resp f' = f_resp f.
Proof.
  intros [F1 F2 F3 F4 F5] E. destruct f as [o cs ld wk rc cap out]. simpl in *.
  destruct cs as [|c cs]; [done|]. apply Forall_cons in F1 as [Hc F1].
  pose proof (cmd_addrs_split c Hc) as Hsp. pose proof Hc as (Eb & Hl & Hd).
  destruct c as [p b bl' len]. simpl in *. subst. destruct ld; [|done].
  case_bool_decide; [|done]. injection E as <-. unfold addrs. cbn [f_work f_resp f_load f_cmds].
  rewrite !bind_cons, Hsp. cbn [mbind list_bind app].
  split_and!; try done.
  - unfold first_burst. case_bool_decide; [done|]. by rewrite bind_cons, app_nil_r, !app_assoc.
  - split; simpl; try done; [|by constructor|lia]. case_bool_decide; [done|]. constructor; [|done].
    split_and!; simpl; try done; [lia|]. by apply Z.divide_sub_r; [|apply Z.divide_refl].
Qed.
Lemma req_addrs f f' : front_ok f → f_req f = Some f' →
  addrs f' = addrs f ∧ front_ok f' ∧ f_cap f' = f_cap f ∧ f_outf f' = f_outf f ∧ f_outs f' = f_outs f.
Proof.
  intros [F1 F2 F3 F4 F5] E. destruct f as [o cs ld wk rc cap out]. simpl in *.
  destruct ld as [|c ld]; [done|]. case_bool_decide; [|done]. injection E as <-. apply Forall_cons in F2 as [Hc F2].
  pose proof (burst_beats c Hc) as Hb. pose proof bl_beats. unfold addrs. simpl. split_and!; try done.
  - destruct wk as [|b wk]; simpl; [by subst; rewrite app_nil_r, !app_assoc|].
    rewrite bind_app. simpl. by rewrite app_nil_r, !app_assoc.
  - split; simpl; try done.
    + apply Forall_app. split; [done|]. constructor; [lia|done].
    + destruct wk; simpl in *; [lia|done].
Qed.
Lemma next_addrs f p off l e f' : front_ok f → f_next f = Some (p, off, l, e, f') →
  addrs f = (p, off, l) :: addrs f' ∧ front_ok f' ∧ f_cap f' = f_cap f ∧ f_outf f' = f_outf f ∧
  f_outs f' = f_outs f.
Proof.
  intros [F1 F2 F3 F4 F5] E. destruct f as [o cs ld wk rc cap out]. simpl in *.
  destruct wk as [|[p' b n last] wk]; [done|]. simpl in *. apply Forall_cons in F3 as [Hn F3]. simpl in Hn.
  unfold addrs. simpl. unfold burst_addrs at 1. simpl. rewrite seqZ_cons by lia. simpl.
  case_bool_decide as Hrc; injection E as <- <- <- <- <-.
  - rewrite andb_true_r.
    replace (Z.pred (n - rc)) with 0 by lia. simpl. split_and!; try done.
    + do 2 f_equal. by destruct wk.
    + split; simpl; try done. destruct wk as [|b' wk]; [done|]. apply Forall_cons in F3 as [? _]. lia.
  - rewrite andb_false_r. split_and!; try done.
    + do 3 f_equal. unfold burst_addrs. simpl. replace (Z.pred (n - rc)) with (n - (rc + 1)) by lia. done.
    + split; simpl; try done; [by constructor|lia].
Qed.
Lemma get_addrs f f' : front_ok f → f_get f = Some f' →
  addrs f' = addrs f ∧ front_ok f' ∧ f_cap f' = f_cap f ∧ f_outf f = S (f_outf f') ∧ f_outs f' = pred (f_outs f).
Proof.
  intros [F1 F2 F3 F4 F5] E. destruct f as [o cs ld wk rc cap out]. simpl in *.
  destruct out; [done|]. injection E as <-. by split_and!.
Qed.
End Front.

(** ** The read engine *)
(** [lib/bsv/MemreadEngine.bsv:83-88] the front, and the data read *)
Record Rd := mkRd { rd_f : Front; rd_buff : list (Beat * bool) }.
Definition rd_put (depth : nat) (c : Cmd) (s : Rd) : option Rd :=
  f ← f_put depth c (rd_f s); Some (mkRd f (rd_buff s)).
Definition rd_data (mem : Z → Z → Z) (s : Rd) : option Rd :=
  '(p, off, l, _, f) ← f_next (rd_f s);
  if bool_decide (length (rd_buff s) < 32)%nat then Some (mkRd f (rd_buff s ++ [(beat_at mem p off, l)])) else None.
(** [lib/bsv/MemreadEngine.bsv:89-102] the data pipe: first and deq *)
Definition rd_deq (s : Rd) : option (Beat * Rd) :=
  let '(mkRd (mkFront o cs ld wk rc cap out) bf) := s in
  match bf with
  | (v, l) :: bf =>
    if l then
      if bool_decide (out < 1)%nat then Some (v, mkRd (mkFront o cs ld wk rc (cap + 1) (S out)) bf) else None
    else Some (v, mkRd (mkFront o cs ld wk rc (cap + 1) out) bf)
  | [] => None
  end.
Definition rd_get (s : Rd) : option Rd := f ← f_get (rd_f s); Some (mkRd f (rd_buff s)).
Inductive RdRule := RLoad | RReq | RData.
Definition rd_fire (mem : Z → Z → Z) (r : RdRule) (s : Rd) : option Rd :=
  match r with
  | RLoad => f ← f_load_ctxt (rd_f s); Some (mkRd f (rd_buff s))
  | RReq => f ← f_req (rd_f s); Some (mkRd f (rd_buff s))
  | RData => rd_data mem s
  end.
Definition rd_init : Rd := mkRd (mkFront 0 [] [] [] 0 32 0) [].

(** ** The write engine *)
(** [lib/bsv/MemwriteEngine.bsv:186-202] the front, the data to be written, and the bursts
    whose completion memory has to report *)
Record Wr := mkWr { wr_f : Front; wr_data : list Beat; wr_donef : list bool }.
Definition wr_put (depth : nat) (c : Cmd) (s : Wr) : option Wr :=
  f ← f_put depth c (wr_f s); Some (mkWr f (wr_data s) (wr_donef s)).
(** [lib/bsv/MemwriteEngine.bsv:253-266] the data pipe: enq *)
Definition wr_enq (v : Beat) (s : Wr) : option Wr :=
  let '(mkWr (mkFront o cs ld wk rc cap out) d dn) := s in
  if bool_decide (length d < 32)%nat then Some (mkWr (mkFront o cs ld wk rc (cap + 1) out) (d ++ [v]) dn) else None.
(** [lib/bsv/MemwriteEngine.bsv:308-325] writeData.get; memory has the beat *)
Definition wr_beat (mem : Z → Z → Z) (s : Wr) : option (Wr * (Z → Z → Z)) :=
  '(p, off, l, e, f) ← f_next (wr_f s);
  match wr_data s with
  | v :: d =>
    if bool_decide (length (wr_donef s) < 32)%nat then
      Some (mkWr f d (wr_donef s ++ if e : bool then [l] else []), store_beat mem p off v)
    else None
  | [] => None
  end.
(** [lib/bsv/MemwriteEngine.bsv:328-333] writeDone.put *)
Definition wr_done (s : Wr) : option Wr :=
  let '(mkWr (mkFront o cs ld wk rc cap out) d dn) := s in
  match dn with
  | l :: dn =>
    if l : bool then
      if bool_decide (out < 1)%nat then Some (mkWr (mkFront o cs ld wk rc cap (S out)) d dn) else None
    else Some (mkWr (mkFront o cs ld wk rc cap out) d dn)
  | [] => None
  end.
Definition wr_get (s : Wr) : option Wr := f ← f_get (wr_f s); Some (mkWr f (wr_data s) (wr_donef s)).
Inductive WrRule := WLoad | WReq | WBeat | WDone.
Definition wr_fire (mem : Z → Z → Z) (r : WrRule) (s : Wr) : option (Wr * (Z → Z → Z)) :=
  match r with
  | WLoad => f ← f_load_ctxt (wr_f s); Some (mkWr f (wr_data s) (wr_donef s), mem)
  | WReq => f ← f_req (wr_f s); Some (mkWr f (wr_data s) (wr_donef s), mem)
  | WBeat => wr_beat mem s
  | WDone => s' ← wr_done s; Some (s', mem)
  end.
Definition wr_init : Wr := mkWr (mkFront 0 [] [] [] 0 0 0) [] [].

(** ** The engines as stream servers *)
Section Streams.
Context (bl : Z) (Hbl : 0 < bl ≤ 256) (Hbl8 : (8 | bl)).
Let Hbl0 : 0 < bl := proj1 Hbl.

(** Beats at each stage of the front: not loaded, loaded, requested *)
Definition unloaded (f : Front) : Z := length (f_cmds f ≫= cmd_addrs).
Definition loaded (f : Front) : Z := length (f_load f ≫= (λ c, burst_addrs 0 (first_burst c))).
Definition working (f : Front) : Z := length (work_addrs (f_resp f) (f_work f)).
Definition reserved (f : Front) : Z := loaded f + working f.
Definition fcost (f : Front) : Z := 4 * unloaded f + 3 * loaded f + 2 * working f.
(** Commands that are still to be answered. *)
Definition lasts {A} (l : list (A * bool)) : nat := length (filter (λ x, x.2 = true) l).
Lemma lasts_app {A} (l k : list (A * bool)) : lasts (l ++ k) = (lasts l + lasts k)%nat.
Proof. unfold lasts. by rewrite filter_app, length_app. Qed.
Lemma lasts_cons {A} (x : A) b l : lasts ((x, b) :: l) = ((if b then 1 else 0) + lasts l)%nat.
Proof. unfold lasts. rewrite filter_cons. simpl. by destruct b. Qed.
Lemma lasts_fmap {A B} (g : A → B) (l : list (A * bool)) :
  lasts ((λ x, (g x.1, x.2)) <$> l) = lasts l.
Proof. induction l as [|[x b] l IH]; [done|]. rewrite fmap_cons. simpl. by rewrite !lasts_cons, IH. Qed.
Lemma lasts_none {A} (l : list (A * bool)) : Forall (λ x, x.2 = false) l → lasts l = 0%nat.
Proof. induction 1 as [|[x b] l Hb _ IH]; [done|]. simpl in Hb. subst. by rewrite lasts_cons. Qed.

Lemma addrs_length f : Z.of_nat (length (addrs f)) = reserved f + unloaded f.
Proof. unfold addrs, reserved, loaded, working, unloaded. rewrite !length_app. lia. Qed.
Lemma burst_length c : cmd_ok bl c → Z.of_nat (length (burst_addrs 0 (first_burst c))) = bl / 8.
Proof.
  intros Hc. unfold burst_addrs. rewrite length_fmap, length_seqZ, (burst_beats bl) by done.
  pose proof (bl_beats bl Hbl0 Hbl8). lia.
Qed.
Lemma load_stages f f' : front_ok bl f → f_load_ctxt f = Some f' →
  working f' = working f ∧ loaded f' = loaded f + bl / 8 ∧ unloaded f' = unloaded f - bl / 8.
Proof.
  intros F E. destruct (load_addrs bl Hbl0 Hbl8 f f' F E) as (Ea & _ & _ & _ & _ & Ew & Er).
  pose proof (addrs_length f) as H1. pose proof (addrs_length f') as H2. rewrite Ea in H2. unfold reserved in *.
  assert (working f' = working f) as Hw by (unfold working; by rewrite Ew, Er).
  assert (loaded f' = loaded f + bl / 8); [|lia]. unfold loaded.
  destruct F as [F1 _ _ _ _]. destruct f as [o cs ld wk rc cap out]. simpl in *.
  destruct cs as [|c cs]; [done|]. apply Forall_cons in F1 as [Hc _]. pose proof (burst_length c Hc) as Hl.
  destruct c as [p b bl' len].
  destruct ld; [|done]. case_bool_decide; [|done]. injection E as <-. cbn [f_load mbind list_bind].
  rewrite app_nil_r. cbn [length]. lia.
Qed.
Lemma req_stages f f' : front_ok bl f → f_req f = Some f' →
  working f' = working f + bl / 8 ∧ loaded f' = loaded f - bl / 8 ∧ unloaded f' = unloaded f.
Proof.
  intros F E. destruct (req_addrs bl Hbl0 Hbl8 f f' F E) as (Ea & _).
  pose proof (addrs_length f) as H1. pose proof (addrs_length f') as H2. rewrite Ea in H2. unfold reserved in *.
  assert (unloaded f' = unloaded f ∧ loaded f = bl / 8 + loaded f'); [|lia].
  destruct F as [_ F2 _ _ _]. unfold unloaded, loaded.
  destruct f as [o cs ld wk rc cap out]. simpl in *. destruct ld as [|c ld]; [done|]. case_bool_decide; [|done].
  apply Forall_cons in F2 as [Hc _]. pose proof (burst_length c Hc).
  injection E as <-. cbn [f_load f_cmds]. rewrite bind_cons, length_app. split; [done|]. lia.
Qed.
Lemma next_stages f p off l e f' : front_ok bl f → f_next f = Some (p, off, l, e, f') →
  working f = working f' + 1 ∧ loaded f' = loaded f ∧ unloaded f' = unloaded f.
Proof.
  intros F E. destruct (next_addrs bl f p off l e f' F E) as (Ea & _).
  pose proof (addrs_length f) as H1. pose proof (addrs_length f') as H2. rewrite Ea in H1. simpl in H1.
  unfold reserved in *. assert (loaded f' = loaded f ∧ unloaded f' = unloaded f); [|lia]. unfold loaded, unloaded.
  destruct f as [o cs ld wk rc cap out]. simpl in *. destruct wk as [|[]]; [done|].
  case_bool_decide; by injection E as <- <- <- <- <-.
Qed.
Lemma put_stages depth c f f' : f_put depth c f = Some f' → working f' = working f ∧ loaded f' = loaded f ∧
  unloaded f' = unloaded f + length (cmd_addrs c).
Proof.
  destruct f as [o cs ld wk rc cap out]. unfold working, loaded, unloaded. simpl. case_bool_decide; [|done].
  intros [= <-]. simpl. rewrite bind_app, length_app. simpl. rewrite app_nil_r. split_and!; [done..|lia].
Qed.
Lemma cmd_lasts c : cmd_ok bl c → lasts (cmd_addrs c) = 1%nat.
Proof.
  intros (_ & Hl & Hd). assert (1 ≤ c_len c / 8) as Hn.
  { destruct Hd as [k Hk], Hbl8 as [j Hj]. rewrite Hk, Hj.
    replace (k * (j * 8)) with (k * j * 8) by lia. rewrite Z.div_mul by lia. nia. }
  unfold cmd_addrs. set (n := c_len c / 8) in *. clearbody n.
  assert (seqZ 0 n = seqZ 0 (n - 1) ++ [n - 1]) as ->.
  { replace n with (n - 1 + 1) at 1 by lia. rewrite seqZ_app by lia. by rewrite Z.add_0_l. }
  rewrite fmap_app, lasts_app. simpl. rewrite lasts_cons, bool_decide_true by lia.
  rewrite lasts_none; [done|]. apply Forall_fmap, Forall_forall.
  intros k [Hk ?]%elem_of_seqZ. simpl. rewrite bool_decide_false by lia. done.
Qed.

(** *** Reading *)
Section Reading.
Context (mem : Z → Z → Z).
(** The beats to come, in order *)
Definition fetch (x : Z * Z * bool) : Beat * bool := (beat_at mem x.1.1 x.1.2, x.2).
Definition rd_stream (s : Rd) : list (Beat * bool) := rd_buff s ++ (fetch <$> addrs (rd_f s)).
Record rd_ok (s : Rd) : Prop := {
  ro_front : front_ok bl (rd_f s);
  ro_cap : f_cap (rd_f s) + length (rd_buff s) + reserved (rd_f s) = 32;
  ro_outs : f_outs (rd_f s) = (lasts (rd_stream s) + f_outf (rd_f s))%nat;
  ro_outf : (f_outf (rd_f s) ≤ 1)%nat }.
Definition rd_cost (s : Rd) : Z := fcost (rd_f s) + length (rd_buff s).

Lemma fetch_lasts l : lasts (fetch <$> l) = lasts l.
Proof. apply (lasts_fmap (λ x, beat_at mem x.1 x.2)). Qed.

Lemma rd_put_stream depth c s s' : rd_ok s → cmd_ok bl c → rd_put depth c s = Some s' →
  rd_ok s' ∧ rd_stream s' = rd_stream s ++ (fetch <$> cmd_addrs c) ∧
  rd_cost s' = rd_cost s + 4 * length (cmd_addrs c) ∧
  f_outs (rd_f s') = S (f_outs (rd_f s)) ∧ (f_outs (rd_f s) < depth)%nat ∧
  addrs (rd_f s') = addrs (rd_f s) ++ cmd_addrs c.
Proof.
  intros [F1 F2 F3 F4] Hc E. unfold rd_put in E. destruct (f_put _ _ _) as [f'|] eqn:Ef; [|done]. injection E as <-.
  destruct (put_addrs bl depth c _ f' F1 Hc Ef) as (Ea & Fo & Ec & Eo & Eos & Hd).
  destruct (put_stages depth c _ f' Ef) as (E1 & E2 & E3).
  assert (rd_stream (mkRd f' (rd_buff s)) = rd_stream s ++ (fetch <$> cmd_addrs c)) as Es.
  { unfold rd_stream. simpl. by rewrite Ea, fmap_app, app_assoc. }
  split_and!; try done.
  - split; simpl; try done.
    + unfold reserved in *. lia.
    + rewrite Es, lasts_app, fetch_lasts, cmd_lasts by done. lia.
    + lia.
  - unfold rd_cost, fcost. simpl. lia.
Qed.
Lemma rd_fire_stream r s s' : rd_ok s → rd_fire mem r s = Some s' →
  rd_ok s' ∧ rd_stream s' = rd_stream s ∧ rd_cost s' < rd_cost s ∧
  f_outs (rd_f s') = f_outs (rd_f s) ∧ addrs (rd_f s') `suffix_of` addrs (rd_f s).
Proof.
  intros [F1 F2 F3 F4] E. pose proof (bl_beats bl Hbl0 Hbl8). destruct r; simpl in E.
  - destruct (f_load_ctxt _) as [f'|] eqn:Ef; [|done]. injection E as <-.
    destruct (load_addrs bl Hbl0 Hbl8 _ f' F1 Ef) as (Ea & Fo & Ec & Eo & Eos & _).
    destruct (load_stages _ f' F1 Ef) as (E1 & E2 & E3).
    assert (rd_stream (mkRd f' (rd_buff s)) = rd_stream s) as Es by (unfold rd_stream; simpl; by rewrite Ea).
    split_and!; try done; [|unfold rd_cost, fcost; simpl; lia|by rewrite <-Ea].
    split; simpl; try done; [unfold reserved in *; lia|rewrite Es; lia|lia].
  - destruct (f_req _) as [f'|] eqn:Ef; [|done]. injection E as <-.
    destruct (req_addrs bl Hbl0 Hbl8 _ f' F1 Ef) as (Ea & Fo & Ec & Eo & Eos).
    destruct (req_stages _ f' F1 Ef) as (E1 & E2 & E3).
    assert (rd_stream (mkRd f' (rd_buff s)) = rd_stream s) as Es by (unfold rd_stream; simpl; by rewrite Ea).
    split_and!; try done; [|unfold rd_cost, fcost; simpl; lia|by rewrite <-Ea].
    split; simpl; try done; [unfold reserved in *; lia|rewrite Es; lia|lia].
  - unfold rd_data in E. destruct (f_next _) as [[[[[p off] l] e] f']|] eqn:Ef; [|done]. simpl in E.
    case_bool_decide; [|done]. injection E as <-.
    destruct (next_addrs bl _ p off l e f' F1 Ef) as (Ea & Fo & Ec & Eo & Eos).
    destruct (next_stages _ p off l e f' F1 Ef) as (E1 & E2 & E3).
    assert (rd_stream (mkRd f' (rd_buff s ++ [(beat_at mem p off, l)])) = rd_stream s) as Es.
    { unfold rd_stream. simpl. by rewrite Ea, <-app_assoc. }
    split_and!; try done; [|unfold rd_cost, fcost; simpl; rewrite length_app; simpl; lia|rewrite Ea; by apply suffix_cons_r].
    split; simpl; try done; [rewrite length_app; simpl; unfold reserved in *; lia|rewrite Es; lia|lia].
Qed.
Lemma rd_deq_stream s v s' : rd_ok s → rd_deq s = Some (v, s') → ∃ l,
  rd_ok s' ∧ rd_stream s = (v, l) :: rd_stream s' ∧ rd_cost s' = rd_cost s - 1 ∧
  f_outs (rd_f s') = f_outs (rd_f s) ∧ addrs (rd_f s') = addrs (rd_f s).
Proof.
  intros [F1 F2 F3 F4] E. destruct s as [[o cs ld wk rc cap out] [|[v' l] bf]]; simpl in E; [done|].
  exists l. assert (∃ out', s' = mkRd (mkFront o cs ld wk rc (cap + 1) out') bf ∧ v' = v ∧
    out' = ((if l then 1 else 0) + out)%nat ∧ (out' ≤ 1)%nat) as (out' & -> & -> & Eo & Ho).
  { simpl in F4. destruct l; [case_bool_decide; [|done]|]; injection E as <- <-; eexists; split_and!; try done; simpl; lia. }
  destruct F1 as [G1 G2 G3 G4 G5]. simpl in *. unfold rd_stream, reserved, loaded, working in *. simpl in *.
  rewrite lasts_cons in F3.
  split_and!; try done; [|unfold rd_cost, fcost, loaded, working, unloaded; simpl; lia].
  split; [split; simpl; try done; lia|..]; unfold rd_stream, reserved, loaded, working, addrs in *; simpl in *; lia.
Qed.
Lemma rd_get_stream s s' : rd_ok s → rd_get s = Some s' →
  rd_ok s' ∧ rd_stream s' = rd_stream s ∧ rd_cost s' = rd_cost s ∧ f_outs (rd_f s) = S (f_outs (rd_f s')) ∧
  addrs (rd_f s') = addrs (rd_f s).
Proof.
  intros [F1 F2 F3 F4] E. destruct s as [[o cs ld wk rc cap [|out]] bf]; [done|]. injection E as <-.
  destruct F1 as [G1 G2 G3 G4 G5]. unfold rd_stream, addrs in *. simpl in *.
  split_and!; try done; [split; simpl; try done; unfold rd_stream, addrs; simpl; lia|lia].
Qed.
(** Unless its response has to be taken, an engine with beats to come can step. *)
Lemma rd_progress s : rd_ok s → rd_stream s ≠ [] →
  is_Some (rd_deq s) ∨ (∃ r, is_Some (rd_fire mem r s)) ∨ is_Some (rd_get s).
Proof.
  intros [F1 F2 F3 F4] Hne. destruct s as [[o cs ld wk rc cap out] [|[v l] bf]].
  2: { destruct l; simpl; [|by left]. destruct out; [left; eauto|right; right; by eexists]. }
  right; left. destruct F1 as [G1 G2 G3 G4 G5]. unfold rd_stream, addrs in *. simpl in *.
  destruct wk as [|[p b n last] wk]; [destruct ld as [|c ld]|].
  - unfold reserved, loaded, working in F2. simpl in F2. destruct cs as [|[p b bl' len] cs]; [done|].
    apply Forall_cons in G1 as [(Eb & _) _]. simpl in Eb. subst.
    exists RLoad. simpl. rewrite bool_decide_true; [by eexists|].
    assert (bl / 8 ≤ 256 / 8) by (apply Z.div_le_mono; lia). change (256 / 8) with 32 in *. lia.
  - exists RReq. by eexists.
  - exists RData. unfold rd_fire, rd_data. simpl. case_bool_decide; by eexists.
Qed.
End Reading.

(** What the stream holds follows the memory; the engine's bookkeeping does not. *)
Lemma rd_ok_mem mem mem' s : rd_ok mem s → rd_ok mem' s.
Proof.
  intros [F1 F2 F3 F4]. split; try done. unfold rd_stream in *. by rewrite lasts_app, fetch_lasts in *.
Qed.

(** *** Writing *)
Definition trues (l : list bool) : nat := length (filter (λ b, b = true) l).
Lemma trues_app l k : trues (l ++ k) = (trues l + trues k)%nat.
Proof. unfold trues. by rewrite filter_app, length_app. Qed.
Lemma trues_cons b l : trues (b :: l) = ((if b then 1 else 0) + trues l)%nat.
Proof. unfold trues. rewrite filter_cons. by destruct b. Qed.

Record wr_ok (s : Wr) : Prop := {
  wo_front : front_ok bl (wr_f s);
  wo_cap : f_cap (wr_f s) = length (wr_data s) - reserved (wr_f s);
  wo_outs : f_outs (wr_f s) = (lasts (addrs (wr_f s)) + trues (wr_donef s) + f_outf (wr_f s))%nat;
  wo_outf : (f_outf (wr_f s) ≤ 1)%nat;
  wo_len : (length (wr_data s) ≤ 32)%nat }.
Definition wr_cost (s : Wr) : Z := fcost (wr_f s) + length (wr_donef s).

Lemma wr_put_stream depth c s s' : wr_ok s → cmd_ok bl c → wr_put depth c s = Some s' →
  wr_ok s' ∧ addrs (wr_f s') = addrs (wr_f s) ++ cmd_addrs c ∧ wr_data s' = wr_data s ∧
  wr_cost s' = wr_cost s + 4 * length (cmd_addrs c) ∧ f_outs (wr_f s') = S (f_outs (wr_f s)) ∧
  (f_outs (wr_f s) < depth)%nat.
Proof.
  intros [F1 F2 F3 F4 F5] Hc E. unfold wr_put in E. destruct (f_put _ _ _) as [f'|] eqn:Ef; [|done]. injection E as <-.
  destruct (put_addrs bl depth c _ f' F1 Hc Ef) as (Ea & Fo & Ec & Eo & Eos & Hd).
  destruct (put_stages depth c _ f' Ef) as (E1 & E2 & E3). split_and!; try done.
  - split; simpl; try done; [unfold reserved in *; lia|rewrite Ea, lasts_app, cmd_lasts by done; lia|lia].
  - unfold wr_cost, fcost. simpl. lia.
Qed.
Lemma wr_enq_stream v s s' : wr_ok s → wr_enq v s = Some s' →
  wr_ok s' ∧ addrs (wr_f s') = addrs (wr_f s) ∧ wr_data s' = wr_data s ++ [v] ∧ wr_cost s' = wr_cost s ∧
  f_outs (wr_f s') = f_outs (wr_f s) ∧ f_outf (wr_f s') = f_outf (wr_f s) ∧ wr_donef s' = wr_donef s.
Proof.
  intros [F1 F2 F3 F4 F5] E. destruct s as [[o cs ld wk rc cap out] d dn]. simpl in E. case_bool_decide; [|done].
  injection E as <-. simpl in *. destruct F1 as [G1 G2 G3 G4 G5]. unfold reserved, loaded, working, addrs in *. simpl in *.
  split_and!; try done. split; [split; simpl; try done; lia|..];
    unfold reserved, loaded, working, addrs; simpl; rewrite ?length_app; simpl; lia.
Qed.
Lemma wr_fire_stream mem r s s' mem' : wr_ok s → wr_fire mem r s = Some (s', mem') →
  wr_ok s' ∧ wr_cost s' < wr_cost s ∧ f_outs (wr_f s') = f_outs (wr_f s) ∧
  (addrs (wr_f s') = addrs (wr_f s) ∧ wr_data s' = wr_data s ∧ mem' = mem ∨
   ∃ p off l v, addrs (wr_f s) = (p, off, l) :: addrs (wr_f s') ∧ wr_data s = v :: wr_data s' ∧
     mem' = store_beat mem p off v).
Proof.
  intros [F1 F2 F3 F4 F5] E. pose proof (bl_beats bl Hbl0 Hbl8). destruct r; simpl in E.
  - destruct (f_load_ctxt _) as [f'|] eqn:Ef; [|done]. injection E as <- <-.
    destruct (load_addrs bl Hbl0 Hbl8 _ f' F1 Ef) as (Ea & Fo & Ec & Eo & Eos & _).
    destruct (load_stages _ f' F1 Ef) as (E1 & E2 & E3).
    split_and!; [|unfold wr_cost, fcost; simpl; lia|done|by left].
    split; simpl; try done; [unfold reserved in *; lia|rewrite Ea; lia|lia].
  - destruct (f_req _) as [f'|] eqn:Ef; [|done]. injection E as <- <-.
    destruct (req_addrs bl Hbl0 Hbl8 _ f' F1 Ef) as (Ea & Fo & Ec & Eo & Eos).
    destruct (req_stages _ f' F1 Ef) as (E1 & E2 & E3).
    split_and!; [|unfold wr_cost, fcost; simpl; lia|done|by left].
    split; simpl; try done; [unfold reserved in *; lia|rewrite Ea; lia|lia].
  - unfold wr_beat in E. destruct (f_next _) as [[[[[p off] l] e] f']|] eqn:Ef; [|done]. simpl in E.
    destruct (next_addrs bl _ p off l e f' F1 Ef) as (Ea & Fo & Ec & Eo & Eos).
    destruct (next_stages _ p off l e f' F1 Ef) as (E1 & E2 & E3).
    assert (l = true → e = true) as Hle.
    { intros ->. clear -Ef. destruct (wr_f s) as [o cs ld [|[pp b n last] wk] rc cap out]; simpl in Ef; [done|].
      case_bool_decide; by simplify_eq. }
    destruct (wr_data s) as [|v d] eqn:Ed; [done|]. case_bool_decide; [|done]. injection E as <- <-.
    split_and!; try done; [| |right; by exists p, off, l, v].
    + split; simpl in *; try done; [unfold reserved in *; lia| |lia..].
      rewrite trues_app. rewrite Ea, lasts_cons in F3. unfold trues at 2.
      destruct l, e; simpl; try lia; by discriminate Hle.
    + unfold wr_cost, fcost. simpl. rewrite length_app. destruct e; simpl; lia.
  - destruct (wr_done s) as [s2|] eqn:Ed; [|done]. injection E as <- <-.
    destruct s as [[o cs ld wk rc cap out] d [|l dn]]; simpl in Ed; [done|].
    simpl in F2, F3, F4. rewrite trues_cons in F3. destruct F1 as [G1 G2 G3 G4 G5]. simpl in *.
    assert (∃ out', s2 = mkWr (mkFront o cs ld wk rc cap out') d dn ∧ out' = ((if l then 1 else 0) + out)%nat ∧
      (out' ≤ 1)%nat) as (out' & -> & Eo & Ho).
    { destruct l; [case_bool_decide; [|done]|]; injection Ed as <-; eexists; split_and!; try done; lia. }
    unfold wr_cost, fcost, reserved, loaded, working, unloaded, addrs in *. simpl in *.
    split_and!; try lia; [|by left].
    split; [done|..]; unfold reserved, loaded, working, addrs; simpl; lia.
Qed.
Lemma wr_get_stream s s' : wr_ok s → wr_get s = Some s' →
  wr_ok s' ∧ addrs (wr_f s') = addrs (wr_f s) ∧ wr_data s' = wr_data s ∧ wr_cost s' = wr_cost s ∧
  f_outs (wr_f s) = S (f_outs (wr_f s')) ∧ f_outf (wr_f s) = S (f_outf (wr_f s')).
Proof.
  intros [F1 F2 F3 F4 F5] E. destruct s as [[o cs ld wk rc cap [|out]] d dn]; [done|]. injection E as <-.
  destruct F1 as [G1 G2 G3 G4 G5]. unfold reserved, loaded, working, addrs in *. simpl in *.
  split_and!; try done; [|lia]. split; [done|..]; unfold reserved, loaded, working, addrs; simpl; lia.
Qed.
(** An engine with commands to be answered can step, or waits for the data of a burst. *)
Lemma wr_progress mem s : wr_ok s → f_outs (wr_f s) ≠ 0%nat →
  (∃ r, is_Some (wr_fire mem r s)) ∨ is_Some (wr_get s) ∨
  Z.of_nat (length (wr_data s)) < bl / 8 ≤ Z.of_nat (length (addrs (wr_f s))).
Proof.
  intros [F1 F2 F3 F4 F5] Hne. destruct s as [[o cs ld wk rc cap [|out]] d [|l dn]]; simpl in *; try (right; left; by eexists).
  2: { left. exists WDone. simpl. destruct l; by eexists. }
  destruct F1 as [G1 G2 G3 G4 G5]. simpl in *.
  destruct wk as [|[p b n last] wk]; [destruct ld as [|c ld]|].
  - unfold reserved, loaded, working in F2. simpl in F2.
    destruct cs as [|[p b bl' len] cs]; [unfold addrs in F3; simpl in *; lia|].
    apply Forall_cons in G1 as [(Eb & Hl & Hd) _]. simpl in Eb, Hl, Hd. subst.
    destruct (decide (bl / 8 ≤ length d)).
    + left. exists WLoad. simpl. rewrite bool_decide_true by lia. by eexists.
    + right; right. split; [lia|]. unfold addrs. cbn [f_work f_load f_cmds f_resp work_addrs].
      rewrite bind_cons, !length_app. unfold cmd_addrs at 1. rewrite length_fmap, length_seqZ. simpl.
      apply Z.divide_pos_le in Hd; [|done]. pose proof (Z.div_le_mono bl len 8 ltac:(lia) Hd). lia.
  - left. exists WReq. by eexists.
  - left. exists WBeat. unfold wr_fire, wr_beat. simpl.
    unfold reserved, loaded, working in F2. apply Forall_cons in G3 as [Hn _]. simpl in *.
    unfold burst_addrs in F2. rewrite length_app, length_fmap, length_seqZ in F2. simpl in F2.
    destruct d; simpl in F2; [lia|]. case_bool_decide; by eexists.
Qed.

Lemma front_init_ok c : 0 ≤ c → front_ok bl (mkFront 0 [] [] [] 0 c 0).
Proof. by split; simpl. Qed.
Lemma rd_init_ok mem : rd_ok mem rd_init.
Proof. split; [by apply front_init_ok|done|done|simpl; lia]. Qed.
Lemma wr_init_ok : wr_ok wr_init.
Proof. split; [by apply front_init_ok|done|done|simpl; lia..]. Qed.
Lemma rd_cost_nonneg s : 0 ≤ rd_cost s.
Proof. unfold rd_cost, fcost, loaded, working, unloaded. lia. Qed.
Lemma wr_cost_nonneg s : 0 ≤ wr_cost s.
Proof. unfold wr_cost, fcost, loaded, working, unloaded. lia. Qed.
End Streams.

(** ** Passes over a buffer *)
Section Passes.
(** Passes of [N] beats in commands of [L] beats: the [j]-th beat, and the beats from [a] to [b] *)
Context {N L : Z}.
Definition pass_addr (p j : Z) : Z * Z * bool := (p, 8 * (j mod N), bool_decide ((j + 1) mod L = 0)).
Definition pass (p a b : Z) : list (Z * Z * bool) := pass_addr p <$> seqZ a (b - a).

Lemma pass_app p a b c : a ≤ b → b ≤ c → pass p a b ++ pass p b c = pass p a c.
Proof.
  intros. unfold pass. rewrite <-fmap_app. f_equal. replace b with (a + (b - a)) at 2 by lia.
  rewrite <-seqZ_app by lia. f_equal. lia.
Qed.
Lemma pass_cons p a b x l : pass p a b = x :: l → x = pass_addr p a ∧ l = pass p (a + 1) b ∧ a < b.
Proof.
  unfold pass. destruct (decide (a < b)).
  - rewrite seqZ_cons by lia. intros [= <- <-]. split_and!; try done. do 2 f_equal; lia.
  - rewrite seqZ_nil by lia. done.
Qed.
Lemma pass_nil p a b : pass p a b = [] → a ≤ b → a = b.
Proof. unfold pass. intros E%fmap_nil_inv H. apply (f_equal length) in E. rewrite length_seqZ in E. simpl in E. lia. Qed.
Lemma pass_length p a b : a ≤ b → Z.of_nat (length (pass p a b)) = b - a.
Proof. intros. unfold pass. rewrite length_fmap, length_seqZ. lia. Qed.
Lemma pass_suffix p a b l : a ≤ b → l `suffix_of` pass p a b → l = pass p (b - length l) b.
Proof.
  intros Hab [k E]. pose proof (pass_length p a b Hab) as Hl. rewrite E, length_app in Hl.
  rewrite <-(pass_app p a (b - length l)) in E by lia.
  apply app_inj_2 in E as [_ E]; [by symmetry|]. pose proof (pass_length p (b - length l) b ltac:(lia)). lia.
Qed.
(** Up to the end of a command there is a last beat. *)
Lemma pass_lasts p a k : a < k * L → lasts (pass p a (k * L)) ≠ 0%nat.
Proof.
  intros Ha. rewrite <-(pass_app p a (k * L - 1)), lasts_app by lia.
  unfold pass at 2. replace (k * L - (k * L - 1)) with 1 by lia. simpl. unfold pass_addr.
  rewrite lasts_cons, bool_decide_true; [lia|].
  match goal with |- ?x mod _ = _ => replace x with (k * L) by lia end. by apply Z_mod_mult.
Qed.
End Passes.
Arguments pass_addr : clear implicits.
Arguments pass : clear implicits.

(** A pass of [K] bursts as one command *)
Section Whole.
Context (bb K : Z) (Hbb : 0 < bb) (HK : 0 < K).
Definition whole (p : Z) : Cmd := mkCmd p 0 (8 * bb) (8 * (K * bb)).
Lemma whole_ok p : cmd_ok (8 * bb) (whole p).
Proof. split_and!; simpl; [done|nia|]. exists K. lia. Qed.
Lemma whole_addrs p k : 0 ≤ k → cmd_addrs (whole p) = pass (K * bb) (K * bb) p (k * (K * bb)) ((k + 1) * (K * bb)).
Proof.
  intros Hk. assert (0 < K * bb) by nia. unfold cmd_addrs, pass, whole. simpl. set (nb := K * bb) in *. clearbody nb.
  replace (8 * nb / 8) with nb by div_lia. replace ((k + 1) * nb - k * nb) with nb by lia.
  replace (seqZ (k * nb) nb) with (seqZ (k * nb + 0) nb) by (f_equal; lia).
  rewrite <-fmap_add_seqZ, <-list_fmap_compose. apply list_fmap_ext. intros i t [-> Ht]%lookup_seqZ. simpl.
  unfold pass_addr. replace (k * nb + (0 + i)) with (i + k * nb) by lia. rewrite Z_mod_plus_full, Z.mod_small by lia.
  f_equal. apply bool_decide_ext. replace (i + k * nb + 1) with ((i + 1) + k * nb) by lia. rewrite Z_mod_plus_full.
  destruct (decide (i + 1 = nb)) as [E|]; [rewrite E, Z_mod_same_full; lia|rewrite Z.mod_small by lia; lia].
Qed.
End Whole.
