(* ===== verification/Bench.v ===== *)
(** * Programs that wait for a device (src/lib/cpp/testmem*.h)

    The memory test programs share a frame: the main thread sends a request to a device
    and waits for a semaphore that a callback posts; the callbacks of all portals run
    one after another on the event thread, one statement at a time, while the device
    works on the shared buffers.  [wait_spec] is the rule for a wait, [stats_spec] the
    rule for reading the traffic counters, which also waits until the event
    thread has finished the callback it was in. *)
From stdpp Require Import base numbers list.
From S2P Require Import Prelude Rules.
Local Open Scope Z_scope.

(** Shared buffers, by their references, as words. *)
Abbreviation Mem := (Z → Z → Z).

Section Bench.
(** A device with the requests that wait for it, its rules and the indications they send;
    what the callbacks do, and the variables of the program. *)
Context {D DR Ind Act P : Type} (dfire : DR → D → Mem → option (D * Mem * list Ind))
  (callback : Ind → list Act) (run : Act → Mem → P → P).

(** [None] is the statement of mtResp on the event thread. *)
Record World := mkWorld { dev : D; mem : Mem; inds : list Ind; streq : nat; stind : nat;
  thread : list (option Act); prog : P; mtSem : Z }.
Inductive BRule := BDev (r : DR) | BStat | BCall | BCallStat | BStep.

(** [cpp/poller.cpp:163-173] the event thread takes an indication when it has nothing else to do *)
Definition bcall (w : World) : option World :=
  let '(mkWorld d m l q k th p s) := w in
  match l, th with
  | i :: l, [] => Some (mkWorld d m l q k (Some <$> callback i) p s)
  | _, _ => None
  end.
(** The device, the answers to requests for the traffic counters, and the event thread *)
Definition bfire (r : BRule) (w : World) : option World :=
  let '(mkWorld d m l q k th p s) := w in
  match r with
  | BDev r => '(d', m', l') ← dfire r d m; Some (mkWorld d' m' (l ++ l') q k th p s)
  | BStat => if q is S q then Some (mkWorld d m l q (S k) th p s) else None
  | BCall => bcall w
  | BCallStat =>
    match k, th with S k, [] => Some (mkWorld d m l q k [None] p s) | _, _ => None end
  | BStep =>
    match th with
    | Some a :: th => Some (mkWorld d m l q k th (run a m p) s)
    | None :: th => Some (mkWorld d m l q k th p (s + 1))
    | [] => None
    end
  end.
Context (choose : nat → World → BRule) (Hch : work_conserving bfire choose) (fuel : nat).

Definition upd_prog (f : P → P) (w : World) : World :=
  let '(mkWorld d m l q k th p s) := w in mkWorld d m l q k th (f p) s.
Definition send (f : D → D) : M World () := modify (λ w,
  let '(mkWorld d m l q k th p s) := w in mkWorld (f d) m l q k th p s).
(** A word stored by the program *)
Definition store (b i v : Z) : M World () := modify (λ w,
  let '(mkWorld d m l q k th p s) := w in
  mkWorld d (λ b' j, if bool_decide (b' = b ∧ j = i) then u32 v else m b' j) l q k th p s).
(** sem_wait on a semaphore of the program *)
Definition sem_wait (sem : P → Z) (take : P → P) : M World () :=
  await bfire choose (λ w, sem (prog w)) (upd_prog take) fuel.
(** [cpp/dmaManager.c:77-84] DmaManager_show_mem_stats *)
Definition show_mem_stats : M World () :=
  modify (λ w, let '(mkWorld d m l q k th p s) := w in mkWorld d m l (S q) k th p s);;
  await bfire choose mtSem (λ w, let '(mkWorld d m l q k th p s) := w in mkWorld d m l q k th p (s - 1)) fuel.

(** ** Waiting *)
(** [I e d m c]: the device has sent [e], and has at most [c] steps left; [J e m l th p]: the
    program, when [l] are still to be handled and [th] to be run. *)
Context (I : list Ind → D → Mem → Z → Prop) (J : list Ind → Mem → list Ind → list Act → P → Prop).
Context (weight : Z) (Hweight : ∀ i, Z.of_nat (length (callback i)) < weight).

Record frame_ok : Prop := {
  fr_pos e d m c : I e d m c → 0 ≤ c;
  fr_dev e d m c r d' m' l : I e d m c → dfire r d m = Some (d', m', l) →
    ∃ c', I (e ++ l) d' m' c' ∧ c' + weight * length l < c;
  fr_stable e d m c r d' m' l qs th p : I e d m c → J e m qs th p → dfire r d m = Some (d', m', l) →
    J (e ++ l) m' (qs ++ l) th p;
  fr_call e m i l p : J e m (i :: l) [] p → J e m l (callback i) p;
  fr_step e m l a th p : J e m l (a :: th) p → J e m l th (run a m p) }.

Context (F : frame_ok).
(** What holds of the world, with the steps left and the reports of traffic under way. *)
Definition acts (th : list (option Act)) : list Act := omap id th.
Definition reports (w : World) : Z :=
  streq w + stind w + mtSem w + (if thread w is [None] then 1 else 0).
Definition world_ok (n : Z) (w : World) (c : Z) : Prop :=
  ∃ e cd, I e (dev w) (mem w) cd ∧ J e (mem w) (inds w) (acts (thread w)) (prog w) ∧
  (thread w = [None] ∨ thread w = Some <$> acts (thread w)) ∧ 0 ≤ mtSem w ∧ reports w = n ∧
  c = cd + weight * length (inds w) + length (thread w) + 3 * streq w + 2 * stind w.

Lemma acts_Some l : acts (Some <$> l) = l.
Proof. induction l as [|a l IH]; [done|]. exact (f_equal (cons a) IH). Qed.
Lemma not_report (l : list Act) : (if Some <$> l is [None] then 1 else 0 : Z) = 0.
Proof. by destruct l as [|? []]. Qed.
Lemma weight_pos : 0 ≤ weight ∨ ∀ l : list Ind, l = [].
Proof. destruct (decide (0 ≤ weight)); [by left|]. right. intros [|i l]; [done|]. pose proof (Hweight i). lia. Qed.

(** Every step of the world keeps what holds and uses up a step. *)
Lemma world_step n w c r w' : world_ok n w c → bfire r w = Some w' → ∃ c', world_ok n w' c' ∧ c' < c ∧
  (mtSem w < mtSem w' → thread w' = []).
Proof.
  intros (e & cd & HI & HJ & Hth & Hs & Hr & ->) E. destruct w as [d m l q k th p s]. unfold reports in Hr. simpl in *.
  destruct r as [r| | | |]; simpl in E.
  - destruct (dfire r d m) as [[[d' m'] l']|] eqn:Ed; [|done]. injection E as <-.
    destruct (fr_dev F e d m cd r d' m' l' HI Ed) as (cd' & HI' & Hc). eexists. split; [|split; simpl; [|lia]].
    + exists (e ++ l'), cd'. split_and!; [done|by eapply (fr_stable F)|done..].
    + simpl. rewrite length_app. lia.
  - destruct q as [|q]; [done|]. injection E as <-. eexists. split; [|split; simpl; [|lia]].
    + exists e, cd. unfold reports. simpl. split_and!; try done; lia.
    + simpl. lia.
  - destruct l as [|i l]; [done|]. destruct th; [|done]. injection E as <-. pose proof (Hweight i).
    eexists. split; [|split; simpl; [|lia]].
    + exists e, cd. unfold reports. simpl. rewrite not_report, acts_Some. split_and!; try done; [by apply (fr_call F)|by right].
    + simpl. rewrite length_fmap. lia.
  - destruct k as [|k]; [done|]. destruct th; [|done]. injection E as <-. eexists. split; [|split; simpl; [|lia]].
    + exists e, cd. unfold reports. simpl. split_and!; try done; [by left|lia].
    + simpl. lia.
  - destruct th as [|[a|] th]; [done| |]; injection E as <-.
    + destruct Hth as [?|Hth]; [done|]. injection Hth as Hth.
      eexists. split; [|split; simpl; [|lia]].
      * exists e, cd. unfold reports. simpl. pose proof (not_report (acts th)) as Hn.
        change (list_fmap _ _ _ (acts th)) with (Some <$> acts th) in Hth. rewrite <-Hth in Hn.
        rewrite Hn. split_and!; try done; [by apply (fr_step F)|by right].
      * simpl. lia.
    + destruct Hth as [Hth|Hth]; [|by destruct (acts (None :: th))]. injection Hth as ->.
      eexists. split; [|split; simpl; [|done]].
      * exists e, cd. unfold reports. simpl. split_and!; try done; [by right|lia|lia].
      * simpl. lia.
Qed.
Lemma world_nonneg n w c : world_ok n w c → 0 ≤ c.
Proof.
  intros (e & cd & HI & _ & _ & _ & _ & ->). pose proof (fr_pos F _ _ _ _ HI).
  destruct weight_pos as [?|Hl]; [|rewrite (Hl (inds w)); simpl]; lia.
Qed.
(** The event thread runs while it has something to do. *)
Lemma thread_progress (w : World) : thread w ≠ [] ∨ inds w ≠ [] → ∃ r w', bfire r w = Some w'.
Proof.
  destruct w as [d m [|i l] q k [|a th] p s]; simpl; intros [?|?]; try done.
  1, 3: exists BStep; simpl; destruct a; by eexists.
  - exists BCall. by eexists.
  - exists BStep. simpl. destruct a; by eexists.
Qed.

Lemma wait_spec sem take w c : world_ok 0 w c →
  (∀ e d m cd p, I e d m cd → J e m [] [] p → sem p ≤ 0 → ∃ r, is_Some (dfire r d m)) →
  c ≤ Z.of_nat fuel →
  ∃ w' c', world_ok 0 w' c' ∧ c' ≤ c ∧ 0 < sem (prog w') ∧ sem_wait sem take w = (Done tt, upd_prog take w').
Proof.
  intros Hw Hp Hc. refine (await_spec bfire choose (world_ok 0) _ _ fuel w c Hch (world_nonneg 0) _ _ Hw Hc).
  - intros w1 c1 r w2 H1 _ E. destruct (world_step 0 w1 c1 r w2 H1 E) as (c2 & ? & ? & _). by exists c2.
  - intros w1 c1 (e & cd & HI & HJ & _) Hs.
    destruct w1 as [d m [|] q k [|] p s]; [|apply thread_progress; by (left + right)..].
    destruct (Hp e d m cd p HI HJ Hs) as (r & [[d' m'] l'] & E). exists (BDev r). simpl. rewrite E. by eexists.
Qed.
(** Reading the counters ends when the event thread is between two callbacks. *)
Lemma stats_spec w c : world_ok 0 w c → c + 3 ≤ Z.of_nat fuel →
  ∃ w' c', world_ok 0 w' c' ∧ c' ≤ c + 3 ∧ thread w' = [] ∧ show_mem_stats w = (Done tt, w').
Proof.
  intros (e & cd & HI & HJ & Hth & Hs & Hr & Hc) Hf. unfold show_mem_stats.
  destruct w as [d m l q k th p s]. unfold reports in Hr. simpl in *.
  rewrite (bind_Done _ _ _ tt (mkWorld d m l (S q) k th p s)) by done.
  edestruct (await_spec bfire choose (λ w c, world_ok 1 w c ∧ (0 < mtSem w → thread w = [])) mtSem
    (λ w, let '(mkWorld d m l q k th p s) := w in mkWorld d m l q k th p (s - 1)) fuel
    (mkWorld d m l (S q) k th p s) (c + 3)) as (w' & c' & ((e' & cd' & HI' & HJ' & Hth' & Hs' & Hr' & Hc') & Ht) & Hle & Hpos & E).
  - done.
  - intros w1 c1 [H1 _]. by eapply world_nonneg.
  - intros w1 c1 r w2 [H1 _] Hs1 E. destruct (world_step 1 w1 c1 r w2 H1 E) as (c2 & ? & ? & Ht). exists c2.
    split_and!; try done. intros ?. apply Ht. lia.
  - intros w1 c1 [(e1 & cd1 & HI1 & HJ1 & Hth1 & Hs1 & Hr1 & _) _] Hle1.
    destruct w1 as [d1 m1 [|] q1 k1 [|] p1 s1]; [|apply thread_progress; by (left + right)..]. unfold reports in Hr1. simpl in *.
    destruct q1 as [|q1]; [|exists BStat; by eexists]. destruct k1 as [|k1]; [lia|]. exists BCallStat. by eexists.
  - split; [|simpl; intros; destruct th as [|[] []]; try lia; done].
    exists e, cd. unfold reports. simpl. split_and!; try done; lia.
  - done.
  - specialize (Ht Hpos). destruct w' as [d' m' l' q' k' th' p' s']. simpl in *. subst th'.
    unfold reports in Hr'. simpl in Hr'.
    exists (mkWorld d' m' l' q' k' [] p' (s' - 1)), c'. split_and!; try done.
    exists e', cd'. unfold reports. simpl. split_and!; try done; lia.
Qed.
End Bench.

(** All rules, for a device whose rules are [l]. *)
Definition brules {DR} (l : list DR) : list (@BRule DR) := [BStat; BCall; BCallStat; BStep] ++ (BDev <$> l).
Lemma brules_all {DR} (l : list DR) : (∀ r, r ∈ l) → ∀ r, r ∈ brules l.
Proof.
  intros H [r| | | |]; apply elem_of_app; [right; apply list_elem_of_fmap_2, H|left..];
    repeat first [by left | right].
Qed.
