(* ===== verification/Memcpy.v ===== *)
(** * Copying memory (src/examples/memcpy, src/lib/cpp/testmemcpy.h)

    The copy device: it reads a buffer burst by burst through the read engine, keeps the
    beats in a queue, and writes them through the write engine; rdBuffer and wrBuffer count
    the room and the data the two sides have.  Its rules fire in any order.  The program
    fills the buffers, starts the device, waits and exits with the result of memcmp,
    which a callback computes after it has posted the semaphore. *)
From stdpp Require Import base numbers list.
From S2P Require Import Prelude Rules MemEngines Bench.
Local Open Scope Z_scope.

(** ** The device *)

(** [examples/memcpy/Memcpy.bsv:35-37] MemcpyRequest: a startCopy that waits in the portal *)
Record startCopy := mkStart { s_wrPointer : Z; s_rdPointer : Z; s_numWords : Z; s_burstLen : Z; s_iterCnt : Z }.
(** [examples/memcpy/Memcpy.bsv:39-42] MemcpyIndication *)
Inductive Ind := Started | DoneCopy.
(** [examples/memcpy/Memcpy.bsv:57-71] mkMemcpy: the engines, the registers and the queue *)
Record Dev := mkDev { re : Rd; we : Wr; rdIterCnt : Z; wrIterCnt : Z; rdCnt : Z; wrCnt : Z;
  rdPointer : Z; wrPointer : Z; burstLen : Z; numWords : Z;
  buffer : list Beat; rdBuffer : Z; wrBuffer : Z; portal : list startCopy }.
Definition dev_init : Dev := mkDev rd_init wr_init 0 0 0 0 0 0 0 0 [] 32 0 [].

(** [examples/memcpy/Memcpy.bsv:77-83] the next word and the iterations left
    (the same in lines 90 to 96) *)
Definition advance (cnt iter bl nw : Z) : Z * Z :=
  if bool_decide (nw ≤ u32 (cnt + bl)) then (0, u32 (iter - 1)) else (u32 (cnt + bl), iter).
(** [examples/memcpy/Memcpy.bsv:73-84] start_read *)
Definition start_read (d : Dev) : option Dev :=
  let '(mkDev re we ri wi rc wc rp wp bl nw bf rb wb po) := d in
  if bool_decide (0 < ri ∧ bl ≤ rb) then
    re ← rd_put 1 (mkCmd rp (u32 (rc * 4)) (u8 (u32 (bl * 4))) (u32 (bl * 4))) re;
    let '(rc, ri) := advance rc ri bl nw in
    Some (mkDev re we ri wi rc wc rp wp bl nw bf (u32 (rb - bl)) wb po)
  else None.
(** [examples/memcpy/Memcpy.bsv:86-97] start_write *)
Definition start_write (d : Dev) : option Dev :=
  let '(mkDev re we ri wi rc wc rp wp bl nw bf rb wb po) := d in
  if bool_decide (0 < wi ∧ bl ≤ wb) then
    we ← wr_put 1 (mkCmd wp (u32 (wc * 4)) (u8 (u32 (bl * 4))) (u32 (bl * 4))) we;
    let '(wc, wi) := advance wc wi bl nw in
    Some (mkDev re we ri wi rc wc rp wp bl nw bf rb (u32 (wb - bl)) po)
  else None.
(** [examples/memcpy/Memcpy.bsv:99-102] read_finish *)
Definition read_finish (d : Dev) : option Dev :=
  let '(mkDev re we ri wi rc wc rp wp bl nw bf rb wb po) := d in
  re ← rd_get re; Some (mkDev re we ri wi rc wc rp wp bl nw bf rb wb po).
(** [examples/memcpy/Memcpy.bsv:104-109] write_finish *)
Definition write_finish (d : Dev) : option (Dev * list Ind) :=
  let '(mkDev re we ri wi rc wc rp wp bl nw bf rb wb po) := d in
  we ← wr_get we;
  Some (mkDev re we ri wi rc wc rp wp bl nw bf rb wb po, if bool_decide (wi = 0) then [DoneCopy] else []).
(** [examples/memcpy/Memcpy.bsv:111-116] fill_buffer *)
Definition fill_buffer (d : Dev) : option Dev :=
  let '(mkDev re we ri wi rc wc rp wp bl nw bf rb wb po) := d in
  '(v, re) ← rd_deq re;
  if bool_decide (length bf < 16)%nat then
    Some (mkDev re we ri wi rc wc rp wp bl nw (bf ++ [v]) rb (u32 (wb + 2)) po)
  else None.
(** [examples/memcpy/Memcpy.bsv:118-123] drain_buffer *)
Definition drain_buffer (d : Dev) : option Dev :=
  let '(mkDev re we ri wi rc wc rp wp bl nw bf rb wb po) := d in
  match bf with
  | v :: bf => we ← wr_enq v we; Some (mkDev re we ri wi rc wc rp wp bl nw bf (u32 (rb + 2)) wb po)
  | [] => None
  end.
(** [examples/memcpy/Memcpy.bsv:126-136] startCopy *)
Definition accept (d : Dev) : option (Dev * list Ind) :=
  let '(mkDev re we ri wi rc wc rp wp bl nw bf rb wb po) := d in
  match po with
  | mkStart wp rp nw bl ic :: po =>
    Some (mkDev re we (u32 ic) (u32 ic) rc wc rp wp (u32 bl) (u32 nw) bf rb wb po, [Started])
  | [] => None
  end.

Inductive DRule := DAccept | DStartRead | DStartWrite | DReadFinish | DWriteFinish | DFill | DDrain
  | DRd (r : RdRule) | DWr (r : WrRule).
Definition set_engines (r : Rd) (w : Wr) (d : Dev) : Dev :=
  let '(mkDev _ _ ri wi rc wc rp wp bl nw bf rb wb po) := d in mkDev r w ri wi rc wc rp wp bl nw bf rb wb po.
Definition quietly (m : Mem) (d : option Dev) : option (Dev * Mem * list Ind) := d ← d; Some (d, m, []).
Definition dfire (r : DRule) (d : Dev) (m : Mem) : option (Dev * Mem * list Ind) :=
  match r with
  | DAccept => '(d, l) ← accept d; Some (d, m, l)
  | DStartRead => quietly m (start_read d)
  | DStartWrite => quietly m (start_write d)
  | DReadFinish => quietly m (read_finish d)
  | DWriteFinish => '(d, l) ← write_finish d; Some (d, m, l)
  | DFill => quietly m (fill_buffer d)
  | DDrain => quietly m (drain_buffer d)
  | DRd r => s ← rd_fire m r (re d); Some (set_engines s (we d) d, m, [])
  | DWr r => '(s, m) ← wr_fire m r (we d); Some (set_engines (re d) s d, m, [])
  end.

(** ** The program *)

(** [lib/cpp/testmemcpy.h:10-23] done_sem, finished and memcmp_fail *)
Record Prog := mkProg { done_sem : Z; finished : bool; memcmp_fail : bool }.
(** [lib/cpp/testmemcpy.h:15-19] numWords, without and with the simulator *)
Definition words (bsim : bool) : Z := if bsim then Z.shiftl 16 10 else Z.shiftl 16 18.
(** [lib/cpp/testmemcpy.h:127-132] burstLen and iterCnt *)
Definition burst : Z := 16.
Definition iters (bsim : bool) : Z := if bsim then 2 else 64.

Section Program.
(** The references of the two buffers and how the program was built. *)
Context (srcAlloc dstAlloc : Z) (bsim : bool).

(** [lib/cpp/testmemcpy.h:36-51] MemcpyIndication: started and the statements of done *)
Inductive Act := Post | Finish | Compare.
Definition callback (i : Ind) : list Act :=
  match i with Started => [] | DoneCopy => [Post; Finish; Compare] end.
Definition run (a : Act) (m : Mem) (p : Prog) : Prog :=
  let '(mkProg s f x) := p in
  match a with
  | Post => mkProg (s + 1) f x
  | Finish => mkProg s true x
  | Compare =>
    mkProg s f (negb (forallb (λ i, bool_decide (m srcAlloc i = m dstAlloc i)) (seqZ 0 (words bsim))))
  end.
Abbreviation W := (@World Dev Ind Act Prog).
Context (choose : nat → W → @BRule DRule) (fuel : nat).

(** [lib/cpp/testmemcpy.h:99-102] runtest: the contents of the buffers *)
Definition fill : M W () := for_each (seqZ 0 (words bsim)) (λ i,
  store srcAlloc i i;; store dstAlloc i 0x5a5abeef).
(** [lib/cpp/testmemcpy.h:62-154] runtest; the references are given, and the timer and the
    report of the traffic are left out.  The function has no return statement; it is
    read as coming back to main, which does not use its value. *)
Definition memcpy_runtest : M W () :=
  fill;;
  send (λ d, let '(mkDev re we ri wi rc wc rp wp bl nw bf rb wb po) := d in
    mkDev re we ri wi rc wc rp wp bl nw bf rb wb
      (po ++ [mkStart dstAlloc srcAlloc (words bsim) burst (iters bsim)]));;
  sem_wait dfire callback run choose fuel done_sem
    (λ p, let '(mkProg s f x) := p in mkProg (s - 1) f x);;
  show_mem_stats dfire callback run choose fuel;;
  show_mem_stats dfire callback run choose fuel.
(** [examples/memcpy/testmemcpy.cpp:33-37] main *)
Definition memcpy_main : M W () :=
  memcpy_runtest;;
  w ← get;
  exit (if memcmp_fail (prog w) then 1 else 0).
End Program.

(** ** A copy *)
Section Copying.
(** [bb] beats to a burst, [K] bursts to a pass and [ic] passes *)
Context (m0 : Mem) (src dst bb K ic : Z) (Hsd : src ≠ dst) (Hbb : 0 < bb ≤ 16) (HK : 0 < K) (Hsz : 8 * (bb * K) < 2 ^ 32)
  (Hic : 0 < ic < 2 ^ 32).

(** The beats that go through the device *)
Abbreviation addr := (pass_addr (K * bb) bb).
Abbreviation strm := (pass (K * bb) bb).

(** A burst's command covers its beats. *)
Definition burst_cmd (p k : Z) : Cmd := mkCmd p (8 * (k mod K * bb)) (8 * bb) (8 * bb).
Lemma burst_cmd_ok p k : cmd_ok (8 * bb) (burst_cmd p k).
Proof. split_and!; simpl; [done|lia|done]. Qed.
Lemma burst_strm p k : 0 ≤ k → cmd_addrs (burst_cmd p k) = strm p (k * bb) ((k + 1) * bb).
Proof.
  intros Hk. unfold cmd_addrs, pass, burst_cmd. simpl.
  replace (8 * bb / 8) with bb by div_lia. replace ((k + 1) * bb - k * bb) with bb by lia.
  replace (seqZ (k * bb) bb) with (seqZ (k * bb + 0) bb) by (f_equal; lia).
  rewrite <-fmap_add_seqZ, <-list_fmap_compose. apply list_fmap_ext. intros i t [-> Ht]%lookup_seqZ. simpl.
  unfold pass_addr. f_equal; [f_equal|].
  - assert ((k * bb + (0 + i)) mod (K * bb) = k mod K * bb + i) as ->; [|lia].
    symmetry. apply (Z.mod_unique_pos _ _ (k / K)); pose proof (Z.div_mod k K ltac:(lia));
      pose proof (Z.mod_pos_bound k K HK); nia.
  - apply bool_decide_ext. replace (k * bb + (0 + i) + 1) with ((i + 1) + k * bb) by lia.
    rewrite Z_mod_plus_full. destruct (decide (i + 1 = bb)) as [E|].
    + rewrite E, Z_mod_same_full. lia.
    + rewrite Z.mod_small by lia. lia.
Qed.
Lemma advance_spec k : 0 ≤ k < K * ic →
  advance (k mod K * (2 * bb)) (ic - k / K) (2 * bb) (2 * bb * K) = ((k + 1) mod K * (2 * bb), ic - (k + 1) / K).
Proof.
  intros Hk. pose proof (Z.mod_pos_bound k K HK). pose proof (Z.div_mod k K ltac:(lia)) as Hdm.
  pose proof (Z.div_lt_upper_bound k K ic HK ltac:(lia)). assert (0 ≤ k / K) by (apply Z.div_pos; lia).
  unfold advance. rewrite (u32_small (_ + _)) by nia.
  destruct (decide (k mod K + 1 = K)) as [E|].
  - assert ((k + 1) mod K = 0) as -> by (symmetry; apply (Z.mod_unique_pos _ _ (k / K + 1)); lia).
    assert ((k + 1) / K = k / K + 1) as -> by (symmetry; apply (Z.div_unique_pos _ _ _ 0); lia).
    rewrite bool_decide_true by nia. rewrite u32_small by lia. f_equal; lia.
  - assert ((k + 1) mod K = k mod K + 1) as -> by (symmetry; apply (Z.mod_unique_pos _ _ (k / K)); lia).
    assert ((k + 1) / K = k / K) as -> by (symmetry; apply (Z.div_unique_pos _ _ _ (k mod K + 1)); lia).
    rewrite bool_decide_false by nia. f_equal; lia.
Qed.
(** The passes left are none exactly when all bursts have been asked for. *)
Lemma iters_left k : 0 ≤ k ≤ K * ic → (0 < ic - k / K ↔ k < K * ic).
Proof.
  intros Hk. pose proof (Z.div_mod k K ltac:(lia)). pose proof (Z.mod_pos_bound k K HK). split; intros; nia.
Qed.

(** *** The invariant *)
(** Of the beats, [n] have been written; [r] bursts have been asked for from the read engine and
    [w] from the write engine. *)
Definition drained (n : Z) (d : Dev) : Z := n + length (wr_data (we d)).
Definition filled (n : Z) (d : Dev) : Z := drained n d + length (buffer d).
Record copying (r w n : Z) (e : list Ind) (d : Dev) (m : Mem) : Prop := {
  cp_rd : rd_ok (8 * bb) m (re d);
  cp_wr : wr_ok (8 * bb) (we d);
  cp_outs : (f_outs (wr_f (we d)) ≤ 1)%nat;
  cp_r : 0 ≤ r ≤ K * ic;
  cp_w : 0 ≤ w ≤ K * ic;
  cp_n : 0 ≤ n ≤ w * bb;
  cp_fill : w * bb ≤ filled n d ≤ r * bb;
  cp_regs : rdPointer d = src ∧ wrPointer d = dst ∧ burstLen d = 2 * bb ∧ numWords d = 2 * bb * K ∧ portal d = [];
  cp_rdcnt : rdCnt d = r mod K * (2 * bb) ∧ rdIterCnt d = ic - r / K;
  cp_wrcnt : wrCnt d = w mod K * (2 * bb) ∧ wrIterCnt d = ic - w / K;
  cp_rb : rdBuffer d = 32 - 2 * (r * bb - drained n d) ∧ 0 ≤ rdBuffer d;
  cp_wb : wrBuffer d = 2 * (filled n d - w * bb);
  cp_stream : rd_stream m (re d) = fetch m <$> strm src (filled n d) (r * bb);
  cp_src : Forall (λ a, a.1.1 = src) (addrs (rd_f (re d)));
  cp_data : wr_data (we d) ++ buffer d = (λ j, (fetch m (addr src j)).1) <$> seqZ n (filled n d - n);
  cp_todo : addrs (wr_f (we d)) = strm dst n (w * bb);
  cp_mem j : 0 ≤ j < n → beat_at m dst (8 * (j mod (K * bb))) = beat_at m src (8 * (j mod (K * bb)));
  cp_e : e = Started :: if bool_decide (w = K * ic ∧ f_outs (wr_f (we d)) = 0%nat) then [DoneCopy] else [];
  cp_frame q i : q ≠ dst → m q i = m0 q i }.
Definition copy_cost (r w n : Z) (d : Dev) : Z :=
  (8 * bb + 24) * ((K * ic - r) + (K * ic - w)) + rd_cost (re d) + 2 * (r * bb - filled n d) +
  f_outs (rd_f (re d)) + length (buffer d) + wr_cost (we d) + 8 * f_outs (wr_f (we d)).
Definition copy_step (r w n : Z) (e l : list Ind) (d d' : Dev) (m' : Mem) : Prop :=
  ∃ r' w' n', copying r' w' n' (e ++ l) d' m' ∧ copy_cost r' w' n' d' + 4 * length l < copy_cost r w n d.

Lemma start_read_step r w n e d m d' : copying r w n e d m → start_read d = Some d' → copy_step r w n e [] d d' m.
Proof.
  intros C E. exists (r + 1), w, n. rewrite app_nil_r.
  destruct C as [C1 C2 C3 C4 C5 C6 C7 (R1 & R2 & R3 & R4 & R5) [A1 A2] [B1 B2] [RB RB0] WB C8 C9 C10 C11 C12 C13 C14].
  destruct d as [re we ri wi rc wc rp wp bl nw bf rb wb po]. unfold copy_cost, filled, drained in *. simpl in *. subst.
  case_bool_decide as G; [|done]. destruct G as [Hri Hrb]. apply (iters_left r) in Hri; [|done].
  pose proof (Z.mod_pos_bound r K HK).
  rewrite (u32_small (_ * 4)), (u32_small (2 * bb * 4)), (u8_small (2 * bb * 4)), advance_spec in E by nia.
  replace (mkCmd src (r mod K * (2 * bb) * 4) (2 * bb * 4) (2 * bb * 4)) with (burst_cmd src r) in E
    by (unfold burst_cmd; f_equal; lia).
  destruct (rd_put 1 _ re) as [re'|] eqn:Ep; [|done]. injection E as <-.
  destruct (rd_put_stream (8 * bb) ltac:(lia) ltac:(by exists bb; lia) m 1 _ re re' C1 (burst_cmd_ok src r) Ep)
    as (P1 & P2 & P3 & P4 & P5 & P6).
  rewrite burst_strm in P2, P3, P6 by lia. rewrite pass_length in P3 by lia.
  rewrite (u32_small (_ - _)) by lia.
  split; [split; simpl; unfold filled, drained; simpl; try done; try lia|simpl; lia].
  - rewrite P2, C8, <-fmap_app, pass_app by lia. done.
  - rewrite P6. apply Forall_app. split; [done|]. by apply Forall_fmap, Forall_true.
Qed.
Lemma start_write_step r w n e d m d' : copying r w n e d m → start_write d = Some d' → copy_step r w n e [] d d' m.
Proof.
  intros C E. exists r, (w + 1), n. rewrite app_nil_r.
  destruct C as [C1 C2 C3 C4 C5 C6 C7 (R1 & R2 & R3 & R4 & R5) [A1 A2] [B1 B2] [RB RB0] WB C8 C9 C10 C11 C12 C13 C14].
  destruct d as [re we ri wi rc wc rp wp bl nw bf rb wb po]. unfold copy_cost, filled, drained in *. simpl in *. subst.
  case_bool_decide as G; [|done]. destruct G as [Hwi Hwb]. apply (iters_left w) in Hwi; [|done].
  pose proof (Z.mod_pos_bound w K HK).
  rewrite (u32_small (_ * 4)), (u32_small (2 * bb * 4)), (u8_small (2 * bb * 4)), advance_spec in E by nia.
  replace (mkCmd dst (w mod K * (2 * bb) * 4) (2 * bb * 4) (2 * bb * 4)) with (burst_cmd dst w) in E
    by (unfold burst_cmd; f_equal; lia).
  destruct (wr_put 1 _ we) as [we'|] eqn:Ep; [|done]. injection E as <-.
  destruct (wr_put_stream (8 * bb) ltac:(lia) ltac:(by exists bb; lia) 1 _ we we' C2 (burst_cmd_ok dst w) Ep)
    as (P1 & P2 & P3 & P4 & P5 & P6).
  rewrite burst_strm in P2, P4 by lia. rewrite pass_length in P4 by lia.
  split; [split; simpl; unfold filled, drained; simpl; rewrite ?P3; try done; try lia|simpl; rewrite P3; lia].
  - pose proof (wo_len _ _ C2). rewrite u32_small; lia.
  - rewrite P2, C11, pass_app by lia. done.
  - rewrite !bool_decide_false by lia. done.
Qed.
Lemma read_finish_step r w n e d m d' : copying r w n e d m → read_finish d = Some d' → copy_step r w n e [] d d' m.
Proof.
  intros C E. exists r, w, n. rewrite app_nil_r.
  destruct C as [C1 C2 C3 C4 C5 C6 C7 R A B [RB RB0] WB C8 C9 C10 C11 C12 C13 C14].
  destruct d as [re we ri wi rc wc rp wp bl nw bf rb wb po]. unfold copy_cost, filled, drained in *. simpl in *.
  destruct (rd_get re) as [re'|] eqn:Ep; [|done]. injection E as <-.
  destruct (rd_get_stream (8 * bb) m re re' C1 Ep) as (P1 & P2 & P3 & P4 & P5).
  split; [split; simpl; unfold filled, drained; simpl; rewrite ?P2, ?P5; done|simpl; lia].
Qed.
Lemma write_finish_step r w n e d m d' l : copying r w n e d m → write_finish d = Some (d', l) →
  copy_step r w n e l d d' m.
Proof.
  intros C E. exists r, w, n.
  destruct C as [C1 C2 C3 C4 C5 C6 C7 (R1 & R2 & R3 & R4 & R5) [A1 A2] [B1 B2] [RB RB0] WB C8 C9 C10 C11 C12 C13 C14].
  destruct d as [re we ri wi rc wc rp wp bl nw bf rb wb po]. unfold copy_cost, filled, drained in *. simpl in *. subst.
  destruct (wr_get we) as [we'|] eqn:Ep; [|done]. injection E as <- <-.
  destruct (wr_get_stream (8 * bb) we we' C2 Ep) as (P1 & P2 & P3 & P4 & P5 & P6).
  pose proof (iters_left w C5). pose proof (Z.div_le_upper_bound w K ic HK ltac:(lia)).
  split; [split; simpl; unfold filled, drained; simpl; rewrite ?P2, ?P3; try done; try lia
         |simpl; rewrite P3; case_bool_decide; simpl; lia].
  rewrite (bool_decide_false (w = _ ∧ _)) by lia. simpl. f_equal.
  destruct (decide (w = K * ic)).
  - rewrite !bool_decide_true by lia. done.
  - rewrite !bool_decide_false by lia. done.
Qed.
Lemma fill_step r w n e d m d' : copying r w n e d m → fill_buffer d = Some d' → copy_step r w n e [] d d' m.
Proof.
  intros C E. exists r, w, n. rewrite app_nil_r.
  destruct C as [C1 C2 C3 C4 C5 C6 C7 R A B [RB RB0] WB C8 C9 C10 C11 C12 C13 C14].
  destruct d as [re we ri wi rc wc rp wp bl nw bf rb wb po]. unfold copy_cost, filled, drained in *. simpl in *.
  destruct (rd_deq re) as [[v re']|] eqn:Ep; [|done]. simpl in E. case_bool_decide; [|done]. injection E as <-.
  destruct (rd_deq_stream (8 * bb) m re v re' C1 Ep) as (lst & P1 & P2 & P3 & P4 & P5).
  rewrite P2 in C8. symmetry in C8. apply fmap_cons_inv in C8 as (x & tl & Ex & Et & Es).
  apply pass_cons in Es as (-> & -> & Hlt).
  split; [split; simpl; unfold filled, drained; simpl; rewrite ?length_app; simpl; try done; try lia
         |simpl; rewrite length_app; simpl; lia].
  - pose proof (wo_len _ _ C2). rewrite WB, u32_small; lia.
  - rewrite Et. do 2 f_equal; lia.
  - by rewrite P5.
  - rewrite app_assoc, C10.
    replace (n + length (wr_data we) + (length bf + 1)%nat - n) with (n + length (wr_data we) + length bf - n + 1) by lia.
    rewrite seqZ_app, fmap_app by lia. simpl. f_equal. replace (n + (n + length (wr_data we) + length bf - n)) with
      (n + length (wr_data we) + length bf) by lia. by injection Ex as -> _.
Qed.
Lemma drain_step r w n e d m d' : copying r w n e d m → drain_buffer d = Some d' → copy_step r w n e [] d d' m.
Proof.
  intros C E. exists r, w, n. rewrite app_nil_r.
  destruct C as [C1 C2 C3 C4 C5 C6 C7 R A B [RB RB0] WB C8 C9 C10 C11 C12 C13 C14].
  destruct d as [re we ri wi rc wc rp wp bl nw bf rb wb po]. unfold copy_cost, filled, drained in *. simpl in *.
  destruct bf as [|v bf]; [done|]. destruct (wr_enq v we) as [we'|] eqn:Ep; [|done]. injection E as <-.
  destruct (wr_enq_stream (8 * bb) v we we' C2 Ep) as (P1 & P2 & P3 & P4 & P5 & P6 & P7).
  simpl in *. split; [split; simpl; unfold filled, drained; simpl; rewrite ?P2, ?P3, ?P5, ?length_app; simpl; try done; try lia
         |simpl; rewrite P3, length_app; simpl; lia].
  - rewrite u32_small; lia.
  - rewrite C8. do 2 f_equal; lia.
  - rewrite <-app_assoc. simpl. rewrite C10. do 2 f_equal; lia.
Qed.
Lemma mc_rd_step r w n e d m q s : copying r w n e d m → rd_fire m q (re d) = Some s →
  copy_step r w n e [] d (set_engines s (we d) d) m.
Proof.
  intros C E. exists r, w, n. rewrite app_nil_r.
  destruct C as [C1 C2 C3 C4 C5 C6 C7 R A B RB WB C8 C9 C10 C11 C12 C13 C14].
  destruct d as [re we ri wi rc wc rp wp bl nw bf rb wb po]. unfold copy_cost, filled, drained in *. simpl in *.
  destruct (rd_fire_stream (8 * bb) ltac:(lia) ltac:(by exists bb; lia) m q re s C1 E) as (P1 & P2 & P3 & P4 & [k P5]).
  split; [split; simpl; unfold filled, drained; simpl; rewrite ?P2; try done|simpl; lia].
  rewrite P5 in C9. by apply Forall_app in C9 as [_ ?].
Qed.
(** Writes to another buffer do not change what is read. *)
Lemma fetch_other m q o v (l : list (Z * Z * bool)) : Forall (λ a, a.1.1 ≠ q) l →
  fetch (store_beat m q o v) <$> l = fetch m <$> l.
Proof.
  induction 1 as [|a l Ha _ IH]; [done|]. rewrite !fmap_cons, IH. unfold fetch at 1 3. by rewrite store_beat_other.
Qed.
Lemma mc_wr_step r w n e d m q s m' : copying r w n e d m → wr_fire m q (we d) = Some (s, m') →
  copy_step r w n e [] d (set_engines (re d) s d) m'.
Proof.
  intros C E.
  destruct C as [C1 C2 C3 C4 C5 C6 C7 R A B RB WB C8 C9 C10 C11 C12 C13 C14].
  destruct d as [re we ri wi rc wc rp wp bl nw bf rb wb po]. unfold copy_cost, filled, drained in *. simpl in *.
  destruct (wr_fire_stream (8 * bb) ltac:(lia) ltac:(by exists bb; lia) m q we s m' C2 E)
    as (P1 & P2 & P3 & [(P4 & P5 & ->)|(p & off & lst & v & P4 & P5 & Em)]).
  { exists r, w, n. rewrite app_nil_r. unfold copy_cost.
    split; [split; simpl; unfold filled, drained; simpl; rewrite ?P3, ?P4, ?P5; done|].
    unfold filled, drained. simpl. rewrite P5. lia. }
  rewrite C11 in P4. apply pass_cons in P4 as ([= -> -> ->] & P4 & Hlt). rewrite P5 in *. simpl in *.
  rewrite seqZ_cons in C10 by lia. injection C10 as -> C10.
  subst m'. exists r, w, (n + 1). rewrite app_nil_r. unfold copy_cost.
  split; [split; simpl; unfold filled, drained; simpl; rewrite ?P3; try done; try lia|].
  - by eapply rd_ok_mem.
  - replace (n + 1 + _ + _) with (n + S (length (wr_data s)) + length bf) by lia.
    rewrite (fetch_other m dst _ _ (strm _ _ _)), <-C8 by (by apply Forall_fmap, Forall_true).
    unfold rd_stream. f_equal. apply fetch_other. eapply Forall_impl; [exact C9|]. by intros a ->.
  - rewrite C10. replace (Z.pred _) with (n + 1 + length (wr_data s) + length bf - (n + 1)) by lia.
    apply list_fmap_ext. intros i j _. simpl. by rewrite store_beat_other.
  - intros j Hj. rewrite (store_beat_other _ _ _ _ src), store_beat_at by done.
    clear C13. case_bool_decide as Ej; [by destruct Ej as [_ ->]|]. apply C12.
    destruct (decide (j = n)) as [->|]; [tauto|lia].
  - intros q' i Hq. unfold store_beat. rewrite !bool_decide_false by tauto. by apply C14.
  - unfold filled, drained. simpl. rewrite P5. simpl. lia.
Qed.
(** *** The device as a whole *)
Definition start_cmd : startCopy := mkStart dst src (2 * bb * K) (2 * bb) ic.
Definition started : Dev := mkDev rd_init wr_init 0 0 0 0 0 0 0 0 [] 32 0 [start_cmd].
Definition budget : Z := (8 * bb + 24) * (2 * (K * ic)).
(** Before the request is accepted, and after *)
Definition dev_inv (e : list Ind) (d : Dev) (m : Mem) (c : Z) : Prop :=
  e = [] ∧ d = started ∧ m = m0 ∧ c = budget + 5 ∨
  ∃ r w n, copying r w n e d m ∧ c = copy_cost r w n d.

Lemma mc_accepted : ∃ d, accept started = Some (d, [Started]) ∧ copying 0 0 0 [Started] d m0 ∧ copy_cost 0 0 0 d = budget.
Proof.
  eexists. split; [done|]. unfold copy_cost, filled, drained. rewrite !u32_small by lia. split.
  2: { cbn [re we buffer]. change (rd_cost rd_init) with 0. change (wr_cost wr_init) with 0. unfold budget. simpl. lia. }
  split; unfold filled, drained; simpl; try done; try lia.
  - apply rd_init_ok.
  - apply wr_init_ok.
  - rewrite Z.mod_0_l, Z.div_0_l by lia. lia.
  - rewrite Z.mod_0_l, Z.div_0_l by lia. lia.
  - rewrite bool_decide_false by nia. done.
Qed.
Lemma mc_dev_step e d m c r d' m' l : dev_inv e d m c → dfire r d m = Some (d', m', l) →
  ∃ c', dev_inv (e ++ l) d' m' c' ∧ c' + 4 * length l < c.
Proof.
  intros [(-> & -> & -> & ->)|(rr & w & n & C & ->)] E.
  { assert (r = DAccept) as -> by (destruct r as [| | | | | | |[]|[]]; done).
    destruct mc_accepted as (d1 & E1 & C1 & Hc). simpl in E. unfold started in E1. simpl in E1. injection E1 as E1.
    injection E as <- <- <-. exists budget. rewrite E1. split; [right; by exists 0, 0, 0|simpl; lia]. }
  assert (copy_step rr w n e l d d' m') as (r' & w' & n' & C' & Hc); [|eexists; split; [right; by exists r', w', n'|done]].
  destruct r as [| | | | | | |q|q]; simpl in E; unfold quietly in E.
  - destruct (accept d) as [[]|] eqn:Ea; [|done]. destruct C as [_ _ _ _ _ _ _ (_ & _ & _ & _ & Hp)].
    destruct d. simpl in *. by subst.
  - destruct (start_read d) eqn:Ed; [|done]. injection E as <- <- <-. by eapply start_read_step.
  - destruct (start_write d) eqn:Ed; [|done]. injection E as <- <- <-. by eapply start_write_step.
  - destruct (read_finish d) eqn:Ed; [|done]. injection E as <- <- <-. by eapply read_finish_step.
  - destruct (write_finish d) as [[]|] eqn:Ed; [|done]. injection E as <- <- <-. by eapply write_finish_step.
  - destruct (fill_buffer d) eqn:Ed; [|done]. injection E as <- <- <-. by eapply fill_step.
  - destruct (drain_buffer d) eqn:Ed; [|done]. injection E as <- <- <-. by eapply drain_step.
  - destruct (rd_fire m q (re d)) eqn:Ed; [|done]. injection E as <- <- <-. by eapply mc_rd_step.
  - destruct (wr_fire m q (we d)) as [[]|] eqn:Ed; [|done]. injection E as <- <- <-. by eapply mc_wr_step.
Qed.
(** The write engine has written what it was asked for when it has no command. *)
Lemma mc_idle_written r w n e d m : copying r w n e d m → f_outs (wr_f (we d)) = 0%nat → n = w * bb.
Proof.
  intros C Ho. destruct (decide (n < w * bb)) as [Hlt|]; [|pose proof (cp_n _ _ _ _ _ _ C); lia].
  pose proof (wo_outs _ _ (cp_wr _ _ _ _ _ _ C)) as Hs. rewrite (cp_todo _ _ _ _ _ _ C) in Hs.
  pose proof (pass_lasts (N:=K * bb) dst n w Hlt). lia.
Qed.
(** A side that waits is served by the other. *)
Lemma mc_write_progress r w n e d m : copying r w n e d m → f_outs (wr_f (we d)) ≠ 0%nat →
  ∃ q, is_Some (dfire q d m).
Proof.
  intros [C1 C2 C3 C4 C5 C6 C7 R A B RB WB C8 C9 C10 C11 C12 C13 C14] Ho. unfold filled, drained in *.
  destruct (wr_progress (8 * bb) m (we d) C2 Ho) as [[q [[s m'] E]]|[[s E]|[H1 H2]]].
  - exists (DWr q). simpl. rewrite E. by eexists.
  - exists DWriteFinish. destruct d. simpl in *. rewrite E. by eexists.
  - replace (8 * bb / 8) with bb in * by div_lia. rewrite C11, pass_length in H2 by lia.
    exists DDrain. destruct d as [re we ri wi rc wc rp wp bl nw [|v bf] rb wb po]; simpl in *; [lia|].
    unfold quietly. destruct we as [[o cs ld wk rsp cap out] dt dn]. simpl in *.
    rewrite bool_decide_true by lia. by eexists.
Qed.
Lemma mc_read_progress r w n e d m : copying r w n e d m → f_outs (wr_f (we d)) = 0%nat → w < K * ic →
  ∃ q, is_Some (dfire q d m).
Proof.
  intros C Ho Hw. pose proof (mc_idle_written _ _ _ _ _ _ C Ho) as Hn.
  destruct C as [C1 C2 C3 C4 C5 C6 C7 (R1 & R2 & R3 & R4 & R5) [A1 A2] [B1 B2] RB WB C8 C9 C10 C11 C12 C13 C14].
  unfold filled, drained in *. destruct d as [re we ri wi rc wc rp wp bl nw bf rb wb po]. simpl in *. subst.
  destruct (decide (2 * bb ≤ 2 * (w * bb + length (wr_data we) + length bf - w * bb))).
  { exists DStartWrite. simpl. rewrite bool_decide_true by (split; [by apply iters_left|lia]).
    destruct we as [[o cs ld wk rsp cap out] dt dn]. simpl in *. subst o. simpl.
    destruct (advance _ _ _ _). by eexists. }
  destruct (rd_stream m re) as [|x l] eqn:Es.
  - symmetry in C8. apply fmap_nil_inv, pass_nil in C8; [|lia].
    assert (r ≤ w) by nia. pose proof (ro_outs _ _ _ C1) as Hos. rewrite Es in Hos.
    destruct (f_outf (rd_f re)) as [|out] eqn:Eo.
    + exists DStartRead. simpl. rewrite bool_decide_true by (split; [apply iters_left; lia|nia]).
      destruct re as [[o cs ld wk rsp cap out] dt]. simpl in *. subst o. simpl.
      destruct (advance _ _ _ _). by eexists.
    + exists DReadFinish. destruct re as [[o cs ld wk rsp cap out'] dt]. simpl in *. subst. by eexists.
  - destruct (rd_progress (8 * bb) ltac:(lia) m re C1 ltac:(by rewrite Es)) as [[[v s] E]|[[q [s E]]|[s E]]].
    + exists DFill. simpl. rewrite E. simpl. rewrite bool_decide_true by nia. by eexists.
    + exists (DRd q). simpl. rewrite E. by eexists.
    + exists DReadFinish. simpl. rewrite E. by eexists.
Qed.
Lemma mc_dev_progress e d m c : dev_inv e d m c → DoneCopy ∉ e → ∃ q, is_Some (dfire q d m).
Proof.
  intros [(-> & -> & -> & ->)|(r & w & n & C & ->)] He; [exists DAccept; by eexists|].
  destruct (decide (f_outs (wr_f (we d)) = 0%nat)) as [Ho|]; [|by eapply mc_write_progress].
  eapply mc_read_progress; [done..|]. pose proof (cp_w _ _ _ _ _ _ C). destruct (decide (w = K * ic)); [|lia].
  destruct He. rewrite (cp_e _ _ _ _ _ _ C), bool_decide_true by done. right. left.
Qed.
(** Once it has said so, the device has copied everything. *)
Definition copied (m : Mem) : Prop := ∀ i, 0 ≤ i < 2 * bb * K → m dst i = m0 src i.
Lemma mc_dev_done e d m c : dev_inv e d m c → DoneCopy ∈ e →
  e = [Started; DoneCopy] ∧ copied m ∧ ∀ q i, q ≠ dst → m q i = m0 q i.
Proof.
  intros [(-> & -> & -> & ->)|(r & w & n & C & ->)] He; [by apply not_elem_of_nil in He|].
  pose proof (cp_e _ _ _ _ _ _ C) as Ee. case_bool_decide as Hd; [|by rewrite Ee, list_elem_of_singleton in He]. destruct Hd as [Hw Ho].
  pose proof (mc_idle_written _ _ _ _ _ _ C Ho) as Hn. split_and!; [done| |apply (cp_frame _ _ _ _ _ _ C)].
  intros i Hi. rewrite <-(cp_frame _ _ _ _ _ _ C) by done.
  pose proof (cp_mem _ _ _ _ _ _ C (i / 2) ltac:(subst; split; [apply Z.div_pos; lia|apply Z.div_lt_upper_bound; nia])) as Hm.
  rewrite (Z.mod_small (i / 2)) in Hm by (split; [apply Z.div_pos; lia|apply Z.div_lt_upper_bound; lia]).
  unfold beat_at in Hm. replace (8 * (i / 2) / 4) with (2 * (i / 2)) in Hm by div_lia. injection Hm as H1 H2.
  destruct (decide (i mod 2 = 0)); [replace i with (2 * (i / 2)) by div_lia|replace i with (2 * (i / 2) + 1) by div_lia]; done.
Qed.
End Copying.

(** ** The program's verdict *)
Section Verdict.
Context (m0 : Mem) (src dst : Z) (bsim : bool) (Hsd : src ≠ dst).
(** The passes of the program: bursts of 8 beats *)
Definition bursts : Z := if bsim then 1024 else 2 ^ 18.
Lemma words_bursts : words bsim = 2 * 8 * bursts.
Proof. unfold words, bursts. by destruct bsim. Qed.
Abbreviation inv := (dev_inv m0 src dst 8 bursts (iters bsim)).
Lemma mc_constants : 0 < 8 ≤ 16 ∧ 0 < bursts ∧ 8 * (8 * bursts) < 2 ^ 32 ∧ 0 < iters bsim < 2 ^ 32.
Proof. unfold bursts, iters. destruct bsim; lia. Qed.

Definition agree (m : Mem) : Prop := ∀ i, 0 ≤ i < words bsim → m src i = m dst i.
(** The program after it has waited [k] times for the semaphore *)
Definition prog_inv (k : Z) (e : list Ind) (m : Mem) (l : list Ind) (th : list Act) (p : Prog) : Prop :=
  e `prefix_of` [Started; DoneCopy] ∧ (DoneCopy ∈ e → agree m) ∧ ∃ h, e = h ++ l ∧
  ((h = [] ∨ h = [Started]) ∧ th = [] ∧ p = mkProg 0 false false ∧ k = 0 ∨
   h = [Started; DoneCopy] ∧
   (th = [Post; Finish; Compare] ∧ p = mkProg 0 false false ∧ k = 0 ∨
    th = [Finish; Compare] ∧ p = mkProg (1 - k) false false ∨
    (th = [Compare] ∨ th = []) ∧ p = mkProg (1 - k) true false)).

Lemma mc_dev_sent e d m c : inv e d m c → e `prefix_of` [Started; DoneCopy] ∧ (DoneCopy ∈ e → agree m).
Proof.
  intros HI. destruct mc_constants as (H1 & H2 & H3 & H4). split.
  - destruct HI as [(-> & _)|(r & w & n & C & _)]; [apply prefix_nil|]. rewrite (cp_e _ _ _ _ _ _ _ _ _ _ _ _ C).
    case_bool_decide; [done|]. by exists [DoneCopy].
  - intros He. destruct (mc_dev_done m0 src dst 8 bursts (iters bsim) Hsd H4 e d m c HI He) as (_ & Hc & Hf). intros i Hi.
    rewrite words_bursts in Hi. by rewrite Hf, Hc by done.
Qed.
Lemma compare_agree m p : agree m → run src dst bsim Compare m p = mkProg (done_sem p) (finished p) false.
Proof.
  intros Ha. destruct p as [s f x]. simpl. f_equal. apply negb_false_iff, forallb_forall.
  intros i Hi%list_elem_of_In%elem_of_seqZ. apply bool_decide_eq_true. apply Ha. lia.
Qed.
Lemma memcpy_frame k : frame_ok dfire callback (run src dst bsim) inv (prog_inv k) 4.
Proof.
  destruct mc_constants as (H1 & H2 & H3 & H4).
  split.
  - intros e d m c [(_ & _ & _ & ->)|(r & w & n & C & ->)].
    + unfold budget. nia.
    + pose proof (rd_cost_nonneg (re d)). pose proof (wr_cost_nonneg (we d)).
      destruct C as [_ _ _ C4 C5 C6 C7 _ _ _ _ _ _ _ _ _ _ _ _]. unfold copy_cost. nia.
  - intros. by eapply mc_dev_step.
  - intros e d m c r d' m' l qs th p HI (Hp & Ha & h & -> & Hh) E.
    destruct (mc_dev_step m0 src dst 8 bursts (iters bsim) Hsd H1 H2 H3 H4 _ d m c r d' m' l HI E) as (c' & HI' & _).
    destruct (mc_dev_sent _ _ _ _ HI') as [Hp' Ha']. split_and!; try done. exists h. by rewrite app_assoc.
  - intros e m i l p (Hp & Ha & h & -> & Hh). split_and!; try done. exists (h ++ [i]).
    rewrite <-app_assoc. split; [done|].
    destruct Hh as [([->| ->] & _ & -> & ->)|(-> & _)]; apply prefix_cons_inv_1 in Hp as Hi.
    + subst i. left. by split_and!; [right|..].
    + apply prefix_cons_inv_2, prefix_cons_inv_1 in Hp. subst i. right. split; [done|]. by left.
    + by apply prefix_cons_inv_2, prefix_cons_inv_2, prefix_nil_not in Hp.
  - intros e m l a th p (Hp & Ha & h & -> & Hh). split_and!; try done. exists h. split; [done|].
    destruct Hh as [(_ & ? & _)|(-> & Hh)]; [done|]. right. split; [done|].
    destruct Hh as [([= -> ->] & -> & ->)|[([= -> ->] & ->)|([[= -> ->]|?] & ->)]]; [| | |done].
    + right. by left.
    + right. right. split; [by left|done].
    + right. right. split; [by right|]. rewrite compare_agree; [done|]. apply Ha. right. left.
Qed.
Lemma mc_prog_taken w c : world_ok inv (prog_inv 0) 4 0 w c → 0 < done_sem (prog w) →
  world_ok inv (prog_inv 1) 4 0 (upd_prog (λ p, let '(mkProg s f x) := p in mkProg (s - 1) f x) w) c.
Proof.
  intros (e & cd & HI & (Hp & Ha & h & Eh & Hh) & H) Hs. destruct w as [d m l q k th p s]. exists e, cd. simpl in *.
  split_and!; try apply H; try done. split_and!; try done. exists h. split; [done|].
  destruct Hh as [(_ & _ & -> & _)|(-> & [(_ & -> & _)|[(-> & ->)|(? & ->)]])]; [done|done|..]; right; (split; [done|]); right;
    [by left|by right].
Qed.
Lemma mc_prog_at_rest e m l p : prog_inv 1 e m l [] p → DoneCopy ∈ e ∧ p = mkProg 0 true false.
Proof.
  intros (_ & _ & h & -> & [(_ & _ & _ & ?)|(-> & [(? & _)|[(? & _)|(_ & ->)]])]); try done. split; [|done]. right. left.
Qed.
End Verdict.

(** The program at its start, with any contents of memory. *)
Definition boot (m : Mem) : @World Dev Ind Act Prog := mkWorld dev_init m [] 0 0 [] (mkProg 0 false false) 0.
Lemma fill_upto src dst n m : src ≠ dst → ∃ m1,
  for_each (seqZ 0 (Z.of_nat n)) (λ i, store src i i;; store dst i 0x5a5abeef) (boot m) = (Done tt, boot m1) ∧
  ∀ i, 0 ≤ i < Z.of_nat n → m1 src i = u32 i.
Proof.
  intros Hsd. induction n as [|n (m1 & E & IH)]; [exists m; split; [done|lia]|].
  replace (Z.of_nat (S n)) with (Z.of_nat n + 1) by lia. rewrite seqZ_app by lia.
  eexists. rewrite for_each_app, (bind_Done _ _ _ _ _ E). split; [done|]. intros i Hi. simpl.
  rewrite bool_decide_false by (intros [? _]; done).
  case_bool_decide as Hn; [f_equal; lia|]. apply IH. destruct (decide (i = Z.of_nat n)); [|lia]. destruct Hn. split; [done|lia].
Qed.

(** C13. The memory copy test passes on every run.  Whatever the buffers hold at first and
    in whatever order the rules of the device, the memory engines, the event thread and
    the statements of the callbacks interleave, the program fills the source with 0, 1, 2
    and so on, the device copies it as often as it was asked to,
    and the program exits with 0, the destination holding every word of the source.  The
    callback posts the semaphore before it compares the buffers, yet the exit status is always that
    of the comparison: the program reads the traffic counters first, whose answer
    the event thread handles only after it has left the callback.  The end of runtest,
    which lacks its return statement, is read as coming back to main. *)
Theorem memcpy_verdict src dst bsim choose fuel m :
  src ≠ dst → work_conserving (bfire dfire callback (run src dst bsim)) choose →
  176 * (bursts bsim * iters bsim) + 11 ≤ Z.of_nat fuel →
  ∃ w', memcpy_main src dst bsim choose fuel (boot m) = (Exited 0, w') ∧ finished (prog w') = true ∧
    ∀ i, 0 ≤ i < words bsim → mem w' src i = i ∧ mem w' dst i = i.
Proof.
  intros Hsd Hch Hf. destruct (mc_constants bsim) as (H1 & H2 & H3 & H4). pose proof (words_bursts bsim) as Hw.
  destruct (fill_upto src dst (Z.to_nat (words bsim)) m Hsd) as (m1 & E1 & Hm1). rewrite Z2Nat.id in E1, Hm1 by lia.
  set (w1 := mkWorld (started src dst 8 (bursts bsim) (iters bsim)) m1 [] 0 0 [] (mkProg 0 false false) 0 : @World Dev Ind Act Prog).
  pose proof (memcpy_frame m1 src dst bsim Hsd) as F.
  destruct (wait_spec dfire callback (run src dst bsim) choose Hch fuel (dev_inv m1 src dst 8 (bursts bsim) (iters bsim))
    (prog_inv src dst bsim 0) 4 ltac:(by intros []) (F 0) done_sem (λ p, let '(mkProg s f x) := p in mkProg (s - 1) f x) w1 (budget 8 (bursts bsim) (iters bsim) + 5))
    as (w2 & c2 & W2 & Hc2 & Hs2 & E2).
  - exists [], (budget 8 (bursts bsim) (iters bsim) + 5). split_and!; try done.
    + by left.
    + split_and!; [apply prefix_nil|by intros ?%not_elem_of_nil|]. exists []. split; [done|]. left. by split_and!; [left|..].
    + by right.
    + simpl. lia.
  - intros e d m' c p HI (Hp & Ha & h & -> & Hh) Hs. eapply mc_dev_progress; try done. rewrite app_nil_r.
    destruct Hh as [([->| ->] & _)|(-> & [(? & _)|[(? & _)|(_ & ->)]])]; try done;
      [by apply not_elem_of_nil|by rewrite list_elem_of_singleton].
  - unfold budget. lia.
  - apply mc_prog_taken in W2; [|done]. unfold budget in *.
    destruct (stats_spec dfire callback (run src dst bsim) choose Hch fuel _ _ 4 ltac:(by intros []) (F 1) _ c2 W2 ltac:(lia))
      as (w3 & c3 & W3 & Hc3 & _ & E3).
    destruct (stats_spec dfire callback (run src dst bsim) choose Hch fuel _ _ 4 ltac:(by intros []) (F 1) _ c3 W3 ltac:(lia))
      as (w4 & c4 & (e & cd & HI & HJ & _) & Hc4 & Ht4 & E4).
    rewrite Ht4 in HJ. apply mc_prog_at_rest in HJ as (He & Hp).
    destruct (mc_dev_done m1 src dst 8 (bursts bsim) (iters bsim) Hsd H4 e _ _ cd HI He) as (_ & Hcp & Hfr).
    exists w4. split_and!; [|by rewrite Hp|].
    + unfold memcpy_main. rewrite (bind_Done _ _ _ tt w4); [rewrite (bind_Done _ _ _ w4 w4) by done; unfold exit; by rewrite Hp|].
      unfold memcpy_runtest. rewrite (bind_Done _ _ _ _ _ E1), (bind_Done _ _ _ tt w1);
        [|unfold w1, started, start_cmd; by rewrite <-Hw].
      by rewrite (bind_Done _ _ _ _ _ E2), (bind_Done _ _ _ _ _ E3).
    + intros i Hi. rewrite Hfr, Hcp, Hm1, u32_small by lia. done.
Qed.

Definition drules : list DRule := [DAccept; DStartRead; DStartWrite; DReadFinish; DWriteFinish; DFill; DDrain;
  DRd RLoad; DRd RReq; DRd RData; DWr WLoad; DWr WReq; DWr WBeat; DWr WDone].
Lemma mc_drules_all r : r ∈ drules.
Proof. destruct r as [| | | | | | |[]|[]]; repeat first [by left | right]. Qed.
Lemma memcpy_verdict_witness : ∃ w',
  memcpy_main 1 2 true (first_of (bfire dfire callback (run 1 2 true)) (brules drules) BStep)
    (Z.to_nat 400000) (boot (λ _ _, 0)) = (Exited 0, w') ∧ finished (prog w') = true ∧
  ∀ i, 0 ≤ i < 16384 → mem w' 1 i = i ∧ mem w' 2 i = i.
Proof.
  apply memcpy_verdict; [done|apply first_of_conserving, brules_all, mc_drules_all|]. rewrite Z2Nat.id by done. done.
Defined.
