(* ===== verification/Memwrite.v ===== *)
(** * Writing memory (src/examples/memwrite, src/lib/cpp/testmemwrite.h)

    The write device, with one server: it writes the numbers 0, 1, 2 and so on over a
    buffer, as often as it is asked to, and reports the end of the last pass.  The
    program is two processes: the parent starts the device, waits for it and sends the buffer to
    the child, which compares what it finds; the parent exits with the status that waitpid gives it. *)
From stdpp Require Import base numbers list.
From S2P Require Import Prelude Rules MemEngines Bench.
Local Open Scope Z_scope.

(** ** The device *)

(** [examples/memwrite/Memwrite.bsv:41-44] MemwriteRequest: a startWrite that waits in the portal *)
Record startWrite := mkStart { s_pointer : Z; s_numWords : Z; s_burstLen : Z; s_iterCnt : Z }.
(** [examples/memwrite/Memwrite.bsv:51-55] MemwriteIndication *)
Inductive Ind := Started | WriteDone.
(** [examples/memwrite/Memwrite.bsv:57-70] mkMemwrite: the engine, the registers and the queues,
    of which cf and cfs hold one element and finishFifos two *)
Record Dev := mkDev { we : Wr; pointer : Z; numWords : Z; burstLen : Z; cf : bool; srcGen : Z; iterCnt : Z;
  iterCnts : Z; cfs : bool; finishFifo : nat; portal : list startWrite }.
Definition dev_init : Dev := mkDev wr_init 0 0 0 false 0 0 0 false 0 [].
Definition chunk (nw : Z) : Z := nw / 1 * 4.

(** [examples/memwrite/Memwrite.bsv:73-79] start *)
Definition start (d : Dev) : option Dev :=
  let '(mkDev we p nw bl cf sg ic ics cfs ff po) := d in
  if bool_decide (0 < ics) && negb cfs then
    we ← wr_put 1 (mkCmd p (0 * chunk nw) (u8 (u32 (bl * 4))) (u32 (chunk nw))) we;
    Some (mkDev we p nw bl cf (0 * u32 (chunk nw / 4)) ic ics true ff po)
  else None.
(** [examples/memwrite/Memwrite.bsv:80-85] finish *)
Definition finish (d : Dev) : option Dev :=
  let '(mkDev we p nw bl cf sg ic ics cfs ff po) := d in
  we ← wr_get we;
  if bool_decide (ff < 2)%nat then Some (mkDev we p nw bl cf sg ic (u32 (ics - 1)) cfs (S ff) po) else None.
(** [examples/memwrite/Memwrite.bsv:86-93] src *)
Definition srcr (d : Dev) : option Dev :=
  let '(mkDev we p nw bl cf sg ic ics cfs ff po) := d in
  if cfs then
    we ← wr_enq (sg, u32 (sg + 1)) we;
    let sg := u32 (sg + 2) in
    Some (mkDev we p nw bl cf sg ic ics (negb (bool_decide (sg = u32 (chunk nw / 4)))) ff po)
  else None.
(** [examples/memwrite/Memwrite.bsv:96-106] indicate_finish, with the reduction of one server's
    results, which is the result *)
Definition indicate_finish (d : Dev) : option (Dev * list Ind) :=
  let '(mkDev we p nw bl cf sg ic ics cfs ff po) := d in
  match ff with
  | S ff =>
    if bool_decide (ic = 1) then
      if cf then Some (mkDev we p nw bl false sg (u32 (ic - 1)) ics cfs ff po, [WriteDone]) else None
    else Some (mkDev we p nw bl cf sg (u32 (ic - 1)) ics cfs ff po, [])
  | O => None
  end.
(** [examples/memwrite/Memwrite.bsv:110-120] startWrite *)
Definition accept (d : Dev) : option (Dev * list Ind) :=
  let '(mkDev we p nw bl cf sg ic ics cfs ff po) := d in
  match po with
  | mkStart wp nw bl ic :: po =>
    if cf then None
    else Some (mkDev we wp (u32 nw) (u32 bl) true sg (u32 ic) (u32 ic) cfs ff po, [Started])
  | [] => None
  end.

Inductive DRule := DAccept | DStart | DFinish | DSrc | DIndicate | DWr (r : WrRule).
Definition set_engine (w : Wr) (d : Dev) : Dev :=
  let '(mkDev _ p nw bl cf sg ic ics cfs ff po) := d in mkDev w p nw bl cf sg ic ics cfs ff po.
Definition quietly (m : Mem) (d : option Dev) : option (Dev * Mem * list Ind) := d ← d; Some (d, m, []).
Definition dfire (r : DRule) (d : Dev) (m : Mem) : option (Dev * Mem * list Ind) :=
  match r with
  | DAccept => '(d, l) ← accept d; Some (d, m, l)
  | DStart => quietly m (start d)
  | DFinish => quietly m (finish d)
  | DSrc => quietly m (srcr d)
  | DIndicate => '(d, l) ← indicate_finish d; Some (d, m, l)
  | DWr r => '(s, m) ← wr_fire m r (we d); Some (set_engine s d, m, [])
  end.

(** ** The program *)

(** [lib/cpp/testmemwrite.h:16-20] numWords, without and with the simulator *)
Definition words (bsim : bool) : Z := if bsim then 0x124000 / 4 else 0x1240000 / 4.
(** [lib/cpp/testmemwrite.h:24-29] burstLen and iterCnt *)
Definition burst : Z := 16.
Definition iters (bsim : bool) : Z := if bsim then 2 else 128.
(** [lib/cpp/testmemwrite.h:32-48] MemwriteIndication: the callbacks print, and writeDone posts [done_sem] *)
Inductive Act := Post.
Definition callback (i : Ind) : list Act := match i with Started => [] | WriteDone => [Post] end.
Definition run (a : Act) (m : Mem) (done_sem : Z) : Z := match a with Post => done_sem + 1 end.

(** [lib/cpp/testmemwrite.h:59-79] child, on the buffer it gets: its exit code *)
Definition child (bsim : bool) (dstBuffer : Z → Z) : Z :=
  let '(mismatch, _) := foldl (λ '(mismatch, sg) i,
      (mismatch || negb (bool_decide (dstBuffer i = sg)), u32 (sg + 1)))
    (false, 0) (seqZ 0 (words bsim)) in
  if mismatch : bool then 1 else 0.

Section Program.
(** The reference of the buffer and how the program was built. *)
Context (dstAlloc : Z) (bsim : bool).
Abbreviation W := (@World Dev Ind Act Z).
Context (choose : nat → W → @BRule DRule) (fuel : nat).

(** [lib/cpp/testmemwrite.h:106-108] parent: the contents of the buffer *)
Definition fill : M W () := for_each (seqZ 0 (words bsim)) (λ i, store dstAlloc i 0xDEADBEEF).
(** [lib/cpp/testmemwrite.h:81-144] parent; the reference is given, and the timer and the report
    of the traffic are left out *)
Definition memwrite_parent : M W () :=
  fill;;
  send (λ d, let '(mkDev we p nw bl cf sg ic ics cfs ff po) := d in
    mkDev we p nw bl cf sg ic ics cfs ff (po ++ [mkStart dstAlloc (words bsim) burst (iters bsim)]));;
  sem_wait dfire callback run choose fuel id (λ s, s - 1);;
  show_mem_stats dfire callback run choose fuel.
(** What waitpid stores for a process that has exited, and the code of a status given to exit *)
Definition wait_status (code : Z) : Z := Z.shiftl (Z.land code 255) 8.
Definition exit_code (status : Z) : Z := Z.land status 255.
(** [examples/memwrite/testmemwrite.cpp:35-59] main, with the results of socketpair and fork, in
    the parent *)
Definition memwrite_main (sp pid : Z) : M W () :=
  if bool_decide (sp < 0) then exit 1
  else if bool_decide (pid = -1) then exit 1
  else
    memwrite_parent;;
    w ← get;
    exit (exit_code (wait_status (child bsim (mem w dstAlloc)))).
End Program.

(** ** Passes *)
Section Writing.
(** [bb] beats to a burst, [K] bursts to a pass and [ic] passes *)
Context (m0 : Mem) (dst bb K ic : Z) (Hbb : 0 < bb ≤ 16) (HK : 0 < K) (Hsz : 8 * (bb * K) < 2 ^ 32) (Hic : 0 < ic < 2 ^ 32).
Definition nb : Z := K * bb.
Abbreviation strm := (pass nb nb).
Lemma mw_nb_pos : 0 < nb.
Proof. unfold nb. nia. Qed.

(** The [j]-th beat written *)
Definition gen (j : Z) : Beat := (2 * (j mod nb), 2 * (j mod nb) + 1).
(** Of the beats, [n] have been written; [k] passes have been started and [f] have ended. *)
Definition made (n : Z) (d : Dev) : Z := n + length (wr_data (we d)).
Record writing (k n f : Z) (e : list Ind) (d : Dev) (m : Mem) : Prop := {
  wg_wr : wr_ok (8 * bb) (we d);
  wg_outs : Z.of_nat (f_outs (wr_f (we d))) = k - f ∧ k - f ≤ 1;
  wg_k : 0 ≤ k ≤ ic ∧ 0 ≤ f;
  wg_n : 0 ≤ n ≤ k * nb;
  wg_regs : pointer d = dst ∧ burstLen d = 2 * bb ∧ numWords d = 2 * nb ∧ portal d = [];
  wg_gen : cfs d = false ∧ made n d = k * nb ∨
    cfs d = true ∧ (k - 1) * nb ≤ made n d < k * nb ∧ srcGen d = 2 * (made n d - (k - 1) * nb);
  wg_data : wr_data (we d) = gen <$> seqZ n (made n d - n);
  wg_todo : addrs (wr_f (we d)) = strm dst n (k * nb);
  wg_iters : iterCnts d = ic - f ∧ iterCnt d = ic - (f - finishFifo d) ∧ finishFifo d ≤ f;
  wg_cf : cf d = bool_decide (f - finishFifo d < ic);
  wg_mem j : 0 ≤ j < n → beat_at m dst (8 * (j mod nb)) = gen j;
  wg_e : e = Started :: if bool_decide (f - finishFifo d = ic) then [WriteDone] else [] }.
Definition write_cost (k n : Z) (d : Dev) : Z :=
  (8 * nb + 24) * (ic - k) + wr_cost (we d) + 8 * f_outs (wr_f (we d)) + 6 * finishFifo d + (k * nb - made n d).
Definition write_step (k n : Z) (e l : list Ind) (d d' : Dev) (m' : Mem) : Prop :=
  ∃ k' n' f', writing k' n' f' (e ++ l) d' m' ∧ write_cost k' n' d' + 4 * length l < write_cost k n d.

Lemma gen_made k g : (k - 1) * nb ≤ g < k * nb → g mod nb = g - (k - 1) * nb.
Proof. intros H. symmetry. apply (Z.mod_unique_pos _ _ (k - 1)); lia. Qed.
Lemma mw_idle_written k n f e d m : writing k n f e d m → f_outs (wr_f (we d)) = 0%nat → n = k * nb ∧ cfs d = false.
Proof.
  intros C Ho. assert (n = k * nb) as ->.
  { destruct (decide (n < k * nb)) as [Hlt|]; [|pose proof (wg_n _ _ _ _ _ _ C); lia].
    pose proof (wo_outs _ _ (wg_wr _ _ _ _ _ _ C)) as Hs. rewrite (wg_todo _ _ _ _ _ _ C) in Hs.
    pose proof (pass_lasts (N:=nb) dst n k Hlt). lia. }
  split; [done|]. destruct (wg_gen _ _ _ _ _ _ C) as [[? _]|(_ & H & _)]; [done|]. unfold made in H. lia.
Qed.

Lemma start_step k n f e d m d' : writing k n f e d m → start d = Some d' → write_step k n e [] d d' m.
Proof.
  intros C E. exists (k + 1), n, f. rewrite app_nil_r. pose proof mw_nb_pos.
  pose proof (mw_idle_written k n f e d m C) as Hidle.
  destruct C as [C1 [C2 C2'] C3 C4 (R1 & R2 & R3 & R4) C5 C6 C7 (I1 & I2 & I3) C8 C9 C10].
  destruct d as [we p nw bl cf sg ic' ics cfs ff po]. unfold write_cost, made in *. simpl in *. subst.
  case_bool_decide as Hi; [|done]. destruct cfs; [done|]. simpl in E.
  assert (chunk (2 * nb) = 8 * nb) as Ech by (unfold chunk; rewrite Z.div_1_r; lia). rewrite Ech in E.
  rewrite (u32_small (8 * nb)), (u32_small (2 * bb * 4)), u8_small in E by (unfold nb in *; lia).
  replace (mkCmd dst (0 * (8 * nb)) (2 * bb * 4) (8 * nb)) with (whole bb K dst) in E by (unfold whole; f_equal; lia).
  destruct (wr_put 1 _ we) as [we'|] eqn:Ep; [|done]. injection E as <-.
  destruct (wr_put_stream (8 * bb) ltac:(lia) ltac:(by exists bb; lia) 1 _ we we' C1 (whole_ok bb K ltac:(lia) HK dst) Ep)
    as (P1 & P2 & P3 & P4 & P5 & P6).
  rewrite (whole_addrs bb K ltac:(lia) HK dst k) in P2, P4 by lia. fold nb in P2, P4. rewrite pass_length in P4 by lia.
  destruct Hidle as [Hn _]; [lia|].
  split; [split; simpl; unfold made; simpl; rewrite ?P3; try done; try lia|simpl; rewrite P3; lia].
  rewrite P2, C7, pass_app by lia. done.
Qed.
Lemma finish_step k n f e d m d' : writing k n f e d m → finish d = Some d' → write_step k n e [] d d' m.
Proof.
  intros C E. exists k, n, (f + 1). rewrite app_nil_r.
  destruct C as [C1 [C2 C2'] C3 C4 R C5 C6 C7 (I1 & I2 & I3) C8 C9 C10].
  destruct d as [we p nw bl cf sg ic' ics cfs ff po]. unfold write_cost, made in *. simpl in *.
  destruct (wr_get we) as [we'|] eqn:Ep; [|done]. simpl in E. case_bool_decide; [|done]. injection E as <-.
  destruct (wr_get_stream (8 * bb) we we' C1 Ep) as (P1 & P2 & P3 & P4 & P5 & P6).
  replace (f + 1 - S ff) with (f - ff) by lia.
  split; [split; simpl; unfold made; simpl; rewrite ?P2, ?P3; try done; try lia|simpl; rewrite P3; lia].
  - rewrite u32_small by lia. lia.
  - by replace (f + 1 - S ff) with (f - ff) by lia.
  - by replace (f + 1 - S ff) with (f - ff) by lia.
Qed.
Lemma src_step k n f e d m d' : writing k n f e d m → srcr d = Some d' → write_step k n e [] d d' m.
Proof.
  intros C E. exists k, n, f. rewrite app_nil_r. pose proof mw_nb_pos as Hnb.
  destruct C as [C1 C2 C3 C4 (R1 & R2 & R3 & R4) C5 C6 C7 I C8 C9 C10].
  destruct d as [we p nw bl cf sg ic' ics cfs ff po]. unfold write_cost, made in *. simpl in *. subst nw.
  destruct cfs; [|done]. destruct C5 as [[? _]|(_ & Hg & Hsg)]; [done|].
  assert (chunk (2 * nb) / 4 = 2 * nb) as Ech by (unfold chunk; rewrite Z.div_1_r, Z.div_mul; lia). rewrite Ech in E.
  assert (8 * nb < 2 ^ 32) by (unfold nb; lia).
  rewrite !u32_small in E by lia.
  destruct (wr_enq _ we) as [we'|] eqn:Ep; [|done]. injection E as <-.
  destruct (wr_enq_stream (8 * bb) _ we we' C1 Ep) as (P1 & P2 & P3 & P4 & P5 & _).
  split; [split; simpl; unfold made; simpl; rewrite ?P2, ?P3, ?P5, ?length_app; simpl; try done|simpl; rewrite P3, length_app; simpl; lia].
  - clear C8 C10. case_bool_decide; [left|right]; (split_and!; [done|lia..]).
  - rewrite C6 at 1. replace (n + (length (wr_data we) + 1)%nat - n) with (n + length (wr_data we) - n + 1) by lia.
    rewrite seqZ_app, fmap_app by lia. simpl. do 2 f_equal. unfold gen.
    replace (n + (n + length (wr_data we) - n)) with (n + length (wr_data we)) by lia.
    rewrite (gen_made k) by done. by rewrite Hsg.
Qed.
Lemma indicate_step k n f e d m d' l : writing k n f e d m → indicate_finish d = Some (d', l) →
  write_step k n e l d d' m.
Proof.
  intros C E. exists k, n, f.
  destruct C as [C1 C2 C3 C4 R C5 C6 C7 (I1 & I2 & I3) C8 C9 C10].
  destruct d as [we p nw bl cf sg ic' ics cfs ff po]. unfold write_cost, made in *. simpl in *.
  destruct ff as [|ff]; [done|]. subst ic'. rewrite (bool_decide_false (f - _ = ic)) in C10 by lia.
  rewrite bool_decide_true in C8 by lia. subst cf e. rewrite u32_small in E by lia.
  case_bool_decide; injection E as <- <-; (split; [split; simpl; unfold made; simpl; try done; try lia|simpl; lia]).
  - by rewrite bool_decide_false by lia.
  - by rewrite bool_decide_true by lia.
  - by rewrite bool_decide_true by lia.
  - by rewrite bool_decide_false by lia.
Qed.
Lemma mw_wr_step k n f e d m q s m' : writing k n f e d m → wr_fire m q (we d) = Some (s, m') →
  write_step k n e [] d (set_engine s d) m'.
Proof.
  intros [C1 C2 C3 C4 R C5 C6 C7 I C8 C9 C10] E.
  destruct d as [we p nw bl cf sg ic' ics cfs ff po]. unfold write_cost, made in *. simpl in *.
  destruct (wr_fire_stream (8 * bb) ltac:(lia) ltac:(by exists bb; lia) m q we s m' C1 E)
    as (P1 & P2 & P3 & [(P4 & P5 & ->)|(pp & off & lst & v & P4 & P5 & ->)]).
  { exists k, n, f. rewrite app_nil_r. unfold write_cost, made.
    split; [split; simpl; unfold made; simpl; rewrite ?P3, ?P4, ?P5; done|]. simpl. rewrite P5. lia. }
  rewrite C7 in P4. apply pass_cons in P4 as ([= -> -> ->] & P4 & Hlt). rewrite P5 in *. simpl in *.
  rewrite seqZ_cons in C6 by lia. injection C6 as -> C6.
  exists k, (n + 1), f. rewrite app_nil_r. unfold write_cost, made.
  split; [split; simpl; unfold made; simpl; rewrite ?P3; try done; try lia|simpl; rewrite P5; simpl; lia].
  - destruct C5 as [[-> C5]|(-> & C5 & ->)]; [left|right]; (split_and!; [done|lia..]).
  - rewrite C6 at 1. f_equal. f_equal; lia.
  - intros j Hj. rewrite store_beat_at. clear C8 C10. case_bool_decide as Ej.
    + destruct Ej as [_ Ej]. unfold gen. by rewrite Ej.
    + apply C9. destruct (decide (j = n)) as [->|]; [tauto|lia].
Qed.

(** *** The device as a whole *)
Definition started : Dev := mkDev wr_init 0 0 0 false 0 0 0 false 0 [mkStart dst (2 * nb) (2 * bb) ic].
Definition budget : Z := (8 * nb + 24) * ic.
(** Before the request is accepted, and after *)
Definition dev_inv (e : list Ind) (d : Dev) (m : Mem) (c : Z) : Prop :=
  e = [] ∧ d = started ∧ m = m0 ∧ c = budget + 5 ∨
  ∃ k n f, writing k n f e d m ∧ c = write_cost k n d.

Lemma mw_accepted : ∃ d, accept started = Some (d, [Started]) ∧ writing 0 0 0 [Started] d m0 ∧ write_cost 0 0 d = budget.
Proof.
  pose proof mw_nb_pos. assert (8 * nb < 2 ^ 32) by (unfold nb; lia).
  eexists. split; [done|]. unfold write_cost, made. rewrite !u32_small by lia. split.
  2: { cbn [we]. change (wr_cost wr_init) with 0. unfold budget. simpl. lia. }
  split; unfold made; simpl; try done; try lia.
  - apply wr_init_ok.
  - by rewrite bool_decide_true by lia.
  - by rewrite bool_decide_false by lia.
Qed.
Lemma mw_dev_step e d m c r d' m' l : dev_inv e d m c → dfire r d m = Some (d', m', l) →
  ∃ c', dev_inv (e ++ l) d' m' c' ∧ c' + 4 * length l < c.
Proof.
  intros [(-> & -> & -> & ->)|(k & n & f & C & ->)] E.
  { assert (r = DAccept) as -> by (destruct r as [| | | | |[]]; done).
    destruct mw_accepted as (d1 & E1 & C1 & Hc). simpl in E. unfold started in E1. simpl in E1. injection E1 as E1.
    injection E as <- <- <-. exists budget. rewrite E1. split; [right; by exists 0, 0, 0|simpl; lia]. }
  assert (write_step k n e l d d' m') as (k' & n' & f' & C' & Hc); [|eexists; split; [right; by exists k', n', f'|done]].
  destruct r as [| | | | |q]; simpl in E; unfold quietly in E.
  - destruct (accept d) as [[]|] eqn:Ea; [|done]. destruct C as [_ _ _ _ (_ & _ & _ & Hp)].
    destruct d. simpl in *. by subst.
  - destruct (start d) eqn:Ed; [|done]. injection E as <- <- <-. by eapply start_step.
  - destruct (finish d) eqn:Ed; [|done]. injection E as <- <- <-. by eapply finish_step.
  - destruct (srcr d) eqn:Ed; [|done]. injection E as <- <- <-. by eapply src_step.
  - destruct (indicate_finish d) as [[]|] eqn:Ed; [|done]. injection E as <- <- <-. by eapply indicate_step.
  - destruct (wr_fire m q (we d)) as [[]|] eqn:Ed; [|done]. injection E as <- <- <-. by eapply mw_wr_step.
Qed.
Lemma mw_write_progress k n f e d m : writing k n f e d m → finishFifo d = 0%nat → f_outs (wr_f (we d)) ≠ 0%nat →
  ∃ q, is_Some (dfire q d m).
Proof.
  intros [C1 C2 C3 C4 R C5 C6 C7 I C8 C9 C10] Hf Ho. unfold made in *.
  destruct (wr_progress (8 * bb) m (we d) C1 Ho) as [[q [[s m'] E]]|[[s E]|[H1 H2]]].
  - exists (DWr q). simpl. rewrite E. by eexists.
  - exists DFinish. destruct d. simpl in *. subst. rewrite E. by eexists.
  - replace (8 * bb / 8) with bb in * by div_lia. rewrite C7, pass_length in H2 by lia.
    exists DSrc. destruct C5 as [[_ ?]|(Hc & _ & _)]; [lia|].
    destruct d as [[[o cs ld wk rsp cap out] dt dn] p nw bl cf sg ic' ics cfs ff po]. simpl in *. subst cfs.
    rewrite (bool_decide_true (length dt < 32)%nat) by lia. by eexists.
Qed.
Lemma mw_dev_progress e d m c : dev_inv e d m c → WriteDone ∉ e → ∃ q, is_Some (dfire q d m).
Proof.
  intros [(-> & -> & -> & ->)|(k & n & f & C & ->)] He; [exists DAccept; by eexists|].
  assert (f - finishFifo d ≠ ic) as Hne.
  { intros Hf. destruct He. rewrite (wg_e _ _ _ _ _ _ C), bool_decide_true by done. right. left. }
  pose proof (wg_k _ _ _ _ _ _ C). pose proof (wg_outs _ _ _ _ _ _ C) as [Ho _].
  destruct (finishFifo d) as [|ff] eqn:Eff.
  - destruct (decide (f_outs (wr_f (we d)) = 0%nat)) as [Ho'|]; [|by eapply mw_write_progress].
    destruct (mw_idle_written _ _ _ _ _ _ C Ho') as [_ Hcf]. pose proof (wg_iters _ _ _ _ _ _ C) as (I1 & _).
    exists DStart. destruct d as [[[o cs ld wk rsp cap out] dt dn] p nw bl cf sg ic' ics cfs ff po].
    simpl in *. subst o. subst. rewrite bool_decide_true by lia. by eexists.
  - pose proof (wg_cf _ _ _ _ _ _ C) as Hcf. rewrite Eff, bool_decide_true in Hcf by lia.
    exists DIndicate. destruct d. simpl in *. subst. case_bool_decide; by eexists.
Qed.
(** Once it has said so, the device has written the whole buffer. *)
Definition counted (m : Mem) : Prop := ∀ i, 0 ≤ i < 2 * nb → m dst i = i.
Lemma mw_dev_done e d m c : dev_inv e d m c → WriteDone ∈ e → counted m.
Proof.
  intros [(-> & -> & -> & ->)|(k & n & f & C & ->)] He; [by apply not_elem_of_nil in He|].
  pose proof (wg_e _ _ _ _ _ _ C) as Ee. case_bool_decide as Hd; [|by rewrite Ee, list_elem_of_singleton in He].
  pose proof (wg_k _ _ _ _ _ _ C). pose proof (wg_outs _ _ _ _ _ _ C) as [Ho _]. pose proof (wg_iters _ _ _ _ _ _ C) as (_ & _ & Hff).
  destruct (mw_idle_written _ _ _ _ _ _ C ltac:(lia)) as [-> _]. intros i Hi. pose proof mw_nb_pos.
  pose proof (wg_mem _ _ _ _ _ _ C (i / 2) ltac:(split; [apply Z.div_pos; lia|apply Z.div_lt_upper_bound; nia])) as Hm.
  unfold gen in Hm. rewrite (Z.mod_small (i / 2)) in Hm by (split; [apply Z.div_pos; lia|apply Z.div_lt_upper_bound; lia]).
  unfold beat_at in Hm. replace (8 * (i / 2) / 4) with (2 * (i / 2)) in Hm by div_lia. injection Hm as H1 H2.
  destruct (decide (i mod 2 = 0)); [replace i with (2 * (i / 2)) by div_lia|replace i with (2 * (i / 2) + 1) by div_lia]; done.
Qed.
End Writing.

(** ** The program's verdict *)
Lemma child_counted bsim b : (∀ i, 0 ≤ i < words bsim → b i = i) → child bsim b = 0.
Proof.
  intros Hb. unfold child.
  assert (∀ n : nat, Z.of_nat n ≤ words bsim →
    foldl (λ '(mismatch, sg) i, (mismatch || negb (bool_decide (b i = sg)), u32 (sg + 1))) (false, 0) (seqZ 0 n) =
      (false, Z.of_nat n)) as H.
  { induction n as [|n IH]; intros Hn; [done|]. replace (Z.of_nat (S n)) with (Z.of_nat n + 1) by lia.
    rewrite seqZ_app, foldl_app, IH by lia. simpl. rewrite Hb by lia. rewrite bool_decide_true by lia.
    rewrite u32_small; [done|]. assert (words bsim < 2 ^ 32) by (by destruct bsim). lia. }
  assert (0 ≤ words bsim) as Hw by (by destruct bsim).
  specialize (H (Z.to_nat (words bsim))). rewrite Z2Nat.id in H by done. by rewrite H.
Qed.

Section Verdict.
Context (m0 : Mem) (dst : Z) (bsim : bool).
(** The bursts of a pass, of 8 beats *)
Definition bursts : Z := if bsim then 18688 else 299008.
Abbreviation inv := (dev_inv m0 dst 8 bursts (iters bsim)).
Lemma mw_constants : 0 < 8 ≤ 16 ∧ 0 < bursts ∧ 8 * (8 * bursts) < 2 ^ 32 ∧ 0 < iters bsim < 2 ^ 32 ∧
  words bsim = 2 * nb 8 bursts.
Proof. unfold bursts, iters, nb. destruct bsim; split_and!; done. Qed.

(** The program after it has waited [k] times for the semaphore *)
Definition prog_inv (k : Z) (e : list Ind) (m : Mem) (l : list Ind) (th : list Act) (p : Z) : Prop :=
  e `prefix_of` [Started; WriteDone] ∧ ∃ h, e = h ++ l ∧
  ((h = [] ∨ h = [Started]) ∧ th = [] ∧ p = 0 ∧ k = 0 ∨
   h = [Started; WriteDone] ∧ (th = [Post] ∧ p = 0 ∧ k = 0 ∨ th = [] ∧ p = 1 - k)).

Lemma mw_dev_sent e d m c : inv e d m c → e `prefix_of` [Started; WriteDone].
Proof.
  intros [(-> & _)|(k & n & f & C & _)]; [apply prefix_nil|]. rewrite (wg_e _ _ _ _ _ _ _ _ _ _ C).
  case_bool_decide; [done|]. by exists [WriteDone].
Qed.
Lemma memwrite_frame k : frame_ok dfire callback run inv (prog_inv k) 4.
Proof.
  destruct mw_constants as (H1 & H2 & H3 & H4 & H5).
  split.
  - intros e d m c [(_ & _ & _ & ->)|(k' & n & f & C & ->)].
    + unfold budget. pose proof (mw_nb_pos 8 bursts H1 H2). nia.
    + pose proof (mw_nb_pos 8 bursts H1 H2). pose proof (wr_cost_nonneg (we d)).
      destruct C as [_ _ C3 _ _ C5 _ _ _ _ _ _]. unfold write_cost. nia.
  - intros. by eapply mw_dev_step.
  - intros e d m c r d' m' l qs th p HI (Hp & h & -> & Hh) E.
    destruct (mw_dev_step m0 dst 8 bursts (iters bsim) H1 H2 H3 H4 _ d m c r d' m' l HI E) as (c' & HI' & _).
    split; [by eapply mw_dev_sent|]. exists h. by rewrite app_assoc.
  - intros e m i l p (Hp & h & -> & Hh). split; [done|]. exists (h ++ [i]).
    rewrite <-app_assoc. split; [done|].
    destruct Hh as [([->| ->] & _ & -> & ->)|(-> & _)]; apply prefix_cons_inv_1 in Hp as Hi.
    + subst i. left. by split_and!; [right|..].
    + apply prefix_cons_inv_2, prefix_cons_inv_1 in Hp. subst i. right. split; [done|]. by left.
    + by apply prefix_cons_inv_2, prefix_cons_inv_2, prefix_nil_not in Hp.
  - intros e m l [] th p (Hp & h & -> & Hh). split; [done|]. exists h. split; [done|].
    destruct Hh as [(_ & ? & _)|(-> & [([= ->] & -> & ->)|(? & _)])]; [done| |done].
    right. split; [done|]. by right.
Qed.
Lemma mw_prog_taken w c : world_ok inv (prog_inv 0) 4 0 w c → 0 < prog w →
  world_ok inv (prog_inv 1) 4 0 (upd_prog (λ s, s - 1) w) c.
Proof.
  intros (e & cd & HI & (Hp & h & Eh & Hh) & H) Hs. destruct w as [d m l q k th p s]. exists e, cd. simpl in *.
  split_and!; try apply H; try done. split; [done|]. exists h. split; [done|].
  destruct Hh as [(_ & _ & -> & _)|(-> & [(_ & -> & _)|(? & ->)])]; [done|done|]. right. split; [done|]. by right.
Qed.
Lemma mw_prog_at_rest e m l th p : prog_inv 1 e m l th p → WriteDone ∈ e.
Proof. intros (_ & h & -> & [(_ & _ & _ & ?)|(-> & _)]); [done|]. right. left. Qed.
End Verdict.

(** The program at its start, with any contents of memory. *)
Definition boot (m : Mem) : @World Dev Ind Act Z := mkWorld dev_init m [] 0 0 [] 0 0.
Lemma mw_fill_returns dst l m : ∃ m1, for_each l (λ i, store dst i 0xDEADBEEF) (boot m) = (Done tt, boot m1).
Proof.
  revert m. induction l as [|i l IH]; intros m; [by exists m|]. simpl.
  rewrite (bind_Done _ _ _ tt (boot (λ b' j, if bool_decide (b' = dst ∧ j = i) then u32 0xDEADBEEF else m b' j))) by done.
  apply IH.
Qed.

(** C14. The memory write test passes on every run: whatever the buffer holds at first and
    however the device, the write engine and the event thread interleave, the device
    writes each pass and reports only when the last pass is in memory, the
    child finds the number of each word in it and exits with 0, and so does the parent. *)
Theorem memwrite_verdict dst bsim choose fuel m pid :
  work_conserving (bfire dfire callback run) choose →
  (64 * bursts bsim + 24) * iters bsim + 8 ≤ Z.of_nat fuel → pid ≠ -1 →
  ∃ w', memwrite_main dst bsim choose fuel 0 pid (boot m) = (Exited 0, w') ∧
    (∀ i, 0 ≤ i < words bsim → mem w' dst i = i) ∧ child bsim (mem w' dst) = 0.
Proof.
  intros Hch Hf Hpid. destruct (mw_constants bsim) as (H1 & H2 & H3 & H4 & Hw).
  destruct (mw_fill_returns dst (seqZ 0 (words bsim)) m) as (m1 & E1).
  set (w1 := mkWorld (started dst 8 (bursts bsim) (iters bsim)) m1 [] 0 0 [] 0 0 : @World Dev Ind Act Z).
  pose proof (memwrite_frame m1 dst bsim) as F.
  destruct (wait_spec dfire callback run choose Hch fuel (dev_inv m1 dst 8 (bursts bsim) (iters bsim))
    (prog_inv 0) 4 ltac:(by intros []) (F 0) id (λ s, s - 1) w1 (budget 8 (bursts bsim) (iters bsim) + 5))
    as (w2 & c2 & W2 & Hc2 & Hs2 & E2).
  - exists [], (budget 8 (bursts bsim) (iters bsim) + 5). split_and!; try done.
    + by left.
    + split_and!; [apply prefix_nil|]. exists []. split; [done|]. left. by split_and!; [left|..].
    + by right.
    + simpl. lia.
  - intros e d m' c p HI (Hp & h & -> & Hh) Hs. eapply mw_dev_progress; try done. rewrite app_nil_r.
    destruct Hh as [([->| ->] & _)|(-> & [(? & _)|(_ & ->)])]; try done;
      [by apply not_elem_of_nil|by rewrite list_elem_of_singleton].
  - unfold budget, nb. lia.
  - apply mw_prog_taken in W2; [|done]. unfold budget, nb in Hc2.
    destruct (stats_spec dfire callback run choose Hch fuel _ _ 4 ltac:(by intros []) (F 1) _ c2 W2 ltac:(lia))
      as (w3 & c3 & (e & cd & HI & HJ & _) & Hc3 & _ & E3).
    apply mw_prog_at_rest in HJ. pose proof (mw_dev_done m1 dst 8 (bursts bsim) (iters bsim) H1 H2 H4 e _ _ cd HI HJ) as Hcp.
    assert (∀ i, 0 ≤ i < words bsim → mem w3 dst i = i) as Hmem by (intros i Hi; apply Hcp; by rewrite <-Hw).
    exists w3. pose proof (child_counted bsim (mem w3 dst) Hmem) as Hchild. split_and!; [|done..].
    unfold memwrite_main. rewrite (bool_decide_false (0 < 0)), (bool_decide_false (pid = -1)) by (done || lia).
    rewrite (bind_Done _ _ _ tt w3); [rewrite (bind_Done _ _ _ w3 w3) by done; unfold exit; by rewrite Hchild|].
    unfold memwrite_parent. rewrite (bind_Done _ _ _ _ _ E1), (bind_Done _ _ _ tt w1);
      [|unfold w1, started; by rewrite <-Hw].
    by rewrite (bind_Done _ _ _ _ _ E2).
Qed.
Definition drules : list DRule := [DAccept; DStart; DFinish; DSrc; DIndicate; DWr WLoad; DWr WReq; DWr WBeat; DWr WDone].
Lemma mw_drules_all r : r ∈ drules.
Proof. destruct r as [| | | | |[]]; repeat first [by left | right]. Qed.
Lemma memwrite_verdict_witness : ∃ w',
  memwrite_main 1 true (first_of (bfire dfire callback run) (brules drules) BStep) (Z.to_nat 2400000) 0 77
    (boot (λ _ _, 0)) = (Exited 0, w') ∧
  (∀ i, 0 ≤ i < 299008 → mem w' 1 i = i) ∧ child true (mem w' 1) = 0.
Proof.
  apply memwrite_verdict; [apply first_of_conserving, brules_all, mw_drules_all| |done].
  rewrite Z2Nat.id by done. done.
Defined.

(** The parent hands the status of waitpid to exit: the code of the child is lost, and the
    parent succeeds also when the child has found a mismatch. *)
Lemma child_status_lost code : exit_code (wait_status code) = 0.
Proof.
  unfold exit_code, wait_status. rewrite shiftl_mul, (land_low_mod _ 8) by lia. change (2 ^ 8) with 256.
  by rewrite Z_mod_mult.
Qed.
Lemma mismatch_unnoticed bsim b : b 0 ≠ 0 → child bsim b = 1 ∧ exit_code (wait_status (child bsim b)) = 0.
Proof.
  intros Hb. split; [|apply child_status_lost]. unfold child.
  assert (∃ l, seqZ 0 (words bsim) = 0 :: l) as [l ->] by (destruct bsim; rewrite seqZ_cons by done; by eexists). simpl.
  rewrite bool_decide_false by done. simpl. generalize (u32 (0 + 1)). induction l as [|i l IH]; intros x; [done|]. simpl. apply IH.
Qed.
