(* ===== verification/Memrw.v ===== *)
(** * Reading and writing at once (src/examples/memrw, src/lib/cpp/testmemrw.h)

    The device reads one buffer and drops what it reads, and fills another with the
    64-bit number 1; the two sides are independent and report separately, in either order.  The
    program waits for both. *)
From stdpp Require Import base numbers list.
From S2P Require Import Prelude Rules MemEngines Bench.
Local Open Scope Z_scope.

(** ** The device *)

(** [examples/memrw/Memrw.bsv:34-36] MemrwRequest: a start that waits in the portal *)
Record startRW := mkStart { s_wrPointer : Z; s_rdPointer : Z; s_numWords : Z; s_burstLen : Z; s_iterCnt : Z }.
(** [examples/memrw/Memrw.bsv:38-42] MemrwIndication *)
Inductive Ind := Started | ReadDone | WriteDone.
#[global] Instance Ind_eq_dec : EqDecision Ind.
Proof. solve_decision. Defined.
(** [examples/memrw/Memrw.bsv:50-61] mkMemrw: the engines and the registers *)
Record Dev := mkDev { re : Rd; we : Wr; rdIterCnt : Z; wrIterCnt : Z; numWords : Z; rdPointer : Z;
  wrPointer : Z; burstLen : Z; portal : list startRW }.
Definition dev_init : Dev := mkDev rd_init wr_init 0 0 0 0 0 0 [].

(** [examples/memrw/Memrw.bsv:63-67] startRead *)
Definition startRead (d : Dev) : option Dev :=
  let '(mkDev re we ri wi nw rp wp bl po) := d in
  if bool_decide (0 < ri) then
    re ← rd_put 1 (mkCmd rp 0 (u8 (u32 (bl * 4))) (u32 (nw * 4))) re;
    Some (mkDev re we (u32 (ri - 1)) wi nw rp wp bl po)
  else None.
(** [examples/memrw/Memrw.bsv:69-73] finishRead *)
Definition finishRead (d : Dev) : option (Dev * list Ind) :=
  let '(mkDev re we ri wi nw rp wp bl po) := d in
  re ← rd_get re;
  Some (mkDev re we ri wi nw rp wp bl po, if bool_decide (ri = 0) then [ReadDone] else []).
(** [examples/memrw/Memrw.bsv:75-77] readConsume *)
Definition readConsume (d : Dev) : option Dev :=
  let '(mkDev re we ri wi nw rp wp bl po) := d in
  '(_, re) ← rd_deq re; Some (mkDev re we ri wi nw rp wp bl po).
(** [examples/memrw/Memrw.bsv:79-83] startWrite *)
Definition startWrite (d : Dev) : option Dev :=
  let '(mkDev re we ri wi nw rp wp bl po) := d in
  if bool_decide (0 < wi) then
    we ← wr_put 1 (mkCmd wp 0 (u8 (u32 (bl * 4))) (u32 (nw * 4))) we;
    Some (mkDev re we ri (u32 (wi - 1)) nw rp wp bl po)
  else None.
(** [examples/memrw/Memrw.bsv:85-89] finishWrite *)
Definition finishWrite (d : Dev) : option (Dev * list Ind) :=
  let '(mkDev re we ri wi nw rp wp bl po) := d in
  we ← wr_get we;
  Some (mkDev re we ri wi nw rp wp bl po, if bool_decide (wi = 0) then [WriteDone] else []).
(** [examples/memrw/Memrw.bsv:91-93] writeProduce *)
Definition one : Beat := (1, 0).
Definition writeProduce (d : Dev) : option Dev :=
  let '(mkDev re we ri wi nw rp wp bl po) := d in
  we ← wr_enq one we; Some (mkDev re we ri wi nw rp wp bl po).
(** [examples/memrw/Memrw.bsv:96-106] start *)
Definition accept (d : Dev) : option (Dev * list Ind) :=
  let '(mkDev re we ri wi nw rp wp bl po) := d in
  match po with
  | mkStart wp rp nw bl ic :: po => Some (mkDev re we (u32 ic) (u32 ic) (u32 nw) rp wp (u32 bl) po, [Started])
  | [] => None
  end.

Inductive DRule := DAccept | DStartRead | DStartWrite | DFinishRead | DFinishWrite | DConsume | DProduce
  | DRd (r : RdRule) | DWr (r : WrRule).
Definition set_engines (r : Rd) (w : Wr) (d : Dev) : Dev :=
  let '(mkDev _ _ ri wi nw rp wp bl po) := d in mkDev r w ri wi nw rp wp bl po.
Definition quietly (m : Mem) (d : option Dev) : option (Dev * Mem * list Ind) := d ← d; Some (d, m, []).
Definition dfire (r : DRule) (d : Dev) (m : Mem) : option (Dev * Mem * list Ind) :=
  match r with
  | DAccept => '(d, l) ← accept d; Some (d, m, l)
  | DStartRead => quietly m (startRead d)
  | DStartWrite => quietly m (startWrite d)
  | DFinishRead => '(d, l) ← finishRead d; Some (d, m, l)
  | DFinishWrite => '(d, l) ← finishWrite d; Some (d, m, l)
  | DConsume => quietly m (readConsume d)
  | DProduce => quietly m (writeProduce d)
  | DRd r => s ← rd_fire m r (re d); Some (set_engines s (we d) d, m, [])
  | DWr r => '(s, m) ← wr_fire m r (we d); Some (set_engines (re d) s d, m, [])
  end.

(** ** The program *)

(** [lib/cpp/testmemrw.h:10-11] the semaphores *)
Record Prog := mkProg { read_done_sem : Z; write_done_sem : Z }.
(** [lib/cpp/testmemrw.h:16-20] numWords, without and with the simulator *)
Definition words (bsim : bool) : Z := if bsim then Z.shiftl 16 10 else Z.shiftl 16 18.
(** [lib/cpp/testmemrw.h:116-121] burstLen and iterCnt *)
Definition burst : Z := 16.
Definition iters (bsim : bool) : Z := if bsim then 2 else 64.
(** [lib/cpp/testmemrw.h:26-45] MemrwIndication, without the timer *)
Inductive Act := PostRead | PostWrite.
Definition callback (i : Ind) : list Act :=
  match i with Started => [] | ReadDone => [PostRead] | WriteDone => [PostWrite] end.
Definition run (a : Act) (m : Mem) (p : Prog) : Prog :=
  let '(mkProg r w) := p in
  match a with PostRead => mkProg (r + 1) w | PostWrite => mkProg r (w + 1) end.
(** sem_wait takes one from a semaphore. *)
Definition take_read (p : Prog) : Prog := mkProg (read_done_sem p - 1) (write_done_sem p).
Definition take_write (p : Prog) : Prog := mkProg (read_done_sem p) (write_done_sem p - 1).

Section Program.
(** The references of the two buffers and how the program was built. *)
Context (srcAlloc dstAlloc : Z) (bsim : bool).
Abbreviation W := (@World Dev Ind Act Prog).
Context (choose : nat → W → @BRule DRule) (fuel : nat).

(** [lib/cpp/testmemrw.h:97-100] runtest: the contents of the buffers *)
Definition fill : M W () := for_each (seqZ 0 (words bsim)) (λ i,
  store srcAlloc i i;; store dstAlloc i 0x5a5abeef).
(** [lib/cpp/testmemrw.h:56-141] runtest; the references are given, and the address requests,
    the timer and the report of the traffic are left out.  The function has no return
    statement; it is read as coming back to main. *)
Definition memrw_runtest : M W () :=
  fill;;
  send (λ d, let '(mkDev re we ri wi nw rp wp bl po) := d in
    mkDev re we ri wi nw rp wp bl (po ++ [mkStart dstAlloc srcAlloc (words bsim) burst (iters bsim)]));;
  sem_wait dfire callback run choose fuel read_done_sem take_read;;
  sem_wait dfire callback run choose fuel write_done_sem take_write;;
  show_mem_stats dfire callback run choose fuel;;
  show_mem_stats dfire callback run choose fuel.
(** [examples/memrw/testmemrw.cpp:33-37] main *)
Definition memrw_main : M W () := memrw_runtest;; exit 0.
End Program.

(** ** Passes *)
Section Passes.
(** [bb] beats to a burst, [K] bursts to a pass and [ic] passes *)
Context (m0 : Mem) (src dst bb K ic : Z) (Hbb : 0 < bb ≤ 16) (HK : 0 < K) (Hsz : 8 * (bb * K) < 2 ^ 32) (Hic : 0 < ic < 2 ^ 32).
Definition nb : Z := K * bb.
Lemma rw_nb_pos : 0 < nb.
Proof. unfold nb. nia. Qed.

(** [r] and [w] passes have been asked for; of the beats, [n] have been written. *)
Record going (r w n : Z) (e : list Ind) (d : Dev) (m : Mem) : Prop := {
  go_rd : rd_ok (8 * bb) m (re d);
  go_wr : wr_ok (8 * bb) (we d);
  go_outs : (f_outs (rd_f (re d)) ≤ 1)%nat ∧ (f_outs (wr_f (we d)) ≤ 1)%nat;
  go_r : 0 ≤ r ≤ ic ∧ 0 ≤ w ≤ ic ∧ 0 ≤ n ≤ w * nb;
  go_regs : rdPointer d = src ∧ wrPointer d = dst ∧ burstLen d = 2 * bb ∧ numWords d = 2 * nb ∧ portal d = [] ∧
    rdIterCnt d = ic - r ∧ wrIterCnt d = ic - w;
  go_data : Forall (λ v, v = one) (wr_data (we d));
  go_todo : addrs (wr_f (we d)) = pass nb nb dst n (w * nb);
  go_mem j : 0 ≤ j < n → beat_at m dst (8 * (j mod nb)) = one;
  go_frame q i : q ≠ dst → m q i = m0 q i;
  go_once : NoDup e ∧ Started ∈ e;
  go_read : ReadDone ∈ e ↔ r = ic ∧ f_outs (rd_f (re d)) = 0%nat;
  go_write : WriteDone ∈ e ↔ w = ic ∧ f_outs (wr_f (we d)) = 0%nat }.
Definition go_cost (r w : Z) (d : Dev) : Z :=
  (8 * nb + 24) * ((ic - r) + (ic - w)) + rd_cost (re d) + 8 * f_outs (rd_f (re d)) +
  2 * wr_cost (we d) + 8 * f_outs (wr_f (we d)) + (32 - length (wr_data (we d))).
Definition go_step (r w : Z) (e l : list Ind) (d d' : Dev) (m' : Mem) : Prop :=
  ∃ r' w' n', going r' w' n' (e ++ l) d' m' ∧ go_cost r' w' d' + 4 * length l < go_cost r w d.

Lemma rw_idle_written r w n e d m : going r w n e d m → f_outs (wr_f (we d)) = 0%nat → n = w * nb.
Proof.
  intros C Ho. pose proof (go_r _ _ _ _ _ _ C).
  destruct (decide (n < w * nb)) as [Hlt|]; [|lia].
  pose proof (wo_outs _ _ (go_wr _ _ _ _ _ _ C)) as Hs. rewrite (go_todo _ _ _ _ _ _ C) in Hs.
  pose proof (pass_lasts (N:=nb) dst n w Hlt). lia.
Qed.
(** An indication of the end is sent once. *)
Lemma sent_once (e : list Ind) i : NoDup e ∧ Started ∈ e → i ∉ e → NoDup (e ++ [i]) ∧ Started ∈ e ++ [i].
Proof.
  intros [Hn Hs] Hi. split; [|apply elem_of_app; by left]. apply NoDup_app. split_and!; [done| |apply NoDup_singleton].
  by intros x Hx ->%list_elem_of_singleton.
Qed.
Lemma startRead_step r w n e d m d' : going r w n e d m → startRead d = Some d' → go_step r w e [] d d' m.
Proof.
  intros C E. exists (r + 1), w, n. rewrite app_nil_r. pose proof rw_nb_pos.
  destruct C as [C1 C2 C3 C4 (R1 & R2 & R3 & R4 & R5 & R6 & R7) C5 C6 C7 C8 C9 C10 C11].
  destruct d as [re we ri wi nw rp wp bl po]. unfold go_cost in *. simpl in *. subst.
  assert (8 * nb < 2 ^ 32) by (unfold nb; lia).
  case_bool_decide; [|done]. rewrite (u32_small (2 * nb * 4)), (u32_small (2 * bb * 4)), u8_small, (u32_small (_ - 1)) in E by lia.
  replace (mkCmd src 0 (2 * bb * 4) (2 * nb * 4)) with (whole bb K src) in E by (unfold whole, nb; f_equal; lia).
  destruct (rd_put 1 _ re) as [re'|] eqn:Ep; [|done]. injection E as <-.
  destruct (rd_put_stream (8 * bb) ltac:(lia) ltac:(by exists bb; lia) m 1 _ re re' C1 (whole_ok bb K ltac:(lia) HK src) Ep)
    as (P1 & P2 & P3 & P4 & P5 & _).
  rewrite (whole_addrs bb K ltac:(lia) HK src 0) in P3 by lia. fold nb in P3. rewrite pass_length in P3 by lia.
  split; [split; simpl; try done; try lia|simpl; lia].
  - split_and!; try done; lia.
  - rewrite C10. lia.
Qed.
Lemma startWrite_step r w n e d m d' : going r w n e d m → startWrite d = Some d' → go_step r w e [] d d' m.
Proof.
  intros C E. exists r, (w + 1), n. rewrite app_nil_r. pose proof rw_nb_pos.
  destruct C as [C1 C2 C3 C4 (R1 & R2 & R3 & R4 & R5 & R6 & R7) C5 C6 C7 C8 C9 C10 C11].
  destruct d as [re we ri wi nw rp wp bl po]. unfold go_cost in *. simpl in *. subst.
  assert (8 * nb < 2 ^ 32) by (unfold nb; lia).
  case_bool_decide; [|done]. rewrite (u32_small (2 * nb * 4)), (u32_small (2 * bb * 4)), u8_small, (u32_small (_ - 1)) in E by lia.
  replace (mkCmd dst 0 (2 * bb * 4) (2 * nb * 4)) with (whole bb K dst) in E by (unfold whole, nb; f_equal; lia).
  destruct (wr_put 1 _ we) as [we'|] eqn:Ep; [|done]. injection E as <-.
  destruct (wr_put_stream (8 * bb) ltac:(lia) ltac:(by exists bb; lia) 1 _ we we' C2 (whole_ok bb K ltac:(lia) HK dst) Ep)
    as (P1 & P2 & P3 & P4 & P5 & P6).
  rewrite (whole_addrs bb K ltac:(lia) HK dst w) in P2, P4 by lia. fold nb in P2, P4. rewrite pass_length in P4 by lia.
  split; [split; simpl; rewrite ?P3; try done; try lia|simpl; rewrite P3; lia].
  - split_and!; try done; lia.
  - rewrite P2, C6, pass_app by lia. done.
  - rewrite C11. lia.
Qed.
Lemma finishRead_step r w n e d m d' l : going r w n e d m → finishRead d = Some (d', l) → go_step r w e l d d' m.
Proof.
  intros C E. exists r, w, n.
  destruct C as [C1 C2 C3 C4 (R1 & R2 & R3 & R4 & R5 & R6 & R7) C5 C6 C7 C8 C9 C10 C11].
  destruct d as [re we ri wi nw rp wp bl po]. unfold go_cost in *. simpl in *.
  destruct (rd_get re) as [re'|] eqn:Ep; [|done]. injection E as <- <-.
  destruct (rd_get_stream (8 * bb) m re re' C1 Ep) as (P1 & P2 & P3 & P4 & P5).
  assert (ReadDone ∉ e) as Hn by (rewrite C10; lia).
  case_bool_decide; (split; [|simpl; lia]); [|rewrite app_nil_r]; split; simpl; try done; try lia.
  - by apply sent_once.
  - rewrite elem_of_app, list_elem_of_singleton. split; [lia|by right].
  - rewrite elem_of_app, list_elem_of_singleton, C11. split; [by intros [?|?]|by left].
  - split; [done|lia].
Qed.
Lemma finishWrite_step r w n e d m d' l : going r w n e d m → finishWrite d = Some (d', l) → go_step r w e l d d' m.
Proof.
  intros C E. exists r, w, n.
  destruct C as [C1 C2 C3 C4 (R1 & R2 & R3 & R4 & R5 & R6 & R7) C5 C6 C7 C8 C9 C10 C11].
  destruct d as [re we ri wi nw rp wp bl po]. unfold go_cost in *. simpl in *.
  destruct (wr_get we) as [we'|] eqn:Ep; [|done]. injection E as <- <-.
  destruct (wr_get_stream (8 * bb) we we' C2 Ep) as (P1 & P2 & P3 & P4 & P5 & P6).
  assert (WriteDone ∉ e) as Hn by (rewrite C11; lia).
  case_bool_decide; (split; [|simpl; rewrite P3; lia]); [|rewrite app_nil_r]; split; simpl; rewrite ?P2, ?P3; try done; try lia.
  - by apply sent_once.
  - rewrite elem_of_app, list_elem_of_singleton, C10. split; [by intros [?|?]|by left].
  - rewrite elem_of_app, list_elem_of_singleton. split; [lia|by right].
  - split; [done|lia].
Qed.
Lemma consume_step r w n e d m d' : going r w n e d m → readConsume d = Some d' → go_step r w e [] d d' m.
Proof.
  intros [C1 C2 C3 C4 C5 C6 C7 C8 C9 C10 C11 C12] E. exists r, w, n. rewrite app_nil_r.
  destruct d as [re we ri wi nw rp wp bl po]. unfold go_cost in *. simpl in *.
  destruct (rd_deq re) as [[v re']|] eqn:Ep; [|done]. injection E as <-.
  destruct (rd_deq_stream (8 * bb) m re v re' C1 Ep) as (lst & P1 & P2 & P3 & P4 & P5).
  split; [split; simpl; rewrite ?P4; done|simpl; lia].
Qed.
Lemma produce_step r w n e d m d' : going r w n e d m → writeProduce d = Some d' → go_step r w e [] d d' m.
Proof.
  intros [C1 C2 C3 C4 C5 C6 C7 C8 C9 C10 C11 C12] E. exists r, w, n. rewrite app_nil_r.
  destruct d as [re we ri wi nw rp wp bl po]. unfold go_cost in *. simpl in *.
  destruct (wr_enq one we) as [we'|] eqn:Ep; [|done]. injection E as <-.
  destruct (wr_enq_stream (8 * bb) one we we' C2 Ep) as (P1 & P2 & P3 & P4 & P5 & _).
  split; [split; simpl; rewrite ?P2, ?P3, ?P5; try done|simpl; rewrite P3, length_app; simpl; lia].
  apply Forall_app. split; [done|]. by constructor.
Qed.
Lemma rw_rd_step r w n e d m q s : going r w n e d m → rd_fire m q (re d) = Some s →
  go_step r w e [] d (set_engines s (we d) d) m.
Proof.
  intros [C1 C2 C3 C4 C5 C6 C7 C8 C9 C10 C11 C12] E. exists r, w, n. rewrite app_nil_r.
  destruct d as [re we ri wi nw rp wp bl po]. unfold go_cost in *. simpl in *.
  destruct (rd_fire_stream (8 * bb) ltac:(lia) ltac:(by exists bb; lia) m q re s C1 E) as (P1 & P2 & P3 & P4 & _).
  split; [split; simpl; rewrite ?P4; done|simpl; lia].
Qed.
Lemma rw_wr_step r w n e d m q s m' : going r w n e d m → wr_fire m q (we d) = Some (s, m') →
  go_step r w e [] d (set_engines (re d) s d) m'.
Proof.
  intros [C1 C2 C3 C4 C5 C6 C7 C8 C9 C10 C11 C12] E.
  destruct d as [re we ri wi nw rp wp bl po]. unfold go_cost in *. simpl in *.
  destruct (wr_fire_stream (8 * bb) ltac:(lia) ltac:(by exists bb; lia) m q we s m' C2 E)
    as (P1 & P2 & P3 & [(P4 & P5 & ->)|(pp & off & lst & v & P4 & P5 & ->)]).
  { exists r, w, n. rewrite app_nil_r. unfold go_cost.
    split; [split; simpl; rewrite ?P3, ?P4, ?P5; done|]. simpl. rewrite P5. lia. }
  rewrite C7 in P4. apply pass_cons in P4 as ([= -> -> ->] & P4 & Hlt). rewrite P5 in *. simpl in *.
  apply Forall_cons in C6 as [-> C6].
  exists r, w, (n + 1). rewrite app_nil_r. unfold go_cost.
  split; [split; simpl; rewrite ?P3; try done; try lia|simpl; rewrite P5; simpl; lia].
  - by eapply rd_ok_mem.
  - intros j Hj. rewrite store_beat_at. case_bool_decide as Ej; [done|]. apply C8.
    destruct (decide (j = n)) as [->|]; [tauto|lia].
  - intros q' i Hq. unfold store_beat. rewrite !bool_decide_false by tauto. by apply C9.
Qed.

(** *** The device as a whole *)
Definition start_cmd : startRW := mkStart dst src (2 * nb) (2 * bb) ic.
Definition waiting (dt : list Beat) : Dev :=
  mkDev rd_init (mkWr (mkFront 0 [] [] [] 0 (length dt) 0) dt []) 0 0 0 0 0 0 [start_cmd].
Definition budget : Z := (8 * nb + 24) * (2 * ic).
(** Before the request is accepted, when the device already produces data, and after *)
Definition dev_inv (e : list Ind) (d : Dev) (m : Mem) (c : Z) : Prop :=
  e = [] ∧ m = m0 ∧ (∃ dt, d = waiting dt ∧ Forall (λ v, v = one) dt ∧ (length dt ≤ 32)%nat ∧
    c = budget + 5 + (32 - length dt)) ∨
  ∃ r w n, going r w n e d m ∧ c = go_cost r w d.

Lemma rw_accepted dt : Forall (λ v, v = one) dt → (length dt ≤ 32)%nat → ∃ d,
  accept (waiting dt) = Some (d, [Started]) ∧ going 0 0 0 [Started] d m0 ∧ go_cost 0 0 d = budget + (32 - length dt).
Proof.
  intros Hd Hl. pose proof rw_nb_pos. assert (8 * nb < 2 ^ 32) by (unfold nb; lia).
  eexists. split; [done|]. unfold go_cost. rewrite !u32_small by lia. split.
  2: { cbn [we re]. change (rd_cost rd_init) with 0.
    match goal with |- context [wr_cost ?w] => change (wr_cost w) with 0 end. unfold budget. simpl. lia. }
  split; simpl; try done; try lia.
  - apply rd_init_ok.
  - split; [by apply front_init_ok; lia|simpl..]; try done; try lia.
    change (reserved _) with 0. lia.
  - split_and!; try done; lia.
  - split; [apply NoDup_singleton|by left].
  - rewrite list_elem_of_singleton. split; [done|lia].
  - rewrite list_elem_of_singleton. split; [done|lia].
Qed.
Lemma rw_dev_step e d m c r d' m' l : dev_inv e d m c → dfire r d m = Some (d', m', l) →
  ∃ c', dev_inv (e ++ l) d' m' c' ∧ c' + 4 * length l < c.
Proof.
  intros [(-> & -> & dt & -> & Hd & Hl & ->)|(rr & w & n & C & ->)] E.
  { destruct r as [| | | | | | |[]|[]]; try done.
    - destruct (rw_accepted dt Hd Hl) as (d1 & E1 & C1 & Hc). unfold dfire in E. rewrite E1 in E.
      injection E as <- <- <-. exists (go_cost 0 0 d1). split; [right; by exists 0, 0, 0|]. rewrite Hc. simpl. lia.
    - simpl in E. unfold quietly in E. case_bool_decide; [|done]. injection E as <- <- <-.
      exists (budget + 5 + (32 - length (dt ++ [one]))). rewrite length_app. split; [|simpl; lia].
      left. split_and!; try done. exists (dt ++ [one]). rewrite length_app. split_and!; [|by apply Forall_app; split; [|constructor]|simpl; lia|done].
      unfold waiting. rewrite length_app. simpl. do 3 f_equal. lia. }
  assert (go_step rr w e l d d' m') as (r' & w' & n' & C' & Hc); [|eexists; split; [right; by exists r', w', n'|done]].
  destruct r as [| | | | | | |q|q]; simpl in E; unfold quietly in E.
  - destruct (accept d) as [[]|] eqn:Ea; [|done]. destruct C as [_ _ _ _ (_ & _ & _ & _ & Hp & _)].
    destruct d. simpl in *. by subst.
  - destruct (startRead d) eqn:Ed; [|done]. injection E as <- <- <-. by eapply startRead_step.
  - destruct (startWrite d) eqn:Ed; [|done]. injection E as <- <- <-. by eapply startWrite_step.
  - destruct (finishRead d) as [[]|] eqn:Ed; [|done]. injection E as <- <- <-. by eapply finishRead_step.
  - destruct (finishWrite d) as [[]|] eqn:Ed; [|done]. injection E as <- <- <-. by eapply finishWrite_step.
  - destruct (readConsume d) eqn:Ed; [|done]. injection E as <- <- <-. by eapply consume_step.
  - destruct (writeProduce d) eqn:Ed; [|done]. injection E as <- <- <-. by eapply produce_step.
  - destruct (rd_fire m q (re d)) eqn:Ed; [|done]. injection E as <- <- <-. by eapply rw_rd_step.
  - destruct (wr_fire m q (we d)) as [[]|] eqn:Ed; [|done]. injection E as <- <- <-. by eapply rw_wr_step.
Qed.
(** Each side goes on until it has reported. *)
Lemma rw_read_progress r w n e d m : going r w n e d m → ReadDone ∉ e → ∃ q, is_Some (dfire q d m).
Proof.
  intros [C1 C2 C3 C4 (R1 & R2 & R3 & R4 & R5 & R6 & R7) C6 C7 C8 C9 C10 C11 C12] He. rewrite C11 in He.
  destruct (decide (f_outs (rd_f (re d)) = 0%nat)) as [Ho|Ho].
  - exists DStartRead. destruct d as [[[o cs ld wk rsp cap out] bf] we ri wi nw rp wp bl po]. simpl in *. subst.
    rewrite bool_decide_true by lia. by eexists.
  - pose proof (ro_outs _ _ _ C1) as Hs. destruct (f_outf (rd_f (re d))) as [|out] eqn:Eo.
    + destruct (rd_progress (8 * bb) ltac:(lia) m (re d) C1) as [[[v s] E]|[[q [s E]]|[s E]]].
      * intros Es. rewrite Es in Hs. done.
      * exists DConsume. destruct d. simpl in *. rewrite E. by eexists.
      * exists (DRd q). simpl. rewrite E. by eexists.
      * exists DFinishRead. destruct d. simpl in *. rewrite E. by eexists.
    + exists DFinishRead. destruct d as [[[o cs ld wk rsp cap out'] bf] we ri wi nw rp wp bl po]. simpl in *. subst. by eexists.
Qed.
Lemma rw_write_progress r w n e d m : going r w n e d m → WriteDone ∉ e → ∃ q, is_Some (dfire q d m).
Proof.
  intros [C1 C2 C3 C4 (R1 & R2 & R3 & R4 & R5 & R6 & R7) C6 C7 C8 C9 C10 C11 C12] He. rewrite C12 in He.
  destruct (decide (f_outs (wr_f (we d)) = 0%nat)) as [Ho|Ho].
  - exists DStartWrite. destruct d as [re [[o cs ld wk rsp cap out] dt dn] ri wi nw rp wp bl po]. simpl in *. subst.
    rewrite bool_decide_true by lia. by eexists.
  - destruct (wr_progress (8 * bb) m (we d) C2 Ho) as [[q [[s m'] E]]|[[s E]|[H1 _]]].
    + exists (DWr q). simpl. rewrite E. by eexists.
    + exists DFinishWrite. destruct d. simpl in *. rewrite E. by eexists.
    + replace (8 * bb / 8) with bb in * by div_lia.
      exists DProduce. destruct d as [re [[o cs ld wk rsp cap out] dt dn] ri wi nw rp wp bl po]. simpl in *.
      rewrite bool_decide_true by lia. by eexists.
Qed.
Lemma rw_dev_progress e d m c i : dev_inv e d m c → i ∉ e → ∃ q, is_Some (dfire q d m).
Proof.
  intros [(-> & -> & dt & -> & _)|(r & w & n & C & ->)] He; [exists DAccept; by eexists|].
  destruct i; [|by eapply rw_read_progress|by eapply rw_write_progress]. by destruct (go_once _ _ _ _ _ _ C).
Qed.
Lemma dev_once e d m c : dev_inv e d m c → NoDup e.
Proof. intros [(-> & _)|(r & w & n & C & ->)]; [constructor|]. apply (go_once _ _ _ _ _ _ C). Qed.
(** Once it has said so, the device has filled the buffer. *)
Definition filled (m : Mem) : Prop :=
  (∀ j, 0 ≤ j < nb → beat_at m dst (8 * j) = one) ∧ ∀ q i, q ≠ dst → m q i = m0 q i.
Lemma rw_dev_done e d m c : dev_inv e d m c → WriteDone ∈ e → filled m.
Proof.
  intros [(-> & -> & dt & -> & _)|(r & w & n & C & ->)] He; [by apply not_elem_of_nil in He|].
  apply (go_write _ _ _ _ _ _ C) in He as [-> Ho]. pose proof (rw_idle_written _ _ _ _ _ _ C Ho) as ->. pose proof rw_nb_pos.
  split; [|apply (go_frame _ _ _ _ _ _ C)]. intros j Hj.
  pose proof (go_mem _ _ _ _ _ _ C j ltac:(nia)) as Hm. by rewrite Z.mod_small in Hm.
Qed.
End Passes.

(** ** The program's verdict *)
Definition cnt (i : Ind) (h : list Ind) : Z := if bool_decide (i ∈ h) then 1 else 0.
Lemma cnt_snoc i h j : cnt i (h ++ [j]) = if bool_decide (i = j) then 1 else cnt i h.
Proof.
  unfold cnt. rewrite (bool_decide_ext (i ∈ h ++ [j]) (i ∈ h ∨ i = j)) by (by rewrite elem_of_app, list_elem_of_singleton).
  repeat case_bool_decide; tauto.
Qed.
Lemma cnt_in i h : i ∈ h → cnt i h = 1.
Proof. intros H. unfold cnt. by rewrite bool_decide_true. Qed.
Lemma cnt_not_in i h : i ∉ h → cnt i h = 0.
Proof. intros H. unfold cnt. by rewrite bool_decide_false. Qed.
Lemma cnt_pos i h : 0 < cnt i h → i ∈ h.
Proof. unfold cnt. by case_bool_decide. Qed.

(** The program after it has waited [kr] and [kw] times for the semaphores *)
Definition prog_inv (kr kw : Z) (e : list Ind) (m : Mem) (l : list Ind) (th : list Act) (p : Prog) : Prop :=
  NoDup e ∧ 0 ≤ read_done_sem p ∧ 0 ≤ write_done_sem p ∧ ∃ h, e = h ++ l ∧
  (th = [] ∧ p = mkProg (cnt ReadDone h - kr) (cnt WriteDone h - kw) ∨
   th = [PostRead] ∧ ReadDone ∈ h ∧ p = mkProg (0 - kr) (cnt WriteDone h - kw) ∨
   th = [PostWrite] ∧ WriteDone ∈ h ∧ p = mkProg (cnt ReadDone h - kr) (0 - kw)).

Section Verdict.
Context (m0 : Mem) (src dst : Z) (bsim : bool).
(** The bursts of a pass, of 8 beats *)
Definition bursts : Z := if bsim then 1024 else 2 ^ 18.
Abbreviation inv := (dev_inv m0 src dst 8 bursts (iters bsim)).
Lemma rw_constants : 0 < 8 ≤ 16 ∧ 0 < bursts ∧ 8 * (8 * bursts) < 2 ^ 32 ∧ 0 < iters bsim < 2 ^ 32 ∧
  words bsim = 2 * nb 8 bursts.
Proof. unfold bursts, iters, nb. destruct bsim; split_and!; done. Qed.

Lemma memrw_frame kr kw : frame_ok dfire callback run inv (prog_inv kr kw) 4.
Proof.
  destruct rw_constants as (H1 & H2 & H3 & H4 & H5). pose proof (rw_nb_pos 8 bursts H1 H2).
  split.
  - intros e d m c [(_ & _ & dt & _ & _ & Hl & ->)|(r & w & n & C & ->)]; [unfold budget; nia|].
    pose proof (rd_cost_nonneg (re d)). pose proof (wr_cost_nonneg (we d)).
    destruct C as [_ C2 _ C4 _ _ _ _ _ _ _ _]. pose proof (wo_len _ _ C2). unfold go_cost. nia.
  - intros. by eapply rw_dev_step.
  - intros e d m c r d' m' l qs th p HI (Hp & Hr & Hw & h & -> & Hh) E.
    destruct (rw_dev_step m0 src dst 8 bursts (iters bsim) H1 H2 H3 H4 _ d m c r d' m' l HI E) as (c' & HI' & _).
    split_and!; try done; [by eapply dev_once|]. exists h. by rewrite app_assoc.
  - intros e m i l p (Hp & Hr & Hw & h & -> & Hh). split_and!; try done. exists (h ++ [i]).
    rewrite <-app_assoc. split; [done|]. rewrite !cnt_snoc.
    apply NoDup_app in Hp as (_ & Hd & _). assert (i ∉ h) as Hi by (intros ?; eapply Hd; [done|by left]).
    destruct Hh as [(_ & ->)|[(? & _)|(? & _)]]; [|done|done]. destruct i; simpl.
    + by left.
    + right; left. rewrite (cnt_not_in ReadDone) by done. split_and!; try done. apply elem_of_app. right. by left.
    + right; right. rewrite (cnt_not_in WriteDone) by done. split_and!; try done. apply elem_of_app. right. by left.
  - intros e m l a th p (Hp & Hr & Hw & h & -> & Hh).
    destruct Hh as [(? & _)|[([= -> ->] & Hi & ->)|([= -> ->] & Hi & ->)]]; [done|..]; cbn [read_done_sem write_done_sem] in *;
      (split_and!; [done|cbn; lia..|]); exists h; (split; [done|]); left; (split; [done|]); cbn [run]; rewrite (cnt_in _ _ Hi); f_equal; lia.
Qed.
Lemma read_taken w c : world_ok inv (prog_inv 0 0) 4 0 w c → 0 < read_done_sem (prog w) →
  world_ok inv (prog_inv 1 0) 4 0 (upd_prog take_read w) c.
Proof.
  intros (e & cd & HI & (Hp & Hr & Hw & h & Eh & Hh) & H) Hs. destruct w as [d m l q k th p s]. exists e, cd. simpl in *.
  split_and!; try apply H; try done. split_and!; try done; [simpl; lia|]. exists h. split; [done|].
  destruct Hh as [(-> & ->)|[(-> & ? & ->)|(-> & ? & ->)]]; simpl in *; [left|right; left|right; right];
    split_and!; try done; unfold take_read; simpl; f_equal; lia.
Qed.
Lemma write_taken w c : world_ok inv (prog_inv 1 0) 4 0 w c → 0 < write_done_sem (prog w) →
  world_ok inv (prog_inv 1 1) 4 0 (upd_prog take_write w) c.
Proof.
  intros (e & cd & HI & (Hp & Hr & Hw & h & Eh & Hh) & H) Hs. destruct w as [d m l q k th p s]. exists e, cd. simpl in *.
  split_and!; try apply H; try done. split_and!; try done; [simpl; lia|]. exists h. split; [done|].
  destruct Hh as [(-> & ->)|[(-> & ? & ->)|(-> & ? & ->)]]; simpl in *; [left|right; left|right; right];
    split_and!; try done; unfold take_write; simpl; f_equal; lia.
Qed.
Lemma both_reported e m l th p : prog_inv 1 1 e m l th p → ReadDone ∈ e ∧ WriteDone ∈ e.
Proof.
  intros (_ & Hr & Hw & h & -> & Hh). rewrite !elem_of_app.
  destruct Hh as [(_ & ->)|[(_ & ? & ->)|(_ & ? & ->)]]; simpl in *; try lia. split; left; apply cnt_pos; lia.
Qed.
End Verdict.

(** The program at its start, with any contents of memory. *)
Definition boot (m : Mem) : @World Dev Ind Act Prog := mkWorld dev_init m [] 0 0 [] (mkProg 0 0) 0.
Lemma rw_fill_returns src dst l m : ∃ m1,
  for_each l (λ i, store src i i;; store dst i 0x5a5abeef) (boot m) = (Done tt, boot m1).
Proof.
  revert m. induction l as [|i l IH]; intros m; [by exists m|]. simpl.
  rewrite (bind_Done _ _ _ tt (boot (λ b j, if bool_decide (b = dst ∧ j = i) then u32 0x5a5abeef else
    if bool_decide (b = src ∧ j = i) then u32 i else m b j))) by done.
  apply IH.
Qed.

(** C15. Reading and writing at once, on every run: however the two engines, the device and the
    event thread interleave, and in whichever order the two sides end, the program gets both
    reports and exits with 0, and the device has then filled the
    destination with the number 1 of 64 bits and touched nothing else.  The end of
    runtest, which lacks its return statement, is read as coming back to main. *)
Theorem memrw_verdict src dst bsim choose fuel m :
  work_conserving (bfire dfire callback run) choose →
  (64 * bursts bsim + 24) * (2 * iters bsim) + 43 ≤ Z.of_nat fuel →
  ∃ m1 w', fill src dst bsim (boot m) = (Done tt, boot m1) ∧
    memrw_main src dst bsim choose fuel (boot m) = (Exited 0, w') ∧
    (∀ i, 0 ≤ i < words bsim → mem w' dst i = if bool_decide (i mod 2 = 0) then 1 else 0) ∧
    ∀ q i, q ≠ dst → mem w' q i = m1 q i.
Proof.
  intros Hch Hf. destruct (rw_constants bsim) as (H1 & H2 & H3 & H4 & Hw).
  destruct (rw_fill_returns src dst (seqZ 0 (words bsim)) m) as (m1 & E1).
  set (w1 := mkWorld (waiting src dst 8 (bursts bsim) (iters bsim) []) m1 [] 0 0 [] (mkProg 0 0) 0 : @World Dev Ind Act Prog).
  pose proof (memrw_frame m1 src dst bsim) as F.
  set (c1 := budget 8 (bursts bsim) (iters bsim) + 5 + 32).
  destruct (wait_spec dfire callback run choose Hch fuel (dev_inv m1 src dst 8 (bursts bsim) (iters bsim))
    (prog_inv 0 0) 4 ltac:(by intros []) (F 0 0) read_done_sem take_read w1 c1) as (w2 & c2 & W2 & Hc2 & Hs2 & E2).
  - exists [], c1. split_and!; try done.
    + left. split_and!; try done. exists []. split_and!; try done; simpl; lia.
    + split_and!; [constructor|done..|]. exists []. split; [done|]. by left.
    + by right.
    + simpl. lia.
  - intros e d m' c p HI (_ & _ & _ & h & -> & Hh) Hs. eapply rw_dev_progress with (i := ReadDone); [..|exact HI|]; try done. rewrite app_nil_r.
    destruct Hh as [(_ & ->)|[(? & _)|(? & _)]]; try done. simpl in Hs. intros Hi%cnt_in. lia.
  - unfold c1, budget, nb. lia.
  - unfold c1, budget, nb in Hc2. apply read_taken in W2; [|done].
    destruct (wait_spec dfire callback run choose Hch fuel (dev_inv m1 src dst 8 (bursts bsim) (iters bsim))
      (prog_inv 1 0) 4 ltac:(by intros []) (F 1 0) write_done_sem take_write _ c2 W2)
      as (w3 & c3 & W3 & Hc3 & Hs3 & E3); [|lia|].
    { intros e d m' c p HI (_ & _ & _ & h & -> & Hh) Hs. eapply rw_dev_progress with (i := WriteDone); [..|exact HI|]; try done. rewrite app_nil_r.
      destruct Hh as [(_ & ->)|[(? & _)|(? & _)]]; try done. simpl in Hs. intros Hi%cnt_in. lia. }
    apply write_taken in W3; [|done].
    destruct (stats_spec dfire callback run choose Hch fuel _ _ 4 ltac:(by intros []) (F 1 1) _ c3 W3 ltac:(lia))
      as (w4 & c4 & W4 & Hc4 & _ & E4).
    destruct (stats_spec dfire callback run choose Hch fuel _ _ 4 ltac:(by intros []) (F 1 1) _ c4 W4 ltac:(lia))
      as (w5 & c5 & (e & cd & HI & HJ & _) & Hc5 & _ & E5).
    apply both_reported in HJ as [_ HJ].
    destruct (rw_dev_done m1 src dst 8 (bursts bsim) (iters bsim) H1 H2 H4 e _ _ cd HI HJ) as [Hone Hfr].
    exists m1, w5. split_and!; [done| | |done].
    + unfold memrw_main. rewrite (bind_Done _ _ _ tt w5); [done|].
      unfold memrw_runtest. rewrite (bind_Done _ _ _ _ _ E1), (bind_Done _ _ _ tt w1);
        [|unfold w1, waiting, start_cmd; by rewrite <-Hw].
      by rewrite (bind_Done _ _ _ _ _ E2), (bind_Done _ _ _ _ _ E3), (bind_Done _ _ _ _ _ E4).
    + intros i Hi. rewrite Hw in Hi. specialize (Hone (i / 2) ltac:(div_lia)). unfold beat_at in Hone.
      replace (8 * (i / 2) / 4) with (2 * (i / 2)) in Hone by div_lia. injection Hone as Ha Hb.
      case_bool_decide; [rewrite <-Ha|rewrite <-Hb]; f_equal; div_lia.
Qed.
Definition drules : list DRule := [DAccept; DStartRead; DStartWrite; DFinishRead; DFinishWrite; DConsume; DProduce;
  DRd RLoad; DRd RReq; DRd RData; DWr WLoad; DWr WReq; DWr WBeat; DWr WDone].
Lemma rw_drules_all r : r ∈ drules.
Proof. destruct r as [| | | | | | |[]|[]]; repeat first [by left | right]. Qed.
Lemma memrw_verdict_witness : ∃ m1 w', fill 1 2 true (boot (λ _ _, 0)) = (Done tt, boot m1) ∧
  memrw_main 1 2 true (first_of (bfire dfire callback run) (brules drules) BStep) (Z.to_nat 400000) (boot (λ _ _, 0)) =
    (Exited 0, w') ∧
  (∀ i, 0 ≤ i < 16384 → mem w' 2 i = if bool_decide (i mod 2 = 0) then 1 else 0) ∧
  ∀ q i, q ≠ 2 → mem w' q i = m1 q i.
Proof.
  apply memrw_verdict; [apply first_of_conserving, brules_all, rw_drules_all|]. rewrite Z2Nat.id by done. done.
Defined.
