(* ===== verification/Memread.v ===== *)
(** * Reading memory (src/examples/memread, src/lib/cpp/testmemread.h)

    The read device, with one server: it reads a buffer several times and compares each beat with the
    numbers 0, 1, 2 and so on, which a generator makes; a rule counts mismatches, hands the
    count over at the end of a pass, and another adds the counts up and reports their
    sum.  The program reads a buffer that matches, changes three words of it and reads it again.
    Its second half expects three mismatches a pass, but the device
    does not restart its count between passes and adds running totals:
    on every run the program finds too many and fails. *)
From stdpp Require Import base numbers list.
From S2P Require Import Prelude Rules MemEngines Bench.
Local Open Scope Z_scope.

(** ** The device *)

(** [examples/memread/Memread.bsv:41-44] MemreadRequest: a startRead that waits in the portal *)
Record startRead := mkStart { s_pointer : Z; s_numWords : Z; s_burstLen : Z; s_iterCnt : Z }.
(** [examples/memread/Memread.bsv:51-55] MemreadIndication *)
Inductive Ind := Started | ReadDone (mismatchCount : Z).
(** [examples/memread/Memread.bsv:57-76] mkMemread: the engine and the registers; the range
    generator, the pairs it fills, the beats split and compared, each
    in a queue of two *)
Record Dev := mkDev { re : Rd; pointer : Z; numWords : Z; burstLen : Z; mismatchCnt : Z; cf : bool; iterCnt : Z;
  iterCnts : Z; valuesToRead : Z; mismatchCounts : Z; mismatchFifo : list Z;
  range_x : Z; range_limit : Z; srcGen : list Z; readPipe : list Beat; joinFifo : list (bool * bool); portal : list startRead }.
Definition dev_init : Dev := mkDev rd_init 0 0 0 0 false 0 0 0 0 [] 1 0 [] [] [] [].
Definition chunk (nw : Z) : Z := nw / 1 * 4.

(** [examples/memread/Memread.bsv:87-97] start, with the start of the range *)
Definition start (d : Dev) : option Dev :=
  let '(mkDev re p nw bl mt cf ic ics vr mc mf x xl sg rp jf po) := d in
  if bool_decide (0 < ics ∧ xl < x) then
    re ← rd_put 2 (mkCmd p (0 * chunk nw) (u8 (u32 (bl * 4))) (u32 (chunk nw))) re;
    let base := 0 * (u32 (chunk nw) / 4) in
    let limit := u32 (base + u32 (chunk nw) / 4) in
    Some (mkDev re p nw bl mt cf ic (u32 (ics - 1)) vr mc mf base (u32 (limit - 1)) sg rp jf po)
  else None.
(** [examples/memread/Memread.bsv:98-101] finish *)
Definition finish (d : Dev) : option Dev :=
  let '(mkDev re p nw bl mt cf ic ics vr mc mf x xl sg rp jf po) := d in
  re ← rd_get re; Some (mkDev re p nw bl mt cf ic ics vr mc mf x xl sg rp jf po).
(** [lib/bsv/Pipe.bsv:837-841] the next number of the range, which goes into the pair *)
Definition gen (d : Dev) : option Dev :=
  let '(mkDev re p nw bl mt cf ic ics vr mc mf x xl sg rp jf po) := d in
  if bool_decide (x ≤ xl) && bool_decide (length sg < 2)%nat then
    Some (mkDev re p nw bl mt cf ic ics vr mc mf (u32 (x + 1)) xl (sg ++ [x]) rp jf po)
  else None.
(** [examples/memread/Memread.bsv:78-79] readPipes: the next beat, split *)
Definition split (d : Dev) : option Dev :=
  let '(mkDev re p nw bl mt cf ic ics vr mc mf x xl sg rp jf po) := d in
  '(v, re) ← rd_deq re;
  if bool_decide (length rp < 2)%nat then Some (mkDev re p nw bl mt cf ic ics vr mc mf x xl sg (rp ++ [v]) jf po) else None.
(** [examples/memread/Memread.bsv:81-84] vcompare and mismatchPipes *)
Definition join (d : Dev) : option Dev :=
  let '(mkDev re p nw bl mt cf ic ics vr mc mf x xl sg rp jf po) := d in
  match rp, sg with
  | v :: rp, [a; b] =>
    if bool_decide (length jf < 2)%nat then
      Some (mkDev re p nw bl mt cf ic ics vr mc mf x xl [] rp (jf ++ [(bool_decide (v.1 = a), bool_decide (v.2 = b))]) po)
    else None
  | _, _ => None
  end.
(** [examples/memread/Memread.bsv:102-119] check *)
Definition check (d : Dev) : option Dev :=
  let '(mkDev re p nw bl mt cf ic ics vr mc mf x xl sg rp jf po) := d in
  match jf with
  | (b0, b1) :: jf =>
    let mc := u32 (mc + if negb b0 || negb b1 then 1 else 0) in
    if bool_decide (vr ≤ 2) then
      if bool_decide (length mf < 2)%nat then
        Some (mkDev re p nw bl mt cf ic ics (u32 (chunk nw / 4)) mc (mf ++ [mc]) x xl sg rp jf po)
      else None
    else Some (mkDev re p nw bl mt cf ic ics (u32 (vr - 2)) mc mf x xl sg rp jf po)
  | [] => None
  end.
(** [examples/memread/Memread.bsv:122-135] indicate_finish, with the sum over one server *)
Definition indicate_finish (d : Dev) : option (Dev * list Ind) :=
  let '(mkDev re p nw bl mt cf ic ics vr mc mf x xl sg rp jf po) := d in
  match mf with
  | v :: mf =>
    let v := u32 (v + mt) in
    if bool_decide (ic = 1) then
      if cf then Some (mkDev re p nw bl 0 false (u32 (ic - 1)) ics vr mc mf x xl sg rp jf po, [ReadDone v]) else None
    else Some (mkDev re p nw bl v cf (u32 (ic - 1)) ics vr mc mf x xl sg rp jf po, [])
  | [] => None
  end.
(** [examples/memread/Memread.bsv:139-151] startRead: the registers are read before they are written *)
Definition accept (d : Dev) : option (Dev * list Ind) :=
  let '(mkDev re p nw bl mt cf ic ics vr mc mf x xl sg rp jf po) := d in
  match po with
  | mkStart p' nw' bl' ic' :: po =>
    if cf then None
    else Some (mkDev re p' (u32 nw') (u32 bl') mt true (u32 ic') (u32 ic') (u32 (chunk nw / 4)) 0 mf x xl sg rp jf po, [Started])
  | [] => None
  end.

Inductive DRule := DAccept | DStart | DFinish | DGen | DSplit | DJoin | DCheck | DIndicate | DRd (r : RdRule).
#[global] Instance is_accept (r : DRule) : Decision (r = DAccept).
Proof. destruct r; by (left + right). Defined.
Definition set_engine (r : Rd) (d : Dev) : Dev :=
  let '(mkDev _ p nw bl mt cf ic ics vr mc mf x xl sg rp jf po) := d in
  mkDev r p nw bl mt cf ic ics vr mc mf x xl sg rp jf po.
Definition quietly (m : Mem) (d : option Dev) : option (Dev * Mem * list Ind) := d ← d; Some (d, m, []).
Definition dfire (r : DRule) (d : Dev) (m : Mem) : option (Dev * Mem * list Ind) :=
  match r with
  | DAccept => '(d, l) ← accept d; Some (d, m, l)
  | DStart => quietly m (start d)
  | DFinish => quietly m (finish d)
  | DGen => quietly m (gen d)
  | DSplit => quietly m (split d)
  | DJoin => quietly m (join d)
  | DCheck => quietly m (check d)
  | DIndicate => '(d, l) ← indicate_finish d; Some (d, m, l)
  | DRd r => s ← rd_fire m r (re d); Some (set_engine s d, m, [])
  end.

(** ** The program *)

(** [lib/cpp/testmemread.h:29-47] test_sem and mismatchCount *)
Record Prog := mkProg { test_sem : Z; mismatchCount : Z }.
(** [lib/cpp/testmemread.h:39-43] numWords, without and with the simulator *)
Definition words (bsim : bool) : Z := if bsim then 0x124000 / 4 else 0x1240000 / 4.
(** [lib/cpp/testmemread.h:32-37] burstLen and iterCnt *)
Definition burst : Z := 16.
Definition iters (bsim : bool) : Z := if bsim then 3 else 64.
(** [lib/cpp/testmemread.h:57-77] MemreadIndication: the statements of readDone *)
Inductive Act := AddCount (v : Z) | Post.
Definition callback (i : Ind) : list Act := match i with Started => [] | ReadDone v => [AddCount v; Post] end.
Definition run (a : Act) (m : Mem) (p : Prog) : Prog :=
  let '(mkProg s n) := p in
  match a with AddCount v => mkProg s (s32 (n + v)) | Post => mkProg (s + 1) n end.
Definition take_sem (p : Prog) : Prog := mkProg (test_sem p - 1) (mismatchCount p).

(** A request that the program sends *)
Definition push (c : startRead) (d : Dev) : Dev :=
  let '(mkDev re p nw bl mt cf ic ics vr mc mf x xl sg rp jf po) := d in
  mkDev re p nw bl mt cf ic ics vr mc mf x xl sg rp jf (po ++ [c]).

Section Program.
(** The reference of the buffer and how the program was built. *)
Context (srcAlloc : Z) (bsim : bool).
Abbreviation W := (@World Dev Ind Act Prog).
Context (choose : nat → W → @BRule DRule) (fuel : nat).

(** [lib/cpp/testmemread.h:107-110] runtest: the contents of the buffer *)
Definition fill : M W () := for_each (seqZ 0 (words bsim)) (λ i, store srcAlloc i i).
(** [lib/cpp/testmemread.h:120-123] runtest: a read (the same in lines 142 to 143) *)
Definition read : M W () :=
  send (push (mkStart srcAlloc (words bsim) burst (iters bsim)));;
  sem_wait dfire callback run choose fuel test_sem take_sem.
(** [lib/cpp/testmemread.h:136-139] runtest: three words that do not match *)
Definition spoil : M W () :=
  store srcAlloc 0 (-1);; store srcAlloc (words bsim / 2) (-1);; store srcAlloc (words bsim - 1) (-1).
(** [lib/cpp/testmemread.h:79-155] runtest; the reference is given, and the timer and the report of the
    traffic are left out, as is getStateDbg, which the device does not implement *)
Definition memread_runtest : M W Z :=
  fill;;
  read;;
  w ← get;
  let test_result := if bool_decide (mismatchCount (prog w) = 0) then 0 else 1 in
  show_mem_stats dfire callback run choose fuel;;
  spoil;;
  read;;
  w ← get;
  mret (if bool_decide (mismatchCount (prog w) = 3 * iters bsim) then test_result else test_result + 1).
(** [examples/memread/testmemread.cpp:11-15] main *)
Definition memread_main : M W () :=
  ret ← memread_runtest;
  exit (if bool_decide (ret = 0) then 0 else 1).
End Program.

(** ** Beats and mismatches *)
Section Reading.
(** [bb] beats to a burst, [K] bursts to a pass and [ic] passes to a read *)
Context (src bb K ic : Z) (Hbb : 0 < bb ≤ 16) (HK : 4 ≤ K) (Heven : (2 | K)) (Hsz : 16 * (bb * K) < 2 ^ 32) (Hic : 0 < ic < 2 ^ 13).
Definition nb : Z := K * bb.
Lemma mr_nb_pos : 4 ≤ nb ∧ (2 | nb) ∧ 16 * nb < 2 ^ 32.
Proof. unfold nb. destruct Heven as [h Hh]. split_and!; [nia|exists (h * bb); nia|lia]. Qed.

(** The beat the device expects, and the beats the program spoils *)
Definition ident (j : Z) : Beat := (2 * (j mod nb), 2 * (j mod nb) + 1).
Definition bad (j : Z) : bool := bool_decide (j mod nb = 0 ∨ j mod nb = nb / 2 ∨ j mod nb = nb - 1).
(** Spoiled beats among the first [c] *)
Definition Bc (c : nat) : Z := zsum ((λ j, if bad j then 1 else 0) <$> seqZ 0 c).
Definition bc (c : Z) : Z := Bc (Z.to_nat c).

Lemma bc_succ c : 0 ≤ c → bc (c + 1) = bc c + if bad c then 1 else 0.
Proof.
  intros Hc. unfold bc, Bc. rewrite !Z2Nat.id by lia. rewrite seqZ_app, fmap_app, zsum_app by lia.
  f_equal. change (seqZ (0 + c) 1) with [0%nat + (0 + c)]. simpl. replace (0%nat + (0 + c)) with c by lia.
  unfold zsum. simpl. destruct (bad c); lia.
Qed.
Lemma bc_0 : bc 0 = 0.
Proof. done. Qed.
Lemma bc_mono c c' : 0 ≤ c ≤ c' → bc c ≤ bc c'.
Proof.
  intros [Hc Hle]. revert c' Hle. apply (Zlt_lower_bound_ind (λ c', bc c ≤ bc c')). intros c' IH Hle.
  destruct (decide (c' = c)) as [->|]; [done|]. specialize (IH (c' - 1) ltac:(lia)).
  replace c' with (c' - 1 + 1) by lia. rewrite bc_succ by lia. destruct (bad _); lia.
Qed.
Lemma bc_skip a b : 0 ≤ a ≤ b → (∀ j, a ≤ j < b → bad j = false) → bc b = bc a.
Proof.
  intros [Ha Hle]. revert b Hle. apply (Zlt_lower_bound_ind (λ b, (∀ j, a ≤ j < b → bad j = false) → bc b = bc a)).
  intros b IH Hle Hb. destruct (decide (b = a)) as [->|]; [done|].
  replace b with (b - 1 + 1) by lia. rewrite bc_succ, Hb, IH by (try intros; try apply Hb; lia). lia.
Qed.
Lemma bad_small j : 0 ≤ j < nb → bad j = bool_decide (j = 0 ∨ j = nb / 2 ∨ j = nb - 1).
Proof. intros H. unfold bad. by rewrite Z.mod_small. Qed.
(** Three in each pass, the first of them at its beginning *)
Lemma bc_1 : bc 1 = 1.
Proof.
  destruct mr_nb_pos as (Hn & _). replace 1 with (0 + 1) by lia. rewrite bc_succ, bc_0, bad_small by lia.
  by rewrite bool_decide_true by lia.
Qed.
Lemma bc_pass : bc nb = 3.
Proof.
  destruct mr_nb_pos as (Hn & [h Hh] & _). assert (nb / 2 = h) as E2 by (rewrite Hh; apply Z.div_mul; lia).
  assert (bc h = 1) as B1.
  { rewrite (bc_skip 1 h), bc_1; [done|lia|]. intros j Hj. rewrite bad_small, bool_decide_false by lia. done. }
  assert (bc (h + 1) = 2) as B2.
  { rewrite bc_succ, B1, bad_small, bool_decide_true by lia. done. }
  assert (bc (nb - 1) = 2) as B3.
  { rewrite (bc_skip (h + 1) (nb - 1)), B2; [done|lia|]. intros j Hj. rewrite bad_small, bool_decide_false by lia. done. }
  replace nb with (nb - 1 + 1) by lia. rewrite bc_succ, B3, bad_small, bool_decide_true by lia. done.
Qed.
Lemma bc_shift c : 0 ≤ c → bc (c + nb) = bc c + 3.
Proof.
  revert c. apply (Zlt_lower_bound_ind (λ c, bc (c + nb) = bc c + 3)). intros c IH Hc.
  destruct mr_nb_pos as (Hn & _). destruct (decide (c = 0)) as [->|]; [rewrite bc_0; apply bc_pass|].
  specialize (IH (c - 1) ltac:(lia)).
  replace (c + nb) with (c - 1 + nb + 1) by lia. replace c with (c - 1 + 1) at 2 by lia.
  rewrite !bc_succ, IH by lia. unfold bad. replace (c - 1 + nb) with (c - 1 + 1 * nb) by lia. rewrite Z_mod_plus_full. lia.
Qed.
Lemma bc_passes k i : 0 ≤ k → 0 ≤ i → bc (k * nb + i) = 3 * k + bc i.
Proof.
  intros Hk Hi. revert k Hk. apply (Zlt_lower_bound_ind (λ k, bc (k * nb + i) = 3 * k + bc i)). intros k IH Hk.
  destruct mr_nb_pos as (Hn & _). destruct (decide (k = 0)) as [->|]; [f_equal; lia|].
  replace (k * nb + i) with ((k - 1) * nb + i + nb) by lia. rewrite bc_shift, (IH (k - 1)) by nia. lia.
Qed.

(** *** The pipeline *)
(** Whether a beat differs from the [j]-th expected one; what such a flag may be: before the buffer is
    spoiled ([B] is false) no beat differs, afterwards only spoiled ones do, and in the second read all of these *)
Definition mism (j : Z) (v : Beat) : bool := negb (bool_decide (v = ident j)).
Definition flag_ok (B : bool) (j : Z) (b : bool) : Prop :=
  (b = true → B = true ∧ bad j = true) ∧ (ic * nb ≤ j → b = bad j).
Definition mem_ok (B : bool) (m : Mem) : Prop :=
  ∀ j, 0 ≤ j → mism j (beat_at m src (8 * (j mod nb))) = B && bad j.

(** Beats compared and beats split, when [c] have been counted; numbers generated *)
Definition joined (c : Z) (d : Dev) : Z := c + length (joinFifo d).
Definition parted (c : Z) (d : Dev) : Z := joined c d + length (readPipe d).
Definition made (c : Z) (d : Dev) : Z := 2 * joined c d + length (srcGen d).
(** In read [s], [k] passes have been started since the beginning and [c] beats counted. *)
Record reading (B : bool) (s k c : Z) (d : Dev) (m : Mem) : Prop := {
  rg_rd : rd_ok (8 * bb) m (re d);
  rg_outs : (f_outs (rd_f (re d)) ≤ 2)%nat;
  rg_s : s = 1 ∨ s = 2 ∧ B = true;
  rg_k : 0 ≤ k ≤ s * ic;
  rg_regs : pointer d = src ∧ burstLen d = 2 * bb ∧ numWords d = 2 * nb ∧ iterCnts d = s * ic - k;
  rg_c : 0 ≤ c;
  rg_made : made c d ≤ 2 * (k * nb);
  rg_range : k = 0 ∧ range_x d = 1 ∧ range_limit d = 0 ∨
    0 < k ∧ range_limit d = 2 * nb - 1 ∧ range_x d = made c d - 2 * ((k - 1) * nb) ∧ 0 ≤ range_x d;
  rg_gen : srcGen d = (λ g, g mod (2 * nb)) <$> seqZ (2 * joined c d) (length (srcGen d)) ∧ (length (srcGen d) ≤ 2)%nat;
  rg_join t b0 b1 : joinFifo d !! t = Some (b0, b1) → flag_ok B (c + Z.of_nat t) (negb b0 || negb b1);
  rg_parts t v : readPipe d !! t = Some v → flag_ok B (joined c d + Z.of_nat t) (mism (joined c d + Z.of_nat t) v);
  rg_stream t v l : rd_stream m (re d) !! t = Some (v, l) →
    flag_ok B (parted c d + Z.of_nat t) (mism (parted c d + Z.of_nat t) v);
  rg_addrs : addrs (rd_f (re d)) = pass nb nb src (parted c d + length (rd_buff (re d))) (k * nb);
  rg_fetched : parted c d + length (rd_buff (re d)) ≤ k * nb;
  rg_mem : mem_ok B m }.
Definition pipe_cost (s k c : Z) (d : Dev) : Z :=
  (16 * nb + 24) * (s * ic - k) + rd_cost (re d) + 4 * (k * nb - parted c d) + 3 * length (readPipe d) +
  2 * length (joinFifo d) + (2 * (k * nb) - made c d) + 8 * f_outs (rd_f (re d)).
(** What the pipeline leaves alone *)
Definition counts (d : Dev) := (mismatchCnt d, cf d, iterCnt d, valuesToRead d, mismatchCounts d, mismatchFifo d, portal d).
Definition pipe_step (B : bool) (s k c : Z) (d d' : Dev) (m : Mem) : Prop :=
  ∃ k', reading B s k' c d' m ∧ counts d' = counts d ∧ pipe_cost s k' c d' < pipe_cost s k c d.

(** A beat fetched from memory has the flag it may have. *)
Lemma fetched_flag B s j k m : s = 1 ∨ s = 2 ∧ B = true → k ≤ s * ic → 0 ≤ j < k * nb → mem_ok B m →
  flag_ok B j (mism j (beat_at m src (8 * (j mod nb)))).
Proof.
  intros Hs Hk Hj Hm. rewrite (Hm j) by lia. destruct mr_nb_pos as (Hn & _). destruct B; simpl; (split; [done|]); [done|].
  intros Hj'. destruct Hs as [->|[_ ?]]; [nia|done].
Qed.

Lemma fetch_lookup m a b t v l : (fetch m <$> pass nb nb src a b) !! t = Some (v, l) →
  v = beat_at m src (8 * ((a + Z.of_nat t) mod nb)) ∧ a + Z.of_nat t < b.
Proof.
  unfold pass. rewrite <-list_fmap_compose, list_lookup_fmap. intros E.
  destruct (seqZ a (b - a) !! t) as [j|] eqn:Ej; [|done]. apply lookup_seqZ in Ej as [-> Hj].
  injection E as <- _. split; [done|lia].
Qed.

Lemma mr_stream_length B s k c d m : reading B s k c d m →
  Z.of_nat (length (rd_stream m (re d))) = k * nb - parted c d.
Proof.
  intros C. unfold rd_stream. pose proof (rg_fetched _ _ _ _ _ _ C).
  rewrite length_app, length_fmap, (rg_addrs _ _ _ _ _ _ C), Nat2Z.inj_add, pass_length by done. lia.
Qed.
Lemma mr_start_step B s k c d m d' : reading B s k c d m → start d = Some d' → pipe_step B s k c d d' m.
Proof.
  intros C E. exists (k + 1). pose proof (mr_stream_length _ _ _ _ _ _ C) as Hlen.
  destruct C as [C1 C2 C3 C4 (R1 & R2 & R3 & R4) C5 C6 C7 C8 C9 C10 C11 C12 C13 C14].
  destruct mr_nb_pos as (Hn & _ & Hsz'). unfold pipe_cost, made, parted, joined in *.
  destruct d as [re p nw bl mt cf i ics vr mc mf x xl sg rp jf po]. simpl in *. subst.
  case_bool_decide as G; [|done]. destruct G as [Hi Hx].
  assert (chunk (2 * nb) = 8 * nb) as Ech by (unfold chunk; rewrite Z.div_1_r; lia). rewrite Ech in E.
  rewrite (u32_small (8 * nb)), (u32_small (2 * bb * 4)), u8_small in E by lia.
  replace (8 * nb / 4) with (2 * nb) in E by div_lia.
  rewrite (u32_small (_ + 2 * nb)), (u32_small (_ + 2 * nb - 1)), (u32_small (s * ic - k - 1)) in E by lia.
  replace (mkCmd src (0 * (8 * nb)) (2 * bb * 4) (8 * nb)) with (whole bb K src) in E by (unfold whole, nb; f_equal; lia).
  destruct (rd_put 2 _ re) as [re'|] eqn:Ep; [|done]. injection E as <-.
  destruct (rd_put_stream (8 * bb) ltac:(lia) ltac:(by exists bb; lia) m 2 _ re re' C1 (whole_ok bb K ltac:(lia) ltac:(lia) src) Ep)
    as (P1 & P2 & P3 & P4 & P5 & P6).
  rewrite (whole_addrs bb K ltac:(lia) ltac:(lia) src k) in P2, P3, P6 by lia. fold nb in P2, P3, P6. rewrite pass_length in P3 by lia.
  assert (rd_buff re' = rd_buff re) as Eb by (unfold rd_put in Ep; destruct (f_put _ _ _); [|done]; by injection Ep as <-).
  assert (2 * (c + length jf) + length sg = 2 * (k * nb)) as Hall by lia.
  split_and!; [split; simpl; unfold made, parted, joined; simpl; rewrite ?Eb; try done; try lia|done|unfold pipe_cost, made, parted, joined; simpl; lia].
  - intros t v l. rewrite P2. intros [Ht|[Hl Ht]]%lookup_app_Some; [by eapply C11|].
    apply fetch_lookup in Ht as [-> Ht].
    replace (k * nb + Z.of_nat (t - length (rd_stream m re))) with (c + length jf + length rp + Z.of_nat t) in * by lia.
    apply (fetched_flag B s _ (k + 1)); try done; lia.
  - rewrite P6, C12, pass_app by lia. done.
Qed.
Lemma mr_finish_step B s k c d m d' : reading B s k c d m → finish d = Some d' → pipe_step B s k c d d' m.
Proof.
  intros [C1 C2 C3 C4 R C5 C6 C7 C8 C9 C10 C11 C12 C13 C14] E. exists k.
  unfold pipe_cost, made, parted, joined in *.
  destruct d as [re p nw bl mt cf i ics vr mc mf x xl sg rp jf po]. simpl in *.
  destruct (rd_get re) as [re'|] eqn:Ep; [|done]. injection E as <-.
  destruct (rd_get_stream (8 * bb) m re re' C1 Ep) as (P1 & P2 & P3 & P4 & P5).
  assert (rd_buff re' = rd_buff re) as Eb by (unfold rd_get in Ep; destruct (f_get _); [|done]; by injection Ep as <-).
  split_and!; [split; simpl; unfold made, parted, joined; simpl; rewrite ?Eb, ?P2, ?P5; try done; lia|done
    |unfold pipe_cost, made, parted, joined; simpl; lia].
Qed.
Lemma mr_gen_step B s k c d m d' : reading B s k c d m → gen d = Some d' → pipe_step B s k c d d' m.
Proof.
  intros [C1 C2 C3 C4 R C5 C6 C7 C8 C9 C10 C11 C12 C13 C14] E. exists k. destruct mr_nb_pos as (Hn & _ & Hsz').
  unfold pipe_cost, made, parted, joined in *.
  destruct d as [re p nw bl mt cf i ics vr mc mf x xl sg rp jf po]. simpl in *.
  case_bool_decide as Hx; [|done]. case_bool_decide as Hl; [|done]. injection E as <-.
  destruct C7 as [(-> & -> & ->)|(Hk & -> & Ex & Hx0)]; [lia|].
  rewrite u32_small by lia. destruct C8 as [C8 C8'].
  split_and!; [split; simpl; unfold made, parted, joined; simpl; rewrite ?length_app; simpl; try done; try lia|done
    |unfold pipe_cost, made, parted, joined; simpl; rewrite length_app; simpl; lia].
  split; [|lia]. rewrite Nat2Z.inj_add, seqZ_app, fmap_app by lia. rewrite C8 at 1. f_equal. simpl. f_equal.
  apply (Z.mod_unique_pos _ _ (k - 1)); lia.
Qed.
Lemma mr_split_step B s k c d m d' : reading B s k c d m → split d = Some d' → pipe_step B s k c d d' m.
Proof.
  intros [C1 C2 C3 C4 R C5 C6 C7 C8 C9 C10 C11 C12 C13 C14] E. exists k.
  unfold pipe_cost, made, parted, joined in *.
  destruct d as [re p nw bl mt cf i ics vr mc mf x xl sg rp jf po]. simpl in *.
  destruct (rd_deq re) as [[v re']|] eqn:Ep; [|done]. simpl in E. case_bool_decide as Hl; [|done]. injection E as <-.
  destruct (rd_deq_stream (8 * bb) m re v re' C1 Ep) as (l & P1 & P2 & P3 & P4 & P5).
  assert (length (rd_buff re) = S (length (rd_buff re'))) as Eb.
  { apply (f_equal length) in P2. unfold rd_stream in P2. simpl in P2. rewrite !length_app, P5 in P2. lia. }
  split_and!; [split; simpl; unfold made, parted, joined; simpl; rewrite ?length_app; simpl; try done; try lia|done
    |unfold pipe_cost, made, parted, joined; simpl; rewrite length_app; simpl; lia].
  - intros t u [Ht|[Ht Eu]]%lookup_app_Some; [by eapply C10|]. apply list_lookup_singleton_Some in Eu as [Et <-].
    assert (t = length rp) as -> by lia. specialize (C11 0%nat v l). rewrite P2 in C11. specialize (C11 eq_refl).
    by rewrite Z.add_0_r in C11.
  - intros t u l' Ht. specialize (C11 (S t) u l'). rewrite P2 in C11. specialize (C11 Ht).
    by replace (c + length jf + (length rp + 1)%nat + Z.of_nat t) with (c + length jf + length rp + Z.of_nat (S t)) by lia.
  - rewrite P5, C12. f_equal. lia.
Qed.
Lemma double_mod j : (2 * j) mod (2 * nb) = 2 * (j mod nb) ∧ (2 * j + 1) mod (2 * nb) = 2 * (j mod nb) + 1.
Proof.
  destruct mr_nb_pos as (Hn & _). pose proof (Z.div_mod j nb ltac:(lia)). pose proof (Z.mod_pos_bound j nb ltac:(lia)).
  split; symmetry; apply (Z.mod_unique_pos _ _ (j / nb)); lia.
Qed.
Lemma mr_join_step B s k c d m d' : reading B s k c d m → join d = Some d' → pipe_step B s k c d d' m.
Proof.
  intros [C1 C2 C3 C4 R C5 C6 C7 C8 C9 C10 C11 C12 C13 C14] E. exists k.
  unfold pipe_cost, made, parted, joined in *.
  destruct d as [re p nw bl mt cf i ics vr mc mf x xl sg rp jf po]. simpl in *.
  destruct rp as [|v rp]; [done|]. destruct sg as [|a [|b [|]]]; try done.
  case_bool_decide as Hl; [|done]. injection E as <-. destruct C8 as [C8 _]. simpl in *.
  injection C8 as Ea Eb.
  assert (a = 2 * ((c + length jf) mod nb) ∧ b = 2 * ((c + length jf) mod nb) + 1) as [-> ->].
  { destruct (double_mod (c + length jf)) as [D1 D2]. split; [rewrite <-D1, Ea|rewrite <-D2, Eb]; f_equal; lia. }
  split_and!; [split; simpl; unfold made, parted, joined; simpl; rewrite ?length_app; simpl; try done; try lia|done
    |unfold pipe_cost, made, parted, joined; simpl; rewrite length_app; simpl; lia].
  - split; [done|lia].
  - intros t b0 b1 [Ht|[Ht Eu]]%lookup_app_Some; [by eapply C9|]. apply list_lookup_singleton_Some in Eu as [Et [= <- <-]].
    assert (t = length jf) as -> by lia. specialize (C10 0%nat v eq_refl). rewrite Z.add_0_r in C10.
    unfold mism, ident in C10. rewrite <-negb_andb, <-bool_decide_and.
    rewrite (bool_decide_ext _ (v = (2 * ((c + length jf) mod nb), 2 * ((c + length jf) mod nb) + 1))); [done|].
    destruct v. simpl. split; [by intros [-> ->]|by intros [= -> ->]].
  - intros t u Ht. specialize (C10 (S t) u Ht).
    by replace (c + (length jf + 1)%nat + Z.of_nat t) with (c + length jf + Z.of_nat (S t)) by lia.
  - intros t u l Ht. specialize (C11 t u l Ht).
    by replace (c + (length jf + 1)%nat + length rp + Z.of_nat t) with (c + length jf + S (length rp) + Z.of_nat t) by lia.
  - rewrite C12. f_equal. lia.
Qed.
Lemma mr_rd_step B s k c d m q r : reading B s k c d m → rd_fire m q (re d) = Some r →
  pipe_step B s k c d (set_engine r d) m.
Proof.
  intros [C1 C2 C3 C4 R C5 C6 C7 C8 C9 C10 C11 C12 C13 C14] E. exists k.
  unfold pipe_cost, made, parted, joined in *.
  destruct d as [re p nw bl mt cf i ics vr mc mf x xl sg rp jf po]. simpl in *.
  destruct (rd_fire_stream (8 * bb) ltac:(lia) ltac:(by exists bb; lia) m q re r C1 E) as (P1 & P2 & P3 & P4 & P5).
  assert (length (rd_buff r) + length (addrs (rd_f r)) = length (rd_buff re) + length (addrs (rd_f re)))%nat as El.
  { apply (f_equal length) in P2. unfold rd_stream in P2. rewrite !length_app, !length_fmap in P2. lia. }
  rewrite C12 in P5, El. apply pass_suffix in P5; [|done].
  pose proof (pass_length (N:=nb) (L:=nb) src (c + length jf + length rp + length (rd_buff re)) (k * nb) C13) as Hpl.
  split_and!; [split; simpl; unfold made, parted, joined; simpl; rewrite ?P2, ?P4; try done; try lia|done
    |unfold pipe_cost, made, parted, joined; simpl; lia].
  rewrite P5 at 1. f_equal. lia.
Qed.

(** *** The counts *)
Lemma mr_check_pipe B s k c d m d' : reading B s k c d m → check d = Some d' → ∃ fl,
  flag_ok B c fl ∧ c < k * nb ∧ reading B s k (c + 1) d' m ∧ pipe_cost s k (c + 1) d' < pipe_cost s k c d ∧
  mismatchCounts d' = u32 (mismatchCounts d + if fl then 1 else 0) ∧
  (iterCnt d' = iterCnt d ∧ cf d' = cf d ∧ mismatchCnt d' = mismatchCnt d ∧ portal d' = portal d) ∧
  if bool_decide (valuesToRead d ≤ 2) then valuesToRead d' = 2 * nb ∧ mismatchFifo d' = mismatchFifo d ++ [mismatchCounts d']
  else valuesToRead d' = u32 (valuesToRead d - 2) ∧ mismatchFifo d' = mismatchFifo d.
Proof.
  intros [C1 C2 C3 C4 R C5 C6 C7 C8 C9 C10 C11 C12 C13 C14] E. destruct mr_nb_pos as (Hn & _ & Hsz').
  unfold pipe_cost, made, parted, joined in *.
  destruct d as [re p nw bl mt cf i ics vr mc mf x xl sg rp jf po]. simpl in *.
  destruct jf as [|[b0 b1] jf]; [done|]. exists (negb b0 || negb b1). simpl in *.
  destruct R as (R1 & R2 & -> & R4).
  assert (u32 (chunk (2 * nb) / 4) = 2 * nb) as Ech by (unfold chunk; rewrite Z.div_1_r, Z.div_mul, u32_small; lia).
  rewrite Ech in E. pose proof (C9 0%nat b0 b1 eq_refl) as Hfl. rewrite Z.add_0_r in Hfl.
  assert (∃ vr' mf', d' = mkDev re p (2 * nb) bl mt cf i ics vr' (u32 (mc + if negb b0 || negb b1 then 1 else 0)) mf' x xl sg rp jf po ∧
    if bool_decide (vr ≤ 2) then vr' = 2 * nb ∧ mf' = mf ++ [u32 (mc + if negb b0 || negb b1 then 1 else 0)]
    else vr' = u32 (vr - 2) ∧ mf' = mf) as (vr' & mf' & -> & Hv).
  { repeat case_bool_decide; try done; injection E as <-; eexists _, _; done. }
  split_and!; try done; [lia| |unfold pipe_cost, made, parted, joined; simpl; lia].
  split; simpl; unfold made, parted, joined; simpl; try done; try lia.
  - destruct C8 as [C8 ?]. split; [|done]. rewrite C8 at 1. do 2 f_equal; lia.
  - intros t c0 c1 Ht. specialize (C9 (S t) c0 c1 Ht). by replace (c + 1 + Z.of_nat t) with (c + Z.of_nat (S t)) by lia.
  - intros t v Ht. specialize (C10 t v Ht). by replace (c + 1 + length jf + Z.of_nat t) with (c + S (length jf) + Z.of_nat t) by lia.
  - intros t v l Ht. specialize (C11 t v l Ht).
    by replace (c + 1 + length jf + length rp + Z.of_nat t) with (c + S (length jf) + length rp + Z.of_nat t) by lia.
  - rewrite C12. f_equal. lia.
Qed.

(** What is handed over at the end of the [i]-th pass of a read, and what is reported: running totals *)
Definition entry_ok (s i v : Z) : Prop := s = 1 ∧ v = 0 ∨ s = 2 ∧ 3 * i + 1 ≤ v ≤ 6 * ic.
Definition total_ok (s b v : Z) : Prop := s = 1 ∧ v = 0 ∨ s = 2 ∧ 3 * (b * b) - b ≤ 2 * v ∧ v ≤ b * (6 * ic).
(** In the read that began its passes at beat [o], [b] passes have been added up. *)
Record counting (B : bool) (s c o b : Z) (d : Dev) : Prop := {
  ct_o : (s = 1 ∧ o = 1 - nb ∨ s = 2 ∧ ic * nb - (nb - 1) ≤ o ≤ ic * nb) ∧ o ≤ c;
  ct_b : 0 ≤ b ≤ ic ∧ (c - o) / nb = b + length (mismatchFifo d);
  ct_B : s = 1 → B = true → b = ic;
  ct_vr : valuesToRead d = 2 * (nb - (c - o) mod nb) ∨ c = 0 ∧ o = 1 - nb ∧ valuesToRead d = 0;
  ct_mc : 0 ≤ mismatchCounts d ≤ bc c ∧ (s = 2 → bc c - 3 * ic ≤ mismatchCounts d) ∧ (B = false → mismatchCounts d = 0);
  ct_mf t v : mismatchFifo d !! t = Some v → entry_ok s (b + Z.of_nat t) v;
  ct_it : iterCnt d = ic - b ∧ cf d = bool_decide (b < ic);
  ct_mt : if bool_decide (b = ic) then mismatchCnt d = 0 else total_ok s b (mismatchCnt d) }.

(** A read has no more passes to hand over than it was asked for. *)
Lemma passes_bound B s c o b d k : counting B s c o b d → 0 < k → c ≤ k * nb → k ≤ s * ic → (c - o) / nb ≤ ic.
Proof.
  intros C Hk Hc Hs. destruct mr_nb_pos as (Hn & _). destruct (ct_o _ _ _ _ _ _ C) as [[[-> ->]|[-> Ho]] _].
  - apply Z.lt_succ_r, Z.div_lt_upper_bound; nia.
  - apply Z.lt_succ_r, Z.div_lt_upper_bound; nia.
Qed.
Lemma bc_upper c : 0 ≤ c ≤ 2 * ic * nb → bc c ≤ 6 * ic.
Proof.
  intros Hc. destruct mr_nb_pos as (Hn & _). pose proof (bc_mono c (2 * ic * nb + 0) ltac:(lia)) as H.
  rewrite bc_passes, bc_0 in H by lia. lia.
Qed.
(** A count that follows the flags stays between the bounds. *)
Lemma count_flag B s c o b d k fl : counting B s c o b d → flag_ok B c fl → 0 ≤ c < k * nb → k ≤ s * ic →
  s = 1 ∨ s = 2 → let mc := mismatchCounts d + if fl then 1 else 0 in
  u32 mc = mc ∧ 0 ≤ mc ≤ bc (c + 1) ∧ (s = 2 → bc (c + 1) - 3 * ic ≤ mc) ∧ (B = false → mc = 0).
Proof.
  intros C [Hf1 Hf2] Hc Hk Hs mc. destruct mr_nb_pos as (Hn & _). destruct (ct_mc _ _ _ _ _ _ C) as (M1 & M2 & M3).
  assert (0 ≤ mc ≤ bc (c + 1)) as Hmc.
  { unfold mc. rewrite bc_succ by lia. destruct fl; [destruct Hf1 as [_ ->]; [done|]|destruct (bad c)]; lia. }
  pose proof (bc_upper (c + 1) ltac:(nia)). split_and!; try lia.
  - rewrite u32_small; lia.
  - intros E2. specialize (M2 E2). destruct (decide (ic * nb ≤ c)).
    + unfold mc. rewrite bc_succ by lia. rewrite Hf2 by done. destruct (bad c); lia.
    + pose proof (bc_mono (c + 1) (ic * nb + 0) ltac:(lia)) as Hm. rewrite bc_passes, bc_0 in Hm by lia. lia.
  - intros EB. unfold mc. rewrite (M3 EB). destruct fl; [|done]. destruct Hf1 as [? _]; congruence.
Qed.
Lemma new_entry s k c o a mc :
  s = 1 ∧ o = 1 - nb ∨ s = 2 ∧ ic * nb - (nb - 1) ≤ o ≤ ic * nb → c + 1 - o = (a + 1) * nb → 0 ≤ a →
  0 ≤ c → c + 1 ≤ k * nb ∧ k ≤ s * ic → (s = 1 → mc = 0) → mc ≤ bc (c + 1) → (s = 2 → bc (c + 1) - 3 * ic ≤ mc) →
  entry_ok s a mc.
Proof.
  intros Ho Ha Ha0 Hc Hk H1 Hu H2. destruct mr_nb_pos as (Hn & _). destruct Ho as [[-> ->]|[-> Ho]]; [left; auto|right].
  specialize (H2 eq_refl). pose proof (bc_upper (c + 1) ltac:(nia)).
  pose proof (bc_mono ((ic + a) * nb + 1) (c + 1) ltac:(nia)) as Hm. rewrite bc_passes, bc_1 in Hm by lia. lia.
Qed.
Lemma mr_check_count B s k c o b d m d' : reading B s k c d m → counting B s c o b d → check d = Some d' →
  counting B s (c + 1) o b d'.
Proof.
  intros R C E. destruct (mr_check_pipe B s k c d m d' R E) as (fl & Hfl & Hck & R' & _ & Emc & (E1 & E2 & E3 & _) & Hv).
  pose proof (rg_c _ _ _ _ _ _ R). pose proof (rg_k _ _ _ _ _ _ R). pose proof (rg_s _ _ _ _ _ _ R) as Hs.
  destruct mr_nb_pos as (Hn & _ & Hsz').
  destruct (count_flag B s c o b d k fl C Hfl) as (Eu & M); [lia|lia|tauto|]. rewrite Eu in Emc.
  destruct C as [[C1 C1'] [C2 C2'] C3 C4 _ C6 C7 C8]. pose proof (Z.div_mod (c - o) nb ltac:(lia)) as Hdm.
  pose proof (Z.mod_pos_bound (c - o) nb ltac:(lia)) as Hmb.
  assert (valuesToRead d ≤ 2 ↔ (c - o) mod nb = nb - 1) as Hlast.
  { destruct C4 as [->|(-> & -> & ->)]; [lia|]. split; [|lia]. intros _. rewrite Z.mod_small; lia. }
  case_bool_decide as Hvr; destruct Hv as [Hv Hf].
  - apply Hlast in Hvr.
    assert ((c + 1 - o) / nb = (c - o) / nb + 1 ∧ (c + 1 - o) mod nb = 0) as [Ed Em].
    { split; symmetry; [apply (Z.div_unique_pos _ _ _ 0)|apply (Z.mod_unique_pos _ _ ((c - o) / nb + 1))]; lia. }
    split; rewrite ?E1, ?E2, ?E3, ?Emc; try done.
    + split; [done|lia].
    + split; [done|]. rewrite Hf, length_app, Ed. simpl. lia.
    + left. lia.
    + intros t v. rewrite Hf. intros [Ht|[Ht Et]]%lookup_app_Some; [by eapply C6|].
      apply list_lookup_singleton_Some in Et as [Et <-]. assert (b + Z.of_nat t = (c - o) / nb) as -> by lia. rewrite Emc.
      destruct M as (M1 & M2 & M3). apply (new_entry s k c o); try done; [nia|apply Z.div_pos; lia|lia| |lia].
      intros ->. destruct B; [|by apply M3]. specialize (C3 eq_refl eq_refl). exfalso.
      destruct C1 as [[_ ->]|[? _]]; [|done]. assert (ic ≤ (c - (1 - nb)) / nb) by lia. nia.
  - assert ((c - o) mod nb ≠ nb - 1) as Hnl by tauto.
    assert ((c + 1 - o) / nb = (c - o) / nb ∧ (c + 1 - o) mod nb = (c - o) mod nb + 1) as [Ed Em].
    { split; symmetry; [apply (Z.div_unique_pos _ _ _ ((c - o) mod nb + 1))|apply (Z.mod_unique_pos _ _ ((c - o) / nb))]; lia. }
    split; rewrite ?E1, ?E2, ?E3, ?Emc, ?Hf; try done.
    + split; [done|lia].
    + split; [done|lia].
    + left. rewrite Hv, Em. destruct C4 as [->|(_ & _ & ?)]; [|lia]. rewrite u32_small; lia.
Qed.
(** The pipeline does not see the sums, nor the sums the pipeline. *)
Lemma reading_counts B s k c d d' m : reading B s k c d m →
  (re d', pointer d', numWords d', burstLen d', iterCnts d', range_x d', range_limit d', srcGen d', readPipe d', joinFifo d') =
  (re d, pointer d, numWords d, burstLen d, iterCnts d, range_x d, range_limit d, srcGen d, readPipe d, joinFifo d) →
  reading B s k c d' m ∧ pipe_cost s k c d' = pipe_cost s k c d.
Proof.
  intros R E. destruct d, d'. simpl in E. injection E as -> -> -> -> -> -> -> -> -> ->. split; [|done].
  by destruct R; split.
Qed.
Lemma counting_counts B s c o b d d' : counting B s c o b d → counts d' = counts d → counting B s c o b d'.
Proof.
  intros C E. destruct d, d'. unfold counts in E. simpl in E. injection E as -> -> -> -> -> -> _. by destruct C; split.
Qed.
Lemma mr_indicate_step B s k c o b d m d' l : reading B s k c d m → counting B s c o b d → indicate_finish d = Some (d', l) →
  b < ic ∧ reading B s k c d' m ∧ counting B s c o (b + 1) d' ∧ pipe_cost s k c d' = pipe_cost s k c d ∧ portal d' = portal d ∧
  (b + 1 < ic ∧ l = [] ∨ b + 1 = ic ∧ ∃ v, l = [ReadDone v] ∧ total_ok s ic v).
Proof.
  intros R C E.
  assert (0 < k → (c - o) / nb ≤ ic) as Hpb.
  { intros Hk. apply (passes_bound B s c o b d k C Hk); [|apply (rg_k _ _ _ _ _ _ R)].
    pose proof (rg_fetched _ _ _ _ _ _ R). unfold parted, joined in *. lia. }
  assert (k = 0 → c = 0) as Hk0.
  { intros ->. pose proof (rg_fetched _ _ _ _ _ _ R). pose proof (rg_c _ _ _ _ _ _ R). unfold parted, joined in *. lia. }
  pose proof (rg_k _ _ _ _ _ _ R) as Hk.
  destruct C as [[C1 C1'] [C2 C2'] C3 C4 C5 C6 [C7 C7'] C8]. destruct mr_nb_pos as (Hn & _).
  destruct (mismatchFifo d) as [|v mf] eqn:Ef; [destruct d; simpl in *; by subst|]. simpl in C2'.
  assert (b < ic) as Hb.
  { destruct (decide (0 < k)); [lia|]. rewrite (Hk0 ltac:(lia)) in *. destruct C1 as [[_ ->]|[-> Ho]].
    - rewrite Z.div_small in C2' by lia. lia.
    - nia. }
  pose proof (C6 0%nat v eq_refl) as Hv. rewrite Z.add_0_r in Hv. rewrite bool_decide_false in C8 by lia.
  rewrite bool_decide_true in C7' by lia.
  assert (total_ok s (b + 1) (u32 (v + mismatchCnt d)) ∧ u32 (v + mismatchCnt d) = v + mismatchCnt d) as [Ht Eu].
  { destruct Hv as [[-> ->]|[-> Hv]]; (destruct C8 as [[? ->]|[? C8]]; [|try done]); try done.
    - split; [by left|done].
    - assert (v + mismatchCnt d ≤ (b + 1) * (6 * ic)) by nia. assert (0 ≤ mismatchCnt d) by nia.
      assert ((b + 1) * (6 * ic) ≤ 6 * (ic * ic)) by nia. assert (ic * ic < 2 ^ 13 * 2 ^ 13) by nia.
      rewrite u32_small by lia. split; [right; split; [done|]; split; nia|done]. }
  destruct d as [re p nw bl mt cf i ics vr mc mf' x xl sg rp jf po]. simpl in *. subst mf' i cf.
  assert (counting B s c o (b + 1) d' ∧ ∃ cf' mt', d' = mkDev re p nw bl mt' cf' (ic - (b + 1)) ics vr mc mf x xl sg rp jf po ∧
    (b + 1 < ic ∧ l = [] ∨ b + 1 = ic ∧ ∃ v, l = [ReadDone v] ∧ total_ok s ic v)) as (Ct & cf' & mt' & -> & Hl).
  2: { split_and!; try done; by eapply reading_counts. }
  rewrite (u32_small (ic - b - 1)) in E by lia. replace (ic - b - 1) with (ic - (b + 1)) in E by lia.
  assert (∀ t v', mf !! t = Some v' → entry_ok s (b + 1 + Z.of_nat t) v') as C6'.
  { intros t v' Hv'. specialize (C6 (S t) v' Hv'). by replace (b + 1 + Z.of_nat t) with (b + Z.of_nat (S t)) by lia. }
  case_bool_decide as Hi; injection E as <- <-; (split; [split; simpl; try done; try lia|eexists _, _; split; [done|]]).
  - split; [lia|]. by rewrite bool_decide_false by lia.
  - by rewrite bool_decide_true by lia.
  - right. split; [lia|]. eexists. split; [done|]. by replace ic with (b + 1) by lia.
  - intros H1 H2. specialize (C3 H1 H2). lia.
  - split; [lia|]. by rewrite bool_decide_true by lia.
  - by rewrite bool_decide_false by lia.
  - left. split; [lia|done].
Qed.

(** *** The device as a whole *)
Definition live (B : bool) (s k c o b : Z) (d : Dev) (m : Mem) : Prop := reading B s k c d m ∧ counting B s c o b d.
Definition live_cost (s k c b : Z) (d : Dev) : Z := pipe_cost s k c d + 8 * (ic - b).
Definition reported (s : Z) (l : list Ind) : Prop := ∃ v, l = [ReadDone v] ∧ total_ok s ic v.

Lemma live_pipe B s k c o b d d' m : live B s k c o b d m → pipe_step B s k c d d' m →
  portal d' = portal d ∧ ∃ k', live B s k' c o b d' m ∧ live_cost s k' c b d' < live_cost s k c b d.
Proof.
  intros [_ C] (k' & R & E & Hc). split; [by injection E|]. exists k'. unfold live_cost. split; [|lia].
  split; [done|by eapply counting_counts].
Qed.
Lemma live_step B s k c o b d m r d' m' l : live B s k c o b d m → r ≠ DAccept → dfire r d m = Some (d', m', l) →
  m' = m ∧ portal d' = portal d ∧ ∃ k' c' b', live B s k' c' o b' d' m ∧
    live_cost s k' c' b' d' + 4 * length l < live_cost s k c b d ∧
    (l = [] ∧ (b' = ic ↔ b = ic) ∧ b' ≤ ic ∨ b < ic ∧ b' = ic ∧ reported s l).
Proof.
  intros L Hr E. pose proof L as [R C]. pose proof (ct_b _ _ _ _ _ _ C) as [Hb _].
  assert (∀ d1, pipe_step B s k c d d1 m → d1 = d' ∧ m' = m ∧ l = [] → m' = m ∧ portal d' = portal d ∧ ∃ k' c' b', live B s k' c' o b' d' m ∧
    live_cost s k' c' b' d' + 4 * length l < live_cost s k c b d ∧
    (l = [] ∧ (b' = ic ↔ b = ic) ∧ b' ≤ ic ∨ b < ic ∧ b' = ic ∧ reported s l)) as Hpipe.
  { intros d1 Hp (-> & -> & ->). destruct (live_pipe B s k c o b d d' m L Hp) as [Ep (k' & L' & Hc)].
    split_and!; try done. exists k', c, b. split_and!; [done|simpl; lia|]. left. split_and!; [done|done|lia]. }
  destruct r as [| | | | | | | |q]; [done|..]; simpl in E; unfold quietly in E.
  - destruct (start d) as [d1|] eqn:Ed; [|done]. injection E as <- <- <-. eapply Hpipe; [by eapply mr_start_step|done].
  - destruct (finish d) as [d1|] eqn:Ed; [|done]. injection E as <- <- <-. eapply Hpipe; [by eapply mr_finish_step|done].
  - destruct (gen d) as [d1|] eqn:Ed; [|done]. injection E as <- <- <-. eapply Hpipe; [by eapply mr_gen_step|done].
  - destruct (split d) as [d1|] eqn:Ed; [|done]. injection E as <- <- <-. eapply Hpipe; [by eapply mr_split_step|done].
  - destruct (join d) as [d1|] eqn:Ed; [|done]. injection E as <- <- <-. eapply Hpipe; [by eapply mr_join_step|done].
  - destruct (check d) as [d1|] eqn:Ed; [|done]. injection E as <- <- <-.
    destruct (mr_check_pipe B s k c d m d1 R Ed) as (fl & _ & _ & R' & Hc & _ & (_ & _ & _ & Ep) & _).
    split_and!; try done. exists k, (c + 1), b. split_and!; [by split; [|eapply mr_check_count]|unfold live_cost; simpl; lia|].
    left. split_and!; [done|done|lia].
  - destruct (indicate_finish d) as [[d1 l1]|] eqn:Ed; [|done]. injection E as <- <- <-.
    destruct (mr_indicate_step B s k c o b d m d1 l1 R C Ed) as (Hlt & R' & C' & Hc & Ep & Hl).
    split_and!; try done. exists k, c, (b + 1). unfold live_cost.
    destruct Hl as [[Hl ->]|[Hl (v & -> & Hv)]]; (split_and!; [done|simpl; lia|]); [left|right]; split_and!; try done; try lia.
    by exists v.
  - destruct (rd_fire m q (re d)) as [r1|] eqn:Ed; [|done]. injection E as <- <- <-. eapply Hpipe; [by eapply mr_rd_step|done].
Qed.
Lemma live_progress B s k c o b d m : live B s k c o b d m → b < ic → ∃ q, is_Some (dfire q d m).
Proof.
  intros [R C] Hb. pose proof (mr_stream_length _ _ _ _ _ _ R) as Hlen. destruct mr_nb_pos as (Hn & _ & Hsz').
  destruct R as [C1 C2 C3 C4 (R1 & R2 & R3 & R4) C5 C6 C7 [_ C8] C9 C10 C11 C12 C13 C14].
  destruct C as [[T1 T1'] [T2 T2'] T3 T4 T5 T6 [T7 T7'] T8]. unfold made, parted, joined in *.
  destruct d as [re p nw bl mt cf i ics vr mc mf x xl sg rp jf po]. simpl in *. rewrite bool_decide_true in T7' by done. subst. clear T8.
  destruct mf as [|v mf]; [|exists DIndicate; simpl; case_bool_decide; by eexists].
  destruct jf as [|[b0 b1] jf]; [|exists DCheck; simpl; unfold quietly; repeat case_bool_decide; by eexists || (simpl in *; lia)]. simpl in *.
  destruct sg as [|a [|a' sg]]; cbn [length] in *.
  - destruct (decide (c = k * nb)) as [->|Hne].
    + assert (k < s * ic) as Hk.
      { pose proof (Z.mul_succ_div_gt (k * nb - o) nb ltac:(lia)). destruct T1 as [[-> ->]|[-> Ho]]; nia. }
      destruct (f_outf (rd_f re)) as [|out] eqn:Eo.
      2: { exists DFinish. destruct re as [[oo cs ld wk rsp cap out'] bf]. simpl in *. subst. by eexists. }
      exists DStart. simpl. unfold quietly. rewrite bool_decide_true by lia.
      pose proof (ro_outs _ _ _ C1) as Hos. assert (rd_stream m re = []) as Es by (apply length_zero_iff_nil; lia).
      rewrite Es, Eo in Hos. destruct re as [[oo cs ld wk rsp cap out'] bf]. simpl in *. subst. simpl. by eexists.
    + exists DGen. simpl. unfold quietly. destruct C7 as [(-> & _)|(Hk & -> & -> & Hx)]; [lia|].
      rewrite bool_decide_true by lia. by eexists.
  - exists DGen. simpl in *. unfold quietly. destruct C7 as [(-> & _)|(Hk & -> & -> & Hx)]; [lia|].
    rewrite bool_decide_true by lia. by eexists.
  - simpl in *. destruct sg; [|simpl in *; lia]. destruct rp as [|v rp]; [|exists DJoin; simpl; by eexists]. simpl in *.
    destruct (rd_progress (8 * bb) ltac:(lia) m re C1) as [[[v r'] E]|[[q [r' E]]|[r' E]]].
    + intros Es. rewrite Es in Hlen. simpl in Hlen. lia.
    + exists DSplit. simpl. unfold quietly. rewrite E. by eexists.
    + exists (DRd q). simpl. rewrite E. by eexists.
    + exists DFinish. simpl. unfold quietly. rewrite E. by eexists.
Qed.

Definition start_cmd : startRead := mkStart src (2 * nb) (2 * bb) ic.
Definition fresh : Dev := mkDev rd_init 0 0 0 0 false 0 0 0 0 [] 1 0 [] [] [] [start_cmd].
Definition budget : Z := (16 * nb + 32) * ic.
(** Before a read is accepted: the device is fresh, or still at the rest of the first read *)
Definition waiting (s : Z) (d : Dev) (m : Mem) (cost : Z) : Prop :=
  s = 1 ∧ d = fresh ∧ mem_ok false m ∧ cost = budget + 5 ∨
  s = 2 ∧ ∃ k c o, live true 1 k c o ic d m ∧ portal d = [start_cmd] ∧ cost = live_cost 1 k c ic d + budget + 5.
Definition dev_inv (B : bool) (s : Z) (e : list Ind) (d : Dev) (m : Mem) (cost : Z) : Prop :=
  B = bool_decide (s = 2) ∧
  (e = [] ∧ waiting s d m cost ∨
   ∃ k c o b l, live B s k c o b d m ∧ portal d = [] ∧ cost = live_cost s k c b d ∧ e = Started :: l ∧
     (b < ic ∧ l = [] ∨ b = ic ∧ reported s l)).

Lemma accept_first m : mem_ok false m → ∃ d, accept fresh = Some (d, [Started]) ∧
  live false 1 0 0 (1 - nb) 0 d m ∧ portal d = [] ∧ live_cost 1 0 0 0 d = budget.
Proof.
  intros Hm. destruct mr_nb_pos as (Hn & _ & Hsz'). eexists. split; [done|]. rewrite !u32_small by (unfold chunk; simpl; lia).
  split_and!; [|done|].
  2: { unfold live_cost, pipe_cost, made, parted, joined, budget. simpl. change (rd_cost rd_init) with 0. lia. }
  split; split; unfold made, parted, joined; simpl; try done; try lia.
  - apply rd_init_ok.
  - split; [done|lia].
  - split; [lia|]. rewrite Z.div_small by lia. done.
  - by right.
  - split; [lia|]. by rewrite bool_decide_true by lia.
  - rewrite bool_decide_false by lia. by left.
Qed.
Lemma accept_second k c o d m : live true 1 k c o ic d m → portal d = [start_cmd] → ∃ d', accept d = Some (d', [Started]) ∧
  live true 2 k c c 0 d' m ∧ portal d' = [] ∧ live_cost 2 k c 0 d' = live_cost 1 k c ic d + budget.
Proof.
  intros [R C] Hp. destruct mr_nb_pos as (Hn & _ & Hsz').
  assert (k = ic ∧ (ic - 1) * nb < c ≤ ic * nb) as [-> Hc].
  { pose proof (rg_k _ _ _ _ _ _ R). pose proof (rg_fetched _ _ _ _ _ _ R). unfold parted, joined in *.
    destruct (ct_o _ _ _ _ _ _ C) as [[[_ ->]|[? _]] _]; [|done]. destruct (ct_b _ _ _ _ _ _ C) as [_ Hd].
    pose proof (Z.mul_div_le (c - (1 - nb)) nb ltac:(lia)). assert ((ic - 1) * nb < c) by nia.
    assert (k = ic); [|subst; lia]. assert (ic - 1 < k) by nia. lia. }
  assert (mismatchFifo d = []) as Hmf.
  { pose proof (passes_bound true 1 c o ic d ic C ltac:(lia) ltac:(lia) ltac:(lia)).
    destruct (ct_b _ _ _ _ _ _ C) as [_ Hd]. apply length_zero_iff_nil. lia. }
  destruct R as [C1 C2 C3 C4 (R1 & R2 & R3 & R4) C5 C6 C7 C8 C9 C10 C11 C12 C13 C14].
  destruct C as [_ _ _ _ _ _ [T7 T7'] T8]. rewrite bool_decide_true in T8 by done. rewrite bool_decide_false in T7' by lia.
  destruct d as [re p nw bl mt cf i ics vr mc mf x xl sg rp jf po]. simpl in *. subst.
  eexists. split; [done|]. unfold chunk. rewrite Z.div_1_r, Z.div_mul, !u32_small by lia.
  pose proof (bc_mono 0 c ltac:(lia)) as B0. pose proof (bc_mono c (ic * nb + 0) ltac:(lia)) as B1. rewrite bc_0 in B0. rewrite bc_passes, bc_0 in B1 by lia.
  split_and!; [|done|unfold live_cost, pipe_cost, made, parted, joined, budget; simpl; lia].
  split; split; simpl; try done; try lia.
  - split; [lia|]. by rewrite Z.sub_diag.
  - left. rewrite Z.sub_diag, Z.mod_0_l by lia. lia.
  - split; [lia|]. by rewrite bool_decide_true by lia.
  - rewrite bool_decide_false by lia. right. lia.
Qed.
Lemma mr_dev_step B s e d m cost r d' m' l : dev_inv B s e d m cost → dfire r d m = Some (d', m', l) →
  m' = m ∧ ∃ cost', dev_inv B s (e ++ l) d' m' cost' ∧ cost' + 4 * length l < cost.
Proof.
  intros [EB H] E. destruct H as [[-> H]|(k & c & o & b & t & L & Hp & -> & -> & Ht)].
  - destruct H as [(-> & -> & Hm & ->)|(-> & k & c & o & L & Hp & ->)].
    + assert (r = DAccept) as -> by (destruct r as [| | | | | | | |[]]; done).
      destruct (accept_first m Hm) as (d1 & E1 & L1 & Hp1 & Hc). unfold dfire in E. rewrite E1 in E. injection E as <- <- <-.
      split; [done|]. exists budget. split; [|simpl; lia]. split; [done|]. right. subst B.
      exists 0, 0, (1 - nb), 0, []. split_and!; try done. left. split; [lia|done].
    + destruct (decide (r = DAccept)) as [->|Hr].
      * destruct (accept_second k c o d m L Hp) as (d1 & E1 & L1 & Hp1 & Hc). unfold dfire in E. rewrite E1 in E. injection E as <- <- <-.
        split; [done|]. exists (live_cost 2 k c 0 d1). split; [|simpl; lia]. split; [done|]. right. subst B.
        exists k, c, c, 0, []. split_and!; try done. left. split; [lia|done].
      * destruct (live_step true 1 k c o ic d m r d' m' l L Hr E) as (-> & Ep & k' & c' & b' & L' & Hc & Hl).
        split; [done|]. destruct Hl as [(-> & Hb & _)|(? & _)]; [|lia]. assert (b' = ic) as -> by tauto.
        exists (live_cost 1 k' c' ic d' + budget + 5). split; [|simpl in *; lia]. split; [done|]. left. split; [done|].
        right. split; [done|]. exists k', c', o. by rewrite Ep.
  - destruct (decide (r = DAccept)) as [->|Hr]; [destruct d; simpl in *; by subst|].
    destruct (live_step B s k c o b d m r d' m' l L Hr E) as (-> & Ep & k' & c' & b' & L' & Hc & Hl).
    split; [done|]. exists (live_cost s k' c' b' d'). split; [|done]. split; [done|]. right.
    exists k', c', o, b', (t ++ l). rewrite Ep. split_and!; try done.
    destruct Hl as [(-> & Hb & Hb')|(? & -> & Hrp)]; rewrite ?app_nil_r.
    + destruct Ht as [[? ->]|[-> ?]]; [left; split; [|done]|right; split; [tauto|done]].
      assert (b' ≠ ic) by (intros ->; lia). lia.
    + destruct Ht as [[_ ->]|[-> _]]; [|lia]. by right.
Qed.
Lemma pipe_cost_nonneg B s k c d m : reading B s k c d m → 0 ≤ pipe_cost s k c d.
Proof.
  intros R. destruct mr_nb_pos as (Hn & _). pose proof (rg_k _ _ _ _ _ _ R). pose proof (rg_made _ _ _ _ _ _ R).
  pose proof (rg_fetched _ _ _ _ _ _ R). pose proof (rd_cost_nonneg (re d)). unfold pipe_cost.
  assert (0 ≤ (16 * nb + 24) * (s * ic - k)) by nia. lia.
Qed.
Lemma live_cost_nonneg B s k c o b d m : live B s k c o b d m → 0 ≤ live_cost s k c b d.
Proof.
  intros [R C]. pose proof (pipe_cost_nonneg _ _ _ _ _ _ R). destruct (ct_b _ _ _ _ _ _ C) as [? _]. unfold live_cost. lia.
Qed.
Lemma mr_dev_nonneg B s e d m cost : dev_inv B s e d m cost → 0 ≤ cost.
Proof.
  destruct mr_nb_pos as (Hn & _). assert (0 ≤ budget) by (unfold budget; nia).
  intros [_ [[_ [(_ & _ & _ & ->)|(_ & k & c & o & L & _ & ->)]]|(k & c & o & b & l & L & _ & -> & _)]];
    [lia|apply live_cost_nonneg in L; lia|by apply live_cost_nonneg in L].
Qed.
(** What the device has sent, and that it goes on until it has reported *)
Definition sent (s : Z) (e : list Ind) : Prop :=
  e = [] ∨ e = [Started] ∨ ∃ v, e = [Started; ReadDone v] ∧ total_ok s ic v.
Lemma mr_dev_sent B s e d m cost : dev_inv B s e d m cost → sent s e.
Proof.
  intros [_ [[-> _]|(k & c & o & b & l & _ & _ & _ & -> & [[_ ->]|[_ (v & -> & Hv)]])]]; [by left|by right; left|].
  right; right. by exists v.
Qed.
Lemma mr_dev_progress B s e d m cost : dev_inv B s e d m cost → (∀ v, ReadDone v ∉ e) → ∃ q, is_Some (dfire q d m).
Proof.
  intros [_ [[-> H]|(k & c & o & b & l & L & _ & _ & -> & [[Hb ->]|[_ (v & -> & _)]])]] He.
  - exists DAccept. destruct H as [(_ & -> & Hm & _)|(_ & k & c & o & L & Hp & _)].
    + destruct (accept_first m Hm) as (d' & E & _). simpl in *. by eexists.
    + destruct (accept_second k c o d m L Hp) as (d' & E & _). simpl in *. rewrite E. by eexists.
  - by eapply live_progress.
  - destruct (He v). right. left.
Qed.

(** *** The buffer *)
Definition word (B : bool) (i : Z) : Z := if B && bool_decide (i = 0 ∨ i = nb ∨ i = 2 * nb - 1) then 2 ^ 32 - 1 else i.
Lemma mem_ok_words B m : (∀ i, 0 ≤ i < 2 * nb → m src i = word B i) → mem_ok B m.
Proof.
  intros Hm j Hj. destruct mr_nb_pos as (Hn & [h Hh] & Hsz'). pose proof (Z.mod_pos_bound j nb ltac:(lia)).
  unfold mism, bad, ident, beat_at. set (q := j mod nb) in *.
  replace (8 * q / 4) with (2 * q) by div_lia. rewrite !Hm by lia. unfold word.
  replace (nb / 2) with h by (rewrite Hh; symmetry; apply Z.div_mul; lia).
  destruct B; simpl; [|by rewrite bool_decide_true].
  rewrite <-bool_decide_not. apply bool_decide_ext.
  repeat case_bool_decide; split; intros G; try lia; try (intros [=]; lia); destruct G; f_equal; lia.
Qed.
Lemma words_mem_ok m i : mem_ok false m → 0 ≤ i < 2 * nb → m src i = i.
Proof.
  intros Hm Hi. destruct mr_nb_pos as (Hn & _). assert (0 ≤ i / 2 < nb) as Hq by div_lia.
  specialize (Hm (i / 2) ltac:(lia)). rewrite Z.mod_small in Hm by done. apply negb_false_iff, bool_decide_eq_true in Hm.
  unfold ident, beat_at in Hm. rewrite Z.mod_small in Hm by done. replace (8 * (i / 2) / 4) with (2 * (i / 2)) in Hm by div_lia.
  injection Hm as H1 H2.
  destruct (decide (i mod 2 = 0)); [replace i with (2 * (i / 2)) by div_lia|replace i with (2 * (i / 2) + 1) by div_lia]; done.
Qed.
(** A word stored *)
Definition mem_store (i v : Z) (m : Mem) : Mem := λ b j, if bool_decide (b = src ∧ j = i) then u32 v else m b j.
Lemma spoil_mem m : mem_ok false m → mem_ok true (mem_store (2 * nb - 1) (-1) (mem_store nb (-1) (mem_store 0 (-1) m))).
Proof.
  intros Hm. apply mem_ok_words. intros i Hi. unfold mem_store, word. change (u32 (-1)) with (2 ^ 32 - 1).
  rewrite (words_mem_ok m i) by done. simpl. repeat case_bool_decide; try done; tauto || lia.
Qed.
(** The rest of the first read may see the words change; its count is not reported any more. *)
Lemma spoil_live k c o d m m' : live false 1 k c o ic d m → mem_ok true m' → live true 1 k c o ic d m'.
Proof.
  intros [R C] Hm'. pose proof (rg_fetched _ _ _ _ _ _ R) as Hf. pose proof (rg_c _ _ _ _ _ _ R) as Hc.
  destruct mr_nb_pos as (Hn & _).
  assert (∀ j b, flag_ok false j b → flag_ok true j b) as Hfl by (intros j b [H1 H2]; split; [by intros []%H1|done]).
  split.
  - destruct R as [C1 C2 C3 C4 R C5 C6 C7 C8 C9 C10 C11 C12 C13 C14]. split; try done.
    + by eapply rd_ok_mem.
    + by left.
    + intros t b0 b1 Ht. by eapply Hfl, C9.
    + intros t v Ht. by eapply Hfl, C10.
    + intros t v l. unfold rd_stream. intros [Ht|[Hl Ht]]%lookup_app_Some.
      { eapply Hfl, C11. unfold rd_stream. by apply lookup_app_l_Some. }
      rewrite C12 in Ht. apply fetch_lookup in Ht as [-> Ht]. unfold parted, joined in *.
      replace (c + length (joinFifo d) + length (readPipe d) + length (rd_buff (re d)) + Z.of_nat (t - length (rd_buff (re d))))
        with (c + length (joinFifo d) + length (readPipe d) + Z.of_nat t) in * by lia.
      apply (fetched_flag true 1 _ k); try done; [by left|lia|lia].
  - destruct C as [T1 T2 T3 T4 (M1 & M2 & M3) T6 T7 T8]. split; try done.
Qed.
End Reading.

(** ** The program's verdict *)
Section Verdict.
Context (src : Z) (bsim : bool).
(** The bursts of a pass, of 8 beats *)
Definition bursts : Z := if bsim then 18688 else 299008.
Abbreviation inv B := (dev_inv src 8 bursts (iters bsim) B).
Abbreviation total := (total_ok (iters bsim)).
Lemma mr_constants : 0 < 8 ≤ 16 ∧ 4 ≤ bursts ∧ (2 | bursts) ∧ 16 * (8 * bursts) < 2 ^ 32 ∧ 0 < iters bsim < 2 ^ 13.
Proof. unfold bursts, iters. destruct bsim; split_and!; try done; [by exists 9344|by exists 149504]. Qed.
Lemma mr_words : words bsim = 2 * nb 8 bursts ∧ words bsim / 2 = nb 8 bursts.
Proof. by unfold bursts; destruct bsim. Qed.
(** What is reported fits the program's counter, and is never what it hopes for. *)
Lemma total_int s v : total s (iters bsim) v → s32 (0 + v) = v.
Proof. intros H. rewrite s32_small; [done|]. unfold iters, total_ok in *. destruct bsim, H as [[_ ->]|(_ & ? & ?)]; lia. Qed.
Lemma total_wrong v : total 2 (iters bsim) v → v ≠ 3 * iters bsim.
Proof. intros [[? _]|(_ & H & _)]; [done|]. unfold iters in *. destruct bsim; lia. Qed.

(** The program in read [s] after it has waited [k] times for the semaphore *)
Definition prog_inv (s k : Z) (e : list Ind) (m : Mem) (l : list Ind) (th : list Act) (p : Prog) : Prop :=
  sent (iters bsim) s e ∧ ∃ h, e = h ++ l ∧
  ((h = [] ∨ h = [Started]) ∧ th = [] ∧ p = mkProg 0 0 ∧ k = 0 ∨
   ∃ v, h = [Started; ReadDone v] ∧
     (th = [AddCount v; Post] ∧ p = mkProg 0 0 ∧ k = 0 ∨ th = [Post] ∧ p = mkProg 0 v ∧ k = 0 ∨
      th = [] ∧ p = mkProg (1 - k) v)).
Lemma sent_app_nil s h l v : sent (iters bsim) s (h ++ l) → h = [Started; ReadDone v] → l = [] ∧ total s (iters bsim) v.
Proof. intros [?|[?|(v' & E & Hv)]] ->; [done..|]. by injection E as -> ->. Qed.
Lemma memread_frame B s k : frame_ok dfire callback run (inv B s) (prog_inv s k) 4.
Proof.
  destruct mr_constants as (H1 & H2 & H3 & H4 & H5). split.
  - intros. by eapply mr_dev_nonneg.
  - intros e d m c r d' m' l HI E. by apply (mr_dev_step src 8 bursts (iters bsim) H1 H2 H3 H4 H5 B s e d m c r d' m' l HI E).
  - intros e d m c r d' m' l qs th p HI (Hp & h & -> & Hh) E.
    destruct (mr_dev_step src 8 bursts (iters bsim) H1 H2 H3 H4 H5 B s _ d m c r d' m' l HI E) as (-> & c' & HI' & _).
    split; [by eapply mr_dev_sent|]. exists h. by rewrite app_assoc.
  - intros e m i l p (Hp & h & -> & Hh). split; [done|]. exists (h ++ [i]). rewrite <-app_assoc. split; [done|].
    destruct Hh as [([->| ->] & _ & -> & ->)|(v & Eh & _)].
    + assert (i = Started) as -> by (by destruct Hp as [?|[[= ->]|(v & [= ->] & _)]]). left. by split_and!; [right|..].
    + right. destruct Hp as [?|[?|(v & [= -> ->] & _)]]; [done..|]. exists v. split; [done|]. by left.
    + by destruct (sent_app_nil s h (i :: l) v Hp Eh).
  - intros e m l a th p (Hp & h & -> & Hh). split; [done|]. exists h. split; [done|].
    destruct Hh as [(_ & ? & _)|(v & Eh & Hh)]; [done|]. destruct (sent_app_nil s h l v Hp Eh) as [_ Hv]. right. exists v. split; [done|].
    destruct Hh as [([= -> ->] & -> & ->)|[([= -> ->] & -> & ->)|(? & _)]]; [| |done].
    + right; left. split_and!; try done. simpl. by rewrite (total_int s v).
    + by right; right.
Qed.
Abbreviation wok B s k := (world_ok (inv B s) (prog_inv s k) 4 0).

Lemma mr_prog_taken B s w c : wok B s 0 w c → 0 < test_sem (prog w) → wok B s 1 (upd_prog take_sem w) c.
Proof.
  intros (e & cd & HI & (Hp & h & Eh & Hh) & H) Hs. destruct w as [d m l q k th p st]. exists e, cd. simpl in *.
  split_and!; try apply H; try done. split; [done|]. exists h. split; [done|].
  destruct Hh as [(_ & _ & -> & _)|(v & -> & [(_ & -> & _)|[(_ & -> & _)|(? & ->)]])]; [done..|].
  right. exists v. split; [done|]. by right; right.
Qed.
(** At rest after a read: nothing is left to handle and the count is in. *)
Lemma mr_prog_at_rest B s w c : wok B s 1 w c → ∃ v k' c' o cd,
  total s (iters bsim) v ∧ prog w = mkProg 0 v ∧ inds w = [] ∧ acts (thread w) = [] ∧
  live src 8 bursts (iters bsim) B s k' c' o (iters bsim) (dev w) (mem w) ∧ portal (dev w) = [] ∧
  cd = live_cost 8 bursts (iters bsim) s k' c' (iters bsim) (dev w) ∧ cd ≤ c ∧ B = bool_decide (s = 2).
Proof.
  intros (e & cd & [EB HI] & (Hp & h & -> & Hh) & _ & _ & _ & Ec).
  destruct Hh as [(_ & _ & _ & ?)|(v & Eh & Hh)]; [done|]. destruct (sent_app_nil s h _ v Hp Eh) as [El Hv].
  destruct Hh as [(_ & _ & ?)|[(_ & _ & ?)|(Ht & ->)]]; [done..|]. rewrite El, app_nil_r in HI. subst h.
  destruct HI as [[? _]|(k' & c' & o & b & l & L & Hpo & -> & E & Hb)]; [done|]. injection E as <-.
  destruct Hb as [[_ ?]|[-> _]]; [done|]. eexists v, k', c', o, _. split_and!; try done; lia.
Qed.
(** The device waits for nothing when the program waits. *)
Lemma mr_waits B s e d m cd p : inv B s e d m cd → prog_inv s 0 e m [] [] p → test_sem p ≤ 0 → ∃ r, is_Some (dfire r d m).
Proof.
  destruct mr_constants as (H1 & H2 & H3 & H4 & H5). intros HI (Hp & h & -> & Hh) Hs. rewrite app_nil_r in *.
  eapply (mr_dev_progress src 8 bursts (iters bsim)); try done. intros v.
  destruct Hh as [([->| ->] & _)|(u & -> & [(? & _)|[(? & _)|(_ & ->)]])]; try done;
    [by apply not_elem_of_nil|by rewrite list_elem_of_singleton].
Qed.

Context (choose : nat → @World Dev Ind Act Prog → @BRule DRule) (fuel : nat)
  (Hch : work_conserving (bfire dfire callback run) choose).
(** A read, from a world in which the program has nothing to handle *)
Lemma read_spec B s d m c :
  inv B s [] (push (start_cmd src 8 bursts (iters bsim)) d) m c → c ≤ Z.of_nat fuel →
  ∃ w c', wok B s 1 w c' ∧ c' ≤ c ∧ read src bsim choose fuel (mkWorld d m [] 0 0 [] (mkProg 0 0) 0) = (Done tt, w).
Proof.
  intros HI Hf. destruct mr_words as [Hw _].
  set (w1 := mkWorld (push (start_cmd src 8 bursts (iters bsim)) d) m [] 0 0 [] (mkProg 0 0) 0 : @World Dev Ind Act Prog).
  assert (wok B s 0 w1 c) as W1.
  { exists [], c. split_and!; try done; [|by right|simpl; lia].
    split; [by left|]. exists []. split; [done|]. left. by split_and!; [left|..]. }
  destruct (wait_spec dfire callback run choose Hch fuel (inv B s) (prog_inv s 0) 4 ltac:(by intros [])
    (memread_frame B s 0) test_sem take_sem w1 c W1 (mr_waits B s) Hf) as (w2 & c2 & W2 & Hc2 & Hs2 & E2).
  exists (upd_prog take_sem w2), c2. split_and!; [by apply mr_prog_taken|done|].
  unfold read. rewrite (bind_Done _ _ _ tt w1); [done|]. unfold w1, start_cmd. by rewrite <-Hw.
Qed.
End Verdict.

(** The program at its start, with any contents of memory. *)
Definition boot (m : Mem) : @World Dev Ind Act Prog := mkWorld dev_init m [] 0 0 [] (mkProg 0 0) 0.
Lemma mr_fill_upto src n m : ∃ m1, for_each (seqZ 0 (Z.of_nat n)) (λ i, store src i i) (boot m) = (Done tt, boot m1) ∧
  ∀ i, 0 ≤ i < Z.of_nat n → m1 src i = u32 i.
Proof.
  induction n as [|n (m1 & E & IH)]; [exists m; split; [done|lia]|].
  replace (Z.of_nat (S n)) with (Z.of_nat n + 1) by lia. rewrite seqZ_app by lia.
  eexists. rewrite for_each_app, (bind_Done _ _ _ _ _ E). split; [done|]. intros i Hi. simpl.
  case_bool_decide as Hn; [f_equal; lia|]. apply IH. destruct (decide (i = Z.of_nat n)); [|lia]. destruct Hn. split; [done|lia].
Qed.
(** The program at rest after its first read and the traffic report *)
Lemma at_rest_world src bsim (w : @World Dev Ind Act Prog) c : thread w = [] →
  world_ok (dev_inv src 8 (bursts bsim) (iters bsim) false 1) (prog_inv bsim 1 1) 4 0 w c →
  ∃ d m k' c' o, w = mkWorld d m [] 0 0 [] (mkProg 0 0) 0 ∧ portal d = [] ∧
    live src 8 (bursts bsim) (iters bsim) false 1 k' c' o (iters bsim) d m ∧
    live_cost 8 (bursts bsim) (iters bsim) 1 k' c' (iters bsim) d ≤ c.
Proof.
  intros Ht W. destruct (mr_prog_at_rest src bsim false 1 w c W) as (v & k' & c' & o & cd & Hv & Hp & Hi & _ & L & Hpo & -> & Hc & _).
  destruct W as (e & ? & _ & _ & _ & Hs & Hr & _). unfold reports in Hr. destruct w as [d m l q k th p s]. simpl in *. subst.
  destruct Hv as [[_ ->]|[? _]]; [|done]. exists d, m, k', c', o. split_and!; try done. f_equal; lia.
Qed.

(** C16. The memory read test fails on every run, after its first half has passed.  Whatever the buffer
    holds at first and however the device, the read engine and the event thread interleave, the
    device reports no mismatch for the buffer that the program has filled.  When three words are
    changed and the buffer is read again, the program expects three mismatches a pass; the device does not
    restart its count between the passes and adds the running totals, so that
    what it reports grows with the square of the passes, and the program exits with 1. *)
Theorem memread_verdict src bsim choose fuel m :
  work_conserving (bfire dfire callback run) choose →
  2 * ((128 * bursts bsim + 32) * iters bsim) + 13 ≤ Z.of_nat fuel →
  ∃ w', memread_runtest src bsim choose fuel (boot m) = (Done 1, w') ∧
    memread_main src bsim choose fuel (boot m) = (Exited 1, w') ∧
    3 * (iters bsim * iters bsim) - iters bsim ≤ 2 * mismatchCount (prog w') ∧ 3 * iters bsim < mismatchCount (prog w').
Proof.
  intros Hch Hf. destruct (mr_constants bsim) as (H1 & H2 & H3 & H4 & H5). destruct (mr_words bsim) as [Hw Hw2].
  destruct (mr_nb_pos 8 (bursts bsim) H1 H2 H3 H4) as (Hn & _ & Hn').
  set (B := budget 8 (bursts bsim) (iters bsim)). assert (2 * B + 13 ≤ Z.of_nat fuel) as HB by (unfold B, budget, nb; lia).
  destruct (mr_fill_upto src (Z.to_nat (words bsim)) m) as (m1 & E1 & Hm1). rewrite Z2Nat.id in E1, Hm1 by lia.
  assert (mem_ok src 8 (bursts bsim) false m1) as Hok.
  { apply mem_ok_words; try done. intros i Hi. rewrite Hm1, u32_small by lia. done. }
  destruct (read_spec src bsim choose fuel Hch false 1 dev_init m1 (B + 5)) as (w2 & c2 & W2 & Hc2 & E2).
  { split; [done|]. left. split; [done|]. by left. }
  { lia. }
  destruct (stats_spec dfire callback run choose Hch fuel _ _ 4 ltac:(by intros []) (memread_frame src bsim false 1 1) _ c2 W2 ltac:(lia))
    as (w3 & c3 & W3 & Hc3 & Ht3 & E3).
  destruct (at_rest_world src bsim w3 c3 Ht3 W3) as (d & m3 & k & c & o & -> & Hpo & L & Hcost).
  pose proof L as [R _]. pose proof (spoil_mem src 8 (bursts bsim) (iters bsim) H1 H2 H3 H4 H5 m3 (rg_mem _ _ _ _ _ _ _ _ _ _ R)) as Hok2.
  set (m4 := mem_store _ _ _ _) in Hok2. apply (spoil_live _ _ _ _ H1 H2 H3 H4 _ _ _ _ _ m4) in L; [|done].
  destruct (read_spec src bsim choose fuel Hch true 2 d m4
    (live_cost 8 (bursts bsim) (iters bsim) 1 k c (iters bsim) d + B + 5)) as (w5 & c5 & W5 & _ & E5).
  { split; [done|]. left. split; [done|]. right. split; [done|]. exists k, c, o.
    destruct d. simpl in *. subst. split_and!; try done. by destruct L as [[] []]. }
  { lia. }
  destruct (mr_prog_at_rest src bsim true 2 w5 c5 W5) as (v & _ & _ & _ & _ & Hv & Hp & _).
  pose proof (total_wrong bsim v Hv) as Hne.
  assert (memread_runtest src bsim choose fuel (boot m) = (Done 1, w5)) as Er.
  { unfold memread_runtest, fill. rewrite (bind_Done _ _ _ _ _ E1). unfold boot at 1. unfold dev_init at 1. rewrite (bind_Done _ _ _ _ _ E2).
    rewrite (bind_Done _ _ _ w2 w2) by done. destruct (mr_prog_at_rest src bsim false 1 w2 c2 W2) as (v2 & _ & _ & _ & _ & [[_ ->]|[? _]] & Hp2 & _); [|done].
    rewrite Hp2. rewrite (bind_Done _ _ _ _ _ E3). unfold spoil. rewrite Hw2, Hw.
    rewrite (bind_Done _ _ _ tt (mkWorld d m4 [] 0 0 [] (mkProg 0 0) 0)) by done.
    rewrite (bind_Done _ _ _ _ _ E5). rewrite (bind_Done _ _ _ w5 w5) by done. rewrite Hp. simpl.
    by rewrite bool_decide_false by done. }
  exists w5. split_and!; [done| |rewrite Hp..].
  - unfold memread_main. by rewrite (bind_Done _ _ _ _ _ Er).
  - destruct Hv as [[? _]|(_ & Hv & _)]; done.
  - destruct Hv as [[? _]|(_ & Hv & _)]; [done|]. simpl. unfold iters in *. destruct bsim; lia.
Qed.
Definition drules : list DRule := [DAccept; DStart; DFinish; DGen; DSplit; DJoin; DCheck; DIndicate; DRd RLoad; DRd RReq; DRd RData].
Lemma mr_drules_all r : r ∈ drules.
Proof. destruct r as [| | | | | | | |[]]; repeat first [by left | right]. Qed.
Lemma memread_verdict_witness : ∃ w',
  memread_runtest 1 true (first_of (bfire dfire callback run) (brules drules) BStep) (Z.to_nat 15000000) (boot (λ _ _, 0)) = (Done 1, w') ∧
  memread_main 1 true (first_of (bfire dfire callback run) (brules drules) BStep) (Z.to_nat 15000000) (boot (λ _ _, 0)) = (Exited 1, w') ∧
  24 ≤ 2 * mismatchCount (prog w') ∧ 9 < mismatchCount (prog w').
Proof.
  apply memread_verdict; [apply first_of_conserving, brules_all, mr_drules_all|]. rewrite Z2Nat.id by done. done.
Defined.
