(* ===== verification/Display.v ===== *)
(** * The HDMI display (src/examples/hdmidisplay/testhdmidisplay.cpp, src/lib/bsv/HDMI.bsv, HdmiDisplay.bsv)

    The display controller sweeps over lines and pixels, and once a frame starts a
    transfer of the frame buffer that it has been given; the program paints one of two buffers, hands it over and waits for
    the end of a frame, at which a callback paints the other one.  The main
    thread, the event thread, the transfer and the pixel clock interleave in any way.
    The synchronizers between the clock domains are left out; the moments at which beats are
    fetched are free, and a pixel clock at which the queue is empty although a pixel is due
    is not a step: what is shown is stated for a memory that keeps up. *)
From stdpp Require Import base numbers list.
From S2P Require Import Prelude Hdmi MemEngines.
Local Open Scope Z_scope.

(** ** The generator *)

(** [lib/bsv/HDMI.bsv:196-209] the registers of setDePixel and of setDeLine *)
Record Times := mkTimes { t_porch : Z; t_width : Z; t_visible : Z; t_last : Z; t_mid : Z }.
(** [lib/bsv/YUV.bsv:35-40] VideoData *)
Record Video := mkVideo { v_vsync : bool; v_hsync : bool; v_de : bool; v_pixel : Z }.
(** [lib/bsv/HDMI.bsv:67-106] mkHdmiGenerator *)
Record Gen := mkGen { pix : Times; lin : Times; patterns : list Z; shadowTestPattern : bool; waitingForVsync : bool;
  lineCount : Z; pixelCount : Z; patternIndex0 : bool; patternIndex1 : bool; testPattern : bool;
  dataEnable : bool; lineVisible : bool; vsync : bool; hsync : bool; vsyncCounter : Z; stage : Video }.

(** [lib/bsv/HDMI.bsv:132-173] inc_counters: the next state, whether a transfer is to start and whether the end
    of the frame is reported, which ends the wait for it (vsyncReceived) *)
Definition inc_counters (g : Gen) : Gen * bool * bool :=
  let '(mkGen p l pt sh wt lc pc i0 i1 tp de lv vs hs n st) := g in
  if bool_decide (pc = t_last p) then
    if bool_decide (lc = t_last l) then
      (mkGen p l pt sh false 0 0 false false sh false false vs hs n st, false, wt)
    else
      (mkGen p l pt sh wt ((lc + 1) mod 2 ^ 11) 0 false (i1 || bool_decide (t_mid l ≤ lc)) tp false
         (lv || bool_decide (lc = t_visible l)) vs hs n st, false, false)
  else
    let start := bool_decide (lc = t_porch l) && bool_decide (pc = 0) && negb tp in
    (mkGen p l pt sh wt lc ((pc + 1) mod 2 ^ 12) (i0 || bool_decide (pc = t_mid p)) i1 tp
       (if bool_decide (pc = t_visible p) then lv else de) lv
       (if bool_decide (lc = t_porch l) then true else if bool_decide (lc = t_width l) then false else vs)
       (if bool_decide (pc = t_porch p) then true else if bool_decide (pc = t_width p) then false else hs)
       (if start then u32 (n + 1) else n) st, start, false).
(** [lib/bsv/HDMI.bsv:175-186] output_data_rule, testpattern_rule and put: what goes to the output, [v] being the pixel
    that is put *)
Definition output (v : Z) (g : Gen) : Video :=
  if dataEnable g then
    if testPattern g then
      mkVideo false false true (nth ((if patternIndex1 g then 2 else 0) + (if patternIndex0 g then 1 else 0))%nat (patterns g) 0)
    else mkVideo false false true (v mod 2 ^ 24)
  else mkVideo (vsync g) (hsync g) false 0.
Definition set_stage (v : Video) (g : Gen) : Gen :=
  let '(mkGen p l pt sh wt lc pc i0 i1 tp de lv vs hs n _) := g in mkGen p l pt sh wt lc pc i0 i1 tp de lv vs hs n v.

(** ** The display *)

(** [lib/bsv/HdmiDisplay.bsv:75-118] mkHdmiDisplay: the frame buffer, the transfer under way (the object, the next
    beat and their number), the queue of beats and the second pixel of the beat in hand *)
Record Disp := mkDisp { gen : Gen; byteCount : Z; reference : option Z; xfer : option (Z * Z * Z);
  queue : list Beat; evenOdd : bool; savedPixel : Z }.
(** [lib/bsv/HdmiDisplay.bsv:120-123] fromMemread: a beat of the transfer *)
Definition fromMemread (m : Z → Z → Z) (d : Disp) : option Disp :=
  let '(mkDisp g bc rf x q eo sp) := d in
  match x with
  | Some (r, k, n) =>
    if bool_decide (k < n) && bool_decide (length q < 1024)%nat then
      Some (mkDisp g bc rf (Some (r, k + 1, n)) (q ++ [beat_at m r (8 * k)]) eo sp)
    else None
  | None => None
  end.
(** [lib/bsv/HdmiDisplay.bsv:125-135] doPut: the pixel, what is left of the queue and the pixel saved *)
Definition doPut (d : Disp) : option (Z * list Beat * Z) :=
  if evenOdd d then match queue d with (a, b) :: q => Some (a, q, b) | [] => None end
  else Some (savedPixel d, queue d, savedPixel d).
(** [lib/bsv/HdmiDisplay.bsv:142-152] vsyncrule and startTransfer: the queue is cleared and the transfer starts;
    not when the one before is still under way, of which then an unknown part would follow *)
Definition startTransfer (d : Disp) : option Disp :=
  let '(mkDisp g bc rf x q eo sp) := d in
  if bool_decide (q = []) && match x with Some (_, k, n) => bool_decide (k = n) | None => true end then
    Some (mkDisp g bc rf (match rf with Some r => Some (r, 0, bc / 8) | None => None end) [] true 0)
  else None.
(** One pixel clock: the pixel shown from the buffer, if any, whether a transfer starts and whether the end of the frame is reported *)
Definition tick (d : Disp) : option (Disp * option Z * bool * bool) :=
  let '(mkDisp g bc rf x q eo sp) := d in
  let due := dataEnable g && negb (testPattern g) in
  '(v, q, sp) ← (if due then doPut d else Some (0, q, sp));
  let st := output v g in
  let '(g, start, sent) := inc_counters (set_stage st g) in
  let d := mkDisp g bc rf x q (if due then negb eo else eo) sp in
  d ← (if start : bool then startTransfer d else Some d);
  Some (d, if due then Some (v_pixel st) else None, start, sent).
(** [lib/bsv/HdmiDisplay.bsv:170-174] startFrameBuffer *)
Definition startFrameBuffer (r count : Z) (d : Disp) : Disp :=
  let '(mkDisp g bc rf x q eo sp) := d in mkDisp g (count mod 2 ^ 24) (Some r) x q eo sp.
(** [lib/bsv/HDMI.bsv:193-195] setTestPattern *)
Definition setTestPattern (v : bool) (d : Disp) : Disp :=
  let '(mkDisp (mkGen p l pt _ wt lc pc i0 i1 tp de lv vs hs n st) bc rf x q eo sp) := d in
  mkDisp (mkGen p l pt v wt lc pc i0 i1 tp de lv vs hs n st) bc rf x q eo sp.
(** [lib/bsv/HDMI.bsv:210-212] waitForVsync *)
Definition waitForVsync (d : Disp) : Disp :=
  let '(mkDisp (mkGen p l pt sh _ lc pc i0 i1 tp de lv vs hs n st) bc rf x q eo sp) := d in
  mkDisp (mkGen p l pt sh true lc pc i0 i1 tp de lv vs hs n st) bc rf x q eo sp.

(** ** The program *)

(** [examples/hdmidisplay/testhdmidisplay.cpp:205-208] main: the first timing whose clock is in the range; the pixel clock is an int *)
Fixpoint select (limit : Z) (ts : list edid_detailed_timing) : option edid_detailed_timing :=
  match ts with
  | [] => None
  | t :: ts =>
    let pixclk := s32 (pixclk t * 10000) in
    if bool_decide (0 < pixclk) && bool_decide (pixclk < limit) then Some t else select limit ts
  end.
(** [examples/hdmidisplay/testhdmidisplay.cpp:208-231] main: the arguments of setDeLine and setDePixel, as wide as the registers *)
Definition line_times (t : edid_detailed_timing) : Times :=
  let b x := x mod 2 ^ 11 in
  mkTimes (b (vsyncoff t)) (b (vsyncoff t + vsyncwidth t)) (b (blines t)) (b (blines t + nlines t)) (b (blines t + nlines t / 2)).
Definition pixel_times (t : edid_detailed_timing) : Times :=
  let b x := x mod 2 ^ 12 in
  let hblank := bpixels t - 1 in
  mkTimes (b (hsyncoff t)) (b (hsyncoff t + hsyncwidth t)) (b hblank) (b (hblank + npixels t)) (b (hblank + npixels t / 2)).

Section Program.
(** The lines and pixels that are visible and the references of the two buffers; a buffer is known by its reference. *)
Context (nlines npixels : Z) (ref_srcAlloc : Z → Z).
(** [examples/hdmidisplay/testhdmidisplay.cpp:71-71] corner *)
Definition corner (i : Z) : Z := nth (Z.to_nat (Z.rem i 4)) [0; -1; 0xf00f; 0x0fff] 0.
(** [examples/hdmidisplay/testhdmidisplay.cpp:78-93] fill_pixels: a pixel *)
Definition pixel_value (offset corner_index line pixel : Z) : Z :=
  let v := Z.lor (Z.shiftl (Z.rem (Z.quot (256 * line) nlines + offset) 256) 16)
                 (Z.rem (Z.quot (256 * pixel) npixels + offset) 256) in
  let v := if bool_decide (v = 0) then 1 else v in
  let v := if bool_decide (line < 20 ∧ pixel < 20) then corner (corner_index + 0) else v in
  let v := if bool_decide (line < 30 ∧ npixels - 40 < pixel) then corner (corner_index + 1) else v in
  let v := if bool_decide (nlines - 20 < line ∧ pixel < 20) then corner (corner_index + 2) else v in
  let v := if bool_decide (nlines - 30 < line ∧ npixels - 40 < pixel) then corner (corner_index + 3) else v in
  let v := if bool_decide (line < 20 ∧ Z.rem pixel 20 < 2) then corner (corner_index + 0) else v in
  if bool_decide (Z.rem line 30 < 2 ∧ npixels - 40 < pixel) then corner (corner_index + 1) else v.
(** Where a thread is in [fill_pixels]: in its loop, with the buffer and the offset, or before one of the statements that
    follow; [Inc] is in the callback. *)
Inductive PC := Idle | Fill (ptr offset i : Z) | Corner (offset : Z) | Start | Pattern | Wait | Flip | Inc.
(** [shown]: what has been shown since the last transfer started; [inds]: reports that wait for the event thread *)
Record World := mkWorld { disp : Disp; mem : Z → Z → Z; shown : list Z; inds : nat; main : PC; evt : PC;
  frame_index : Z; corner_index : Z; base : Z }.
Inductive Step := Clock | Fetch | Call | Main | Evt.
Definition fbsize : Z := nlines * npixels * 4.
(** The [i]-th pixel of a picture *)
Definition painted (offset ci i : Z) : Z := pixel_value offset ci (i / npixels) (i mod npixels).
(** [examples/hdmidisplay/testhdmidisplay.cpp:73-102] fill_pixels, statement by statement, with what the thread does [after] it *)
Definition fill_pixels (after : PC) (pc : PC) (w : World) : option (PC * World) :=
  let '(mkWorld d m sn n mn ev fi ci b) := w in
  match pc with
  | Idle => None
  | Fill ptr offset i =>
    if bool_decide (i < nlines * npixels) then
      Some (Fill ptr offset (i + 1),
        mkWorld d (λ r j, if bool_decide (r = ptr ∧ j = i) then u32 (painted offset ci i) else m r j) sn n mn ev fi ci b)
    else Some (Corner offset, w)
  | Corner offset => Some (Start, mkWorld d m sn n mn ev fi (Z.quot offset 16) b)
  | Start => Some (Pattern, mkWorld (startFrameBuffer (ref_srcAlloc fi) fbsize d) m sn n mn ev fi ci b)
  | Pattern => Some (Wait, mkWorld (setTestPattern false d) m sn n mn ev fi ci b)
  | Wait => Some (Flip, mkWorld (waitForVsync d) m sn n mn ev fi ci b)
  | Flip => Some (after, mkWorld d m sn n mn ev (1 - fi) ci b)
  | Inc => Some (Idle, mkWorld d m sn n mn ev fi ci (s32 (b + 2)))
  end.
(** [examples/hdmidisplay/testhdmidisplay.cpp:110-116] vsync *)
Definition call (w : World) : option World :=
  let '(mkWorld d m sn n mn ev fi ci b) := w in
  match n, ev with
  | S n, Idle => Some (mkWorld d m sn n mn (Fill (ref_srcAlloc fi) b 0) fi ci b)
  | _, _ => None
  end.
(** [settled]: callbacks wait for the main thread to leave fill_pixels *)
Definition step (settled : bool) (s : Step) (w : World) : option World :=
  let '(mkWorld d m sn n mn ev fi ci b) := w in
  match s with
  | Clock =>
    '(d, p, start, sent) ← tick d;
    Some (mkWorld d m (if start : bool then [] else sn ++ option_list p) (if sent : bool then S n else n) mn ev fi ci b)
  | Fetch => d ← fromMemread m d; Some (mkWorld d m sn n mn ev fi ci b)
  | Call => if settled && negb (match mn with Idle => true | _ => false end) then None else call w
  | Main => '(mn, w) ← fill_pixels Idle mn w; let '(mkWorld d m sn n _ ev fi ci b) := w in Some (mkWorld d m sn n mn ev fi ci b)
  | Evt => '(ev, w) ← fill_pixels Inc ev w; let '(mkWorld d m sn n mn _ fi ci b) := w in Some (mkWorld d m sn n mn ev fi ci b)
  end.
Fixpoint steps (settled : bool) (l : list Step) (w : World) : option World :=
  match l with [] => Some w | s :: l => w ← step settled s w; steps settled l w end.
(** [examples/hdmidisplay/testhdmidisplay.cpp:239-250] main, before its call of fill_pixels: both buffers have their references *)
Definition at_fill (g : Gen) (m : Z → Z → Z) (bc : Z) : World :=
  mkWorld (mkDisp g bc None None [] true 0) m [] 0 (Fill (ref_srcAlloc 0) 0 0) Idle 0 0 0.
End Program.

(** ** The sweep *)
Section Sweep.
(** Lines and pixels, visible and blank, and the line at which transfers start *)
Context (nl np vb hb po : Z) (Hnl : 0 < nl) (Hnp : 0 < np) (Hhb : 0 < hb) (Hpo : 0 ≤ po ≤ vb)
  (Hl : vb + nl < 2 ^ 11) (Hp : hb + np ≤ 2 ^ 12).
Record gen_ok (g : Gen) : Prop := {
  go_pix : t_visible (pix g) = hb - 1 ∧ t_last (pix g) = hb - 1 + np;
  go_lin : t_porch (lin g) = po ∧ t_visible (lin g) = vb ∧ t_last (lin g) = vb + nl;
  go_count : 0 ≤ pixelCount g < hb + np ∧ 0 ≤ lineCount g ≤ vb + nl;
  go_vis : lineVisible g = bool_decide (vb < lineCount g);
  go_de : dataEnable g = bool_decide (vb < lineCount g ∧ hb ≤ pixelCount g) }.
(** Visible pixels before the present position of the frame; whether the start of transfers has passed *)
Definition emitted (g : Gen) : Z :=
  if bool_decide (vb < lineCount g) then (lineCount g - vb - 1) * np + Z.max 0 (pixelCount g - hb) else 0.
Definition begun (g : Gen) : Prop := po < lineCount g ∨ lineCount g = po ∧ 0 < pixelCount g.
Definition frame_end (g : Gen) : Prop := lineCount g = vb + nl ∧ pixelCount g = hb + np - 1.
(** A clock within a frame, and the last one *)
Definition within (g g' : Gen) (start : bool) : Prop :=
  waitingForVsync g' = waitingForVsync g ∧ testPattern g' = testPattern g ∧
  emitted g' = emitted g + (if dataEnable g then 1 else 0) ∧
  start = bool_decide (lineCount g = po ∧ pixelCount g = 0 ∧ testPattern g = false) ∧
  (begun g' ↔ begun g ∨ lineCount g = po ∧ pixelCount g = 0).
Definition wraps (g g' : Gen) : Prop :=
  waitingForVsync g' = false ∧ testPattern g' = shadowTestPattern g ∧ lineCount g' = 0 ∧ pixelCount g' = 0 ∧
  dataEnable g = true ∧ emitted g + 1 = nl * np ∧ emitted g' = 0 ∧ begun g ∧ ¬ begun g'.

Lemma gen_clock g g' start sent : gen_ok g → inc_counters g = (g', start, sent) →
  gen_ok g' ∧ shadowTestPattern g' = shadowTestPattern g ∧
  (¬ frame_end g ∧ sent = false ∧ within g g' start ∨ frame_end g ∧ start = false ∧ sent = waitingForVsync g ∧ wraps g g').
Proof.
  intros [[P1 P2] (L1 & L2 & L3) [C1 C2] V D] E. unfold within, wraps, begun, emitted, frame_end.
  destruct g as [p l pt sh wt lc pc i0 i1 tp de lv vs hs n st]. simpl in *. rewrite P2, L3, L1, L2, P1 in E.
  destruct (decide (pc = hb - 1 + np)) as [->|Hpc]; [rewrite bool_decide_true in E by done|rewrite bool_decide_false in E by done].
  - destruct (decide (lc = vb + nl)) as [->|Hlc]; [rewrite bool_decide_true in E by done|rewrite bool_decide_false in E by done].
    + injection E as <- <- <-. simpl. split; [split; simpl; try done; try lia; by rewrite bool_decide_false by lia|]. split; [done|].
      right. subst de. rewrite !bool_decide_true, (bool_decide_false (vb < 0)) by lia. split_and!; try done; nia.
    + injection E as <- <- <-. simpl. rewrite Z.mod_small by lia. subst lv de.
      split; [split; simpl; try done; try lia|split; [done|]].
      * rewrite <-bool_decide_or. apply bool_decide_ext. lia.
      * by rewrite bool_decide_false by lia.
      * left. split_and!; try done; try lia.
        -- repeat case_bool_decide; nia.
        -- by rewrite bool_decide_false by lia.
  - injection E as <- <- <-. simpl. rewrite Z.mod_small by lia. subst lv de.
    split; [split; simpl; try done; try lia|split; [done|]].
    + case_bool_decide; subst; apply bool_decide_ext; lia.
    + left. split_and!; try done; try lia.
      * repeat case_bool_decide; nia.
      * rewrite <-(bool_decide_and (lc = po)). destruct tp; [rewrite andb_false_r, bool_decide_false by (by intros (_ & _ & ?)); done|].
        rewrite andb_true_r. apply bool_decide_ext. tauto.
Qed.
Lemma emitted_bound g : gen_ok g → 0 ≤ emitted g ≤ nl * np ∧ (dataEnable g = true → emitted g < nl * np ∧ begun g).
Proof.
  intros [_ _ [C1 C2] _ D]. unfold emitted, begun. rewrite D. split.
  - clear D. case_bool_decide; [|nia]. assert ((lineCount g - vb - 1) * np ≤ (nl - 1) * np) by nia. nia.
  - intros Hd%bool_decide_eq_true. rewrite bool_decide_true by lia.
    assert ((lineCount g - vb - 1) * np ≤ (nl - 1) * np) by nia. lia.
Qed.
Lemma emitted_zero g : ¬ begun g → emitted g = 0.
Proof. unfold begun, emitted. intros H. rewrite bool_decide_false by lia. done. Qed.

(** *** What is shown *)
Context (Hburst : (16 | nl * np)) (Hsz : 4 * (nl * np) < 2 ^ 24).
Definition shade (off ci i : Z) : Z := u32 (painted nl np off ci i) mod 2 ^ 24.
Definition picture (off ci : Z) : list Z := shade off ci <$> seqZ 0 (nl * np).
(** A buffer that holds a picture *)
Definition holds (m : Z → Z → Z) (r off ci : Z) : Prop := ∀ i, 0 ≤ i < nl * np → m r i = u32 (painted nl np off ci i).
Lemma half_pixels : nl * np = 2 * (nl * np / 2) ∧ 0 < nl * np.
Proof. destruct Hburst as [h Hh]. rewrite Hh. split; [|nia]. replace (h * 16) with (h * 8 * 2) by lia. rewrite Z.div_mul; lia. Qed.

(** A transfer from [r] of which [e] pixels have been put *)
Definition stream (m : Z → Z → Z) (r e : Z) (d : Disp) : Prop :=
  (∃ k, xfer d = Some (r, k, nl * np / 2) ∧ (e + 1) / 2 ≤ k ≤ nl * np / 2 ∧
    queue d = (λ j, beat_at m r (8 * j)) <$> seqZ ((e + 1) / 2) (k - (e + 1) / 2)) ∧
  evenOdd d = Z.even e ∧ (Z.even e = false → savedPixel d = m r e).
Lemma beat_words m r j : beat_at m r (8 * j) = (m r (2 * j), m r (2 * j + 1)).
Proof. unfold beat_at. by replace (8 * j / 4) with (2 * j) by div_lia. Qed.
Lemma put_stream m r e d v q sp g : stream m r e d → 0 ≤ e → doPut d = Some (v, q, sp) →
  v = m r e ∧ stream m r (e + 1) (mkDisp g (byteCount d) (reference d) (xfer d) q (negb (evenOdd d)) sp).
Proof.
  intros ((k & Ex & Hk & Eq) & Ee & Es) He E. unfold stream, doPut in *. rewrite Ee in *. simpl.
  destruct (Z.even e) eqn:Hev.
  - apply Z.even_spec in Hev as [h ->].
    replace ((2 * h + 1) / 2) with h in * by div_lia. replace ((2 * h + 1 + 1) / 2) with (h + 1) by div_lia.
    destruct (queue d) as [|[a b] q'] eqn:Eqq; [done|]. injection E as <- <- <-.
    assert (h < k) as Hlt by (destruct (decide (h = k)) as [->|]; [by rewrite Z.sub_diag in Eq|lia]).
    rewrite seqZ_cons, fmap_cons, beat_words in Eq by lia. injection Eq as -> -> Eq.
    split; [done|]. split; [|split; [by rewrite Z.add_1_r, Z.even_succ, Z.odd_mul|done]].
    exists k. split_and!; try done; try lia. rewrite Eq. do 2 f_equal; lia.
  - assert (∃ h, e = 2 * h + 1) as [h ->].
    { rewrite <-Z.negb_odd in Hev. apply negb_false_iff, Z.odd_spec in Hev. done. }
    injection E as <- <- <-. split; [by apply Es|].
    replace ((2 * h + 1 + 1 + 1) / 2) with (h + 1) by div_lia. replace ((2 * h + 1 + 1) / 2) with (h + 1) in * by div_lia.
    split; [by exists k|]. replace (2 * h + 1 + 1) with (2 * (h + 1)) by lia. rewrite Z.even_mul. done.
Qed.
Lemma fetch_stream m r e d d' : stream m r e d → fromMemread m d = Some d' → stream m r e d' ∧
  (gen d', byteCount d', reference d') = (gen d, byteCount d, reference d).
Proof.
  intros ((k & Ex & Hk & Eq) & Ee & Es) E. destruct d as [g bc rf x q eo sp]. simpl in *. subst x.
  case_bool_decide as Hlt; [|done]. case_bool_decide; [|done]. injection E as <-. split; [|done]. split; [|done].
  exists (k + 1). simpl. split_and!; try done; try lia. rewrite Eq.
  replace (k + 1 - (e + 1) / 2) with (k - (e + 1) / 2 + 1) by lia. rewrite seqZ_app, fmap_app by lia. do 2 f_equal. simpl. do 2 f_equal. lia.
Qed.
Lemma stream_end m r d : stream m r (nl * np) d →
  queue d = [] ∧ evenOdd d = true ∧ xfer d = Some (r, nl * np / 2, nl * np / 2).
Proof.
  intros ((k & Ex & Hk & Eq) & Ee & _). destruct half_pixels as [H2 _].
  replace ((nl * np + 1) / 2) with (nl * np / 2) in * by div_lia. assert (k = nl * np / 2) as -> by lia.
  assert (Z.even (nl * np) = true) as Hev by (by rewrite H2, Z.even_mul).
  rewrite Z.sub_diag in Eq. by rewrite Ee, Hev.
Qed.

(** A frame that is being shown from [r], and the display between frames or with its test pattern *)
Definition showing (m : Z → Z → Z) (r : Z) (d : Disp) (sn : list Z) : Prop :=
  testPattern (gen d) = false ∧ begun (gen d) ∧ stream m r (emitted (gen d)) d ∧
  ∃ off ci, holds m r off ci ∧ sn = shade off ci <$> seqZ 0 (emitted (gen d)).
Definition drained (d : Disp) (sn : list Z) : Prop :=
  queue d = [] ∧ evenOdd d = true ∧ (match xfer d with Some (_, k, n) => k = n | None => True end) ∧
  (testPattern (gen d) = true ∨ ¬ begun (gen d)) ∧ (sn = [] ∨ ∃ off ci, sn = picture off ci).
Definition disp_inv (m : Z → Z → Z) (t : option Z) (d : Disp) (sn : list Z) : Prop :=
  gen_ok (gen d) ∧ match t with Some r => showing m r d sn | None => drained d sn end.
(** There is a picture to be shown. *)
Definition supplied (m : Z → Z → Z) (d : Disp) : Prop :=
  ∃ r off ci, reference d = Some r ∧ holds m r off ci ∧ byteCount d = 4 * (nl * np).
Definition kept (d d' : Disp) : Prop :=
  byteCount d' = byteCount d ∧ reference d' = reference d ∧ shadowTestPattern (gen d') = shadowTestPattern (gen d).

Lemma stage_gen v g : gen_ok g → gen_ok (set_stage v g) ∧ emitted (set_stage v g) = emitted g ∧
  (begun (set_stage v g) ↔ begun g) ∧ (frame_end (set_stage v g) ↔ frame_end g) ∧
  (waitingForVsync (set_stage v g), testPattern (set_stage v g), shadowTestPattern (set_stage v g), dataEnable (set_stage v g),
    lineCount (set_stage v g), pixelCount (set_stage v g)) =
  (waitingForVsync g, testPattern g, shadowTestPattern g, dataEnable g, lineCount g, pixelCount g).
Proof. destruct g. intros []. by split_and!. Qed.
(** The end of a clock, for a display that has put [e] pixels in this frame *)
Definition outcome (m : Z → Z → Z) (t t' : option Z) (d d' : Disp) (sn : list Z) (start sent : bool) : Prop :=
  disp_inv m t' d' sn ∧ kept d d' ∧
  (sent = false ∧ waitingForVsync (gen d') = waitingForVsync (gen d) ∧ testPattern (gen d') = testPattern (gen d) ∧
     t' = (if start then reference d else t) ∨
   start = false ∧ t' = None ∧ sent = waitingForVsync (gen d) ∧ waitingForVsync (gen d') = false ∧
     testPattern (gen d') = shadowTestPattern (gen d)).
Lemma tick_drained m d sn d' p start sent : disp_inv m None d sn → (testPattern (gen d) = false → supplied m d) →
  tick d = Some (d', p, start, sent) →
  ∃ t', outcome m None t' d d' (if start then [] else sn ++ option_list p) start sent.
Proof.
  intros [G (Q & Eo & X & Ph & Hsn)] Hs E. destruct d as [g bc rf x q eo sp]. simpl in *. subst q eo.
  assert (dataEnable g && negb (testPattern g) = false) as Hdue.
  { destruct Ph as [->|Hb]; [by rewrite andb_false_r|]. destruct (dataEnable g) eqn:Hd; [|done].
    by destruct (emitted_bound g G) as [_ [_ ?]]. }
  rewrite Hdue in E. simpl in E. destruct (stage_gen (output 0 g) g G) as (G1 & E1 & B1 & F1 & EE). injection EE as W1 T1 S1 D1 L1 P1.
  destruct (inc_counters _) as [[g' st] se] eqn:Ei.
  destruct (gen_clock _ _ _ _ G1 Ei) as (G' & Sh & Hc). rewrite S1 in Sh.
  assert (start = st ∧ sent = se ∧ p = None) as (-> & -> & ->).
  { destruct st; [|by injection E as <- <- <- <-]. simpl in E. destruct (match x with Some (_, k, n) => bool_decide (k = n) | None => true end); [by injection E as <- <- <- <-|done]. }
  simpl. rewrite app_nil_r. unfold outcome, disp_inv, kept.
  destruct Hc as [(Hne & -> & W2 & T2 & E2 & -> & B2)|(Hfe & -> & -> & W2 & T2 & L2 & P2 & D2 & Em & E2 & B2 & B3)].
  - rewrite W1 in W2. rewrite T1 in *. rewrite L1, P1 in *. case_bool_decide as Hst.
    + destruct Hst as (Hl0 & Hp0 & Htp). destruct (Hs Htp) as (r & off & ci & Hr & Hh & Hbc). simpl in *. subst rf bc.
      assert (match x with Some (_, k, n) => bool_decide (k = n) | None => true end = true) as Hx.
      { destruct x as [[[? ?] ?]|]; [|done]. by rewrite bool_decide_true. }
      rewrite Hx in E. injection E as <-. simpl. exists (Some r).
      assert (emitted g' = 0) as E0.
      { rewrite E2, E1, D1. destruct (dataEnable g); [by rewrite Htp in Hdue|]. rewrite emitted_zero; [done|].
        unfold begun. lia. }
      destruct half_pixels as [H2 _].
      split_and!; try done; [|by left]. split_and!; simpl; [congruence|apply B2; by right| |].
      * rewrite E0. split; [|done]. exists 0. simpl. replace (4 * (nl * np) / 8) with (nl * np / 2) by div_lia.
        split_and!; try done; lia.
      * exists off, ci. by rewrite E0.
    + injection E as <-. simpl. exists None. split_and!; try done; [|by left]. split_and!; try done.
      simpl. rewrite T2, B2, B1. destruct (testPattern g); [by left|]. right. destruct Ph as [?|Hb]; [done|]. tauto.
  - injection E as <-. simpl. exists None. rewrite S1 in T2. rewrite W1. split_and!; try done; [|by right]. split_and!; try done.
    by right.
Qed.
Lemma shade_next off ci e : 0 ≤ e → shade off ci <$> seqZ 0 (e + 1) = (shade off ci <$> seqZ 0 e) ++ [shade off ci e].
Proof. intros He. rewrite seqZ_app, fmap_app by lia. simpl. by rewrite Z.add_0_l. Qed.
Lemma tick_showing m r d sn d' p start sent : disp_inv m (Some r) d sn → tick d = Some (d', p, start, sent) →
  ∃ t', outcome m (Some r) t' d d' (if start then [] else sn ++ option_list p) start sent.
Proof.
  intros [G (Htp & Hb & St & off & ci & Hh & ->)] E. destruct d as [g bc rf x q eo sp]. simpl in *.
  destruct (emitted_bound g G) as [He Hd]. rewrite Htp, andb_true_r in E.
  assert (∃ v q' sp', (if dataEnable g then doPut (mkDisp g bc rf x q eo sp) else Some (0, q, sp)) = Some (v, q', sp')) as (v & q' & sp' & Ep).
  { destruct (dataEnable g); [|by eexists _, _, _]. destruct (doPut _) as [[[v q'] sp']|]; [by eexists _, _, _|done]. }
  rewrite Ep in E. simpl in E. destruct (stage_gen (output v g) g G) as (G1 & E1 & B1 & F1 & EE). injection EE as W1 T1 S1 D1 L1 P1.
  destruct (inc_counters _) as [[g' st] se] eqn:Ei. destruct (gen_clock _ _ _ _ G1 Ei) as (G' & Sh & Hc). rewrite S1 in Sh.
  assert (st = false) as ->.
  { destruct Hc as [(_ & _ & _ & _ & _ & -> & _)|(_ & -> & _)]; [|done]. apply bool_decide_eq_false. rewrite L1, P1. unfold begun in Hb. lia. }
  injection E as <- <- <- <-.
  assert (stream m r (emitted g + if dataEnable g then 1 else 0) (mkDisp g' bc rf x q' (if dataEnable g then negb eo else eo) sp') ∧
    (shade off ci <$> seqZ 0 (emitted g)) ++ option_list (if dataEnable g then Some (v_pixel (output v g)) else None) =
    shade off ci <$> seqZ 0 (emitted g + if dataEnable g then 1 else 0)) as [St' ->].
  { destruct (dataEnable g) eqn:Hde.
    - destruct (put_stream m r (emitted g) _ v q' sp' g' St ltac:(lia) Ep) as [-> St']. split; [done|].
      rewrite shade_next by lia. unfold output. rewrite Hde, Htp. simpl. rewrite Hh by lia. done.
    - injection Ep as <- <- <-. rewrite !Z.add_0_r, app_nil_r. by split. }
  unfold outcome, disp_inv, kept. simpl.
  destruct Hc as [(Hne & -> & W2 & T2 & E2 & _ & B2)|(Hfe & _ & -> & W2 & T2 & L2 & P2 & D2 & Em & E2 & B2 & B3)].
  - rewrite E1, D1 in E2. exists (Some r). split_and!; try done.
    + unfold showing. simpl. rewrite E2. split_and!; [congruence|apply B2; left; by apply B1|done|by exists off, ci].
    + left. split_and!; congruence.
  - rewrite D1 in D2. rewrite E1 in Em. rewrite D2, Em in *. destruct (stream_end m r _ St') as (Q & Eo & X). simpl in *.
    exists None. split_and!; try done.
    + unfold drained. simpl. rewrite Q, X. split_and!; try done; [by right|right; by exists off, ci].
    + right. split_and!; congruence.
Qed.
Lemma fetch_inv m t d sn d' : disp_inv m t d sn → fromMemread m d = Some d' →
  disp_inv m t d' sn ∧ (gen d', byteCount d', reference d') = (gen d, byteCount d, reference d).
Proof.
  intros [G H] E. destruct t as [r|].
  - destruct H as (Htp & Hb & St & Hpic). destruct (fetch_stream m r _ d d' St E) as [St' EE].
    pose proof EE as [= Eg _ _]. unfold disp_inv, showing. rewrite Eg. split_and!; try done. congruence.
  - destruct H as (Q & _ & X & _). destruct d as [g bc rf [[[r k] n]|] q eo sp]; simpl in *; [|done]. subst.
    rewrite bool_decide_false in E by lia. done.
Qed.
(** A store outside the buffer that is shown *)
Lemma holds_store m r off ci ptr i v : holds m r off ci → ptr ≠ r →
  holds (λ q j, if bool_decide (q = ptr ∧ j = i) then v else m q j) r off ci.
Proof. intros Hh Hne j Hj. rewrite bool_decide_false by (by intros [? _]). by apply Hh. Qed.
Lemma store_inv m t d sn ptr i v : disp_inv m t d sn → t ≠ Some ptr →
  disp_inv (λ q j, if bool_decide (q = ptr ∧ j = i) then v else m q j) t d sn.
Proof.
  intros [G H] Hne. split; [done|]. destruct t as [r|]; [|done]. assert (ptr ≠ r) as Hr by congruence.
  assert (∀ j, (if bool_decide (r = ptr ∧ j = i) then v else m r j) = m r j) as Hm by (intros j; by rewrite bool_decide_false by (by intros [? _])).
  destruct H as (Htp & Hb & ((k & X & Hk & Q) & Eo & Sp) & off & ci & Hh & ->).
  split_and!; try done.
  - split; [|by rewrite Hm]. exists k. split_and!; try done; try lia. rewrite Q. apply list_fmap_ext. intros _ j _.
    unfold beat_at. by rewrite !Hm.
  - exists off, ci. split; [|done]. by apply holds_store.
Qed.
(** The pixel clock is held up at most until the next beat is fetched. *)
Lemma tick_progress m t d sn : disp_inv m t d sn →
  is_Some (tick d) ∨ ∃ d1, fromMemread m d = Some d1 ∧ is_Some (tick d1).
Proof.
  intros [G H].
  assert (∀ d1, gen d1 = gen d → (dataEnable (gen d) && negb (testPattern (gen d)) = true → is_Some (doPut d1)) →
    (lineCount (gen d) = po ∧ pixelCount (gen d) = 0 ∧ testPattern (gen d) = false →
      queue d1 = [] ∧ match xfer d1 with Some (_, k, n) => k = n | None => True end) → is_Some (tick d1)) as Htick.
  { intros [g bc rf x q eo sp] Eg Hput Hst. simpl in Eg. subst g. unfold tick. simpl in *.
    destruct (dataEnable (gen d) && negb (testPattern (gen d))) eqn:Hdue; [destruct (Hput eq_refl) as [[[v q'] sp'] ->]|]; simpl.
    all: match goal with |- context [output ?v _] => destruct (stage_gen (output v (gen d)) (gen d) G) as (G1 & _ & B1 & _ & EE);
      destruct (inc_counters (set_stage (output v (gen d)) (gen d))) as [[g' st] se] eqn:Ei end.
    all: injection EE as W1 T1 S1 D1 L1 P1; destruct (gen_clock _ _ _ _ G1 Ei) as (_ & _ & Hc).
    all: destruct st; [|by eexists]; destruct Hc as [(_ & _ & _ & _ & _ & Hs & _)|(_ & ? & _)]; [|done].
    all: symmetry in Hs; apply bool_decide_eq_true in Hs; rewrite L1, P1, T1 in Hs; destruct (Hst Hs) as [-> Hx].
    - exfalso. apply andb_prop in Hdue as [Hd _]. destruct (emitted_bound _ G) as [_ [_ Hb]]; [done|].
      rewrite (go_de _ G) in Hd. apply bool_decide_eq_true in Hd. lia.
    - simpl. destruct x as [[[r k] n]|]; [rewrite bool_decide_true by done|]; by eexists. }
  destruct t as [r|].
  - destruct H as (Htp & Hb & St & _). assert (¬ (lineCount (gen d) = po ∧ pixelCount (gen d) = 0 ∧ testPattern (gen d) = false)) as Hno.
    { unfold begun in Hb. lia. }
    destruct (doPut d) as [[[v q] sp]|] eqn:Ep; [left; apply Htick; try done; by rewrite Ep|].
    destruct (dataEnable (gen d)) eqn:Hd; [|left; by apply Htick].
    right. destruct St as ((k & X & Hk & Q) & Eo & _). destruct (emitted_bound _ G) as [He Hlt]. destruct (Hlt Hd) as [Hlt' _].
    unfold doPut in Ep. destruct (evenOdd d) eqn:Hev; [|done]. destruct (queue d) as [|[]] eqn:Eq; [|done].
    symmetry in Eo. apply Z.even_spec in Eo as [h Eh]. rewrite Eh in *. replace ((2 * h + 1) / 2) with h in * by div_lia.
    destruct half_pixels as [H2 _].
    assert (k = h) as -> by (destruct (decide (k = h)); [done|]; rewrite seqZ_cons in Q by lia; done).
    destruct d as [g bc rf x q eo sp]. simpl in *. subst. rewrite bool_decide_true by lia. eexists. split; [done|].
    apply Htick; [done| |done]. intros _. by eexists.
  - left. destruct H as (Q & Eo & X & Ph & _). apply Htick; [done| |by intros].
    intros [Hd Htp]%andb_prop. destruct Ph as [Ht|Hnb]; [by rewrite Ht in Htp|]. by destruct (emitted_bound _ G) as [_ [_ ?]].
Qed.

(** *** Two buffers *)
Context (ref : Z → Z) (Href : ref 0 ≠ ref 1).
Definition has (m : Z → Z → Z) (r : Z) : Prop := ∃ off ci, holds m r off ci.
(** While a thread paints, its buffer is neither shown nor going to be, and no report is due; once it has asked for one, exactly
    one is due, and by the time it arrives the buffer handed over is the one that is shown. *)
Definition quiet (d : Disp) (n : nat) : Prop := n = 0%nat ∧ waitingForVsync (gen d) = false.
Definition fresh (t : option Z) (d : Disp) (r : Z) : Prop := t ≠ Some r ∧ reference d ≠ Some r.
Definition one_due (t : option Z) (d : Disp) (n : nat) : Prop :=
  Z.of_nat n + (if waitingForVsync (gen d) then 1 else 0) = 1 ∧ (t = None ∨ t = reference d ∨ n = 0%nat).
Definition pc_ok (t : option Z) (d : Disp) (m : Z → Z → Z) (n : nat) (fi ci : Z) (pc : PC) : Prop :=
  match pc with
  | Fill ptr off i => quiet d n ∧ fresh t d (ref fi) ∧ ptr = ref fi ∧ 0 ≤ i ∧ ∀ j, 0 ≤ j < i → m ptr j = u32 (painted nl np off ci j)
  | Corner _ | Start => quiet d n ∧ fresh t d (ref fi) ∧ has m (ref fi)
  | Pattern | Wait => quiet d n ∧ reference d = Some (ref fi)
  | Flip => one_due t d n ∧ reference d = Some (ref fi)
  | Inc | Idle => one_due t d n ∧ reference d = Some (ref (1 - fi))
  end.
Definition handed (d : Disp) (m : Z → Z → Z) : Prop :=
  reference d = None ∧ testPattern (gen d) = true ∧ shadowTestPattern (gen d) = true ∨
  ∃ r, reference d = Some r ∧ byteCount d = 4 * (nl * np) ∧ has m r.
Definition core (t : option Z) (w : World) (pc : PC) : Prop :=
  disp_inv (mem w) t (disp w) (shown w) ∧ (frame_index w = 0 ∨ frame_index w = 1) ∧ handed (disp w) (mem w) ∧
  pc_ok t (disp w) (mem w) (inds w) (frame_index w) (corner_index w) pc.
Definition cur (w : World) : PC := match main w with Idle => evt w | pc => pc end.
Definition world_inv (w : World) : Prop := (main w = Idle ∨ evt w = Idle) ∧ ∃ t, core t w (cur w).

Lemma requests_inv m t d sn : disp_inv m t d sn →
  (∀ r c, disp_inv m t (startFrameBuffer r c d) sn) ∧ (∀ b, disp_inv m t (setTestPattern b d) sn) ∧ disp_inv m t (waitForVsync d) sn.
Proof.
  intros [[] H]. destruct d as [[] bc rf x q eo sp]. split_and!; intros; (split; [by split|]); destruct t; exact H.
Qed.
Lemma core_clock t w pc d' p start sent : core t w pc → tick (disp w) = Some (d', p, start, sent) →
  ∃ t', core t' (mkWorld d' (mem w) (if start then [] else shown w ++ option_list p) (if sent then S (inds w) else inds w)
    (main w) (evt w) (frame_index w) (corner_index w) (base w)) pc.
Proof.
  intros (D & Hfi & Hh & Hpc) E.
  assert (∃ t', outcome (mem w) t t' (disp w) d' (if start then [] else shown w ++ option_list p) start sent) as (t' & D' & (K1 & K2 & K3) & Ho).
  { destruct t as [r|]; [by apply tick_showing|]. apply (tick_drained _ _ _ _ p start sent D); [|done].
    intros Htp. destruct Hh as [(_ & ? & _)|(r & ? & ? & off & ci & ?)]; [congruence|]. by exists r, off, ci. }
  exists t'. split_and!; try done; simpl.
  - unfold handed. rewrite K1, K2, K3. destruct Hh as [(H1 & H2 & H3)|Hh]; [left|by right].
    destruct Ho as [(_ & _ & -> & _)|(_ & _ & _ & _ & ->)]; done.
  - assert (quiet (disp w) (inds w) → quiet d' (if sent then S (inds w) else inds w)) as Hq.
    { intros [-> Hw]. unfold quiet. destruct Ho as [(-> & -> & _)|(_ & _ & -> & -> & _)]; [done|]. by rewrite Hw. }
    assert (∀ r, fresh t (disp w) r → fresh t' d' r) as Hf.
    { intros r [H1 H2]. unfold fresh. rewrite K2. destruct Ho as [(_ & _ & _ & ->)|(_ & -> & _)]; [|done]. by destruct start. }
    assert (one_due t (disp w) (inds w) → one_due t' d' (if sent then S (inds w) else inds w)) as Hd.
    { intros [H1 H2]. unfold one_due. rewrite K2. destruct Ho as [(-> & -> & _ & ->)|(_ & -> & -> & -> & _)].
      - split; [done|]. destruct start; [right; by left|done].
      - split; [|by left]. destruct (waitingForVsync _); lia. }
    destruct pc; simpl in *; rewrite ?K2; try (destruct Hpc as (? & ? & ?); auto; done); destruct Hpc; auto.
Qed.
Lemma core_fill t w after pc pc' w' : (after = Idle ∨ after = Inc) → core t w pc → pc ≠ Idle →
  fill_pixels nl np ref after pc w = Some (pc', w') → core t w' pc' ∧ main w' = main w ∧ evt w' = evt w.
Proof.
  intros Haf (D & Hfi & Hh & Hpc) Hne E. destruct w as [d m sn n mn ev fi ci b]. simpl in *.
  destruct (requests_inv _ _ _ _ D) as (R1 & R2 & R3).
  assert (ref fi ≠ ref (1 - fi)) as Hr by (destruct Hfi as [->| ->]; [exact Href|exact (not_eq_sym Href)]).
  destruct pc as [|ptr off i|off| | | | |]; simpl in *; [done|..].
  - destruct Hpc as (Hq & [Hf1 Hf2] & -> & Hi & Hj). case_bool_decide as Hlt; injection E as <- <-; simpl.
    + split; [|done]. split_and!; simpl; try done.
      * by apply store_inv.
      * destruct Hh as [?|(r & Hr1 & Hr2 & off' & ci' & Hr3)]; [by left|right]. exists r. split_and!; try done.
        exists off', ci'. apply holds_store; [done|congruence].
      * split_and!; try done; [lia|]. intros j Hj'. case_bool_decide as Hji; [destruct Hji as [_ ->]; done|]. apply Hj. destruct (decide (j = i)) as [->|]; [tauto|lia].
    + split; [|done]. split_and!; simpl; try done. split_and!; try done. exists off, ci. intros j Hj'. apply Hj. lia.
  - injection E as <- <-. by split_and!.
  - injection E as <- <-. split; [|done]. destruct Hpc as (Hq & Hf & off & ci' & Ho). split_and!; simpl; try done.
    + right. exists (ref fi). destruct d. simpl. split_and!; try done; [|by exists off, ci'].
      unfold fbsize. rewrite Z.mod_small by (destruct half_pixels; lia). lia.
    + by destruct d.
  - injection E as <- <-. split; [|done]. split_and!; simpl; try done.
    + destruct d as [[] ? ? ? ? ? ?]. destruct Hh as [(? & _)|Hh]; [destruct Hpc; simpl in *; congruence|by right].
    + by destruct d as [[] ? ? ? ? ? ?].
  - injection E as <- <-. split; [|done]. destruct Hpc as [[-> Hw] Hrf]. split_and!; simpl; try done.
    + destruct d as [[] ? ? ? ? ? ?]. exact Hh.
    + destruct d as [[] ? ? ? ? ? ?]. split; [|done]. split; [done|]. by right; right.
  - injection E as <- <-. split; [|done]. split_and!; simpl; try done; [lia|].
    destruct Haf as [->| ->]; simpl; by replace (1 - (1 - fi)) with fi by lia.
  - injection E as <- <-. by split_and!.
Qed.
Lemma display_step s w w' : world_inv w → step nl np ref true s w = Some w' → world_inv w'.
Proof.
  intros [Hone [t C]] E. destruct w as [d m sn n mn ev fi ci b].
  destruct s; cbn -[fill_pixels tick fromMemread] in E; simpl in Hone.
  - destruct (tick d) as [[[[d' p] start] sent]|] eqn:Et; [|done]. injection E as <-. split; [done|].
    by apply (core_clock t (mkWorld d m sn n mn ev fi ci b) _ d' p start sent).
  - destruct (fromMemread m d) as [d'|] eqn:Ef; [|done]. injection E as <-. split; [done|]. exists t.
    destruct C as (D & Hfi & Hh & Hpc). simpl in *. destruct (fetch_inv m t d sn d' D Ef) as [D' [= Eg Eb Er]].
    assert (handed d' m) by (unfold handed; by rewrite Eg, Eb, Er).
    assert (∀ pc, pc_ok t d m n fi ci pc → pc_ok t d' m n fi ci pc) as Hk
      by (intros []; simpl; unfold quiet, fresh, one_due; by rewrite ?Eg, ?Er).
    split_and!; try done. by apply Hk.
  - destruct mn; try done. destruct n as [|n]; [done|]. destruct ev; try done. injection E as <-. split; [by left|]. exists t.
    destruct C as (D & Hfi & Hh & [Hd Ht] & Hrf). split_and!; try done. simpl in *.
    assert (ref fi ≠ ref (1 - fi)) as Hr by (destruct Hfi as [->| ->]; [exact Href|exact (not_eq_sym Href)]).
    split_and!; try lia.
    + unfold quiet. destruct (waitingForVsync (gen d)); [|split; [|done]]; lia.
    + split; [|congruence]. destruct Ht as [->|[->|?]]; [done|congruence|done].
  - destruct (fill_pixels _ _ _ Idle mn _) as [[mn' w1]|] eqn:Ef; [|done]. cbn -[fill_pixels] in E.
    assert (mn ≠ Idle) as Hmn by (by intros ->). assert (ev = Idle) as -> by (by destruct Hone).
    assert (cur (mkWorld d m sn n mn Idle fi ci b) = mn) as Ec by (by destruct mn). rewrite Ec in C.
    destruct (core_fill t _ Idle mn mn' w1 ltac:(by left) C Hmn Ef) as (C1 & _ & E2). destruct w1. simpl in *. injection E as <-.
    subst evt0. split; [by right|]. exists t. replace (cur _) with mn' by (by destruct mn'). exact C1.
  - destruct (fill_pixels _ _ _ Inc ev _) as [[ev' w1]|] eqn:Ef; [|done]. cbn -[fill_pixels] in E.
    assert (ev ≠ Idle) as Hev by (by intros ->). assert (mn = Idle) as -> by (by destruct Hone).
    destruct (core_fill t _ Inc ev ev' w1 ltac:(by right) C Hev Ef) as (C1 & E1 & _). destruct w1. simpl in *. injection E as <-.
    subst main0. split; [by left|]. exists t. exact C1.
Qed.
Lemma display_steps l w w' : world_inv w → steps nl np ref true l w = Some w' → world_inv w'.
Proof.
  revert w. induction l as [|s l IH]; intros w H E; simpl in E; [by injection E as <-|].
  destruct (step nl np ref true s w) as [w1|] eqn:E1; [|done]. eapply IH; [|done]. by eapply display_step.
Qed.
Lemma at_fill_inv g m bc : gen_ok g → testPattern g = true → shadowTestPattern g = true → waitingForVsync g = false →
  world_inv (at_fill ref g m bc).
Proof.
  intros G H1 H2 H3. split; [by right|]. exists None. split_and!; simpl; try done.
  - split; [done|]. split_and!; try done; by left.
  - by left.
  - by left.
  - split_and!; try done; lia.
Qed.
(** What an invariant world shows *)
Lemma shown_picture w : world_inv w →
  (∃ off ci, shown w = take (length (shown w)) (picture off ci)) ∧
  (lineCount (gen (disp w)) = 0 → pixelCount (gen (disp w)) = 0 → shown w = [] ∨ ∃ off ci, shown w = picture off ci) ∧
  (is_Some (step nl np ref true Clock w) ∨ ∃ w1, step nl np ref true Fetch w = Some w1 ∧ is_Some (step nl np ref true Clock w1)).
Proof.
  intros [_ [t (D & _)]]. destruct w as [d m sn n mn ev fi ci b]. simpl in *. split_and!.
  - destruct D as [G D]. destruct t as [r|].
    + destruct D as (_ & _ & _ & off & ci' & _ & ->). exists off, ci'. destruct (emitted_bound _ G) as [He _].
      unfold picture. rewrite length_fmap, length_seqZ, firstn_map. f_equal.
      replace (nl * np) with (emitted (gen d) + (nl * np - emitted (gen d))) by lia. rewrite seqZ_app by lia.
      by rewrite take_app_length' by (by rewrite length_seqZ).
    + destruct D as (_ & _ & _ & _ & [->|(off & ci' & ->)]); [by exists 0, 0|]. exists off, ci'. by rewrite firstn_all.
  - intros Hl0 Hp0. destruct D as [G D]. destruct t as [r|].
    + destruct D as (_ & Hb & _). unfold begun in Hb. lia.
    + by destruct D as (_ & _ & _ & _ & ?).
  - destruct (tick_progress m t d sn D) as [[[[[d' p] st] se] E]|(d1 & E1 & [[[[d' p] st] se] E])].
    + left. rewrite E. by eexists.
    + right. rewrite E1. eexists. split; [done|]. simpl. rewrite E. by eexists.
Qed.

(** *** The length of a frame *)
Definition position (g : Gen) : Z := lineCount g * (hb + np) + pixelCount g.
Lemma gen_position g g' start sent : gen_ok g → inc_counters g = (g', start, sent) →
  position g' = if bool_decide (position g + 1 = (vb + nl + 1) * (hb + np)) then 0 else position g + 1.
Proof.
  intros [[P1 P2] (L1 & L2 & L3) [C1 C2] V D] E. unfold position.
  destruct g as [p l pt sh wt lc pc i0 i1 tp de lv vs hs n st]. simpl in *. rewrite P2, L3 in E. clear V D.
  destruct (decide (pc = hb - 1 + np)) as [->|Hpc]; [rewrite bool_decide_true in E by done|rewrite bool_decide_false in E by done].
  - destruct (decide (lc = vb + nl)) as [->|Hlc]; [rewrite bool_decide_true in E by done|rewrite bool_decide_false in E by done];
      injection E as <- <- <-; simpl.
    + by rewrite bool_decide_true by lia.
    + rewrite Z.mod_small by lia. rewrite bool_decide_false by nia. lia.
  - injection E as <- <- <-. simpl. rewrite Z.mod_small by lia. rewrite bool_decide_false; [lia|].
    intros Heq. assert ((vb + nl - lc) * (hb + np) = pc + 1 - (hb + np)) by lia. nia.
Qed.
Definition clocks (n : nat) (g : Gen) : Gen := Nat.iter n (λ g, (inc_counters g).1.1) g.
Lemma clocks_position n g : gen_ok g → position g = 0 → Z.of_nat n < (vb + nl + 1) * (hb + np) →
  gen_ok (clocks n g) ∧ position (clocks n g) = Z.of_nat n.
Proof.
  intros G P. induction n as [|n IH]; intros Hn; [done|]. destruct IH as [G' P']; [lia|].
  unfold clocks. rewrite Nat.iter_succ. fold (clocks n g).
  destruct (inc_counters (clocks n g)) as [[g' st] se] eqn:E. destruct (gen_clock _ _ _ _ G' E) as (G1 & _). split; [done|].
  simpl. rewrite (gen_position _ _ _ _ G' E), P', bool_decide_false by lia. lia.
Qed.
Lemma frame_clocks g : gen_ok g → position g = 0 → let n := Z.to_nat ((vb + nl + 1) * (hb + np)) in
  position (clocks n g) = 0 ∧ ∀ k, (0 < k < n)%nat → position (clocks k g) ≠ 0.
Proof.
  intros G P n. assert (0 < (vb + nl + 1) * (hb + np)) by nia. split.
  - destruct n as [|k] eqn:En; [lia|]. unfold clocks. rewrite Nat.iter_succ. fold (clocks k g).
    destruct (clocks_position k g G P ltac:(lia)) as [G' P'].
    destruct (inc_counters (clocks k g)) as [[g' st] se] eqn:E. simpl. rewrite (gen_position _ _ _ _ G' E), P', bool_decide_true; lia.
  - intros k Hk. destruct (clocks_position k g G P ltac:(lia)) as [_ ->]. lia.
Qed.
End Sweep.

(** ** The program with a timing *)
(** A timing that the registers have room for, with a buffer of whole bursts *)
Record fits (t : edid_detailed_timing) : Prop := {
  ft_size : 0 < nlines t ∧ 0 < npixels t ∧ 0 < bpixels t;
  ft_sync : 0 ≤ vsyncoff t ≤ blines t;
  ft_line : blines t + nlines t < 2 ^ 11;
  ft_pixel : bpixels t + npixels t ≤ 2 ^ 12;
  ft_burst : (16 | nlines t * npixels t);
  ft_count : 4 * (nlines t * npixels t) < 2 ^ 24 }.
(** A generator with the registers of a timing, somewhere in its sweep *)
Definition sweeping (t : edid_detailed_timing) (g : Gen) : Prop :=
  pix g = pixel_times t ∧ lin g = line_times t ∧ 0 ≤ pixelCount g < bpixels t + npixels t ∧ 0 ≤ lineCount g ≤ blines t + nlines t ∧
  lineVisible g = bool_decide (blines t < lineCount g) ∧
  dataEnable g = bool_decide (blines t < lineCount g ∧ bpixels t ≤ pixelCount g).
Lemma sweeping_ok t g : fits t → sweeping t g →
  gen_ok (nlines t) (npixels t) (blines t) (bpixels t) (vsyncoff t) g.
Proof.
  intros [F1 F2 F3 F4 _ _] (S1 & S2 & S3 & S4 & S5 & S6). split; try done.
  - rewrite S1. simpl. rewrite !Z.mod_small by lia. lia.
  - rewrite S2. simpl. rewrite !Z.mod_small by lia. lia.
Qed.

(** C17. The display shows whole pictures.  For a timing that fits the hardware, from any point of the generator's sweep
    and for every interleaving of the pixel clock, the fetching of beats, the main thread and the event thread (the
    first callback coming after the main thread has left fill_pixels), the pixels
    sent to the monitor since the transfer of a frame began are the beginning of one picture that
    fill_pixels painted, and a complete frame is a complete picture: the buffer being painted
    is never the one being shown, and a transfer is used up when the next one begins.  The
    pixel clock can always go on, at the latest after one more beat has been fetched. *)
Theorem display_shows_pictures t ref g m bc l w : fits t → ref 0 ≠ ref 1 → sweeping t g →
  testPattern g = true → shadowTestPattern g = true → waitingForVsync g = false →
  steps (nlines t) (npixels t) ref true l (at_fill ref g m bc) = Some w →
  (∃ off ci, shown w = take (length (shown w)) (picture (nlines t) (npixels t) off ci)) ∧
  (lineCount (gen (disp w)) = 0 → pixelCount (gen (disp w)) = 0 →
    shown w = [] ∨ ∃ off ci, shown w = picture (nlines t) (npixels t) off ci) ∧
  (is_Some (step (nlines t) (npixels t) ref true Clock w) ∨
   ∃ w1, step (nlines t) (npixels t) ref true Fetch w = Some w1 ∧ is_Some (step (nlines t) (npixels t) ref true Clock w1)).
Proof.
  intros F Hr S H1 H2 H3 E. pose proof (sweeping_ok t g F S) as G. destruct F as [(F1 & F2 & F3) F4 F5 F6 F7 F8].
  eapply shown_picture; try done. eapply display_steps; try done. by apply at_fill_inv.
Qed.
(** A frame of one line, in which a picture is painted, handed over and shown *)
Definition small_timing : edid_detailed_timing := mkTiming 2500 16 1 1 0 0 0 0 0 0 0 0 0 0.
Definition small_gen : Gen := mkGen (pixel_times small_timing) (line_times small_timing) [0xFFFFFF; 0xFF0000; 0xFF00; 0xFF] true false
  0 0 false false true false false false false 0 (mkVideo false false false 0).
Definition one_frame : list Step := replicate 22 Main ++ replicate 35 Clock ++ replicate 8 Fetch ++ replicate 33 Clock.
Lemma small_ok : fits small_timing ∧ (λ i, i + 1) 0 ≠ (λ i, i + 1) 1 ∧ sweeping small_timing small_gen.
Proof. split_and!; [|done|done]. by split. Qed.
Lemma display_shows_pictures_witness :
  match steps (nlines small_timing) (npixels small_timing) (λ i, i + 1) true one_frame (at_fill (λ i, i + 1) small_gen (λ _ _, 0) 0) with
  | Some w => length (shown w) = 16%nat ∧ inds w = 1%nat ∧ ∃ off ci, shown w = take 16 (picture (nlines small_timing) (npixels small_timing) off ci)
  | None => False
  end.
Proof.
  assert ((λ w, (length (shown w), inds w)) <$> steps (nlines small_timing) (npixels small_timing) (λ i, i + 1) true one_frame (at_fill (λ i, i + 1) small_gen (λ _ _, 0) 0) =
    Some (16%nat, 1%nat)) as H by (vm_compute; reflexivity).
  destruct (steps _ _ _ _ _ _) as [w|] eqn:E; [|done]. injection H as Hl Hi.
  split; [exact Hl|]. split; [exact Hi|]. rewrite <-Hl.
  exact (proj1 (display_shows_pictures small_timing (λ i, i + 1) small_gen (λ _ _, 0) 0 one_frame w
    (proj1 small_ok) (proj1 (proj2 small_ok)) (proj2 (proj2 small_ok)) eq_refl eq_refl eq_refl E)).
Defined.

(** The main thread flips the buffers only after it has asked for a report: a callback that comes before paints
    the buffer that is about to be shown. *)
Lemma first_callback_races :
  match steps 1 16 (λ i, i + 1) false (replicate 21 Main ++ replicate 34 Clock ++ [Call; Clock])
    (at_fill (λ i, i + 1) small_gen (λ _ _, 0) 0) with
  | Some w => main w = Flip ∧ evt w = Fill 1 0 0 ∧ xfer (disp w) = Some (1, 0, 8)
  | None => False
  end.
Proof. vm_compute. done. Qed.
(** A frame has one line more than the timing: the last line is numbered from 0, but the program passes the number
    of lines, less one only for the pixels. *)
Lemma frame_one_line_long t g : fits t → sweeping t g → lineCount g = 0 → pixelCount g = 0 →
  let n := Z.to_nat ((blines t + nlines t + 1) * (bpixels t + npixels t)) in
  position (npixels t) (bpixels t) (clocks n g) = 0 ∧ ∀ k, (0 < k < n)%nat → position (npixels t) (bpixels t) (clocks k g) ≠ 0.
Proof.
  intros F S Hl Hp. pose proof (sweeping_ok t g F S) as G. destruct F as [(F1 & F2 & F3) F4 F5 F6 _ _].
  eapply frame_clocks; try done. unfold position. lia.
Qed.
(** The timing chosen is the first in the range. *)
Lemma select_first limit ts t : select limit ts = Some t → ∃ pre post, ts = pre ++ t :: post ∧
  0 < s32 (pixclk t * 10000) < limit ∧ Forall (λ u, ¬ (0 < s32 (pixclk u * 10000) < limit)) pre.
Proof.
  induction ts as [|u ts IH]; [done|]. simpl. rewrite <-bool_decide_and. case_bool_decide as Hu; intros E.
  - injection E as ->. by exists [], ts.
  - destruct (IH E) as (pre & post & -> & Ht & Hpre). exists (u :: pre), post. split_and!; [done|apply Ht|apply Ht|by constructor].
Qed.
