(* ===== verification/ImageCapture.v ===== *)
(** * The camera (src/examples/imageon/testimagecapture.cpp, i2ccamera.h)

    Bringing up the image sensor: registers are uploaded over SPI, some of them read,
    changed and written back, with waits for the clock and for the receiver to align; the sensor is
    outside the sources, and what the program relies on is the interface [Vita].  The clock
    generator is programmed over I2C.  The loop of the main program that prints registers
    is left out. *)
From stdpp Require Import base numbers list.
From S2P Require Import Prelude Hdmi Display.
Local Open Scope Z_scope.

(** [lib/bsv/IserdesDatadeser.bsv:470-476] ImageonSerdesRequest: the requests without an answer *)
Inductive SerdesReq := Training (v : Z) | ManualTap (v : Z) | IserdesControl (v : Z) | DecoderControl (v : Z).
(** [lib/bsv/Imageon.bsv:48-53] ImageonSensorRequest: the requests without an answer *)
Inductive SensorReq := HostOe (v : Z) | TriggerCnt (v : Z) | I2cMuxReset (v : Z).
(** [lib/bsv/HDMI.bsv:50-56] HdmiInternalRequest *)
Inductive HdmiReq := TestPattern (v : Z) | DeLine (t : Times) | DePixel (t : Times) | WaitForVsync.
(** The devices: an SPI transfer and its answer, the requests, the status of the receiver, and a clock *)
Class Camera (K : Type) := {
  put_spi_request : Z → K → Z * K;
  serdes_request : SerdesReq → K → K;
  sensor_request : SensorReq → K → K;
  get_iserdes_control : K → Z * K;
  hdmi_request : HdmiReq → K → K;
  set_clock : Z → Z → K → K;
}.

(** [examples/imageon/testimagecapture.cpp:107-120] vita_spi_seq1 *)
Definition vita_spi_seq1 : list (Z * Z * Z) := [(2, 0xFFFF, 0); (32, 0xFFFF, 0x2004); (20, 0xFFFF, 0); (17, 0xFFFF, 0x2113);
  (26, 0xFFFF, 0x2280); (27, 0xFFFF, 0x3D2D); (8, 0xFFFF, 0); (16, 0xFFFF, 0x0003)].
(** [examples/imageon/testimagecapture.cpp:122-130] vita_spi_seq3 *)
Definition vita_spi_seq3 : list (Z * Z * Z) := [(9, 0xFFFF, 0); (32, 0xFFFF, 0x2006); (34, 0xFFFF, 0x0001)].
(** [examples/imageon/testimagecapture.cpp:132-154] vita_spi_seq4 *)
Definition vita_spi_seq4 : list (Z * Z * Z) := [(41, 0xFFFF, 0); (129, 0x2000, 0); (65, 0xFFFF, 0x288B); (66, 0xFFFF, 0x53C6);
  (67, 0xFFFF, 0x0344); (68, 0xFFFF, 0x0085); (70, 0xFFFF, 0x4888); (81, 0xFFFF, 0x86A1); (128, 0xFFFF, 0x460F); (176, 0xFFFF, 0x00F5);
  (180, 0xFFFF, 0x00FD); (181, 0xFFFF, 0x0144); (194, 0xFFFF, 0x0404); (218, 0xFFFF, 0x160B); (224, 0xFFFF, 0x3E13);
  (391, 0xFFFF, 0x1010); (456, 0xFFFF, 0x0386)].
(** [examples/imageon/testimagecapture.cpp:156-168] vita_spi_seq5 *)
Definition vita_spi_seq5 : list (Z * Z * Z) := [(32, 0xFFFF, 0x2007); (10, 0xFFFF, 0); (64, 0xFFFF, 0x0001); (72, 0xFFFF, 0x0203);
  (40, 0xFFFF, 0x0003); (48, 0xFFFF, 0x0001); (112, 0xFFFF, 0x0007)].
(** [examples/imageon/testimagecapture.cpp:170-190] vita_spi_seq6, without the two build options *)
Definition vita_spi_seq6 : list (Z * Z * Z) := [(192, 0x0001, 0x0001); (193, 0xFF00, 0)].
(** [examples/imageon/testimagecapture.cpp:192-196] vita_autoexp_on_seq *)
Definition vita_autoexp_on_seq : list (Z * Z * Z) := [(160, 0x0001, 0x0001)].
(** [examples/imageon/testimagecapture.cpp:198-204] vita_roi0_crop_1080p_seq *)
Definition vita_roi0_crop_1080p_seq : list (Z * Z * Z) := [(257, 0xFFFF, 0x003C); (258, 0xFFFF, 0x0474)].
(** [examples/imageon/testimagecapture.cpp:206-211] vita_mult_timer_line_resolution_seq *)
Definition vita_mult_timer_line_resolution_seq : list (Z * Z * Z) := [(199, 0xFFFF, 0x0222)].

Section Program.
Context {K : Type} `{!Camera K}.
Definition serdes (r : SerdesReq) : M K () := modify (serdes_request r).
Definition sensor (r : SensorReq) : M K () := modify (sensor_request r).
(** [examples/imageon/testimagecapture.cpp:213-220] spi_transfer *)
Definition spi_transfer (v : Z) : M K Z := bus (put_spi_request v).
Definition read_word (uAddr : Z) : Z := u32 (Z.shiftl uAddr 17).
Definition write_word (uAddr uData : Z) : Z := Z.lor (Z.lor (u32 (Z.shiftl uAddr 17)) (Z.shiftl 1 16)) uData.
(** [examples/imageon/testimagecapture.cpp:221-224] vita_spi_read_internal *)
Definition vita_spi_read_internal (uAddr : Z) : M K Z := spi_transfer (read_word uAddr).
(** [examples/imageon/testimagecapture.cpp:225-234] vita_spi_write, without its trace *)
Definition vita_spi_write (uAddr uData : Z) : M K () := spi_transfer (write_word uAddr uData);; mret tt.
(** [examples/imageon/testimagecapture.cpp:236-243] vita_spi_read *)
Definition vita_spi_read (uAddr : Z) : M K Z := ret ← vita_spi_read_internal uAddr; mret (u16 ret).
(** [examples/imageon/testimagecapture.cpp:248-268] vita_spi_write_sequence; the first loop prints *)
Definition vita_spi_write_sequence (pConfig : list (Z * Z * Z)) : M K () :=
  for_each pConfig (λ '(a, mask, _), if bool_decide (mask = 0xFFFF) then mret tt else vita_spi_read a;; mret tt);;
  for_each pConfig (λ '(a, mask, v),
    uData ← (if bool_decide (mask = 0xFFFF) then mret v
             else r ← vita_spi_read a; mret (Z.lor (u16 (Z.land r (Z.lnot mask))) v));
    vita_spi_write a uData).
(** [examples/imageon/testimagecapture.cpp:321-325] the wait for the clock: what is left of [timeout] *)
Fixpoint lock_loop (timeout : nat) (uLock : Z) : M K nat :=
  if bool_decide (uLock = 0) then
    match timeout with
    | S (S _ as t) => u ← vita_spi_read 24; lock_loop t u
    | _ => mret 0%nat
    end
  else mret timeout.
Definition read_iserdes_control : M K Z := bus get_iserdes_control.
(** [examples/imageon/testimagecapture.cpp:349-353] a wait for ALIGN_BUSY to become [busy] (the same in lines 363 to 367) *)
Fixpoint align_loop (busy : bool) (timeout : nat) (uStatus : Z) : M K nat :=
  if bool_decide (Z.testbit uStatus 9 = busy) then mret timeout
  else match timeout with
       | S (S _ as t) => s ← read_iserdes_control; align_loop busy t s
       | _ => mret 0%nat
       end.
(** Where the function returns *)
Inductive Outcome := Absent | NoLock | NoAlign | Ready.
(** [examples/imageon/testimagecapture.cpp:379-387] the last writes *)
Definition late_writes : list (Z * Z) := [(192, 0); (193, 0x0400); (192, 0x40); (199, 1); (200, 0); (194, 0); (257, 0x3C); (258, 0x0474); (160, 0x10)].
(** [examples/imageon/testimagecapture.cpp:389-391] the count of the trigger *)
Definition trigger_count : Z :=
  let trigDutyCycle := 90 in
  let vitaTrigGenDefaultFreq := Z.shiftr ((1920 + 88 + 44 + 148) * (1080 + 4 + 5 + 36)) 2 - 2 in
  vitaTrigGenDefaultFreq * (100 - trigDutyCycle) / 100 + 1.
(** [examples/imageon/testimagecapture.cpp:337-398] fmc_imageon_demo_enable_ipipe: from the alignment on *)
Definition align_and_start : M K Outcome :=
  read_iserdes_control;; read_iserdes_control;; read_iserdes_control;;
  serdes (IserdesControl 4);;
  s ← read_iserdes_control;
  t ← align_loop true 9 s;
  if bool_decide (t = 0%nat) then mret NoAlign
  else
    serdes (IserdesControl 0);;
    s ← read_iserdes_control;
    align_loop false 9 s;;
    read_iserdes_control;;
    vita_spi_write_sequence vita_roi0_crop_1080p_seq;;
    vita_spi_write_sequence vita_mult_timer_line_resolution_seq;;
    vita_spi_write_sequence vita_autoexp_on_seq;;
    vita_spi_write_sequence vita_spi_seq6;;
    serdes (IserdesControl 8);;
    serdes (DecoderControl 2);;
    for_each late_writes (λ '(a, v), vita_spi_write a v);;
    sensor (TriggerCnt trigger_count);;
    vita_spi_write 194 0x0400;;
    vita_spi_write 0x29 0x0700;;
    r ← vita_spi_read 192;
    vita_spi_write 192 (Z.lor (Z.lor r 0x71) (Z.shiftl 4 11));;
    mret Ready.
(** [examples/imageon/testimagecapture.cpp:277-288] fmc_imageon_demo_enable_ipipe: the reset *)
Definition reset_sensor : M K () :=
  serdes (Training 0x03A6);; serdes (ManualTap 25);;
  serdes (IserdesControl 1);; serdes (DecoderControl 1);;
  serdes (IserdesControl 0);; serdes (DecoderControl 0).
(** [examples/imageon/testimagecapture.cpp:270-399] fmc_imageon_demo_enable_ipipe *)
Definition fmc_imageon_demo_enable_ipipe : M K Outcome :=
  reset_sensor;;
  uData ← vita_spi_read 0;
  if bool_decide (uData ≠ 0x5614) then mret Absent
  else
    vita_spi_write_sequence vita_spi_seq1;;
    t ← lock_loop 10 0;
    if bool_decide (t = 0%nat) then mret NoLock
    else
      vita_spi_write_sequence vita_spi_seq3;;
      vita_spi_write_sequence vita_spi_seq4;;
      vita_spi_write_sequence vita_spi_seq5;;
      align_and_start.

(** [examples/imageon/i2ccamera.h:3-82] cmuxdata and cdce913_data of init_i2c_camera *)
Definition cmuxdata : list Z := [8; 8].
Definition cdce913_data : list Z := [
  0x00; 0x81; 0x01; 0x01; 0x02; 0xB4; 0x03; 0x02; 0x04; 0x02; 0x05; 0x50; 0x06; 0x60; 0x07; 0x00; 0x08; 0x00; 0x09; 0x00;
  0x0A; 0x00; 0x0B; 0x00; 0x0C; 0x00; 0x0D; 0x00; 0x0E; 0x00; 0x0F; 0x00; 0x10; 0x00; 0x11; 0x00; 0x12; 0x00; 0x13; 0x00;
  0x14; 0x6D; 0x15; 0x02; 0x16; 0x00; 0x17; 0x00; 0x18; 0x00; 0x19; 0xB0; 0x1A; 0x02; 0x1B; 0xC9; 0x1C; 0x00; 0x1D; 0xB0;
  0x1E; 0x02; 0x1F; 0xC9; 0x02; 0xB4; 0x03; 0x01; 0x18; 0x00; 0x19; 0xB0; 0x1A; 0x02; 0x1B; 0xC9].
(** The two I2C buses, of the monitor and of the camera *)
Context (i2c_0 i2c_1 : I2c K).
(** [examples/imageon/i2ccamera.h:83-92] init_i2c_camera; failures are only printed *)
Definition init_i2c_camera : M K () :=
  i2c_write_array (H:=i2c_1) 0x70 cmuxdata;; i2c_write_array (H:=i2c_1) 0x65 cdce913_data;; mret tt.
Definition hdmi (r : HdmiReq) : M K () := modify (hdmi_request r).
(** [examples/imageon/testimagecapture.cpp:401-429] fmc_imageon_demo_init *)
Definition fmc_imageon_demo_init : M K Outcome :=
  sensor (HostOe 1);;
  init_i2c_camera;;
  init_i2c_hdmi (H:=i2c_0) false;;
  hdmi (TestPattern 0);;
  fmc_imageon_demo_enable_ipipe.
(** [examples/imageon/testimagecapture.cpp:448-459] main: the identification data of the monitor *)
Fixpoint read_edid (i : Z) (n : nat) : M K (list Z) :=
  match n with
  | O => mret []
  | S n => b ← i2c_read_reg (H:=i2c_0) 0x3f i; l ← read_edid (i + 1) n; mret (u8 b :: l)
  end.
(** [examples/imageon/testimagecapture.cpp:431-513] main, up to its loop; without a timing in the range the default
    timing of the generator stays *)
Definition capture_main : M K Outcome :=
  init_i2c_hdmi (H:=i2c_0) false;;
  raw ← read_edid 0 256;
  modify (set_clock 0 100000000);; modify (set_clock 1 160000000);; modify (set_clock 3 200000000);;
  sensor (I2cMuxReset 1);;
  match select 148000000 (parseEdid raw) with
  | Some t => modify (set_clock 1 (s32 (pixclk t * 10000)));; hdmi (DeLine (line_times t));; hdmi (DePixel (pixel_times t))
  | None => mret tt
  end;;
  hdmi (TestPattern 1);;
  o ← fmc_imageon_demo_init;
  hdmi WaitForVsync;;
  mret o.
End Program.

(** ** The sensor *)
(** Whether a request holds the sensor in reset (the reset of the receiver is also that of the sensor) *)
Definition resets (r : SerdesReq) : bool := match r with IserdesControl v => Z.testbit v 0 | _ => false end.
(** What the program relies on: the sensor has registers of 16 bits, a transfer reads one or, with
    bit 16 set, writes one; other registers stay, but for the lock indicator, register 24. *)
Class Vita (K : Type) `{!Camera K} (reg : K → Z → Z) : Prop := {
  vita_range k a : 0 ≤ reg k a < 2 ^ 16;
  vita_read k a : 0 ≤ a < 512 → u16 (put_spi_request (read_word a) k).1 = reg k a;
  vita_read_keeps k a b : 0 ≤ a < 512 → b ≠ 24 → reg (put_spi_request (read_word a) k).2 b = reg k b;
  vita_write k a d b : 0 ≤ a < 512 → 0 ≤ d < 2 ^ 16 → b ≠ 24 →
    reg (put_spi_request (write_word a d) k).2 b = if bool_decide (b = a) then d else reg k b;
  vita_serdes r k b : resets r = false → b ≠ 24 → reg (serdes_request r k) b = reg k b;
  vita_sensor r k b : b ≠ 24 → reg (sensor_request r k) b = reg k b;
  vita_status k b : b ≠ 24 → reg (get_iserdes_control k).2 b = reg k b;
}.
(** What an entry of a table does to the registers *)
Definition apply_entry (f : Z → Z) (e : Z * Z * Z) : Z → Z :=
  let '(a, mask, v) := e in
  λ b, if bool_decide (b = a) then
         if bool_decide (mask = 0xFFFF) then v else Z.lor (u16 (Z.land (f a) (Z.lnot mask))) v
       else f b.
Definition uploaded (f : Z → Z) (l : list (Z * Z * Z)) : Z → Z := foldl apply_entry f l.
Definition powered : list (Z * Z * Z) := vita_spi_seq1 ++ vita_spi_seq3 ++ vita_spi_seq4 ++ vita_spi_seq5.
(** The registers of a sensor that is ready, by number; of register 129 the 10-bit mode is cleared *)
Definition final_registers : list (Z * Z) := [(2, 0); (8, 0); (9, 0); (10, 0); (16, 0x0003); (17, 0x2113); (20, 0); (26, 0x2280);
  (27, 0x3D2D); (32, 0x2007); (34, 0x0001); (40, 0x0003); (41, 0x0700); (48, 0x0001); (64, 0x0001); (65, 0x288B); (66, 0x53C6);
  (67, 0x0344); (68, 0x0085); (70, 0x4888); (72, 0x0203); (81, 0x86A1); (112, 0x0007); (128, 0x460F); (160, 0x10); (176, 0x00F5);
  (180, 0x00FD); (181, 0x0144); (192, 0x2071); (193, 0x0400); (194, 0x0400); (199, 1); (200, 0); (218, 0x160B); (224, 0x3E13);
  (257, 0x3C); (258, 0x0474); (391, 0x1010); (456, 0x0386)].
Definition configured (f : Z → Z) (a : Z) : Z :=
  match list_find (λ x, x.1 = a) final_registers with
  | Some (_, x) => x.2
  | None => if bool_decide (a = 129) then Z.lor (u16 (Z.land (f 129) (Z.lnot 0x2000))) 0 else f a
  end.

Lemma lor_16 x y : 0 ≤ x < 2 ^ 16 → 0 ≤ y < 2 ^ 16 → 0 ≤ Z.lor x y < 2 ^ 16.
Proof.
  intros Hx Hy. assert (0 ≤ Z.lor x y) by (apply Z.lor_nonneg; lia). split; [done|].
  destruct (decide (Z.lor x y = 0)) as [->|]; [done|]. apply Z.log2_lt_pow2; [lia|]. rewrite Z.log2_lor by lia.
  apply Z.max_lub_lt; [destruct (decide (x = 0)) as [->|]|destruct (decide (y = 0)) as [->|]]; try done; apply Z.log2_lt_pow2; lia.
Qed.

Section Configured.
Context {K : Type} `{!Camera K} (reg : K → Z → Z) `{!Vita K reg}.
Definition regs (k : K) (f : Z → Z) : Prop := ∀ a, 0 ≤ a < 512 → a ≠ 24 → reg k a = f a.
Abbreviation total := (wp False).

Lemma wp_read a f Q (k : K) : 0 ≤ a < 512 → regs k f → (∀ v k', (a ≠ 24 → v = f a) → regs k' f → Q v k') → total (vita_spi_read a) Q k.
Proof.
  intros Ha Hk HQ. unfold vita_spi_read, vita_spi_read_internal, spi_transfer. apply wp_bind. unfold wp, bus.
  pose proof (vita_read k a Ha) as Hr. pose proof (vita_read_keeps k a) as Hkp.
  destruct (put_spi_request (read_word a) k) as [v k']. simpl in *. apply HQ.
  - intros Hne. rewrite Hr. by apply Hk.
  - intros b Hb Hne. rewrite (Hkp b) by done. by apply Hk.
Qed.
Lemma wp_write a d f Q (k : K) : 0 ≤ a < 512 → 0 ≤ d < 2 ^ 16 → regs k f →
  (∀ k', regs k' (apply_entry f (a, 0xFFFF, d)) → Q tt k') → total (vita_spi_write a d) Q k.
Proof.
  intros Ha Hd Hk HQ. unfold vita_spi_write, spi_transfer. apply wp_bind. unfold wp, bus.
  pose proof (vita_write k a d) as Hw. destruct (put_spi_request (write_word a d) k) as [v k']. simpl in *.
  apply HQ. intros b Hb Hne. rewrite (Hw b) by done. simpl. case_bool_decide; [done|]. by apply Hk.
Qed.
Definition entry_ok (e : Z * Z * Z) : Prop := 0 ≤ e.1.1 < 512 ∧ e.1.1 ≠ 24 ∧ 0 ≤ e.2 < 2 ^ 16.
#[global] Instance entry_ok_dec e : Decision (entry_ok e).
Proof. unfold entry_ok. apply _. Defined.
(** Uploading a table does to the registers what its entries say. *)
Lemma wp_sequence l f Q (k : K) : Forall entry_ok l → regs k f → (∀ k', regs k' (uploaded f l) → Q tt k') →
  total (vita_spi_write_sequence l) Q k.
Proof.
  intros Hl Hk HQ. unfold vita_spi_write_sequence. apply wp_bind.
  eapply wp_mono; [apply (wp_for_each _ _ _ (λ _ k, regs k f)); [done|]|].
  { intros i [[a mask] v] k1 Hi Hk1. apply (Forall_lookup_1 _ _ _ _ Hl) in Hi as (Ha & _). simpl in *.
    case_bool_decide; [done|]. apply wp_bind. by apply (wp_read a f). }
  intros [] k1 Hk1. eapply wp_mono; [apply (wp_for_each _ _ _ (λ i k, regs k (uploaded f (take i l)))); [done|]|].
  - intros i [[a mask] v] k2 Hi Hk2. pose proof (Forall_lookup_1 _ _ _ _ Hl Hi) as (Ha & Hne & Hv). simpl in *.
    rewrite (take_S_r _ _ _ Hi). unfold uploaded in *. rewrite foldl_app. simpl. set (g := foldl apply_entry f (take i l)) in *.
    apply wp_bind. case_bool_decide as Hm; [apply wp_ret|apply wp_bind, (wp_read a g); [done|done|]; intros r k3 Hr Hk3; apply wp_ret].
    + apply (wp_write a v g); done.
    + rewrite (Hr Hne). apply (wp_write a _ g); [done| |done|done].
      apply lor_16; [|done]. unfold u16. apply Z.mod_pos_bound. done.
  - intros [] k2. rewrite take_ge by done. apply HQ.
Qed.
Lemma wp_serdes r f Q (k : K) : resets r = false → regs k f → (∀ k', regs k' f → Q tt k') → total (serdes r) Q k.
Proof. intros Hr Hk HQ. apply HQ. intros b Hb Hne. rewrite vita_serdes by done. by apply Hk. Qed.
Lemma wp_sensor r f Q (k : K) : regs k f → (∀ k', regs k' f → Q tt k') → total (sensor r) Q k.
Proof. intros Hk HQ. apply HQ. intros b Hb Hne. rewrite vita_sensor by done. by apply Hk. Qed.
Lemma wp_status f Q (k : K) : regs k f → (∀ v k', regs k' f → Q v k') → total read_iserdes_control Q k.
Proof.
  intros Hk HQ. unfold read_iserdes_control, wp, bus. pose proof (vita_status k) as Hs.
  destruct (get_iserdes_control k) as [v k']. simpl in Hs. apply HQ. intros b Hb Hne. rewrite (Hs b) by done. by apply Hk.
Qed.
(** The waits end, and change no register. *)
Lemma wp_lock_loop n u f Q (k : K) : regs k f → (∀ t k', regs k' f → Q t k') → total (lock_loop n u) Q k.
Proof.
  intros Hk HQ. revert u k Hk. induction n as [|n IH]; intros u k Hk; simpl; (case_bool_decide; [|by apply HQ]); [by apply HQ|].
  destruct n; [by apply HQ|]. apply wp_bind, (wp_read 24 f); [done|done|]. intros v k' _ Hk'. by apply IH.
Qed.
Lemma wp_align_loop busy n u f Q (k : K) : regs k f → (∀ t k', regs k' f → Q t k') → total (align_loop busy n u) Q k.
Proof.
  intros Hk HQ. revert u k Hk. induction n as [|n IH]; intros u k Hk; simpl; (case_bool_decide; [by apply HQ|]); [by apply HQ|].
  destruct n; [by apply HQ|]. apply wp_bind, (wp_status f); [done|]. intros v k' Hk'. by apply IH.
Qed.

(** The registers when everything has been written *)
Lemma uploaded_other f l a : a ∉ l.*1.*1 → uploaded f l a = f a.
Proof.
  revert f. induction l as [|[[b mask] v] l IH]; intros f Ha; [done|]. simpl in *. apply not_elem_of_cons in Ha as [Hne Ha].
  rewrite IH by done. simpl. by rewrite bool_decide_false.
Qed.
Definition all_entries : list (Z * Z * Z) := powered ++ vita_roi0_crop_1080p_seq ++ vita_mult_timer_line_resolution_seq ++
  vita_autoexp_on_seq ++ vita_spi_seq6 ++ ((λ x, (x.1, 0xFFFF, x.2)) <$> late_writes) ++ [(194, 0xFFFF, 0x0400); (0x29, 0xFFFF, 0x0700)].
Lemma uploaded_app f l l' : uploaded (uploaded f l) l' = uploaded f (l ++ l').
Proof. unfold uploaded. by rewrite foldl_app. Qed.
Lemma final_configured f a :
  apply_entry (uploaded f all_entries) (192, 0xFFFF, Z.lor (Z.lor (uploaded f all_entries 192) 0x71) (Z.shiftl 4 11)) a = configured f a.
Proof.
  destruct (decide (a ∈ all_entries.*1.*1)) as [Ha|Ha].
  - remember (all_entries.*1.*1) as l eqn:El. vm_compute in El. subst l.
    repeat (apply elem_of_cons in Ha as [->|Ha]; [vm_compute; reflexivity|]). by apply not_elem_of_nil in Ha.
  - assert (∀ b, b ∈ all_entries.*1.*1 → a ≠ b) as Hne by (by intros b Hb ->).
    unfold apply_entry at 1. rewrite bool_decide_false by (apply Hne, (bool_decide_eq_true_1 _); vm_compute; reflexivity).
    rewrite uploaded_other by done. unfold configured.
    assert (list_find (λ x, x.1 = a) final_registers = None) as ->.
    { apply list_find_None. assert (Forall (λ x, x.1 ∈ all_entries.*1.*1) final_registers) as HF by (apply (bool_decide_eq_true_1 _); vm_compute; reflexivity).
      eapply Forall_impl; [exact HF|]. intros x Hx Heq. by apply (Hne _ Hx). }
    by rewrite bool_decide_false by (apply Hne, (bool_decide_eq_true_1 _); vm_compute; reflexivity).
Qed.

(** *** Bringing the sensor up *)
(** The next statement, by its rule *)
Ltac next_regs := match goal with H : regs _ _ |- _ => clear H end;
  let rec go := lazymatch goal with |- ∀ k, regs k _ → _ => let k := fresh "k" in intros k Hk | |- ∀ _, _ => intro; go end in go.
Tactic Notation "vita" uconstr(rule) := apply wp_bind, rule; next_regs.
Lemma tables_ok : Forall entry_ok (powered ++ vita_roi0_crop_1080p_seq ++ vita_mult_timer_line_resolution_seq ++ vita_autoexp_on_seq ++ vita_spi_seq6).
Proof. apply (bool_decide_eq_true_1 _). vm_compute. reflexivity. Qed.
Lemma wp_late f Q (k : K) : regs k f → (∀ k', regs k' (uploaded f ((λ x, (x.1, 0xFFFF, x.2)) <$> late_writes)) → Q tt k') →
  total (for_each late_writes (λ '(a, v), vita_spi_write a v)) Q k.
Proof.
  intros Hk HQ. eapply wp_mono; [apply (wp_for_each _ _ _ (λ i k, regs k (uploaded f ((λ x, (x.1, 0xFFFF, x.2)) <$> take i late_writes)))); [done|]|].
  - intros i [a v] k1 Hi Hk1. rewrite (take_S_r _ _ _ Hi), fmap_app. unfold uploaded in *. rewrite foldl_app.
    assert (Forall (λ x, 0 ≤ x.1 < 512 ∧ 0 ≤ x.2 < 2 ^ 16) late_writes) as HF by (apply (bool_decide_eq_true_1 _); vm_compute; reflexivity).
    destruct (Forall_lookup_1 _ _ _ _ HF Hi) as [Ha Hv]. by apply (wp_write a v _ _ k1 Ha Hv Hk1).
  - intros [] k1. rewrite take_ge by done. apply HQ.
Qed.
Lemma wp_align_and_start f Q (k : K) : regs k (uploaded f powered) →
  (∀ k', regs k' (uploaded f powered) → Q NoAlign k') → (∀ k', regs k' (configured f) → Q Ready k') → total align_and_start Q k.
Proof.
  intros Hk HN HR. unfold align_and_start. pose proof tables_ok as T. rewrite !Forall_app in T. destruct T as (_ & T1 & T2 & T3 & T4).
  do 3 vita (wp_status _ _ _ Hk).
  vita (wp_serdes (IserdesControl 4) _ _ _ eq_refl Hk).
  vita (wp_status _ _ _ Hk).
  vita (wp_align_loop _ _ _ _ _ _ Hk). case_bool_decide; [by apply HN|].
  vita (wp_serdes (IserdesControl 0) _ _ _ eq_refl Hk).
  vita (wp_status _ _ _ Hk).
  vita (wp_align_loop _ _ _ _ _ _ Hk).
  vita (wp_status _ _ _ Hk).
  vita (wp_sequence _ _ _ _ T1 Hk).
  vita (wp_sequence _ _ _ _ T2 Hk).
  vita (wp_sequence _ _ _ _ T3 Hk).
  vita (wp_sequence _ _ _ _ T4 Hk).
  vita (wp_serdes (IserdesControl 8) _ _ _ eq_refl Hk). vita (wp_serdes (DecoderControl 2) _ _ _ eq_refl Hk).
  vita (wp_late _ _ _ Hk). rewrite !uploaded_app in Hk.
  vita (wp_sensor _ _ _ _ Hk).
  vita (wp_write 194 0x0400 _ _ _ ltac:(done) ltac:(done) Hk).
  vita (wp_write 0x29 0x0700 _ _ _ ltac:(done) ltac:(done) Hk).
  match type of Hk with regs ?x _ => assert (regs x (uploaded f all_entries)) as Hk' end.
  { intros a Ha Hne. rewrite Hk by done. unfold all_entries. rewrite !app_assoc. rewrite <-uploaded_app. done. }
  clear Hk. apply wp_bind, (wp_read 192 _ _ _ ltac:(done) Hk'). clear Hk'. intros r k' Hr Hk. rewrite (Hr ltac:(done)).
  apply wp_bind, (wp_write 192 _ _ _ _ ltac:(done)) with (2 := Hk).
  - split; vm_compute; congruence.
  - clear Hk Hr. intros k'' Hk. apply HR. intros a Ha Hne. rewrite Hk by done. apply final_configured.
Qed.
(** The wait for the clock gives up exactly when nine reads have not shown it locked. *)
Fixpoint lock_reads (n : nat) (k : K) : list Z :=
  match n with O => [] | S n => let '(v, k') := put_spi_request (read_word 24) k in u16 v :: lock_reads n k' end.
Lemma lock_loop_next n k : lock_loop (S (S n)) 0 k =
  lock_loop (S n) (u16 (put_spi_request (read_word 24) k).1) (put_spi_request (read_word 24) k).2.
Proof.
  change (lock_loop (S (S n)) 0 k) with ((u ← vita_spi_read 24; lock_loop (S n) u) k).
  unfold vita_spi_read, vita_spi_read_internal, spi_transfer, bus, mbind, M_bind.
  by destruct (put_spi_request (read_word 24) k).
Qed.
Lemma lock_loop_reads n k : ∃ t k', lock_loop (S n) 0 k = (Done t, k') ∧ (t = 0%nat ↔ Forall (.= 0) (lock_reads n k)).
Proof.
  revert k. induction n as [|n IH]; intros k; [by exists 0%nat, k|]. rewrite lock_loop_next. cbn [lock_reads].
  destruct (put_spi_request (read_word 24) k) as [v k']. cbn [fst snd]. destruct (decide (u16 v = 0)) as [Hv|Hv].
  - destruct (IH k') as (t & k'' & E & Ht). exists t, k''. rewrite Hv. split; [exact E|]. rewrite Forall_cons, Ht. tauto.
  - exists (S n), k'. rewrite Forall_cons. split; [|by split; [|intros []]]. simpl. by rewrite bool_decide_false.
Qed.
Lemma enable_ipipe_wp (k : K) : let k1 := (reset_sensor k).2 in
  total fmc_imageon_demo_enable_ipipe (λ o k', (o = Absent ↔ reg k1 0 ≠ 0x5614) ∧ regs k'
    match o with Absent => reg k1 | NoLock => uploaded (reg k1) vita_spi_seq1 | NoAlign => uploaded (reg k1) powered
    | Ready => configured (reg k1) end) k.
Proof.
  intros k1. assert (reset_sensor k = (Done tt, k1)) as E1 by done.
  pose proof tables_ok as T. unfold powered in T. rewrite !Forall_app in T. destruct T as [(T1 & T3 & T4 & T5) _].
  unfold fmc_imageon_demo_enable_ipipe. apply wp_bind, (wp_eq _ _ _ _ _ _ E1).
  assert (regs k1 (reg k1)) as Hk by done.
  apply wp_bind, (wp_read 0 _ _ _ ltac:(done) Hk). clear Hk. intros v k2 Hv Hk. rewrite (Hv ltac:(done)).
  case_bool_decide as Hid; [by split|].
  assert (∀ o, o ≠ Absent → (o = Absent ↔ reg k1 0 ≠ 0x5614)) as Ho by (intros o Hne; split; [done|by intros ?]).
  vita (wp_sequence _ _ _ _ T1 Hk).
  vita (wp_lock_loop _ _ _ _ _ Hk). case_bool_decide; [split; [by apply Ho|done]|].
  vita (wp_sequence _ _ _ _ T3 Hk).
  vita (wp_sequence _ _ _ _ T4 Hk).
  vita (wp_sequence _ _ _ _ T5 Hk). rewrite !uploaded_app in Hk.
  apply (wp_align_and_start (reg k1)); [done|..]; (intros k8 Hk8; split; [by apply Ho|done]).
Qed.
End Configured.

(** C18. Bringing up the camera.  For every sensor with registers that can be read and written over SPI, and however
    long its clock and the alignment of the receiver take, the function returns, and the registers then
    depend only on where it returned: with an unknown sensor they are those of
    the reset; when the clock does not lock or the receiver does not begin to align, the tables
    uploaded before have taken effect, entry by entry; and otherwise the sensor has the configuration listed in
    [final_registers], with the 10-bit mode selected in register 129, and every other register as after the reset. *)
Theorem camera_configured {K : Type} `{!Camera K} (reg : K → Z → Z) `{!Vita K reg} (k : K) : ∃ k1 o k',
  reset_sensor k = (Done tt, k1) ∧ fmc_imageon_demo_enable_ipipe k = (Done o, k') ∧
  (o = Absent ↔ reg k1 0 ≠ 0x5614) ∧
  ∀ a, 0 ≤ a < 512 → a ≠ 24 → reg k' a =
    match o with
    | Absent => reg k1 a
    | NoLock => uploaded (reg k1) vita_spi_seq1 a
    | NoAlign => uploaded (reg k1) powered a
    | Ready => configured (reg k1) a
    end.
Proof.
  pose proof (enable_ipipe_wp reg k) as H. unfold wp in H.
  destruct (fmc_imageon_demo_enable_ipipe k) as [[o| | | |] k'] eqn:E2; try done. destruct H as [H1 H2].
  exists (reset_sensor k).2, o, k'. split_and!; try done; try apply H1. intros a Ha Hne. rewrite H2 by done. by destruct o.
Qed.

(** *** A sensor with a register file, whose clock locks at once *)
Record Sim := mkSim { file : Z → Z; aligning : bool }.
Definition sim_reg (s : Sim) (a : Z) : Z := if bool_decide (a = 24) then 1 else u16 (file s a).
#[global] Instance sim_camera : Camera Sim := {
  put_spi_request w s :=
    let a := w / 2 ^ 17 in
    (sim_reg s a, if bool_decide (w mod 2 ^ 17 < 2 ^ 16) then s
                  else mkSim (λ b, if bool_decide (b = a) then w mod 2 ^ 16 else file s b) (aligning s));
  serdes_request r s :=
    match r with
    | IserdesControl v => mkSim (if Z.testbit v 0 then λ a, if bool_decide (a = 0) then 0x5614 else 0 else file s) (Z.testbit v 2)
    | _ => s
    end;
  sensor_request _ s := s;
  get_iserdes_control s := (if aligning s then 0x200 else 0, s);
  hdmi_request _ s := s;
  set_clock _ _ s := s }.
Lemma read_word_value a : 0 ≤ a < 512 → read_word a = a * 2 ^ 17.
Proof. intros Ha. unfold read_word. rewrite Z.shiftl_mul_pow2, u32_small by lia. done. Qed.
Lemma write_word_value a d : 0 ≤ a < 512 → 0 ≤ d < 2 ^ 16 → write_word a d = a * 2 ^ 17 + (2 ^ 16 + d).
Proof.
  intros Ha Hd. unfold write_word. rewrite (Z.shiftl_mul_pow2 a), u32_small by lia.
  rewrite <-Z.lor_assoc, (lor_shiftl_add 1 d 16), <-(Z.shiftl_mul_pow2 a 17), lor_shiftl_add, Z.shiftl_mul_pow2 by lia. lia.
Qed.
#[global] Instance sim_vita : Vita Sim sim_reg.
Proof.
  assert (∀ x, 0 ≤ u16 x < 2 ^ 16) as Hu by (intros; unfold u16; by apply Z.mod_pos_bound).
  split.
  - intros k a. unfold sim_reg. case_bool_decide; [done|apply Hu].
  - intros k a Ha. rewrite read_word_value by done. simpl. rewrite Z.div_mul by done. unfold sim_reg. case_bool_decide; [done|].
    unfold u16. by rewrite Zmod_mod.
  - intros k a b Ha Hb. rewrite read_word_value by done. simpl. by rewrite Z_mod_mult, bool_decide_true by done.
  - intros k a d b Ha Hd Hb. rewrite write_word_value by done. simpl.
    replace ((a * 2 ^ 17 + (2 ^ 16 + d)) mod 2 ^ 17) with (2 ^ 16 + d) by (apply (Z.mod_unique_pos _ _ a); lia).
    replace ((a * 2 ^ 17 + (2 ^ 16 + d)) / 2 ^ 17) with a by (apply (Z.div_unique_pos _ _ _ (2 ^ 16 + d)); lia).
    replace ((a * 2 ^ 17 + (2 ^ 16 + d)) mod 2 ^ 16) with d by (apply (Z.mod_unique_pos _ _ (2 * a + 1)); lia).
    rewrite bool_decide_false by lia. unfold sim_reg. simpl. rewrite !(bool_decide_false (b = 24)) by done.
    case_bool_decide; [|done]. unfold u16. by rewrite Z.mod_small.
  - intros [] k b Hr Hb; simpl in *; try done. rewrite Hr. done.
  - done.
  - done.
Qed.
Lemma camera_configured_witness : ∃ k1 o k', reset_sensor (mkSim (λ _, 0xABCD) false) = (Done tt, k1) ∧
  fmc_imageon_demo_enable_ipipe (mkSim (λ _, 0xABCD) false) = (Done o, k') ∧ o = Ready ∧
  ∀ a, 0 ≤ a < 512 → a ≠ 24 → sim_reg k' a = configured (sim_reg k1) a.
Proof.
  destruct (camera_configured sim_reg (mkSim (λ _, 0xABCD) false)) as (k1 & o & k' & E1 & E2 & _ & H).
  exists k1, o, k'. assert (o = Ready) as Ho.
  { assert ((fmc_imageon_demo_enable_ipipe (mkSim (λ _, 0xABCD) false)).1 = Done Ready) as E by (vm_compute; reflexivity).
    rewrite E2 in E. by injection E. }
  subst o. split; [exact E1|]. split; [exact E2|]. split; [reflexivity|exact H].
Defined.

(** ** The clock generator *)
(** The last value written to a register by an array of pairs *)
Fixpoint last_written (r : Z) (data : list Z) : option Z :=
  match data with
  | a :: v :: data => match last_written r data with Some x => Some x | None => if bool_decide (a = r) then Some v else None end
  | _ => None
  end.
(** The fields of its phase-locked loop are those the comments derive, for 27 MHz in and 148.5 MHz out: N is 11 and the divider 1,
    N' is N times 2 to the P, which is M times Q with the rest R, for M of 2. *)
Lemma clock_generator : ∃ r2 r3 r18 r19 r1a r1b,
  last_written 0x02 cdce913_data = Some r2 ∧ last_written 0x03 cdce913_data = Some r3 ∧ last_written 0x18 cdce913_data = Some r18 ∧
  last_written 0x19 cdce913_data = Some r19 ∧ last_written 0x1A cdce913_data = Some r1a ∧ last_written 0x1B cdce913_data = Some r1b ∧
  let Pdiv := Z.land r2 3 * 256 + r3 in let N := r18 * 16 + Z.shiftr r19 4 in
  let R := Z.land r19 15 * 32 + Z.shiftr r1a 3 in let Q := Z.land r1a 7 * 8 + Z.shiftr r1b 5 in let P := Z.land (Z.shiftr r1b 2) 7 in
  27000000 * N = 148500000 * 2 * Pdiv ∧ N * 2 ^ P = 2 * Q + R ∧ Q = 22 ∧ R = 0.
Proof. eexists _, _, _, _, _, _. cbv zeta. split_and!; vm_compute; reflexivity. Qed.

(** The program reaches its loop, whatever the devices answer. *)
Lemma write_pairs_returns {K} `{!I2c K} data (k : K) : Nat.even (length data) = true → ∃ r k', write_pairs data k = (Done r, k').
Proof.
  revert k. induction data as [data IH] using (well_founded_ind (well_founded_ltof _ length)). intros k He.
  destruct data as [|a [|v data]]; [by eexists _, _|done|]. simpl. unfold bus, mbind, M_bind.
  destruct (smbus_write a v k) as [s k1]. case_bool_decide; [|by eexists _, _]. apply IH; [unfold ltof; simpl; lia|done].
Qed.
Lemma write_array_returns {K} `{!I2c K} device data (k : K) : Nat.even (length data) = true →
  ∃ r k', i2c_write_array device data k = (Done r, k').
Proof.
  intros He. unfold i2c_write_array, bus, mbind, M_bind. destruct (i2c_slave device k) as [s k1].
  case_bool_decide; [|by eexists _, _]. by apply write_pairs_returns.
Qed.
Lemma read_edid_returns {K} `{!Camera K} (i2c_0 : I2c K) i n (k : K) : ∃ l k', read_edid i2c_0 i n k = (Done l, k') ∧ length l = n.
Proof.
  revert i k. induction n as [|n IH]; intros i k; [by eexists _, _|].
  assert (∃ v k', i2c_read_reg (H:=i2c_0) 0x3f i k = (Done v, k')) as (v & k1 & E1).
  { unfold i2c_read_reg, bus, mbind, M_bind. destruct (i2c_slave 0x3f k) as [s k1]. destruct (smbus_read i k1) as [[s2 v] k2]. by eexists _, _. }
  destruct (IH (i + 1) k1) as (l & k2 & E & Hl). exists (u8 v :: l), k2. cbn [read_edid length].
  rewrite (bind_Done _ _ _ _ _ E1), (bind_Done _ _ _ _ _ E), Hl. done.
Qed.
Lemma init_i2c_returns {K} `{!Camera K} (i2c_0 i2c_1 : I2c K) (k : K) :
  (∃ k', init_i2c_hdmi (H:=i2c_0) false k = (Done tt, k')) ∧ ∃ k', init_i2c_camera i2c_1 k = (Done tt, k').
Proof.
  split.
  - unfold init_i2c_hdmi. destruct (write_array_returns (I2c0:=i2c_0) 0x74 muxdata k eq_refl) as (r1 & k1 & E1).
    destruct (write_array_returns (I2c0:=i2c_0) 0x39 hdmidata k1 eq_refl) as (r2 & k2 & E2). exists k2.
    rewrite (bind_Done _ _ _ tt k1) by (by rewrite (bind_Done _ _ _ _ _ E1)). by rewrite (bind_Done _ _ _ _ _ E2).
  - unfold init_i2c_camera. destruct (write_array_returns (I2c0:=i2c_1) 0x70 cmuxdata k eq_refl) as (r1 & k1 & E1).
    destruct (write_array_returns (I2c0:=i2c_1) 0x65 cdce913_data k1 eq_refl) as (r2 & k2 & E2). exists k2.
    by rewrite (bind_Done _ _ _ _ _ E1), (bind_Done _ _ _ _ _ E2).
Qed.
Lemma capture_main_returns {K} `{!Camera K} (reg : K → Z → Z) `{!Vita K reg} (i2c_0 i2c_1 : I2c K) (k : K) :
  wp False (capture_main i2c_0 i2c_1) (λ _ _, True) k.
Proof.
  destruct (init_i2c_returns i2c_0 i2c_1 k) as [(k1 & E1) _]. unfold capture_main. apply wp_bind, (wp_eq _ _ _ _ _ _ E1).
  destruct (read_edid_returns i2c_0 0 256 k1) as (raw & k2 & E2 & _). apply wp_bind, (wp_eq _ _ _ _ _ _ E2).
  do 4 apply wp_bind, wp_modify. apply wp_bind. apply wp_mono with (Q := λ _ _, True).
  { destruct (select _ _); [|done]. by do 2 apply wp_bind, wp_modify. }
  intros [] k3 _. apply wp_bind, wp_modify, wp_bind. apply wp_mono with (Q := λ _ _, True); [|done].
  unfold fmc_imageon_demo_init. apply wp_bind, wp_modify. set (k4 := sensor_request _ _).
  destruct (init_i2c_returns i2c_0 i2c_1 k4) as [_ (k5 & E5)]. apply wp_bind, (wp_eq _ _ _ _ _ _ E5).
  destruct (init_i2c_returns i2c_0 i2c_1 k5) as [(k6 & E6) _]. apply wp_bind, (wp_eq _ _ _ _ _ _ E6).
  apply wp_bind, wp_modify. eapply wp_mono; [apply (enable_ipipe_wp reg)|done].
Qed.
